(* ===== verification/_CoqProject ===== *)
-Q . S2P
Prelude.v
GoStrings.v
GoErrors.v
Regex.v
Validation.v
Registry.v
Config.v
GoDuration.v
Runtime.v
Sample.v
Telemetry.v
Delivery.v
SampleDelivery.v
DeliveryFrame.v
DeliverySpec.v
DeliveryProperties.v
DeliveryMetrics.v
Publisher.v
StreamReader.v
Subscriber.v
SubscriberProperties.v
SubscriberTraces.v
Router.v
Lifecycle.v
LifecycleProperties.v
EndToEnd.v
TestHarness.v
TestHarnessProperties.v
TestPublisher.v
Json.v
JsonString.v
Rfc3339.v
Wire.v
WireProperties.v
Compaction.v
OnTheWire.v
Fleet.v
SubscriberTurns.v
SampleFleet.v
SampleAnswers.v
FleetProperties.v
FleetRecovery.v
Service.v
SampleService.v
ServiceProperties.v
ServiceTurns.v
ServiceProgress.v
SampleJourney.v
Journey.v
