(* ===== verification/Prelude.v ===== *)
(** * Verification of foi-messaging-go

    foi-messaging-go is a Go library for publishing and consuming events over
    Redis Streams with at-least-once delivery.  This development translates its
    Go code into executable Rocq definitions and proves what the library
    promises: an entry is acknowledged in Redis only once its event is settled,
    every delivery is accounted for exactly once in the telemetry, concurrency
    and retries are bounded, and construction, registration, running and closing
    are safe under any interleaving.

    ** The program

    A [Publisher] (publisher.go) wraps a payload in a validated [Envelope]
    (envelope.go, validation.go) and writes one stream entry.  A [Consumer]
    (consumer.go) collects handlers in a [registry] (registry.go); its [Run]
    builds a stream [Subscriber] (internal/watermill/subscriber.go) over a
    [StreamReader] (internal/redis/stream.go).  For every topic the subscriber
    runs a read loop and a claim loop, which hand messages through Watermill's
    router to [dispatch]; that checks the delivery-attempt cap, decodes,
    validates and routes the envelope, runs the handler with immediate retries,
    and dead-letters what cannot succeed (dlq.go).  Every delivery is recorded by
    a [deliveryRecorder] (telemetry.go).  Errors carry a classification
    (errors.go) that decides between retry, dead letter and discard.

    ** The files

    - [Prelude]: results, 64-bit integers, transition-system runs, tactics.
    - [GoStrings], [GoErrors], [Regex]: the parts of Go's standard library the
      code computes with (strconv, strings, error trees with errors.Is, As and
      Join, regular expressions by derivatives), and errors.go.
    - [Validation]: envelope.go, eventdef.go, validation.go, the version parser
      of registry.go.  [Registry]: registry.go against a map-like contract.
      [Config]: config.go.  [GoDuration]: time.Since, which saturates, and
      Duration.Seconds in binary64, as the metrics record them.
    - [Runtime]: effects.  A computation of [M S A] takes a state and gives an
      outcome (a value, a panic, or out of fuel), a state, and the trace of what
      an observer sees: metrics, spans, logs, stream writes, sleeps, handler
      calls.  Everything the library asks of its surroundings (clock, random
      source, identifiers, XADD, trace propagation, cancelled contexts) is the
      class [Env]; context.go and internal/testseam are context values.
    - [Telemetry]: telemetry.go.  [Delivery]: dispatch, the retry loop,
      dead-lettering and the undecodable-entry hook, in the order of the code.
      [DeliveryFrame]: what a run does to the environment around it, as a path of
      the library's own calls and of the calls of one handler ([handled_by]), and
      when it returns nil; two program logics over its operations.
      [DeliverySpec]: an abstract account of one delivery, the relation
      [delivery], and the runs of each operation.  [DeliveryProperties],
      [DeliveryMetrics]: theorems about dispatch and about what it exports.
    - [Publisher]: publisher.go, internal/watermill/publisher.go and
      internal/redis/client.go.
    - [StreamReader]: internal/redis/stream.go over an arbitrary client.
      [Subscriber]: one subscription as a state machine whose labels are the
      atomic actions of its goroutines, of the router (which receives a message
      and settles it, also after the message's goroutine left on closing), and of
      shutdown; [SubscriberProperties]: invariants of every interleaving, and the
      drain, in which the library acts and everyone else answers as they like.
    - [Router]: internal/watermill/router.go and logger.go around an opaque
      Watermill router.
    - [Lifecycle]: NewConsumer, RegisterHandler, RegisterRawHandler, Run,
      closeReader and Close as a state machine over the consumer's critical
      sections; [LifecycleProperties]: its invariants.  [EndToEnd]: Run, its
      routes, a subscription on one of them and dispatch, composed.
    - [Fleet]: any number of instances of the service in one consumer group.
      [command] gives the Redis command a goroutine of subscriber.go issues where
      it stands, through the operations of [StreamReader]; a step of the fleet
      answers it from the server all instances share, whose promises are the
      class [ConsumerGroups].  [SubscriberTraces], [SubscriberTurns]: what each
      action of one subscription records, and what its loops do with an entry.
      [FleetProperties]: the invariants of every interleaving of instances,
      crashes and losses of the group included.  [FleetRecovery]: what a
      surviving instance can do about a crashed one.
    - [Service]: the fleet closed over the program: every instance is a consumer
      that [NewConsumer] built and whose [Run] serves, its router answers with
      [dispatch], its hook is [handleUndecodable].  [ServiceProperties]: it
      refines the fleet, and loses nothing.  [ServiceTurns], [ServiceProgress]:
      what one live instance achieves by its own steps.  [Journey]: the path of
      one event from [Publish] through Redis to its handler.
    - [TestHarness]: testing/dispatch.go, event.go and deliver.go, the messagingtest
      package that applications test with; [TestHarnessProperties]: its verdicts
      are those of the consume path.  [TestPublisher]: testing/publisher.go, the
      recording publisher, and testhooks.go, which wires it.
    - [Json], [JsonString], [Rfc3339]: the parts of encoding/json and time the
      wire format rests on: the grammar of JSON texts and the checker that
      decides it, compaction, string literals with UTF-8, timestamps.  [Wire]:
      the documents of envelope.go and dlq.go as their struct tags lay them out,
      as instances of the interfaces [JsonCodec], [Marshaler] and [GoTime];
      [WireProperties]: reading back what was written; [Compaction]: compacting
      a document does not change what is decoded.  [OnTheWire]: publishing and
      dead-lettering over these bytes.
    - [Sample], [SampleDelivery]: a small concrete environment and consumer, with
      which examples and witnesses evaluate.  [SampleFleet]: a server with
      one group that satisfies [ConsumerGroups], and fleets that run on it;
      [SampleAnswers]: it answers; [SampleService]: a service over that server;
      [SampleJourney]: one whose server takes new entries.

    ** What the theorems show

    - Delivery: [dispatch] implements the relation [delivery]; nil means settled
      (handled, discarded, unroutable, or one successful dead-letter write with
      the event's bytes); of a refusal no write succeeded; received, terminal
      counter, duration, span and status occur exactly once, panics included;
      events over the cap are dead-lettered without being decoded, a dead letter
      being tried once unless there is no sink, encoding or identifier; the calls
      of a delivery are runs of the handler the registry resolves, on validated,
      routed events, at most 1 + MaxImmediateRetries of them; the retry loop
      terminates; the sleeps of a delivery stay below ClaimMinIdle where the
      configured backoff does not overflow; metric attributes come from a fixed set.
    - Subscription: the semaphore is exact, in-flight messages are at most
      Concurrency, acks follow success, attempt numbers are those Redis implies,
      a closing subscriber drains whatever Redis, the hook, the handlers and the
      router do, and then an XACK was issued for every success reported before
      the message's goroutine left.
    - Service: an entry acknowledged in Redis was settled by [dispatch] or the hook
      of some instance and none is forgotten, whatever crashes, races, lost
      replies and lost groups ([service_loses_nothing]).  Any live instance can by
      itself get an entry that waits processed ([waiting_entries_are_processed]),
      reclaim and process one that stays pending, whoever held it
      ([pending_entries_are_processed]), and dead-letter and acknowledge one that
      failed as often as the cap allows ([worn_out_entries_leave]).
    - Fleet: while the group stays, one read at most returns an
      entry as new, hand-overs never exceed deliveries
      ([fleet_shares_entries]), and attempt numbers are at most the deliveries
      Redis made ([fleet_attempts_bounded]); they may be fewer, because the count
      is listed before the claim ([attempts_may_lag]).  Any surviving instance
      can get what a crashed one held ([fleet_recovers]).  The services refine the
      fleet ([services_refine_fleet]), so this holds of them too.
    - Lifecycle: one Run, one client closed once, no registration lost, the
      subscriber configured as asked, Run's error complete.  End to end
      ([served_entries_are_settled]): while Run serves, an entry acked on any
      route was settled as the delivery theorems say.
    - Harness: a result of messagingtest.Dispatch is a faithful account of one run
      of dispatch; default events are valid; the recording publisher records
      exactly what Publish would have sent.
    - Publishing: a result exactly when one valid envelope was written; every
      attempt counted.
    - The wire: what is published can be read by any live instance and reaches the
      handler registered for it with the published payload
      ([published_events_reach_handlers]), and decodes, validates and routes on a consumer; a dead
      letter decodes to its metadata and the bytes it is about, and what it holds
      can be replayed as the same event; every body written is a JSON object;
      publish times survive, so queue latency is the time elapsed, in float64
      seconds, up to 292 years.
    - Foundations: the registry refines its contract; error classification;
      validation equals a plain grammar; configuration is accepted under exactly
      the stated conditions; backoff bounds with their overflow behaviour;
      Watermill's log lines are deterministic.

    ** Bounds, fuel and assumptions

    Go's int, int64 and time.Duration are [Z] with [wrap64] written where the
    code can overflow; a time is a [Z] of nanoseconds, UTC; float64 is the
    Standard Library's specification of binary64.  Strings are byte
    strings.  Fuel: that of [retry_loop], [retry_fuel], is MaxImmediateRetries + 1,
    and [retry_loop_terminates] shows that more changes nothing; the JSON checker
    and decoder get the length of the text, and [Valid_spec] and the round trips
    show that to be enough.

    The OpenTelemetry API, go-redis, Watermill, the application's handlers and
    how an application's own payload type is encoded are parameters ([MeterApi],
    [Env], [RedisClient], [ConsumerGroups], [AnsweringGroups], [StreamWrites], [WmUnmarshaller],
    [dispatchFunc], [Payloads], [PayloadMarshaler]).  The theorems on delivery, subscription and lifecycle
    also hold for any [JsonCodec] and [GoTime]; those of [OnTheWire] are about
    the instances of [Wire], for which only the texts of encoding/json's errors
    remain a parameter ([JsonErrors]).  Where a theorem needs a payload to be
    encoded as JSON, it says so.  A nil and an empty RawMessage are the same
    string.  Redis field values are strings, as go-redis returns them, where the
    code's type is any.  Time passes only through [Env] and through the choice of
    labels: timers, blocking reads and [select] are nondeterministic choices.  A
    send on the router's channel and the router's receive are one action, which
    [close_drains] leaves to the router; [select] is assumed to take a case that
    stays ready in the end, and every Redis command to return.

    The server behind a fleet is any that satisfies the laws of
    [ConsumerGroups], which say what XGROUP CREATE, XREADGROUP, XPENDING, XCLAIM
    and XACK do to the entries of a group, whether or not their reply arrives;
    between commands the stream only grows, and the group may be destroyed.
    Recovery further asks, through [AnsweringGroups], that Redis answers, and
    [worn_out_entries_leave], through [letters_accepted], that it takes dead
    letters.  [published_events_reach_handlers] asks, through [StreamWrites], that
    XADD adds an entry whose fields Watermill reads back as the message it made
    them of.  What deliveries call outside, handlers included, changes the group
    only as the world around it may ([QuietEnv], [quiet_handlers]).  A delivery
    runs undisturbed, on the environment the instances share, or sees an
    arbitrary environment while others act.
    Trimming and deleting entries, which the library never asks for, are left
    out.  A command and the step its reply causes are one step of the fleet:
    what happens between them in the same process does not touch the server.

    ** Not modelled

    The examples, the integration-test support (a Redis container), and the
    inside of Watermill's router beyond the errors it returns. *)

From stdpp Require Export base tactics option list gmap strings.
From Stdlib Require Export ZArith Lia Ascii.
From stdpp Require Import options.

#[global] Set Default Proof Using "Type".
#[global] Open Scope string_scope.
#[global] Open Scope list_scope.
#[global] Open Scope Z_scope.

(** ** Go results: a value, or a non-nil error *)

Inductive result (E A : Type) : Type :=
| Ok (a : A)
| Err (e : E).
Arguments Ok {E A} a.
Arguments Err {E A} e.

Definition result_bind {E A B : Type} (m : result E A) (k : A -> result E B) : result E B :=
  match m with
  | Ok a => k a
  | Err e => Err e
  end.

Declare Scope go_scope.
Delimit Scope go_scope with go.
Notation "'let?' x ':=' m 'in' k" := (result_bind m (fun x => k))
  (at level 10, x name, m at level 100, k at level 200) : go_scope.
#[global] Open Scope go_scope.

Definition is_ok {E A : Type} (r : result E A) : bool :=
  match r with Ok _ => true | Err _ => false end.

Lemma is_ok_true {E A : Type} (r : result E A) : is_ok r = true <-> exists a, r = Ok a.
Proof. destruct r; split; [eauto|done|done|by intros [? [=]]]. Qed.

Lemma is_ok_false {E A : Type} (r : result E A) : is_ok r = false <-> exists e, r = Err e.
Proof. destruct r; split; [done|by intros [? [=]]|eauto|done]. Qed.

Lemma result_bind_ok {E A B : Type} (m : result E A) (k : A -> result E B) b :
  result_bind m k = Ok b <-> exists a, m = Ok a /\ k a = Ok b.
Proof.
  destruct m as [a|e]; simpl; split; [eauto|by intros (? & [= <-] & ?)|done|].
  by intros (? & [=] & _).
Qed.

#[global] Instance result_eq_dec {E A : Type} `{EqDecision E, EqDecision A} :
  EqDecision (result E A).
Proof. solve_decision. Defined.

(** ** Machine integers: Go's [int] and [int64] are 64-bit two's complement *)

Definition int64_min : Z := - 2 ^ 63.
Definition int64_max : Z := 2 ^ 63 - 1.
Definition in_int64 (z : Z) : Prop := int64_min <= z <= int64_max.
Definition wrap64 (z : Z) : Z := (z + 2 ^ 63) mod 2 ^ 64 - 2 ^ 63.

#[global] Instance in_int64_dec z : Decision (in_int64 z).
Proof. unfold in_int64. apply _. Defined.

Ltac unfold_int64 := unfold in_int64, int64_min, int64_max in *.

Lemma wrap64_range z : in_int64 (wrap64 z).
Proof.
  unfold wrap64. unfold_int64.
  pose proof (Z.mod_pos_bound (z + 2 ^ 63) (2 ^ 64)). lia.
Qed.

Lemma wrap64_id z : in_int64 z -> wrap64 z = z.
Proof. unfold wrap64. unfold_int64. intros H. rewrite Z.mod_small; lia. Qed.

Lemma wrap64_pos_overflow z : 2 ^ 63 <= z < 2 ^ 64 -> wrap64 z = z - 2 ^ 64.
Proof.
  intros H. unfold wrap64.
  rewrite <-(Z.mod_unique (z + 2 ^ 63) (2 ^ 64) 1 (z - 2 ^ 63)); lia.
Qed.

(** ** Shared proof automation *)

Create HintDb go.
Create Rewrite HintDb go.
#[export] Hint Resolve wrap64_range wrap64_id : go.

(** Split every [match]/[if] of the goal and the hypotheses, cleaning up. *)
Ltac case_all :=
  repeat (case_match || case_decide); simplify_eq/=.

(** Turn boolean tests into propositions. *)
Ltac to_prop :=
  repeat match goal with
  | H : _ && _ = true |- _ => apply andb_true_iff in H as [??]
  | H : _ || _ = false |- _ => apply orb_false_iff in H as [??]
  | H : negb _ = true |- _ => apply negb_true_iff in H
  | H : negb _ = false |- _ => apply negb_false_iff in H
  | H : bool_decide _ = true |- _ => apply bool_decide_eq_true in H
  | H : bool_decide _ = false |- _ => apply bool_decide_eq_false in H
  | H : (_ =? _)%Z = true |- _ => apply Z.eqb_eq in H
  | H : (_ =? _)%Z = false |- _ => apply Z.eqb_neq in H
  | H : (_ <? _)%Z = true |- _ => apply Z.ltb_lt in H
  | H : (_ <? _)%Z = false |- _ => apply Z.ltb_ge in H
  | H : (_ <=? _)%Z = true |- _ => apply Z.leb_le in H
  | H : (_ <=? _)%Z = false |- _ => apply Z.leb_gt in H
  | H : (_ =? _)%string = true |- _ => apply String.eqb_eq in H
  | H : (_ =? _)%string = false |- _ => apply String.eqb_neq in H
  end.

(** ** Strings *)

Lemma string_app_cons c s t : String c s +:+ t = String c (s +:+ t).
Proof. done. Qed.

Lemma string_app_nil_l s : "" +:+ s = s.
Proof. done. Qed.

Lemma string_app_nil_r s : s +:+ "" = s.
Proof. induction s as [|c s IH]; [done|]. by rewrite string_app_cons, IH. Qed.

Lemma string_app_assoc a b c : (a +:+ b) +:+ c = a +:+ b +:+ c.
Proof. induction a as [|x a IH]; [done|]. by rewrite !string_app_cons, IH. Qed.

Lemma string_app_inj a b c : a +:+ b = a +:+ c -> b = c.
Proof. induction a as [|x a IH]; [done|]. rewrite !string_app_cons. intros [= H]. auto. Qed.

#[export] Hint Rewrite string_app_nil_l string_app_nil_r string_app_assoc : go.

(** ** Lists *)

Lemma elem_of_delete_ne {A} (l : list A) i j x y :
  l !! i = Some x -> l !! j = Some y -> x <> y -> y ∈ delete i l.
Proof.
  intros Hi Hj Hne. assert (i <> j) by congruence. apply list_elem_of_lookup.
  destruct (decide (j < i)%nat).
  - exists j. by rewrite list_lookup_delete_lt.
  - exists (pred j). rewrite list_lookup_delete_ge by lia. by replace (S (pred j)) with j by lia.
Qed.

Lemma sum_list_with_insert {A} (f : A -> nat) (l : list A) i x y :
  l !! i = Some x -> (sum_list_with f (<[i := y]> l) + f x = sum_list_with f l + f y)%nat.
Proof.
  revert i. induction l as [|z l IH]; intros [|i] H; simplify_eq/=; [lia|]. specialize (IH i H). lia.
Qed.

(** ** Runs of a transition function

    [None] is an action that is not possible in that state. *)

Section steps.
Context {S L : Type}.
Variable step : L -> S -> option S.

Fixpoint run_steps (ls : list L) (s : S) : option S :=
  match ls with
  | [] => Some s
  | l :: ls => s' ← step l s; run_steps ls s'
  end.

(** A property kept by every action holds of every run. *)
Lemma run_steps_invariant (I : S -> Prop) ls s s' :
  (forall l s s', I s -> step l s = Some s' -> I s') -> I s -> run_steps ls s = Some s' -> I s'.
Proof.
  intros Hstep. revert s. induction ls as [|l ls IH]; simpl; intros s Hs H; simplify_option_eq; eauto.
Qed.

Lemma run_steps_app ls1 ls2 s s1 s2 :
  run_steps ls1 s = Some s1 -> run_steps ls2 s1 = Some s2 -> run_steps (ls1 ++ ls2) s = Some s2.
Proof.
  revert s. induction ls1 as [|l ls1 IH]; simpl; intros s H1 H2; simplify_option_eq; eauto.
Qed.
End steps.
