(* ===== verification/GoStrings.v ===== *)
(** * The parts of Go's [strings] and [strconv] the library calls

    Strings and byte slices are both [string]: a sequence of bytes.  The
    functions here are the Standard Library routines the sources use
    ([strings.HasPrefix], [Contains], [Cut], [TrimPrefix]; [strconv.ParseInt],
    [Atoi] and [FormatInt] in base ten), executable, with the lemmas that the
    components share. *)

From S2P Require Import Prelude.
From stdpp Require Import options.

(** ** package strings *)

Fixpoint strip_prefix (p s : string) : option string :=
  match p, s with
  | EmptyString, _ => Some s
  | String a p', String b s' => if Ascii.eqb a b then strip_prefix p' s' else None
  | String _ _, EmptyString => None
  end.

Definition HasPrefix (s p : string) : bool := bool_decide (is_Some (strip_prefix p s)).

Definition TrimPrefix (s p : string) : string := default s (strip_prefix p s).

Fixpoint Contains (s sub : string) : bool :=
  HasPrefix s sub ||
  match s with
  | EmptyString => false
  | String _ s' => Contains s' sub
  end.

(** [before, after, found] around the first occurrence of [sep]. *)
Fixpoint Cut (s sep : string) : string * string * bool :=
  match strip_prefix sep s with
  | Some rest => (EmptyString, rest, true)
  | None =>
      match s with
      | EmptyString => (s, EmptyString, false)
      | String c s' =>
          match Cut s' sep with
          | (before, after, true) => (String c before, after, true)
          | (_, _, false) => (s, EmptyString, false)
          end
      end
  end.

Lemma strip_prefix_spec p s r : strip_prefix p s = Some r <-> s = p +:+ r.
Proof.
  revert s; induction p as [|a p IH]; intros s; simpl; [naive_solver|].
  destruct s as [|b s]; [split; [done|]; intros [=]|].
  destruct (Ascii.eqb_spec a b) as [->|Hne].
  - rewrite IH. split; [intros ->|intros [= ->]]; done.
  - split; [done|]. intros [= -> _]. done.
Qed.

Lemma HasPrefix_spec s p : HasPrefix s p = true <-> exists r, s = p +:+ r.
Proof.
  unfold HasPrefix. rewrite bool_decide_eq_true.
  unfold is_Some. by setoid_rewrite strip_prefix_spec.
Qed.

Lemma TrimPrefix_app p s : TrimPrefix (p +:+ s) p = s.
Proof.
  unfold TrimPrefix. by rewrite (proj2 (strip_prefix_spec p (p +:+ s) s) eq_refl).
Qed.

Lemma TrimPrefix_absent p s : HasPrefix s p = false -> TrimPrefix s p = s.
Proof.
  unfold HasPrefix, TrimPrefix. intros H. to_prop.
  destruct (strip_prefix p s); [|done]. exfalso. apply H. eauto.
Qed.

Lemma Contains_spec s sub : Contains s sub = true <-> exists a b, s = a +:+ sub +:+ b.
Proof.
  induction s as [|c s IH]; simpl; rewrite orb_true_iff, HasPrefix_spec.
  - split; [intros [[r Hr]|?]; [by exists EmptyString, r|done]|].
    intros (a & b & H). left. destruct a; [eauto|done].
  - rewrite IH. split.
    + intros [[r Hr]|(a & b & ->)]; [by exists EmptyString, r|by exists (String c a), b].
    + intros ([|a0 a] & b & H); [eauto|].
      right. injection H as -> ->. eauto.
Qed.

(** [Cut] on a one-byte separator. *)
Fixpoint free_of (a : ascii) (s : string) : bool :=
  match s with
  | EmptyString => true
  | String c s' => negb (Ascii.eqb a c) && free_of a s'
  end.

Lemma Cut_found a before after :
  free_of a before = true ->
  Cut (before +:+ String a after) (String a EmptyString) = (before, after, true).
Proof.
  induction before as [|c s IH]; simpl; intros H.
  - by rewrite Ascii.eqb_refl.
  - to_prop. rewrite H. by rewrite (IH H0).
Qed.

Lemma Cut_not_found a s :
  free_of a s = true -> Cut s (String a EmptyString) = (s, EmptyString, false).
Proof.
  induction s as [|c s IH]; simpl; intros H; [done|].
  to_prop. rewrite H. by rewrite (IH H0).
Qed.

(** ** package strconv *)

Definition digit_val (c : ascii) : option Z :=
  let n := Z.of_nat (nat_of_ascii c) in
  if (48 <=? n) && (n <=? 57) then Some (n - 48) else None.

Definition is_digit (c : ascii) : bool := bool_decide (is_Some (digit_val c)).

Inductive num_err := ErrSyntax | ErrRange.

#[global] Instance num_err_eq_dec : EqDecision num_err.
Proof. solve_decision. Defined.

Definition max_uint64 : Z := 2 ^ 64 - 1.
Definition uint_cutoff : Z := max_uint64 `div` 10 + 1.

(** The digit loop of [ParseUint], base 10, 64 bits: overflow is detected as
    the digits are read, so it can pre-empt a later syntax error. *)
Fixpoint parse_digits (n : Z) (s : string) : result num_err Z :=
  match s with
  | EmptyString => Ok n
  | String c s' =>
      match digit_val c with
      | None => Err ErrSyntax
      | Some d =>
          if uint_cutoff <=? n then Err ErrRange
          else if max_uint64 <? n * 10 + d then Err ErrRange
          else parse_digits (n * 10 + d) s'
      end
  end.

Definition parse_uint (s : string) : result num_err Z :=
  match s with
  | EmptyString => Err ErrSyntax
  | _ => parse_digits 0 s
  end.

(** [strconv.ParseInt(s, 10, 64)]; [strconv.Atoi] computes the same value. *)
Definition ParseInt (s : string) : result num_err Z :=
  match s with
  | EmptyString => Err ErrSyntax
  | String c s' =>
      let neg := Ascii.eqb c "-" in
      let body := if Ascii.eqb c "+" || neg then s' else s in
      let? un := parse_uint body in
      if negb neg && (2 ^ 63 <=? un) then Err ErrRange
      else if neg && (2 ^ 63 <? un) then Err ErrRange
      else Ok (if neg then - un else un)
  end.

Definition Atoi : string -> result num_err Z := ParseInt.

Definition digit_char (d : Z) : ascii := ascii_of_nat (Z.to_nat (48 + d)).

Fixpoint format_digits (fuel : nat) (n : Z) (acc : string) : string :=
  match fuel with
  | O => acc
  | S fuel' =>
      if n <? 10 then String (digit_char n) acc
      else format_digits fuel' (n `div` 10) (String (digit_char (n mod 10)) acc)
  end.

(** [strconv.FormatInt(n, 10)]: twenty digits hold every 64-bit value. *)
Definition FormatInt (n : Z) : string :=
  if n <? 0 then String "-" (format_digits 20 (- n) EmptyString)
  else format_digits 20 n EmptyString.

Lemma digit_val_char d : 0 <= d < 10 -> digit_val (digit_char d) = Some d.
Proof.
  intros H. unfold digit_val, digit_char.
  rewrite nat_ascii_embedding by lia.
  replace (Z.of_nat (Z.to_nat (48 + d))) with (48 + d) by lia.
  destruct (48 <=? 48 + d) eqn:?, (48 + d <=? 57) eqn:?; to_prop; simpl; try lia.
  f_equal; lia.
Qed.

Lemma digit_val_bound c d : digit_val c = Some d -> 0 <= d <= 9.
Proof. unfold digit_val. case_match; [|done]. to_prop. intros [= <-]. lia. Qed.

Lemma parse_digits_step n c d s :
  digit_val c = Some d -> 0 <= n -> n * 10 + d <= max_uint64 ->
  parse_digits n (String c s) = parse_digits (n * 10 + d) s.
Proof.
  intros Hd Hn Hle. simpl. rewrite Hd. pose proof (digit_val_bound _ _ Hd).
  assert (uint_cutoff = 1844674407370955162) as -> by reflexivity.
  assert (max_uint64 = 18446744073709551615) as -> by reflexivity.
  change max_uint64 with 18446744073709551615 in Hle.
  destruct (_ <=? n) eqn:E1; to_prop; [lia|].
  destruct (_ <? n * 10 + d) eqn:E2; to_prop; [lia|done].
Qed.

Lemma format_digits_parse fuel n acc :
  0 <= n < 10 ^ Z.of_nat fuel -> n <= max_uint64 ->
  (0 < fuel)%nat ->
  parse_digits 0 (format_digits fuel n acc) = parse_digits n acc.
Proof.
  revert n acc. induction fuel as [|fuel IH]; intros n acc Hn Hmax Hf; [lia|].
  assert (0 <= n / 10 /\ n = n / 10 * 10 + n mod 10 /\ 0 <= n mod 10 < 10) as (? & ? & ?).
  { pose proof (Z.div_mod n 10 ltac:(lia)). pose proof (Z.mod_pos_bound n 10 ltac:(lia)).
    pose proof (Z.div_pos n 10 ltac:(lia) ltac:(lia)). lia. }
  cbn [format_digits]. destruct (n <? 10) eqn:E; to_prop.
  - rewrite (parse_digits_step _ _ n) by (apply digit_val_char || lia; lia). done.
  - rewrite IH; [| |lia|].
    + rewrite (parse_digits_step _ _ (n mod 10)) by (apply digit_val_char || lia; lia).
      f_equal; lia.
    + rewrite Nat2Z.inj_succ, Z.pow_succ_r in Hn by lia. lia.
    + destruct fuel; [|lia]. change (10 ^ Z.of_nat 1) with 10 in Hn. lia.
Qed.

Lemma format_digits_head fuel n acc :
  (0 < fuel)%nat -> 0 <= n ->
  exists d s, 0 <= d < 10 /\ format_digits fuel n acc = String (digit_char d) s.
Proof.
  revert n acc. induction fuel as [|fuel IH]; intros n acc Hf Hn; [lia|].
  simpl. destruct (n <? 10) eqn:E; to_prop; [exists n, acc; split; [lia|done]|].
  destruct fuel; simpl.
  - exists (n mod 10), acc. split; [apply Z.mod_pos_bound; lia|done].
  - apply IH; [lia|]. apply Z.div_pos; lia.
Qed.

Lemma parse_uint_format n :
  0 <= n <= max_uint64 -> parse_uint (format_digits 20 n EmptyString) = Ok n.
Proof.
  intros Hn. destruct (format_digits_head 20 n EmptyString) as (d & s & ? & E); [lia..|].
  unfold parse_uint. rewrite E, <-E.
  rewrite format_digits_parse; unfold max_uint64 in *; [done|lia..].
Qed.

#[local] Arguments format_digits : simpl never.
#[local] Arguments parse_uint : simpl never.

(** Printing then parsing any [int64] gives it back. *)
Lemma ParseInt_FormatInt n : in_int64 n -> ParseInt (FormatInt n) = Ok n.
Proof.
  unfold_int64. intros Hn. unfold FormatInt.
  destruct (n <? 0) eqn:E; to_prop; simpl.
  - rewrite parse_uint_format by (unfold max_uint64; lia). simpl.
    replace (2 ^ 63 <? - n) with false by (symmetry; apply Z.ltb_ge; lia).
    simpl. f_equal; lia.
  - destruct (format_digits_head 20 n EmptyString) as (d & s & ? & Hd); [lia..|].
    rewrite Hd. unfold ParseInt.
    assert (Ascii.eqb (digit_char d) "-" = false /\ Ascii.eqb (digit_char d) "+" = false)
      as [-> ->].
    { assert (d = 0 \/ d = 1 \/ d = 2 \/ d = 3 \/ d = 4 \/ d = 5 \/ d = 6 \/ d = 7 \/ d = 8
        \/ d = 9) as Hc by lia.
      by repeat destruct Hc as [->|Hc]; [..|subst d]. }
    cbn [orb negb andb].
    rewrite <-Hd, parse_uint_format by (unfold max_uint64; lia). simpl.
    replace (2 ^ 63 <=? n) with false by (symmetry; apply Z.leb_gt; lia).
    done.
Qed.

Lemma parse_digits_nonneg n s m : 0 <= n -> parse_digits n s = Ok m -> 0 <= m.
Proof.
  revert n. induction s as [|c s IH]; simpl; intros n Hn; [intros [= <-]; done|].
  destruct (digit_val c) as [d|] eqn:Ed; [|done].
  apply digit_val_bound in Ed. repeat case_match; [done..|]. apply IH. lia.
Qed.

Lemma parse_uint_nonneg s m : parse_uint s = Ok m -> 0 <= m.
Proof. unfold parse_uint. destruct s; [done|]. apply parse_digits_nonneg. lia. Qed.

Lemma ParseInt_int64 s n : ParseInt s = Ok n -> in_int64 n.
Proof.
  unfold ParseInt. destruct s as [|c s]; [done|]. cbv zeta.
  rewrite result_bind_ok. intros (un & Hun%parse_uint_nonneg & H).
  unfold_int64. destruct (Ascii.eqb c "-"); simpl in H; case_match; simplify_eq; to_prop; lia.
Qed.

#[export] Hint Rewrite TrimPrefix_app : go.
