(* ===== verification/GoErrors.v ===== *)
(** * Go error values and the classification of handler errors (errors.go)

    An [error] is the tree Go's [errors] package walks: package-level error
    variables, [fmt.Errorf] values (format, operands, and the operands wrapped
    with %w), [errors.Join] values, and the library's [classifiedError].  The
    text of an error is rendered by [Error]; [errors.As] and [errors.Is] are
    the documented depth-first, outermost-first traversals. *)

From S2P Require Import Prelude GoStrings.
From stdpp Require Import options.

(** ** Data *)

(** errors.go, [classification] and its constants. *)
Inductive classification := classPermanent | classRetryable | classDiscard.

#[global] Instance classification_eq_dec : EqDecision classification.
Proof. solve_decision. Defined.

(** Operands of a [fmt.Errorf] call other than the wrapped errors. *)
Inductive fmt_val :=
| FStr (s : string)     (* %s *)
| FQuoted (s : string)  (* %q *)
| FInt (z : Z)          (* %d *)
| FDur (ns : Z).        (* %v on a time.Duration *)

#[warnings="-register-all"]
Inductive error :=
| ErrVar (name msg : string)
| ErrFmt (format : string) (args : list (fmt_val + error))
| ErrJoin (errs : list error)
| ErrClassified (class : classification) (err : error).

(** [errors.New("...")] of a message nothing compares against. *)
Definition errorf (msg : string) : error := ErrFmt msg [].

(** ** Package [errors] *)

(** The error tree in the order [errors.Is]/[errors.As] visit it. *)
Fixpoint error_tree (e : error) : list error :=
  e ::
  match e with
  | ErrVar _ _ => []
  | ErrFmt _ args => flat_map (fun a => match a with inl _ => [] | inr e' => error_tree e' end) args
  | ErrJoin es => flat_map error_tree es
  | ErrClassified _ e' => error_tree e'
  end.

Definition as_classified (e : error) : option (classification * error) :=
  match e with ErrClassified c e' => Some (c, e') | _ => None end.

(** [var ce *classifiedError; errors.As(err, &ce)]. *)
Definition errors_As (err : option error) : option (classification * error) :=
  match err with
  | None => None
  | Some e => head (omap as_classified (error_tree e))
  end.

(** [errors.Is(err, V)] for a package-level error variable named [target]. *)
Definition errors_Is (err : option error) (target : string) : bool :=
  match err with
  | None => false
  | Some e => existsb (fun n => match n with ErrVar x _ => String.eqb x target | _ => false end)
                      (error_tree e)
  end.

(** [errors.Join]: nil operands are dropped, and joining nothing is nil. *)
Definition errors_Join (errs : list (option error)) : option error :=
  match omap id errs with
  | [] => None
  | es => Some (ErrJoin es)
  end.

(** ** Error text

    [strconv.Quote] and [Duration.String] are taken from the runtime: their
    output depends on Unicode tables the model does not carry. *)
Class GoFmt := {
  quote : string -> string;
  duration_string : Z -> string;
}.

Fixpoint sprintf (format : string) (args : list string) : string :=
  match format with
  | EmptyString => EmptyString
  | String "%" (String verb rest) =>
      match args with
      | a :: args' => a +:+ sprintf rest args'
      | [] => "%!" +:+ String verb "(MISSING)" +:+ sprintf rest []
      end
  | String c rest => String c (sprintf rest args)
  end.

Section render.
Context `{!GoFmt}.

Definition fmt_val_string (v : fmt_val) : string :=
  match v with
  | FStr s => s
  | FQuoted s => quote s
  | FInt z => FormatInt z
  | FDur d => duration_string d
  end.

(** The [Error() string] method. *)
Fixpoint Error (e : error) : string :=
  match e with
  | ErrVar _ msg => msg
  | ErrFmt f args =>
      sprintf f (map (fun a => match a with inl v => fmt_val_string v | inr e' => Error e' end) args)
  | ErrJoin es => String.concat (String "010" EmptyString) (map Error es)
  | ErrClassified _ e' => Error e'
  end.
End render.

(** ** errors.go *)

Definition classify (c : classification) (err : option error) : option error :=
  match err with
  | None => None
  | Some e => Some (ErrClassified c e)
  end.

Definition AsPermanent (err : option error) : option error := classify classPermanent err.
Definition AsRetryable (err : option error) : option error := classify classRetryable err.
Definition AsDiscard (err : option error) : option error := classify classDiscard err.

(** [classOf] returns the class and whether there is one: an option here. *)
Definition classOf (err : option error) : option classification :=
  match errors_As err with
  | Some ce => Some (fst ce)
  | None => None
  end.

Definition IsPermanent (err : option error) : bool :=
  match classOf err with
  | Some c => bool_decide (c = classPermanent)
  | None => false
  end.

Definition IsDiscard (err : option error) : bool :=
  match classOf err with
  | Some c => bool_decide (c = classDiscard)
  | None => false
  end.

Definition IsRetryable (err : option error) : bool :=
  match err with
  | None => false
  | Some _ =>
      match classOf err with
      | None => true
      | Some c => bool_decide (c = classRetryable)
      end
  end.

(** ** Lemmas *)

Lemma head_Some_split {A} (l : list A) x : head l = Some x <-> exists l', l = x :: l'.
Proof. destruct l; simpl; split; [done|by intros [? [=]]|intros [= ->]; eauto|by intros [? [= ->]]]. Qed.

Lemma omap_head_split {A B} (f : A -> option B) (l : list A) y :
  head (omap f l) = Some y <->
  exists pre x post, l = pre ++ x :: post /\ f x = Some y /\ Forall (fun z => f z = None) pre.
Proof.
  induction l as [|a l IH]; simpl.
  - split; [done|]. intros ([|??] & ? & ? & [=] & _).
  - destruct (f a) as [b|] eqn:E; simpl.
    + split.
      * intros [= ->]. exists [], a, l. eauto.
      * intros ([|p pre] & x & post & [= -> ->] & Hx & Hpre); [congruence|].
        inversion Hpre; congruence.
    + rewrite IH. split.
      * intros (pre & x & post & -> & Hx & Hpre). exists (a :: pre), x, post. auto.
      * intros ([|p pre] & x & post & [= -> ->] & Hx & Hpre); [congruence|].
        inversion Hpre; subst. exists pre, x, post. auto.
Qed.

Lemma classOf_classify c e : classOf (classify c (Some e)) = Some c.
Proof. done. Qed.

Lemma tree_wrap f v e :
  error_tree (ErrFmt f (map inl v ++ [inr e])) =
  ErrFmt f (map inl v ++ [inr e]) :: error_tree e.
Proof.
  simpl. f_equal. induction v as [|? v IH]; simpl; [apply app_nil_r|done].
Qed.

Lemma classOf_wrap f v e :
  classOf (Some (ErrFmt f (map inl v ++ [inr e]))) = classOf (Some e).
Proof. unfold classOf, errors_As. by rewrite tree_wrap. Qed.

#[export] Hint Rewrite classOf_classify classOf_wrap : go.

(** ** Properties *)

(** Reference semantics of a verdict: the first classified node met when the
    tree is walked from the outside in. *)
Definition outermost_class (e : error) (c : classification) : Prop :=
  exists pre inner post,
    error_tree e = pre ++ ErrClassified c inner :: post /\
    Forall (fun n => as_classified n = None) pre.

Lemma classOf_outermost e c : classOf (Some e) = Some c <-> outermost_class e c.
Proof.
  unfold classOf, errors_As, outermost_class. split.
  - destruct (head _) as [[c' inner]|] eqn:E; [|done]. intros [= ->].
    apply omap_head_split in E as (pre & x & post & Ht & Hx & Hpre).
    destruct x; simplify_eq/=. eauto 10.
  - intros (pre & inner & post & Ht & Hpre).
    assert (head (omap as_classified (error_tree e)) = Some (c, inner)) as ->; [|done].
    apply omap_head_split. eexists pre, _, post. eauto.
Qed.

(** C34: classification verdicts.  A nil error satisfies no predicate and is
    never classified; a non-nil error satisfies exactly one of [IsPermanent],
    [IsDiscard], [IsRetryable]; the verdict is that of the outermost
    classification in its tree, and an error with none is retryable. *)
Theorem classification_verdict (err : option error) :
  match err with
  | None =>
      IsPermanent err = false /\ IsDiscard err = false /\ IsRetryable err = false /\
      (forall c, classify c err = None)
  | Some e =>
      (IsPermanent err = true <-> outermost_class e classPermanent) /\
      (IsDiscard err = true <-> outermost_class e classDiscard) /\
      (IsRetryable err = true <->
         outermost_class e classRetryable \/ forall c, ~ outermost_class e c) /\
      (IsPermanent err, IsDiscard err, IsRetryable err) ∈
        [(true, false, false); (false, true, false); (false, false, true)]
  end.
Proof.
  destruct err as [e|]; [|done].
  assert (forall c, ~ outermost_class e c <-> classOf (Some e) <> Some c) as Hno
    by (intros c; by rewrite <-classOf_outermost).
  setoid_rewrite Hno. rewrite <-!classOf_outermost.
  unfold IsPermanent, IsDiscard, IsRetryable.
  destruct (classOf (Some e)) as [[]|]; simpl;
    (split_and!; [naive_solver..|]); rewrite ?list_elem_of_In; simpl; auto.
Qed.

(** Any number of [fmt.Errorf("... %w", ...)] layers around an error. *)
Definition wrap_layers (layers : list (string * list fmt_val)) (e : error) : error :=
  foldr (fun l acc => ErrFmt (fst l) (map inl (snd l) ++ [inr acc])) e layers.

Lemma errors_Is_wrap f v e target :
  errors_Is (Some (ErrFmt f (map inl v ++ [inr e]))) target = errors_Is (Some e) target.
Proof. unfold errors_Is. by rewrite tree_wrap. Qed.

#[export] Hint Rewrite errors_Is_wrap : go.

(** C35: classification is additive.  Under any number of %w layers, putting a
    classification around an error changes neither the rendered text nor what
    [errors.Is] finds; the verdict of the classification survives the layers,
    and overrides any verdict inside it. *)
Theorem classification_additive `{!GoFmt} (layers : list (string * list fmt_val))
    (c : classification) (e : error) (target : string) :
  Error (wrap_layers layers (ErrClassified c e)) = Error (wrap_layers layers e) /\
  errors_Is (Some (wrap_layers layers (ErrClassified c e))) target = errors_Is (Some e) target /\
  classOf (Some (wrap_layers layers (ErrClassified c e))) = Some c /\
  classOf (Some (wrap_layers layers e)) = classOf (Some e).
Proof.
  induction layers as [|[f v] layers (IH1 & IH2 & IH3 & IH4)]; [done|]. simpl wrap_layers.
  rewrite !classOf_wrap, !errors_Is_wrap. split_and!; [|done..].
  simpl. f_equal. rewrite !map_app. simpl. by rewrite IH1.
Qed.
