(* ===== verification/Regex.v ===== *)
(** * Anchored regular expressions

    The fragment of Go's [regexp] (RE2) syntax the library compiles: character
    classes, concatenation, alternation and repetition, always anchored at
    both ends.  [MatchString] is executable, by derivatives; [re_lang] is the
    language a pattern denotes, and the two agree ([MatchString_spec]). *)

From S2P Require Import Prelude.
From stdpp Require Import options.

(** Strings as character lists. *)
Abbreviation chars := String.list_ascii_of_string.

Lemma chars_app s t : chars (s +:+ t) = chars s ++ chars t.
Proof. induction s as [|c s IH]; simpl; [done|]. by rewrite IH. Qed.

Lemma chars_inj s t : chars s = chars t -> s = t.
Proof.
  intros H. rewrite <-(String.string_of_list_ascii_of_string s), <-(String.string_of_list_ascii_of_string t).
  by rewrite H.
Qed.

Lemma chars_of_list l : chars (String.string_of_list_ascii l) = l.
Proof. apply String.list_ascii_of_string_of_list_ascii. Qed.

(** An inclusive range of bytes. *)
Definition in_range (lo hi c : ascii) : bool :=
  (nat_of_ascii lo <=? nat_of_ascii c)%nat && (nat_of_ascii c <=? nat_of_ascii hi)%nat.

Inductive regex :=
| RNone
| REps
| RClass (ranges : list (ascii * ascii))
| RSeq (r1 r2 : regex)
| RAlt (r1 r2 : regex)
| RStar (r : regex).

Definition RChar (c : ascii) : regex := RClass [(c, c)].
Definition RPlus (r : regex) : regex := RSeq r (RStar r).
(** [r{1,2}] *)
Definition ROneTwo (r : regex) : regex := RSeq r (RAlt REps r).

Definition class_mem (ranges : list (ascii * ascii)) (c : ascii) : bool :=
  existsb (fun r => in_range (fst r) (snd r) c) ranges.

(** ** Semantics *)

Inductive re_lang : regex -> list ascii -> Prop :=
| lang_eps : re_lang REps []
| lang_class rs c : class_mem rs c = true -> re_lang (RClass rs) [c]
| lang_seq r1 r2 l1 l2 : re_lang r1 l1 -> re_lang r2 l2 -> re_lang (RSeq r1 r2) (l1 ++ l2)
| lang_alt_l r1 r2 l : re_lang r1 l -> re_lang (RAlt r1 r2) l
| lang_alt_r r1 r2 l : re_lang r2 l -> re_lang (RAlt r1 r2) l
| lang_star_nil r : re_lang (RStar r) []
| lang_star_app r c l1 l2 :
    re_lang r (c :: l1) -> re_lang (RStar r) l2 -> re_lang (RStar r) (c :: l1 ++ l2).

#[export] Hint Constructors re_lang : go.

(** ** The matcher *)

Fixpoint nullable (r : regex) : bool :=
  match r with
  | RNone | RClass _ => false
  | REps | RStar _ => true
  | RSeq r1 r2 => nullable r1 && nullable r2
  | RAlt r1 r2 => nullable r1 || nullable r2
  end.

Fixpoint deriv (c : ascii) (r : regex) : regex :=
  match r with
  | RNone | REps => RNone
  | RClass rs => if class_mem rs c then REps else RNone
  | RSeq r1 r2 =>
      if nullable r1 then RAlt (RSeq (deriv c r1) r2) (deriv c r2)
      else RSeq (deriv c r1) r2
  | RAlt r1 r2 => RAlt (deriv c r1) (deriv c r2)
  | RStar r' => RSeq (deriv c r') (RStar r')
  end.

Fixpoint match_chars (r : regex) (l : list ascii) : bool :=
  match l with
  | [] => nullable r
  | c :: l' => match_chars (deriv c r) l'
  end.

(** [regexp.MustCompile("^...$").MatchString(s)] *)
Definition MatchString (r : regex) (s : string) : bool := match_chars r (chars s).

(** ** Correctness of the matcher *)

Lemma nullable_spec r : nullable r = true <-> re_lang r [].
Proof.
  induction r as [| |rs|r1 IH1 r2 IH2|r1 IH1 r2 IH2|r IH]; simpl.
  - split; [done|inversion 1].
  - split; auto with go.
  - split; [done|inversion 1].
  - rewrite andb_true_iff, IH1, IH2. split.
    + intros [??]. change (@nil ascii) with (@nil ascii ++ []). auto with go.
    + inversion 1 as [| |? ? l1 l2 Ha Hb E Hn| | | |]; subst.
      match goal with H : _ ++ _ = [] |- _ => apply app_nil in H as [-> ->] end. auto.
  - rewrite orb_true_iff, IH1, IH2. split; [intros [?|?]; auto with go|inversion 1; auto].
  - split; auto with go.
Qed.

Lemma deriv_spec r c l : re_lang (deriv c r) l <-> re_lang r (c :: l).
Proof.
  revert l. induction r as [| |rs|r1 IH1 r2 IH2|r1 IH1 r2 IH2|r IH]; intros l; simpl.
  - split; inversion 1.
  - split; inversion 1.
  - destruct (class_mem rs c) eqn:E; split; inversion 1; subst; auto with go; congruence.
  - assert (re_lang (RSeq (deriv c r1) r2) l <->
            exists l1 l2, l = l1 ++ l2 /\ re_lang r1 (c :: l1) /\ re_lang r2 l2) as Hseq.
    { split; [inversion 1; subst; eexists _, _; split_and!; [done|by apply IH1|done]|].
      intros (l1 & l2 & -> & ? & ?). constructor; [by apply IH1|done]. }
    assert (re_lang (RSeq r1 r2) (c :: l) <->
            re_lang (RSeq (deriv c r1) r2) l \/ (nullable r1 = true /\ re_lang r2 (c :: l))) as Hc.
    { rewrite Hseq, nullable_spec. split.
      - inversion 1 as [| |? ? l1 l2 Ha Hb E Hn| | | |]; subst.
        destruct l1 as [|a l1]; simplify_eq/=; [by right|left; eauto].
      - intros [(l1 & l2 & -> & ? & ?)|[??]].
        + by apply (lang_seq r1 r2 (c :: l1) l2).
        + by apply (lang_seq r1 r2 [] (c :: l)). }
    rewrite Hc. destruct (nullable r1).
    + split; [inversion 1; subst; [by left|right; split; [done|by apply IH2]]|].
      intros [?|[_ ?%IH2]]; auto with go.
    + split; [by left|]. by intros [?|[??]].
  - split; inversion 1; subst; (by apply lang_alt_l, IH1) || (by apply lang_alt_r, IH2).
  - split.
    + inversion 1; subst. constructor; [by apply IH|done].
    + inversion 1; subst. constructor; [by apply IH|done].
Qed.

Lemma match_chars_spec r l : match_chars r l = true <-> re_lang r l.
Proof.
  revert r. induction l as [|c l IH]; intros r; simpl; [apply nullable_spec|].
  by rewrite IH, deriv_spec.
Qed.

Lemma MatchString_spec r s : MatchString r s = true <-> re_lang r (chars s).
Proof. apply match_chars_spec. Qed.

(** ** Inversion of the composite patterns *)

Lemma lang_seq_iff r1 r2 l :
  re_lang (RSeq r1 r2) l <-> exists l1 l2, l = l1 ++ l2 /\ re_lang r1 l1 /\ re_lang r2 l2.
Proof. split; [inversion 1; subst; eauto|intros (? & ? & -> & ? & ?); auto with go]. Qed.

Lemma lang_class_iff rs l :
  re_lang (RClass rs) l <-> exists c, l = [c] /\ class_mem rs c = true.
Proof. split; [inversion 1; subst; eauto|intros (? & -> & ?); auto with go]. Qed.

Lemma lang_char_iff a l : re_lang (RChar a) l <-> l = [a].
Proof.
  unfold RChar. rewrite lang_class_iff. unfold class_mem, in_range. simpl.
  setoid_rewrite orb_false_r. setoid_rewrite andb_true_iff.
  setoid_rewrite Nat.leb_le. split.
  - intros (c & -> & H1 & H2). f_equal.
    rewrite <-(ascii_nat_embedding c), <-(ascii_nat_embedding a). f_equal. lia.
  - intros ->. exists a. auto.
Qed.

Lemma lang_alt_iff r1 r2 l : re_lang (RAlt r1 r2) l <-> re_lang r1 l \/ re_lang r2 l.
Proof. split; [inversion 1; auto|intros [?|?]; auto with go]. Qed.

Lemma lang_eps_iff l : re_lang REps l <-> l = [].
Proof. split; [inversion 1; auto|intros ->; auto with go]. Qed.

Lemma lang_star_class_iff rs l :
  re_lang (RStar (RClass rs)) l <-> Forall (fun c => class_mem rs c = true) l.
Proof.
  split.
  - intros H. remember (RStar (RClass rs)) as r eqn:E. induction H; simplify_eq; [done|].
    apply lang_class_iff in H as (c' & [= -> ->] & Hm). constructor; auto.
  - induction 1; [auto with go|].
    change (x :: l) with (x :: [] ++ l). auto with go.
Qed.

Lemma lang_plus_class_iff rs l :
  re_lang (RPlus (RClass rs)) l <-> l <> [] /\ Forall (fun c => class_mem rs c = true) l.
Proof.
  unfold RPlus. rewrite lang_seq_iff. setoid_rewrite lang_class_iff.
  setoid_rewrite lang_star_class_iff. split.
  - intros (? & l2 & -> & (c & -> & ?) & ?). split; [done|by constructor].
  - intros [Hne H]. destruct H as [|c l]; [done|]. exists [c], l. eauto.
Qed.
