(* ===== verification/Validation.v ===== *)
(** * Envelopes and their validation

    envelope.go ([Envelope]), eventdef.go ([EventDef]), handler.go
    ([TopicSelector]), validation.go (the two patterns and [validateEnvelope]),
    consumer.go ([validateEventDef]) and registry.go ([majorVersion]). *)

From S2P Require Import Prelude GoStrings GoErrors Regex.
From stdpp Require Import options.

(** ** Data *)

(** [time.Time] as nanoseconds since Go's zero time, so that [IsZero] is a
    comparison with 0 (locations and monotonic readings are not modelled). *)
Definition Time : Type := Z.
Definition IsZero (t : Time) : bool := t =? 0.

Record EventDef := mkEventDef {
  Topic : string;
  Type_ : string;
  Version : string;
}.

Record Envelope (T : Type) := mkEnvelope {
  EventID : string;
  EventType : string;
  Timestamp : Time;
  SchemaVersion : string;
  CorrelationID : string;
  Source : string;
  Payload : T;
}.
Arguments mkEnvelope {T}.
Arguments EventID {T}.
Arguments EventType {T}.
Arguments Timestamp {T}.
Arguments SchemaVersion {T}.
Arguments CorrelationID {T}.
Arguments Source {T}.
Arguments Payload {T}.

#[global] Instance EventDef_eq_dec : EqDecision EventDef.
Proof. solve_decision. Defined.
#[global] Instance Envelope_eq_dec {T} `{EqDecision T} : EqDecision (Envelope T).
Proof. solve_decision. Defined.

(** ** validation.go *)

Definition lower : ascii * ascii := ("a", "z")%char.
Definition digit : ascii * ascii := ("0", "9")%char.
Definition underscore : ascii * ascii := ("_", "_")%char.

(** A lowercase letter, then lowercase letters, digits and underscores. *)
Definition segmentPattern : regex :=
  RSeq (RClass [lower]) (RStar (RClass [lower; digit; underscore])).

(** A segment, then one or two further segments each after a dot. *)
Definition eventTypePattern : regex :=
  RSeq segmentPattern (ROneTwo (RSeq (RChar ".") segmentPattern)).

(** Three digit runs separated by dots. *)
Definition schemaVersionPattern : regex :=
  RSeq (RPlus (RClass [digit]))
    (RSeq (RChar ".") (RSeq (RPlus (RClass [digit]))
      (RSeq (RChar ".") (RPlus (RClass [digit]))))).

Definition validateEnvelope {T} (e : Envelope T) : option error :=
  if String.eqb (EventID e) "" then
    Some (errorf "envelope: event_id is required")
  else if String.eqb (EventType e) "" then
    Some (errorf "envelope: event_type is required")
  else if negb (MatchString eventTypePattern (EventType e)) then
    Some (ErrFmt "envelope: event_type %q must be 2-3 dot-separated lowercase segments"
            [inl (FQuoted (EventType e))])
  else if String.eqb (SchemaVersion e) "" then
    Some (errorf "envelope: schema_version is required")
  else if negb (MatchString schemaVersionPattern (SchemaVersion e)) then
    Some (ErrFmt "envelope: schema_version %q must be MAJOR.MINOR.PATCH"
            [inl (FQuoted (SchemaVersion e))])
  else if String.eqb (Source e) "" then
    Some (errorf "envelope: source is required")
  else if String.eqb (CorrelationID e) "" then
    Some (errorf "envelope: correlation_id is required")
  else if IsZero (Timestamp e) then
    Some (errorf "envelope: timestamp is required")
  else None.

Definition validateEventDef (def : EventDef) : option error :=
  if String.eqb (Topic def) "" then
    Some (errorf "event def: Topic is required")
  else if String.eqb (Type_ def) "" then
    Some (errorf "event def: Type is required")
  else if negb (MatchString eventTypePattern (Type_ def)) then
    Some (ErrFmt "event def: Type %q must be 2-3 dot-separated lowercase segments"
            [inl (FQuoted (Type_ def))])
  else if String.eqb (Version def) "" then
    Some (errorf "event def: Version is required")
  else if negb (MatchString schemaVersionPattern (Version def)) then
    Some (ErrFmt "event def: Version %q must be MAJOR.MINOR.PATCH"
            [inl (FQuoted (Version def))])
  else None.

(** The [*strconv.NumError] of a failed conversion. *)
Definition num_error (fn s : string) (e : num_err) : error :=
  ErrFmt "strconv.%s: parsing %q: %w"
    [inl (FStr fn); inl (FQuoted s);
     inr match e with
         | ErrSyntax => ErrVar "strconv.ErrSyntax" "invalid syntax"
         | ErrRange => ErrVar "strconv.ErrRange" "value out of range"
         end].

Definition majorVersion (schemaVersion : string) : result error Z :=
  let '(segment, _, found) := Cut schemaVersion "." in
  if negb found then
    Err (ErrFmt "schema version %q is not MAJOR.MINOR.PATCH" [inl (FQuoted schemaVersion)])
  else
    match Atoi segment with
    | Err e =>
        Err (ErrFmt "schema version %q has a non-numeric major component: %w"
               [inl (FQuoted schemaVersion); inr (num_error "Atoi" segment e)])
    | Ok major => Ok major
    end.

(** ** What a well-formed event type and schema version are *)

Definition is_lower (c : ascii) : bool := in_range "a" "z" c.
Definition is_segment_char (c : ascii) : bool :=
  is_lower c || in_range "0" "9" c || Ascii.eqb c "_".

Definition segment (s : string) : Prop :=
  exists c rest, s = String c rest /\ is_lower c = true /\
    Forall (fun x => is_segment_char x = true) (chars rest).

(** Two or three dot-separated lowercase segments. *)
Definition event_type_ok (s : string) : Prop :=
  exists a b, segment a /\ segment b /\
    (s = a +:+ "." +:+ b \/ exists c, segment c /\ s = a +:+ "." +:+ b +:+ "." +:+ c).

Definition digits (s : string) : Prop :=
  s <> "" /\ Forall (fun x => in_range "0" "9" x = true) (chars s).

(** MAJOR.MINOR.PATCH. *)
Definition schema_version_ok (s : string) : Prop :=
  exists a b c, digits a /\ digits b /\ digits c /\ s = a +:+ "." +:+ b +:+ "." +:+ c.

(** The number a digit string denotes. *)
Fixpoint digits_value (acc : Z) (l : list ascii) : Z :=
  match l with
  | [] => acc
  | c :: l' => digits_value (acc * 10 + (Z.of_nat (nat_of_ascii c) - 48)) l'
  end.

(** ** Lemmas *)

Lemma class_digit c : class_mem [digit] c = in_range "0" "9" c.
Proof. unfold class_mem. simpl. apply orb_false_r. Qed.

Lemma class_lower c : class_mem [lower] c = is_lower c.
Proof. unfold class_mem. simpl. apply orb_false_r. Qed.

Lemma in_range_refl a c : in_range a a c = Ascii.eqb c a.
Proof.
  apply eq_true_iff_eq. unfold in_range. rewrite andb_true_iff, !Nat.leb_le, Ascii.eqb_eq.
  split; [|intros ->; lia]. intros H.
  rewrite <-(ascii_nat_embedding c), <-(ascii_nat_embedding a). f_equal. lia.
Qed.

Lemma class_segment c : class_mem [lower; digit; underscore] c = is_segment_char c.
Proof.
  unfold class_mem, is_segment_char. simpl. rewrite in_range_refl, orb_false_r.
  by rewrite orb_assoc.
Qed.

Lemma segmentPattern_spec s : re_lang segmentPattern (chars s) <-> segment s.
Proof.
  unfold segmentPattern, segment. rewrite lang_seq_iff. setoid_rewrite lang_class_iff.
  setoid_rewrite lang_star_class_iff.
  setoid_rewrite class_lower. setoid_rewrite class_segment. split.
  - intros (? & l2 & E & (c & -> & ?) & ?). destruct s as [|c' s]; simplify_eq/=. eauto.
  - intros (c & rest & -> & ? & ?). exists [c], (chars rest). eauto.
Qed.

Lemma digits_spec s : re_lang (RPlus (RClass [digit])) (chars s) <-> digits s.
Proof.
  rewrite lang_plus_class_iff. unfold digits. setoid_rewrite class_digit.
  assert (chars s <> [] <-> s <> "") as ->; [|done].
  destruct s; split; by intros.
Qed.

(** Lists that are the characters of a string. *)
Lemma lang_seq_string r1 r2 s :
  re_lang (RSeq r1 r2) (chars s) <->
  exists a b, s = a +:+ b /\ re_lang r1 (chars a) /\ re_lang r2 (chars b).
Proof.
  rewrite lang_seq_iff. split.
  - intros (l1 & l2 & E & H1 & H2).
    exists (String.string_of_list_ascii l1), (String.string_of_list_ascii l2).
    rewrite !chars_of_list. split; [|done]. apply chars_inj. by rewrite chars_app, !chars_of_list.
  - intros (a & b & -> & ? & ?). exists (chars a), (chars b). by rewrite chars_app.
Qed.

Lemma lang_char_string a s : re_lang (RChar a) (chars s) <-> s = String a "".
Proof. rewrite lang_char_iff. split; [|by intros ->]. intros H. by apply chars_inj. Qed.

Lemma lang_eps_string s : re_lang REps (chars s) <-> s = "".
Proof. rewrite lang_eps_iff. by destruct s. Qed.

#[local] Opaque segmentPattern RPlus.

Lemma eventTypePattern_spec s : MatchString eventTypePattern s = true <-> event_type_ok s.
Proof.
  rewrite MatchString_spec. unfold eventTypePattern, ROneTwo, event_type_ok.
  rewrite lang_seq_string. setoid_rewrite lang_seq_string.
  setoid_rewrite lang_seq_string. setoid_rewrite lang_alt_iff.
  setoid_rewrite lang_seq_string. setoid_rewrite lang_char_string.
  setoid_rewrite segmentPattern_spec. setoid_rewrite lang_eps_string. split.
  - intros (a & ? & -> & Ha & ? & tl & -> & (? & b & -> & -> & Hb) & [->|Hc]).
    + exists a, b. rewrite string_app_nil_r. split_and!; [done..|by left].
    + destruct Hc as (? & c & -> & -> & Hc). exists a, b. split_and!; [done..|].
      right. exists c. split; [done|]. by rewrite !string_app_assoc.
  - intros (a & b & Ha & Hb & [->|(c & Hc & ->)]).
    + exists a, ("." +:+ b). split_and!; [done..|]. exists ("." +:+ b), "".
      rewrite string_app_nil_r. split_and!; [done| |by left]. by exists ".", b.
    + exists a, ("." +:+ b +:+ "." +:+ c). split_and!; [done..|].
      exists ("." +:+ b), ("." +:+ c). split_and!; [done|by exists ".", b|].
      right. by exists ".", c.
Qed.

Lemma schemaVersionPattern_spec s :
  MatchString schemaVersionPattern s = true <-> schema_version_ok s.
Proof.
  rewrite MatchString_spec. unfold schemaVersionPattern, schema_version_ok.
  rewrite lang_seq_string. do 3 setoid_rewrite lang_seq_string.
  setoid_rewrite lang_char_string. setoid_rewrite digits_spec. split.
  - intros (a & ? & -> & Ha & ? & ? & -> & -> & b & ? & -> & Hb & ? & c & -> & -> & Hc).
    by exists a, b, c.
  - intros (a & b & c & Ha & Hb & Hc & ->).
    exists a, ("." +:+ b +:+ "." +:+ c). split_and!; [done..|].
    exists ".", (b +:+ "." +:+ c). split_and!; [done..|].
    exists b, ("." +:+ c). split_and!; [done..|]. by exists ".", c.
Qed.

(** ** Decimal values *)

Lemma in_range_digit_val c :
  in_range "0" "9" c = true ->
  digit_val c = Some (Z.of_nat (nat_of_ascii c) - 48) /\ 0 <= Z.of_nat (nat_of_ascii c) - 48 <= 9.
Proof.
  unfold in_range, digit_val. rewrite andb_true_iff, !Nat.leb_le.
  change (nat_of_ascii "0") with 48%nat. change (nat_of_ascii "9") with 57%nat. intros H.
  destruct (48 <=? _) eqn:E1; to_prop; [|lia]. destruct (_ <=? 57) eqn:E2; to_prop; [|lia].
  simpl. split; [done|lia].
Qed.

Lemma digits_value_ge acc l :
  0 <= acc -> Forall (fun c => in_range "0" "9" c = true) l -> acc <= digits_value acc l.
Proof.
  intros Hacc Hl. revert acc Hacc.
  induction Hl as [|c l [_ Hc]%in_range_digit_val _ IH]; intros acc Hacc; simpl; [done|].
  etrans; [|apply IH]; lia.
Qed.

Lemma parse_digits_value acc s :
  0 <= acc <= max_uint64 -> Forall (fun c => in_range "0" "9" c = true) (chars s) ->
  parse_digits acc s =
    if digits_value acc (chars s) <=? max_uint64 then Ok (digits_value acc (chars s)) else Err ErrRange.
Proof.
  revert acc. induction s as [|c s IH]; intros acc Hacc Hs; simpl.
  { destruct (_ <=? _) eqn:E; to_prop; [done|lia]. }
  inversion Hs as [|?? Hc Hs']; subst. apply in_range_digit_val in Hc as [-> Hd].
  set (d := Z.of_nat (nat_of_ascii c) - 48) in *.
  pose proof (digits_value_ge (acc * 10 + d) _ ltac:(lia) Hs') as Hge.
  assert (uint_cutoff * 10 > max_uint64) by done.
  destruct (uint_cutoff <=? acc) eqn:E1; to_prop.
  { destruct (_ <=? max_uint64) eqn:E; to_prop; [lia|done]. }
  destruct (max_uint64 <? _) eqn:E2; to_prop.
  { destruct (_ <=? max_uint64) eqn:E; to_prop; [lia|done]. }
  apply IH; [lia|done].
Qed.

Lemma digit_not_sign c : in_range "0" "9" c = true -> Ascii.eqb c "-" = false /\ Ascii.eqb c "+" = false.
Proof.
  by intros H; split; apply Ascii.eqb_neq; intros ->.
Qed.

Lemma Atoi_digits s :
  digits s ->
  Atoi s = if digits_value 0 (chars s) <? 2 ^ 63 then Ok (digits_value 0 (chars s)) else Err ErrRange.
Proof.
  intros [Hne Hs]. unfold Atoi, ParseInt. destruct s as [|c s]; [done|].
  inversion Hs as [|?? Hc Hs']; subst. apply digit_not_sign in Hc as [-> ->]. cbn [orb negb andb]. cbv zeta.
  unfold parse_uint. rewrite parse_digits_value by (done || split; done).
  generalize (digits_value 0 (chars (String c s))) as v. intros v.
  destruct (v <=? max_uint64) eqn:E1; cbn [result_bind]; to_prop; unfold max_uint64 in E1.
  - destruct (2 ^ 63 <=? v) eqn:E2, (v <? 2 ^ 63) eqn:E3; to_prop; (done || lia).
  - destruct (v <? 2 ^ 63) eqn:E3; to_prop; [lia|done].
Qed.

(** Checking a concrete digit string by evaluation. *)
Lemma digits_check s :
  negb (String.eqb s "") && forallb (in_range "0" "9") (chars s) = true -> digits s.
Proof.
  rewrite andb_true_iff. intros [? H]. to_prop. split; [done|].
  apply List.Forall_forall. by apply forallb_forall.
Qed.

Lemma digits_free_of_dot s : digits s -> free_of "." s = true.
Proof.
  intros [_ H]. induction s as [|c s IH]; [done|]. inversion H as [|?? Hc Hs]; subst. cbn [free_of].
  rewrite (IH Hs), andb_true_r. apply negb_true_iff. by apply Ascii.eqb_neq; intros <-.
Qed.

(** ** Properties *)

(** A structurally complete envelope: every field the contract requires. *)
Record well_formed {T} (e : Envelope T) : Prop := {
  wf_id : EventID e <> "";
  wf_type : event_type_ok (EventType e);
  wf_version : schema_version_ok (SchemaVersion e);
  wf_source : Source e <> "";
  wf_correlation : CorrelationID e <> "";
  wf_timestamp : Timestamp e <> 0;
}.

Lemma event_type_ok_nonempty s : event_type_ok s -> s <> "".
Proof.
  by intros (? & b & (c & rest & -> & _) & _ & [->|(? & _ & ->)]).
Qed.

Lemma schema_version_ok_nonempty s : schema_version_ok s -> s <> "".
Proof. intros (a & b & c & [Ha _] & _ & _ & ->). by destruct a. Qed.

Lemma MatchString_false r s P :
  (MatchString r s = true <-> P) -> MatchString r s = false <-> ~ P.
Proof. intros <-. by rewrite not_true_iff_false. Qed.

(** C36: [validateEnvelope] accepts exactly the envelopes whose required fields
    are present, whose event type is two or three dot-separated lowercase
    segments, and whose schema version is MAJOR.MINOR.PATCH. *)
Theorem validateEnvelope_iff {T} (e : Envelope T) :
  validateEnvelope e = None <-> well_formed e.
Proof.
  unfold validateEnvelope, IsZero. split.
  - repeat (case_match; [done|]). intros _. to_prop.
    constructor; [done|by apply eventTypePattern_spec|by apply schemaVersionPattern_spec|done..].
  - intros [H1 H2 H3 H4 H5 H6].
    pose proof (event_type_ok_nonempty _ H2). pose proof (schema_version_ok_nonempty _ H3).
    apply eventTypePattern_spec in H2. apply schemaVersionPattern_spec in H3.
    rewrite H2, H3. repeat (case_match; to_prop; [done|]). done.
Qed.

Lemma validateEventDef_iff (def : EventDef) :
  validateEventDef def = None <->
  Topic def <> "" /\ event_type_ok (Type_ def) /\ schema_version_ok (Version def).
Proof.
  unfold validateEventDef. split.
  - repeat (case_match; [done|]). intros _. to_prop.
    split_and!; [done|by apply eventTypePattern_spec|by apply schemaVersionPattern_spec].
  - intros (H1 & H2 & H3).
    pose proof (event_type_ok_nonempty _ H2). pose proof (schema_version_ok_nonempty _ H3).
    apply eventTypePattern_spec in H2. apply schemaVersionPattern_spec in H3.
    rewrite H2, H3. repeat (case_match; to_prop; [done|]). done.
Qed.

(** On every schema version that validation accepts, [majorVersion] reads
    the number before the first dot whatever the minor and patch are; the only
    accepted versions it rejects are those whose major part overflows a 64-bit
    [int], and it reports those as out of range. *)
Lemma majorVersion_accepted (a b c : string) :
  digits a -> digits b -> digits c ->
  let v := a +:+ "." +:+ b +:+ "." +:+ c in
  let n := digits_value 0 (chars a) in
  MatchString schemaVersionPattern v = true /\
  if n <? 2 ^ 63 then majorVersion v = Ok n
  else exists e, majorVersion v = Err e /\ errors_Is (Some e) "strconv.ErrRange" = true.
Proof.
  intros Ha Hb Hc v n. split.
  { apply schemaVersionPattern_spec. by exists a, b, c. }
  unfold v, majorVersion. change ("." +:+ ?s) with (String "." s).
  rewrite Cut_found by (by apply digits_free_of_dot). cbn [negb].
  rewrite Atoi_digits by done. fold n. destruct (n <? 2 ^ 63); [done|].
  eexists. split; [done|]. by vm_compute.
Qed.

