(* ===== verification/Registry.v ===== *)
(** * The handler registry (registry.go)

    [registry] stores registrations and resolves an event to one handler.  It
    is polymorphic in the handler type [F] (the source's [dispatchFunc]).
    [Module RegistrySpec] is the contract: a map from topics to either a set
    of typed handlers or one raw handler; the operations refine it. *)

From S2P Require Import Prelude GoErrors.
From stdpp Require Import options.

(** ** Data *)

Record routeKey := mkRouteKey {
  rk_topic : string;
  rk_eventType : string;
  rk_major : Z;
}.

#[global] Instance routeKey_eq_dec : EqDecision routeKey.
Proof. solve_decision. Defined.

#[global] Instance routeKey_countable : Countable routeKey.
Proof.
  refine (inj_countable' (fun k => (rk_topic k, rk_eventType k, rk_major k))
            (fun '(t, e, m) => mkRouteKey t e m) _).
  by intros [].
Defined.

Record registry (F : Type) := mkRegistry {
  typed : gmap routeKey F;
  raw : gmap string F;
  topics : gset string;
}.
Arguments mkRegistry {F}.
Arguments typed {F}.
Arguments raw {F}.
Arguments topics {F}.

Inductive routeMatch := matchNone | matchTyped | matchRaw.

#[global] Instance routeMatch_eq_dec : EqDecision routeMatch.
Proof. solve_decision. Defined.

(** ** Operations

    The methods with a pointer receiver return the registry afterwards and the
    error: on an error the receiver is unchanged. *)

Section operations.
Context {F : Type}.
Implicit Types (r : registry F) (fn : F).

Definition newRegistry : registry F := mkRegistry ∅ ∅ ∅.

Definition addTyped r (topic eventType : string) (major : Z) fn : registry F * option error :=
  match raw r !! topic with
  | Some _ =>
      (r, Some (ErrFmt "registry: topic %q already has a raw handler; a topic may have typed handlers or one raw handler, not both"
                  [inl (FQuoted topic)]))
  | None =>
      let key := mkRouteKey topic eventType major in
      match typed r !! key with
      | Some _ =>
          (r, Some (ErrFmt "registry: a handler is already registered for topic %q, event type %q, major version %d"
                      [inl (FQuoted topic); inl (FQuoted eventType); inl (FInt major)]))
      | None =>
          (mkRegistry (<[key := fn]> (typed r)) (raw r) ({[topic]} ∪ topics r), None)
      end
  end.

(** The loop over [r.typed] of [addRaw]: some key has this topic. *)
Definition has_typed r (topic : string) : bool :=
  existsb (fun kv => String.eqb (rk_topic (fst kv)) topic) (map_to_list (typed r)).

Definition addRaw r (topic : string) fn : registry F * option error :=
  match raw r !! topic with
  | Some _ =>
      (r, Some (ErrFmt "registry: topic %q already has a raw handler" [inl (FQuoted topic)]))
  | None =>
      if has_typed r topic then
        (r, Some (ErrFmt "registry: topic %q already has typed handlers; a topic may have typed handlers or one raw handler, not both"
                    [inl (FQuoted topic)]))
      else
        (mkRegistry (typed r) (<[topic := fn]> (raw r)) ({[topic]} ∪ topics r), None)
  end.

Definition lookup_route r (topic eventType : string) (major : Z) : option F * routeMatch :=
  match raw r !! topic with
  | Some fn => (Some fn, matchRaw)
  | None =>
      match typed r !! mkRouteKey topic eventType major with
      | Some fn => (Some fn, matchTyped)
      | None => (None, matchNone)
      end
  end.

(** A match comes with its handler. *)
Lemma lookup_route_none r topic eventType major m :
  lookup_route r topic eventType major = (None, m) -> m = matchNone.
Proof. unfold lookup_route. by repeat case_match; intros [= <-]. Qed.

(** A typed registration is found. *)
Lemma lookup_registered r r' topic eventType major fn :
  addTyped r topic eventType major fn = (r', None) ->
  lookup_route r' topic eventType major = (Some fn, matchTyped).
Proof.
  unfold addTyped. destruct (raw r !! topic) eqn:Hraw; [done|]. destruct (typed r !! _); [done|]. intros [= <-].
  unfold lookup_route. simpl. by rewrite Hraw, lookup_insert_eq.
Qed.

(** Go's map iteration order is unspecified; one order is chosen here and no
    theorem depends on which. *)
Definition topicList r : list string := elements (topics r).

Definition isEmpty r : bool := bool_decide (size (topics r) = 0%nat).

Lemma has_typed_spec r topic :
  has_typed r topic = true <-> exists k f, typed r !! k = Some f /\ rk_topic k = topic.
Proof.
  unfold has_typed. rewrite existsb_exists. split.
  - intros ([k f] & Hin & He). to_prop. exists k, f.
    by rewrite <-list_elem_of_In, elem_of_map_to_list in Hin.
  - intros (k & f & Hk & <-). exists (k, f).
    rewrite <-list_elem_of_In, elem_of_map_to_list. simpl. by rewrite String.eqb_refl.
Qed.
End operations.

(** ** The contract *)

Module RegistrySpec.
Inductive topic_handlers (F : Type) :=
| TypedHandlers (m : gmap (string * Z) F)
| RawHandler (f : F).
Arguments TypedHandlers {F}.
Arguments RawHandler {F}.

Section spec.
Context {F : Type}.
Implicit Types (s : gmap string (topic_handlers F)).

(** [None] when the registration is refused. *)
Definition add_typed s (topic eventType : string) (major : Z) (fn : F) :
    option (gmap string (topic_handlers F)) :=
  match s !! topic with
  | None => Some (<[topic := TypedHandlers {[ (eventType, major) := fn ]}]> s)
  | Some (TypedHandlers m) =>
      match m !! (eventType, major) with
      | Some _ => None
      | None => Some (<[topic := TypedHandlers (<[(eventType, major) := fn]> m)]> s)
      end
  | Some (RawHandler _) => None
  end.

Definition add_raw s (topic : string) (fn : F) : option (gmap string (topic_handlers F)) :=
  match s !! topic with
  | None => Some (<[topic := RawHandler fn]> s)
  | Some _ => None
  end.

Definition route s (topic eventType : string) (major : Z) : option F * routeMatch :=
  match s !! topic with
  | Some (RawHandler f) => (Some f, matchRaw)
  | Some (TypedHandlers m) =>
      match m !! (eventType, major) with
      | Some f => (Some f, matchTyped)
      | None => (None, matchNone)
      end
  | None => (None, matchNone)
  end.

(** A registry implements a contract state. *)
Record refines (r : registry F) s : Prop := {
  ref_topics : topics r = dom s;
  ref_raw t : raw r !! t = match s !! t with Some (RawHandler f) => Some f | _ => None end;
  ref_typed t e m :
    typed r !! mkRouteKey t e m =
    match s !! t with Some (TypedHandlers h) => h !! (e, m) | _ => None end;
  ref_nonempty t h : s !! t = Some (TypedHandlers h) -> h <> ∅;
}.
End spec.
End RegistrySpec.

Section properties.
Context {F : Type}.
Import RegistrySpec.
Implicit Types (r : registry F) (s : gmap string (topic_handlers F)).

Lemma refines_new : refines (@newRegistry F) ∅.
Proof. split; simpl; intros; by rewrite ?lookup_empty, ?dom_empty_L in *. Qed.

Lemma refines_has_typed r s topic :
  refines r s -> has_typed r topic = true <-> exists h, s !! topic = Some (TypedHandlers h).
Proof.
  intros H. rewrite has_typed_spec. split.
  - intros ([t e m] & f & Hk & <-). simpl. rewrite (ref_typed _ _ H) in Hk.
    destruct (s !! t) as [[h|]|]; [eauto|done..].
  - intros [h Hh]. pose proof (ref_nonempty _ _ H _ _ Hh) as Hne.
    apply map_choose in Hne as ([e m] & f & Hf).
    exists (mkRouteKey topic e m), f. split; [|done]. by rewrite (ref_typed _ _ H), Hh.
Qed.

Lemma refines_addTyped r s topic eventType major fn :
  refines r s ->
  match add_typed s topic eventType major fn with
  | Some s' => exists r', addTyped r topic eventType major fn = (r', None) /\ refines r' s'
  | None => exists e, addTyped r topic eventType major fn = (r, Some e)
  end.
Proof.
  intros H. unfold add_typed, addTyped.
  rewrite (ref_raw _ _ H), (ref_typed _ _ H).
  destruct (s !! topic) as [[h|f]|] eqn:Es; [|eauto|].
  - destruct (h !! _) as [f|] eqn:Eh; [eauto|]. eexists; split; [done|].
    split; simpl; [by rewrite dom_insert_L, (ref_topics _ _ H)| | |].
    + intros t. rewrite (ref_raw _ _ H), lookup_insert. case_decide; subst; [by rewrite Es|done].
    + intros t e m. rewrite !lookup_insert, (ref_typed _ _ H).
      repeat case_decide; simplify_eq; try done; rewrite ?Es, ?lookup_insert;
        repeat case_decide; simplify_eq; done.
    + intros t h'. rewrite lookup_insert. case_decide; [|by apply (ref_nonempty _ _ H)].
      intros [= <-]. apply insert_non_empty.
  - eexists; split; [done|].
    split; simpl; [by rewrite dom_insert_L, (ref_topics _ _ H)| | |].
    + intros t. rewrite (ref_raw _ _ H), lookup_insert. case_decide; subst; [by rewrite Es|done].
    + intros t e m. rewrite !lookup_insert, (ref_typed _ _ H).
      repeat case_decide; simplify_eq; try done; rewrite ?Es, ?lookup_singleton;
        repeat case_decide; simplify_eq; done.
    + intros t h'. rewrite lookup_insert. case_decide; [|by apply (ref_nonempty _ _ H)].
      intros [= <-]. apply insert_non_empty.
Qed.

Lemma refines_addRaw r s topic fn :
  refines r s ->
  match add_raw s topic fn with
  | Some s' => exists r', addRaw r topic fn = (r', None) /\ refines r' s'
  | None => exists e, addRaw r topic fn = (r, Some e)
  end.
Proof.
  intros H. unfold add_raw, addRaw. rewrite (ref_raw _ _ H).
  pose proof (refines_has_typed _ _ topic H) as Ht.
  destruct (s !! topic) as [[h|f]|] eqn:Es; [| eauto |].
  { rewrite (proj2 Ht) by eauto. eauto. }
  destruct (has_typed r topic); [destruct (proj1 Ht) as [? [=]]; done|].
  eexists; split; [done|].
  split; simpl; [by rewrite dom_insert_L, (ref_topics _ _ H)| | |].
  + intros t. rewrite !lookup_insert, (ref_raw _ _ H). by case_decide.
  + intros t e m. rewrite lookup_insert, (ref_typed _ _ H). case_decide; subst; [by rewrite Es|done].
  + intros t h'. rewrite lookup_insert. case_decide; [done|]. by apply (ref_nonempty _ _ H).
Qed.

Lemma refines_lookup r s topic eventType major :
  refines r s -> lookup_route r topic eventType major = route s topic eventType major.
Proof.
  intros H. unfold lookup_route, route. rewrite (ref_raw _ _ H), (ref_typed _ _ H).
  by destruct (s !! topic) as [[]|].
Qed.

Lemma refines_topicList r s :
  refines r s -> NoDup (topicList r) /\ forall t, t ∈ topicList r <-> is_Some (s !! t).
Proof.
  intros H. unfold topicList. split; [apply NoDup_elements|]. intros t.
  by rewrite elem_of_elements, (ref_topics _ _ H), elem_of_dom.
Qed.

Lemma refines_isEmpty r s : refines r s -> isEmpty r = true <-> s = ∅.
Proof.
  intros H. unfold isEmpty. rewrite bool_decide_eq_true, (ref_topics _ _ H), size_empty_iff.
  rewrite dom_empty_iff. done.
Qed.
End properties.

(** ** Sequences of registrations *)

Inductive registration (F : Type) :=
| RegTyped (topic eventType : string) (major : Z) (fn : F)
| RegRaw (topic : string) (fn : F).
Arguments RegTyped {F}.
Arguments RegRaw {F}.

Section sequences.
Context {F : Type}.
Import RegistrySpec.
Implicit Types (r : registry F) (s : gmap string (topic_handlers F)) (op : registration F).

Definition register r op : registry F * option error :=
  match op with
  | RegTyped t e m fn => addTyped r t e m fn
  | RegRaw t fn => addRaw r t fn
  end.

Definition spec_register s op : option (gmap string (topic_handlers F)) :=
  match op with
  | RegTyped t e m fn => add_typed s t e m fn
  | RegRaw t fn => add_raw s t fn
  end.

(** Apply registrations in order; the booleans say which were accepted. *)
Fixpoint register_all r (ops : list (registration F)) : registry F * list bool :=
  match ops with
  | [] => (r, [])
  | op :: ops' =>
      let '(r', err) := register r op in
      let '(r'', oks) := register_all r' ops' in
      (r'', bool_decide (err = None) :: oks)
  end.

Fixpoint spec_register_all s (ops : list (registration F)) :
    gmap string (topic_handlers F) * list bool :=
  match ops with
  | [] => (s, [])
  | op :: ops' =>
      let '(s', ok) := match spec_register s op with Some s' => (s', true) | None => (s, false) end in
      let '(s'', oks) := spec_register_all s' ops' in
      (s'', ok :: oks)
  end.

Lemma refines_register r s op :
  refines r s ->
  match spec_register s op with
  | Some s' => exists r', register r op = (r', None) /\ refines r' s'
  | None => exists e, register r op = (r, Some e)
  end.
Proof. destruct op; [apply refines_addTyped|apply refines_addRaw]. Qed.

Lemma refines_register_all r s ops :
  refines r s ->
  refines (fst (register_all r ops)) (fst (spec_register_all s ops)) /\
  snd (register_all r ops) = snd (spec_register_all s ops).
Proof.
  revert r s. induction ops as [|op ops IH]; intros r s H; simpl; [done|].
  pose proof (refines_register _ _ op H) as Hstep.
  destruct (spec_register s op) as [s'|].
  - destruct Hstep as (r' & -> & H'). destruct (IH _ _ H') as [IH1 IH2].
    destruct (register_all r' ops), (spec_register_all s' ops); simpl in *. by subst.
  - destruct Hstep as (e & ->). destruct (IH _ _ H) as [IH1 IH2].
    destruct (register_all r ops), (spec_register_all s ops); simpl in *. by subst.
Qed.

Lemma spec_register_route s s' op t e m f k :
  spec_register s op = Some s' -> route s t e m = (Some f, k) -> route s' t e m = (Some f, k).
Proof.
  destruct op as [t' e' m' fn|t' fn]; simpl; unfold add_typed, add_raw, route;
    destruct (s !! t') as [[h|f']|] eqn:Es; try done.
  - destruct (h !! _) eqn:Eh; [done|]. intros [= <-]. rewrite lookup_insert.
    case_decide; [subst; rewrite Es|done].
    rewrite lookup_insert. case_decide; [simplify_eq; by rewrite Eh|done].
  - intros [= <-]. rewrite lookup_insert. case_decide; [subst; by rewrite Es|done].
  - intros [= <-]. rewrite lookup_insert. case_decide; [subst; by rewrite Es|done].
Qed.

Lemma spec_register_all_route s ops t e m f k :
  route s t e m = (Some f, k) -> route (fst (spec_register_all s ops)) t e m = (Some f, k).
Proof.
  revert s. induction ops as [|op ops IH]; intros s H; simpl; [done|].
  destruct (spec_register s op) as [s'|] eqn:E.
  - specialize (IH s' (spec_register_route _ _ _ _ _ _ _ _ E H)).
    by destruct (spec_register_all s' ops).
  - specialize (IH s H). by destruct (spec_register_all s ops).
Qed.

(** C33: from an empty registry, any sequence of typed and raw registrations
    is accepted and refused exactly as the contract says (a topic carries
    typed handlers, unique per event type and major version, or one raw
    handler, never both), and afterwards lookups, the topic list (each
    registered topic once) and the emptiness test agree with the contract. *)
Theorem registry_refines_contract (ops : list (registration F)) :
  let '(r, accepted) := register_all newRegistry ops in
  let '(s, expected) := spec_register_all ∅ ops in
  accepted = expected /\
  (forall t e m, lookup_route r t e m = route s t e m) /\
  NoDup (topicList r) /\
  (forall t, t ∈ topicList r <-> is_Some (s !! t)) /\
  (isEmpty r = true <-> s = ∅) /\
  (forall t, raw r !! t <> None -> has_typed r t = false).
Proof.
  destruct (refines_register_all newRegistry ∅ ops refines_new) as [H Hb].
  destruct (register_all newRegistry ops) as [r acc], (spec_register_all ∅ ops) as [s exp].
  simpl in *. split_and!; [done| | | | |].
  - intros t e m. by apply refines_lookup.
  - by apply (refines_topicList _ _ H).
  - by apply (refines_topicList _ _ H).
  - by apply refines_isEmpty.
  - intros t Ht. apply not_true_iff_false. rewrite (refines_has_typed _ _ t H).
    intros [h Hh]. by rewrite (ref_raw _ _ H), Hh in Ht.
Qed.

(** Routing is stable.  Once the registrations made so far resolve an
    event to a handler, no later registration, accepted or refused, changes
    the handler that event is dispatched to or the kind of the match. *)
Lemma registered_route_stable (ops later : list (registration F)) t e m f k :
  lookup_route (fst (register_all newRegistry ops)) t e m = (Some f, k) ->
  lookup_route (fst (register_all newRegistry (ops ++ later))) t e m = (Some f, k).
Proof.
  destruct (refines_register_all newRegistry ∅ ops refines_new) as [H1 _].
  destruct (refines_register_all newRegistry ∅ (ops ++ later) refines_new) as [H2 _].
  rewrite (refines_lookup _ _ _ _ _ H1), (refines_lookup _ _ _ _ _ H2).
  clear H1 H2. generalize (∅ : gmap string (topic_handlers F)). induction ops as [|op ops IH]; intros s; simpl.
  - apply spec_register_all_route.
  - set (p := match spec_register s op with Some s' => (s', true) | None => (s, false) end).
    destruct p as [s' ok]. specialize (IH s').
    destruct (spec_register_all s' ops), (spec_register_all s' (ops ++ later)). done.
Qed.
End sequences.
