(* ===== verification/Config.v ===== *)
(** * Configuration (config.go)

    The configuration records, [Validate] and [validateConsumer] (which fill
    defaults in place as they check, so they return the configuration even
    when they fail), the consumer name default, and the backoff arithmetic on
    64-bit durations. *)

From S2P Require Import Prelude GoStrings GoErrors.
From stdpp Require Import options.

(** ** Data *)

(** A pointer or interface value the library only passes on: its identity. *)
Definition ref : Type := nat.

(** [time.Duration]: an [int64] count of nanoseconds. *)
Definition Duration : Type := Z.
Definition Millisecond : Duration := 1000000.
Definition Second : Duration := 1000000000.

Record RedisConfig := mkRedisConfig {
  Address : string;
  Username : string;
  Password : string;
  TLS : option ref;
  DB : Z;
  PoolSize : Z;
}.

Record ConsumerConfig := mkConsumerConfig {
  Group : string;
  ConsumerName : string;
  Concurrency : Z;
  ClaimInterval : Duration;
  ClaimMinIdle : Duration;
  MaxDeliveryAttempts : Z;
  ShutdownTimeout : Duration;
}.

Record RetryConfig := mkRetryConfig {
  MaxImmediateRetries : Z;
  InitialBackoff : Duration;
  MaxBackoff : Duration;
}.

Record TelemetryConfig := mkTelemetryConfig {
  TracerProvider : option ref;
  MeterProvider : option ref;
  Propagator : option ref;
  Logger : option ref;
  LogPayloads : bool;
}.

Record Config := mkConfig {
  cfg_Source : string;
  StreamPrefix : string;
  Redis : RedisConfig;
  Consumer_ : ConsumerConfig;
  Retry : RetryConfig;
  Telemetry : TelemetryConfig;
}.

(** What configuration reads from the process: [runtime.GOMAXPROCS(0)], the
    OpenTelemetry globals, [propagation.TraceContext{}], [slog.Default()],
    [os.Hostname()] and three bytes of [crypto/rand]. *)
Record Process := mkProcess {
  gomaxprocs : Z;
  otel_tracer_provider : ref;
  otel_meter_provider : ref;
  trace_context : ref;
  slog_default : ref;
  os_hostname : result error string;
  rand_suffix : result error string;
}.

Definition defaultPoolSizeMultiplier : Z := 10.
Definition defaultConcurrency : Z := 1.
Definition defaultClaimInterval : Duration := 30 * Second.
Definition defaultClaimMinIdle : Duration := 60 * Second.
Definition defaultMaxDeliveryAttempts : Z := 5.
Definition defaultShutdownTimeout : Duration := 30 * Second.

(** ** Backoff arithmetic *)

(** The [for range i] loop of [backoffUpperBound]: an early return, or the
    doubled bound after [n] iterations. *)
Fixpoint backoff_loop (maxB d : Duration) (n : nat) : Duration + Duration :=
  match n with
  | O => inr d
  | S n' => if maxB <=? d then inl maxB else backoff_loop maxB (wrap64 (d * 2)) n'
  end.

Definition backoffUpperBound (r : RetryConfig) (i : Z) : Duration :=
  match backoff_loop (MaxBackoff r) (InitialBackoff r) (Z.to_nat i) with
  | inl ret => ret
  | inr d => if MaxBackoff r <? d then MaxBackoff r else d
  end.

Definition worstCaseBackoff (r : RetryConfig) : Duration :=
  foldl (fun total i => wrap64 (total + backoffUpperBound r (Z.of_nat i))) 0
        (seq 0 (Z.to_nat (MaxImmediateRetries r))).

(** ** Validation and defaulting *)

Definition hex_digit (n : nat) : ascii :=
  if (n <? 10)%nat then ascii_of_nat (48 + n) else ascii_of_nat (87 + n).

(** [hex.EncodeToString] *)
Fixpoint hex_encode (s : string) : string :=
  match s with
  | EmptyString => EmptyString
  | String c s' =>
      String (hex_digit (nat_of_ascii c / 16)) (String (hex_digit (nat_of_ascii c mod 16)) (hex_encode s'))
  end.

Definition defaultConsumerName (p : Process) : result error string :=
  let host := match os_hostname p with
              | Err _ => "unknown"
              | Ok h => if String.eqb h "" then "unknown" else h
              end in
  match rand_suffix p with
  | Err e => Err (ErrFmt "generating consumer name suffix: %w" [inr e])
  | Ok suffix => Ok (host +:+ "-" +:+ hex_encode suffix)
  end.

Definition default_Z (z d : Z) : Z := if z =? 0 then d else z.
Definition default_string (s d : string) : string := if String.eqb s "" then d else s.
Definition default_ref (o : option ref) (d : ref) : option ref :=
  match o with None => Some d | Some _ => o end.

(** [StreamPrefix] and [Redis.PoolSize] are defaulted before the retry fields
    are checked. *)
Definition default_transport (p : Process) (c : Config) : Config :=
  let r := Redis c in
  mkConfig (cfg_Source c) (default_string (StreamPrefix c) "foi")
    (mkRedisConfig (Address r) (Username r) (Password r) (TLS r) (DB r)
       (default_Z (PoolSize r) (wrap64 (defaultPoolSizeMultiplier * gomaxprocs p))))
    (Consumer_ c) (Retry c) (Telemetry c).

Definition default_retry_telemetry (p : Process) (c : Config) : Config :=
  let rt := Retry c in
  let t := Telemetry c in
  mkConfig (cfg_Source c) (StreamPrefix c) (Redis c) (Consumer_ c)
    (mkRetryConfig (default_Z (MaxImmediateRetries rt) 3)
       (default_Z (InitialBackoff rt) (100 * Millisecond))
       (default_Z (MaxBackoff rt) (5 * Second)))
    (mkTelemetryConfig (default_ref (TracerProvider t) (otel_tracer_provider p))
       (default_ref (MeterProvider t) (otel_meter_provider p))
       (default_ref (Propagator t) (trace_context p))
       (default_ref (Logger t) (slog_default p)) (LogPayloads t)).

Definition Validate (p : Process) (c : Config) : Config * option error :=
  if String.eqb (cfg_Source c) "" then (c, Some (errorf "config: Source is required"))
  else if String.eqb (Address (Redis c)) "" then
    (c, Some (errorf "config: Redis.Address is required"))
  else
    let c := default_transport p c in
    if MaxImmediateRetries (Retry c) <? 0 then
      (c, Some (ErrFmt "config: Retry.MaxImmediateRetries must not be negative, got %d"
                  [inl (FInt (MaxImmediateRetries (Retry c)))]))
    else if InitialBackoff (Retry c) <? 0 then
      (c, Some (ErrFmt "config: Retry.InitialBackoff must not be negative, got %v"
                  [inl (FDur (InitialBackoff (Retry c)))]))
    else if MaxBackoff (Retry c) <? 0 then
      (c, Some (ErrFmt "config: Retry.MaxBackoff must not be negative, got %v"
                  [inl (FDur (MaxBackoff (Retry c)))]))
    else (default_retry_telemetry p c, None).

Definition set_consumer (c : Config) (cc : ConsumerConfig) : Config :=
  mkConfig (cfg_Source c) (StreamPrefix c) (Redis c) cc (Retry c) (Telemetry c).

Definition default_consumer (cc : ConsumerConfig) : ConsumerConfig :=
  mkConsumerConfig (Group cc) (ConsumerName cc)
    (default_Z (Concurrency cc) defaultConcurrency)
    (default_Z (ClaimInterval cc) defaultClaimInterval)
    (default_Z (ClaimMinIdle cc) defaultClaimMinIdle)
    (default_Z (MaxDeliveryAttempts cc) defaultMaxDeliveryAttempts)
    (default_Z (ShutdownTimeout cc) defaultShutdownTimeout).

Definition set_name (cc : ConsumerConfig) (name : string) : ConsumerConfig :=
  mkConsumerConfig (Group cc) name (Concurrency cc) (ClaimInterval cc) (ClaimMinIdle cc)
    (MaxDeliveryAttempts cc) (ShutdownTimeout cc).

Definition validateConsumer (p : Process) (c : Config) : Config * option error :=
  let cc := Consumer_ c in
  if String.eqb (Group cc) "" then
    (c, Some (errorf "config: Consumer.Group is required for consumers"))
  else if Concurrency cc <? 0 then
    (c, Some (ErrFmt "config: Consumer.Concurrency must not be negative, got %d"
                [inl (FInt (Concurrency cc))]))
  else if ClaimInterval cc <? 0 then
    (c, Some (ErrFmt "config: Consumer.ClaimInterval must not be negative, got %v"
                [inl (FDur (ClaimInterval cc))]))
  else if ClaimMinIdle cc <? 0 then
    (c, Some (ErrFmt "config: Consumer.ClaimMinIdle must not be negative, got %v"
                [inl (FDur (ClaimMinIdle cc))]))
  else if ShutdownTimeout cc <? 0 then
    (c, Some (ErrFmt "config: Consumer.ShutdownTimeout must not be negative, got %v"
                [inl (FDur (ShutdownTimeout cc))]))
  else
    let cc := default_consumer cc in
    let c := set_consumer c cc in
    if ClaimMinIdle cc <? ClaimInterval cc then
      (c, Some (ErrFmt "config: Consumer.ClaimMinIdle (%v) must be >= Consumer.ClaimInterval (%v)"
                  [inl (FDur (ClaimMinIdle cc)); inl (FDur (ClaimInterval cc))]))
    else
      let wc := worstCaseBackoff (Retry c) in
      if ClaimMinIdle cc <=? wc then
        (c, Some (ErrFmt "config: worst-case retry backoff (%v) must be < Consumer.ClaimMinIdle (%v); lower Retry.MaxImmediateRetries or Retry.MaxBackoff, or raise Consumer.ClaimMinIdle"
                    [inl (FDur wc); inl (FDur (ClaimMinIdle cc))]))
      else if String.eqb (ConsumerName cc) "" then
        match defaultConsumerName p with
        | Err e => (c, Some e)
        | Ok name => (set_consumer c (set_name cc name), None)
        end
      else (c, None).

(** The configuration [NewConsumer] runs with, or the error it returns. *)
Definition validate_for_consumer (p : Process) (c : Config) : result error Config :=
  match Validate p c with
  | (_, Some e) => Err (ErrFmt "invalid config: %w" [inr e])
  | (c', None) =>
      match validateConsumer p c' with
      | (_, Some e) => Err (ErrFmt "invalid config: %w" [inr e])
      | (c'', None) => Ok c''
      end
  end.

(** ** Lemmas on backoff *)

(** The bound the documentation gives: doubled per retry, capped. *)
Definition ideal_bound (r : RetryConfig) (i : nat) : Z :=
  Z.min (MaxBackoff r) (InitialBackoff r * 2 ^ Z.of_nat i).

Definition sum_Z (l : list Z) : Z := foldr Z.add 0 l.

Definition ideal_worst_case (r : RetryConfig) : Z :=
  sum_Z (map (ideal_bound r) (seq 0 (Z.to_nat (MaxImmediateRetries r)))).

(** Backoffs for which doubling below the cap cannot overflow: the cap is at
    most 2^62 ns, about 146 years. *)
Definition backoff_in_range (r : RetryConfig) : Prop :=
  0 <= InitialBackoff r <= int64_max /\ 0 <= MaxBackoff r <= 2 ^ 62.

Definition loop_result (maxB : Z) (x : Z + Z) : Z :=
  match x with inl ret => ret | inr d => if maxB <? d then maxB else d end.

Lemma backoff_loop_exact maxB d n :
  0 <= d <= int64_max -> 0 <= maxB <= 2 ^ 62 ->
  loop_result maxB (backoff_loop maxB d n) = Z.min maxB (d * 2 ^ Z.of_nat n).
Proof.
  revert d. induction n as [|n IH]; intros d Hd Hm; cbn [backoff_loop].
  - simpl. rewrite Z.mul_1_r. destruct (maxB <? d) eqn:E; to_prop; lia.
  - destruct (maxB <=? d) eqn:E; to_prop; cbn [loop_result].
    + pose proof (Z.pow_pos_nonneg 2 (Z.of_nat (S n)) ltac:(lia) ltac:(lia)). nia.
    + unfold_int64. rewrite wrap64_id by (unfold_int64; lia). rewrite IH by lia.
      rewrite Nat2Z.inj_succ, Z.pow_succ_r by lia. f_equal. lia.
Qed.

Lemma backoffUpperBound_ideal r i :
  backoff_in_range r -> backoffUpperBound r (Z.of_nat i) = ideal_bound r i.
Proof.
  intros [Hi Hm]. unfold backoffUpperBound. rewrite Nat2Z.id.
  by apply (backoff_loop_exact (MaxBackoff r) (InitialBackoff r) i).
Qed.

Lemma ideal_bound_range r i :
  backoff_in_range r -> 0 <= ideal_bound r i <= MaxBackoff r.
Proof.
  intros [Hi Hm]. unfold ideal_bound.
  pose proof (Z.pow_pos_nonneg 2 (Z.of_nat i) ltac:(lia) ltac:(lia)). nia.
Qed.

(** C39: [backoffUpperBound] is the documented bound, InitialBackoff doubled
    per retry and capped at MaxBackoff, exactly and without overflow, for every
    retry index, as long as the cap is at most 2^62 ns; it never exceeds the
    cap and never decreases from one retry to the next. *)
Theorem backoffUpperBound_exact (r : RetryConfig) (i : nat) :
  backoff_in_range r ->
  backoffUpperBound r (Z.of_nat i) = Z.min (MaxBackoff r) (InitialBackoff r * 2 ^ Z.of_nat i) /\
  0 <= backoffUpperBound r (Z.of_nat i) <= MaxBackoff r /\
  backoffUpperBound r (Z.of_nat i) <= backoffUpperBound r (Z.of_nat (S i)).
Proof.
  intros H. rewrite !backoffUpperBound_ideal by done.
  pose proof (ideal_bound_range r i H). split_and!; [done|lia..|].
  destruct H as [Hi Hm]. unfold ideal_bound. rewrite (Nat2Z.inj_succ i), Z.pow_succ_r by lia.
  pose proof (Z.pow_pos_nonneg 2 (Z.of_nat i) ltac:(lia) ltac:(lia)). nia.
Qed.

Lemma backoffUpperBound_exact_witness :
  let r := mkRetryConfig 3 (100 * Millisecond) (5 * Second) in
  backoff_in_range r /\
  backoffUpperBound r (Z.of_nat 6) = Z.min (MaxBackoff r) (InitialBackoff r * 2 ^ Z.of_nat 6) /\
  0 <= backoffUpperBound r (Z.of_nat 6) <= MaxBackoff r /\
  backoffUpperBound r (Z.of_nat 6) <= backoffUpperBound r (Z.of_nat 7).
Proof.
  intros r.
  assert (backoff_in_range r) as H by (by vm_compute).
  split; [exact H|exact (backoffUpperBound_exact r 6 H)].
Defined.

Lemma sum_Z_app l1 l2 : sum_Z (l1 ++ l2) = sum_Z l1 + sum_Z l2.
Proof. induction l1 as [|x l1 IH]; simpl; [done|]. unfold sum_Z in *. simpl. lia. Qed.

Lemma sum_Z_bounds l m :
  (forall x, x ∈ l -> 0 <= x <= m) -> 0 <= sum_Z l <= Z.of_nat (length l) * m.
Proof.
  induction l as [|x l IH]; intros H; unfold sum_Z in *; simpl; [lia|].
  pose proof (H x ltac:(left)). specialize (IH ltac:(intros y ?; apply H; by right)).
  rewrite Nat2Z.inj_succ. nia.
Qed.

Lemma fold_wrap_exact (f : nat -> Z) (l : list nat) acc :
  (forall x, x ∈ l -> 0 <= f x) -> 0 <= acc -> acc + sum_Z (map f l) <= int64_max ->
  foldl (fun total i => wrap64 (total + f i)) acc l = acc + sum_Z (map f l).
Proof.
  revert acc. induction l as [|x l IH]; intros acc Hf Hacc Hs; simpl; unfold sum_Z in *; simpl in *; [lia|].
  pose proof (Hf x ltac:(left)).
  assert (0 <= foldr Z.add 0 (map f l)) as Hrest.
  { clear -Hf. induction l as [|y l IH]; simpl; [done|].
    pose proof (Hf y ltac:(right; left)).
    specialize (IH ltac:(intros z Hz; apply Hf; apply elem_of_cons in Hz as [->|?]; [left|by right; right])).
    lia. }
  rewrite wrap64_id by (unfold_int64; lia). rewrite IH; [lia| |lia|lia].
  intros y ?. apply Hf. by right.
Qed.

Lemma worstCaseBackoff_exact r :
  backoff_in_range r -> MaxImmediateRetries r * MaxBackoff r <= int64_max ->
  worstCaseBackoff r = ideal_worst_case r.
Proof.
  intros Hr Hb. unfold worstCaseBackoff, ideal_worst_case.
  set (n := Z.to_nat (MaxImmediateRetries r)) in *.
  transitivity (0 + sum_Z (map (ideal_bound r) (seq 0 n))); [|lia].
  rewrite <-(fold_wrap_exact (ideal_bound r) (seq 0 n) 0).
  - generalize 0 as acc, (seq 0 n) as l. clear -Hr. intros acc l. revert acc.
    induction l as [|i l IH]; intros acc; simpl; [done|].
    by rewrite IH, backoffUpperBound_ideal.
  - intros x _. by apply ideal_bound_range.
  - done.
  - pose proof (sum_Z_bounds (map (ideal_bound r) (seq 0 n)) (MaxBackoff r)) as Hs.
    rewrite length_map, length_seq in Hs.
    destruct Hs as [_ Hs].
    { intros x Hx. apply list_elem_of_fmap in Hx as (i & -> & _). by apply ideal_bound_range. }
    destruct Hr as [_ Hm]. subst n. destruct (decide (0 <= MaxImmediateRetries r)).
    + rewrite Z2Nat.id in Hs by done. lia.
    + rewrite Z2Nat.nonpos in * by lia. unfold_int64. simpl in *. lia.
Qed.

(** ** Properties of validation *)

(** What a consumer configuration that passed validation guarantees to the
    rest of the library. *)
Record consumer_ready (c : Config) : Prop := {
  cr_source : cfg_Source c <> "";
  cr_address : Address (Redis c) <> "";
  cr_pool : PoolSize (Redis c) <> 0;
  cr_prefix : StreamPrefix c <> "";
  cr_group : Group (Consumer_ c) <> "";
  cr_name : ConsumerName (Consumer_ c) <> "";
  cr_concurrency : 0 < Concurrency (Consumer_ c);
  cr_claim : 0 < ClaimInterval (Consumer_ c) <= ClaimMinIdle (Consumer_ c);
  cr_shutdown : 0 < ShutdownTimeout (Consumer_ c);
  cr_cap : MaxDeliveryAttempts (Consumer_ c) <> 0;
  cr_retries : 0 < MaxImmediateRetries (Retry c);
  cr_initial : 0 < InitialBackoff (Retry c);
  cr_max : 0 < MaxBackoff (Retry c);
  cr_backoff : worstCaseBackoff (Retry c) < ClaimMinIdle (Consumer_ c);
  cr_telemetry : is_Some (TracerProvider (Telemetry c)) /\ is_Some (MeterProvider (Telemetry c)) /\
                 is_Some (Propagator (Telemetry c)) /\ is_Some (Logger (Telemetry c));
}.

(** The conditions on the caller's configuration under which it is accepted,
    stated on the values after defaulting. *)
Record accepted (p : Process) (c : Config) : Prop := {
  ac_source : cfg_Source c <> "";
  ac_address : Address (Redis c) <> "";
  ac_retry : 0 <= MaxImmediateRetries (Retry c) /\ 0 <= InitialBackoff (Retry c) /\
             0 <= MaxBackoff (Retry c);
  ac_group : Group (Consumer_ c) <> "";
  ac_consumer : 0 <= Concurrency (Consumer_ c) /\ 0 <= ClaimInterval (Consumer_ c) /\
                0 <= ClaimMinIdle (Consumer_ c) /\ 0 <= ShutdownTimeout (Consumer_ c);
  ac_claim : ClaimInterval (default_consumer (Consumer_ c)) <= ClaimMinIdle (default_consumer (Consumer_ c));
  ac_backoff : worstCaseBackoff (Retry (default_retry_telemetry p c)) <
               ClaimMinIdle (default_consumer (Consumer_ c));
  ac_name : ConsumerName (Consumer_ c) = "" -> is_ok (rand_suffix p) = true;
}.

Lemma default_Z_nonzero z d : d <> 0 -> default_Z z d <> 0.
Proof. unfold default_Z. destruct (z =? 0) eqn:E; to_prop; done. Qed.

Lemma default_Z_pos z d : 0 < d -> 0 <= z -> 0 < default_Z z d.
Proof. unfold default_Z. destruct (z =? 0) eqn:E; to_prop; lia. Qed.

Lemma default_Z_id z d : z <> 0 -> default_Z z d = z.
Proof. unfold default_Z. destruct (z =? 0) eqn:E; to_prop; done. Qed.

Lemma default_string_nonempty s d : d <> "" -> default_string s d <> "".
Proof. unfold default_string. destruct (String.eqb s "") eqn:E; to_prop; done. Qed.

Lemma default_string_id s d : s <> "" -> default_string s d = s.
Proof. unfold default_string. destruct (String.eqb s "") eqn:E; to_prop; done. Qed.

Lemma default_ref_some o d : is_Some (default_ref o d).
Proof. destruct o; simpl; eauto. Qed.

Lemma default_ref_id o d : is_Some o -> default_ref o d = o.
Proof. by intros [? ->]. Qed.

Lemma defaultConsumerName_nonempty p name : defaultConsumerName p = Ok name -> name <> "".
Proof.
  unfold defaultConsumerName. destruct (rand_suffix p); [|done]. intros [= <-].
  destruct (os_hostname p) as [h|]; [|done].
  destruct (String.eqb_spec h ""); [done|]. by destruct h.
Qed.

#[local] Hint Extern 1 (default_Z _ _ <> 0) => apply default_Z_nonzero; done : go.
#[local] Hint Extern 1 (0 < default_Z _ _) => apply default_Z_pos; done : go.
#[local] Hint Extern 1 (default_string _ _ <> "") => apply default_string_nonempty; done : go.
#[local] Hint Resolve default_ref_some : go.

(** The configuration an accepted one becomes. *)
Definition validated (p : Process) (c : Config) : option Config :=
  let c' := default_retry_telemetry p (default_transport p c) in
  let cc := default_consumer (Consumer_ c) in
  if String.eqb (ConsumerName cc) "" then
    match defaultConsumerName p with
    | Ok name => Some (set_consumer c' (set_name cc name))
    | Err _ => None
    end
  else Some (set_consumer c' cc).

Lemma validate_for_consumer_ok p c c' :
  validate_for_consumer p c = Ok c' <-> accepted p c /\ validated p c = Some c'.
Proof.
  unfold validate_for_consumer, Validate, validateConsumer, validated. split.
  - intros H. repeat (case_match; simplify_eq/=); to_prop;
      (split; [constructor; simpl in *; try (done || split_and!; lia || lia)|done]).
    all: try (intros; congruence). all: intros _; unfold defaultConsumerName in *; by repeat case_match.
  - intros [[] Hv]. destruct_and!.
    repeat (case_match; simplify_eq/=; to_prop; try (done || lia)).
Qed.

Lemma validated_ready p c c' :
  0 < gomaxprocs p < 2 ^ 32 -> accepted p c -> validated p c = Some c' -> consumer_ready c'.
Proof.
  intros Hg [? ? (? & ? & ?) ? (? & ? & ? & ?) ? ? ?] Hv.
  assert (wrap64 (defaultPoolSizeMultiplier * gomaxprocs p) <> 0) as Hpool.
  { unfold defaultPoolSizeMultiplier. rewrite wrap64_id by (unfold_int64; lia). lia. }
  unfold validated in Hv. simpl in Hv.
  destruct (String.eqb_spec (ConsumerName (Consumer_ c)) "") as [E|E];
    [destruct (defaultConsumerName p) as [name|] eqn:En; [apply defaultConsumerName_nonempty in En|done]|];
    injection Hv as <-;
    constructor; simpl; split_and?; auto with go.
Qed.

Lemma ready_fixpoint p c : consumer_ready c -> accepted p c /\ validated p c = Some c.
Proof.
  intros [H1 H2 Hp H3 H4 H5 H6 [H7 H7'] H8 H9 H10 H11 H12 H13 (H14 & H15 & H16 & H17)].
  destruct c as [src pre [addr un pw tls db pool] [g n conc ci cmi mda st] [mr ib mb] [tp mp pr lg lp]].
  simpl in *. split.
  - constructor; simpl; split_and?; try done; try lia;
      rewrite ?default_Z_id by lia; first [done|lia|by intros].
  - unfold validated, set_consumer, default_consumer, default_retry_telemetry, default_transport.
    simpl. rewrite !default_Z_id, !default_string_id, !default_ref_id by (done || lia).
    by destruct (String.eqb_spec n "").
Qed.

(** C38: [NewConsumer] accepts a configuration exactly when its required fields
    are set, no count or duration of the retry and reclaim settings is
    negative, the defaulted ClaimMinIdle is at least ClaimInterval and above
    the computed worst-case backoff, and a consumer name is given or can be
    generated; every accepted configuration has the guarantees of
    [consumer_ready], and validating it again, in any process, changes nothing. *)
Theorem consumer_config_accepted_iff (p p' : Process) (c : Config) :
  0 < gomaxprocs p < 2 ^ 32 ->
  ((exists c', validate_for_consumer p c = Ok c') <-> accepted p c) /\
  (forall c', validate_for_consumer p c = Ok c' ->
     consumer_ready c' /\ validate_for_consumer p' c' = Ok c').
Proof.
  intros Hg. setoid_rewrite validate_for_consumer_ok. split.
  - split; [by intros (? & ? & _)|]. intros Ha. pose proof (ac_name _ _ Ha) as Hn.
    unfold validated. simpl. destruct (String.eqb_spec (ConsumerName (Consumer_ c)) ""); [|eauto].
    unfold defaultConsumerName. destruct (rand_suffix p); [eauto|by specialize (Hn e)].
  - intros c' [Ha Hv]. pose proof (validated_ready _ _ _ Hg Ha Hv) as Hr.
    split; [done|]. by apply ready_fixpoint.
Qed.

(** A minimal consumer configuration, as the README gives it. *)
Definition minimal_config : Config :=
  mkConfig "billing.service" "" (mkRedisConfig "redis:6379" "" "" None 0 0)
    (mkConsumerConfig "billing-service" "" 0 0 0 0 0) (mkRetryConfig 0 0 0)
    (mkTelemetryConfig None None None None false).

Definition sample_process : Process :=
  mkProcess 8 1%nat 2%nat 3%nat 4%nat (Ok "host") (Ok "abc").

Lemma consumer_config_accepted_iff_witness :
  0 < gomaxprocs sample_process < 2 ^ 32 /\
  ((exists c', validate_for_consumer sample_process minimal_config = Ok c') <->
     accepted sample_process minimal_config) /\
  (forall c', validate_for_consumer sample_process minimal_config = Ok c' ->
     consumer_ready c' /\ validate_for_consumer sample_process c' = Ok c').
Proof.
  assert (0 < gomaxprocs sample_process < 2 ^ 32) as H by (simpl; lia).
  split; [exact H|].
  exact (consumer_config_accepted_iff sample_process sample_process minimal_config H).
Defined.

Example minimal_config_ok :
  is_ok (validate_for_consumer sample_process minimal_config) = true.
Proof. reflexivity. Qed.

Lemma validated_backoff p c c' :
  validate_for_consumer p c = Ok c' -> worstCaseBackoff (Retry c') < ClaimMinIdle (Consumer_ c').
Proof.
  intros [Ha Hv]%validate_for_consumer_ok. pose proof (ac_backoff _ _ Ha) as H.
  unfold validated in Hv. simpl in Hv. by repeat case_match; simplify_eq/=.
Qed.

(** The total of the documented retry bounds of an accepted configuration
    stays strictly below ClaimMinIdle, so backoff alone never lets an entry be
    reclaimed while it is still being retried, whenever the sum fits an
    [int64] and the cap is at most 2^62 ns. *)
Lemma accepted_backoff_below_claim (p : Process) (c c' : Config) :
  validate_for_consumer p c = Ok c' ->
  backoff_in_range (Retry c') ->
  MaxImmediateRetries (Retry c') * MaxBackoff (Retry c') <= int64_max ->
  ideal_worst_case (Retry c') < ClaimMinIdle (Consumer_ c').
Proof.
  intros Hv Hr Hb. rewrite <-worstCaseBackoff_exact by done. by eapply validated_backoff.
Qed.

Definition minimal_validated : Config :=
  match validate_for_consumer sample_process minimal_config with
  | Ok c => c
  | Err _ => minimal_config
  end.

(** Outside that range the guard can be defeated by overflow.  With
    InitialBackoff = MaxBackoff = 2^62 ns and three retries the sum wraps to a
    negative duration, the configuration is accepted, and the real worst-case
    backoff is far above ClaimMinIdle. *)
Lemma worst_case_overflow_accepted :
  exists (c c' : Config),
    validate_for_consumer sample_process c = Ok c' /\
    worstCaseBackoff (Retry c') < 0 /\
    ClaimMinIdle (Consumer_ c') < ideal_worst_case (Retry c').
Proof.
  set (c := mkConfig "s" "" (mkRedisConfig "a" "" "" None 0 0) (mkConsumerConfig "g" "n" 0 0 0 0 0)
              (mkRetryConfig 3 (2 ^ 62) (2 ^ 62)) (mkTelemetryConfig None None None None false)).
  exists c. eexists. split; [reflexivity|]. split; vm_compute; reflexivity.
Qed.
