(* ===== verification/GoDuration.v ===== *)
(** * Durations as the metrics record them

    [time.Since], which saturates, and [time.Duration.Seconds], which rounds to a
    float64.  Floats are those of the Standard Library's specification of
    binary64. *)

From S2P Require Import Prelude Validation Config.
From Stdlib Require Export SpecFloat.
From stdpp Require Import options.

Definition float64 : Type := spec_float.

(** [float64(n)] of an integer. *)
Definition float_of (n : Z) : float64 := binary_normalize 53 1024 n 0 false.

Definition fadd : float64 -> float64 -> float64 := SFadd 53 1024.
Definition fdiv : float64 -> float64 -> float64 := SFdiv 53 1024.
Definition fzero : float64 := S754_zero false.

(** [Time.Sub] saturates at the ends of int64. *)
Definition saturate (d : Z) : Duration := Z.max int64_min (Z.min int64_max d).

Definition Since (now t : Time) : Duration := saturate (now - t).

Definition Seconds (d : Duration) : float64 :=
  let sec := Z.quot d Second in
  let nsec := Z.rem d Second in
  fadd (float_of sec) (fdiv (float_of nsec) (float_of 1000000000)).

Lemma Since_range now t : in_int64 (Since now t).
Proof. unfold Since, saturate. unfold_int64. lia. Qed.

(** ** The sign of a number of seconds *)

(** Full mantissas: what rounding leaves of numbers that are not too small. *)
Definition normal (sx : bool) (low : Z) (f : float64) : Prop :=
  f = S754_infinity sx \/
  exists m e, f = S754_finite sx m e /\ 2 ^ 52 <= Zpos m < 2 ^ 53 /\ low <= e.

Lemma normal_mono sx low low' f : normal sx low f -> low' <= low -> normal sx low' f.
Proof. intros [->|(m & e & -> & Hm & He)] Hl; [by left|right]. exists m, e. split_and!; try done; lia. Qed.

Lemma digits_pos (p : positive) : 2 ^ (Zpos (digits2_pos p) - 1) <= Zpos p < 2 ^ Zpos (digits2_pos p).
Proof.
  assert (forall q, 2 ^ (Zpos (Pos.succ q) - 1) = 2 * 2 ^ (Zpos q - 1) /\ 2 ^ Zpos (Pos.succ q) = 2 * 2 ^ Zpos q) as Hs.
  { intros q. split; rewrite <-Z.pow_succ_r by lia; f_equal; lia. }
  induction p as [p IH|p IH|]; simpl digits2_pos; [destruct (Hs (digits2_pos p)) as [-> ->]; lia..|by vm_compute].
Qed.

Lemma digits_of m d : 2 ^ (d - 1) <= Zpos m < 2 ^ d -> Zpos (digits2_pos m) = d.
Proof.
  intros [H1 H2]. destruct (digits_pos m) as [H3 H4].
  destruct (Z.lt_trichotomy (Zpos (digits2_pos m)) d) as [Hlt|[->|Hlt]]; [|done|].
  - assert (2 ^ Zpos (digits2_pos m) <= 2 ^ (d - 1)) by (apply Z.pow_le_mono_r; lia). lia.
  - assert (2 ^ d <= 2 ^ (Zpos (digits2_pos m) - 1)) by (apply Z.pow_le_mono_r; lia). lia.
Qed.

Lemma shr_1_half r : 0 <= shr_m r -> shr_m (shr_1 r) = shr_m r / 2.
Proof.
  destruct r as [m r s]. simpl. intros Hm. destruct m as [|[p|p|]|p]; simpl; try done; try lia.
  - rewrite Pos2Z.inj_xI. rewrite <-Z.div2_div. by rewrite <-Pos2Z.inj_xI.
  - rewrite <-Z.div2_div. done.
Qed.

Lemma pow_xO p : 2 ^ Zpos (xO p) = 2 ^ Zpos p * 2 ^ Zpos p.
Proof. rewrite <-Z.pow_add_r by lia. f_equal. lia. Qed.

Lemma pow_xI p : 2 ^ Zpos (xI p) = 2 * 2 ^ Zpos p * 2 ^ Zpos p.
Proof. rewrite <-Z.pow_succ_r, <-Z.pow_add_r by lia. f_equal. lia. Qed.

Lemma shr_shifts p r : 0 <= shr_m r -> shr_m (iter_pos shr_1 p r) = shr_m r / 2 ^ Zpos p.
Proof.
  assert (forall q, 0 < 2 ^ Zpos q) as Hp by (intros; apply Z.pow_pos_nonneg; lia).
  revert r. induction p as [p IH|p IH|]; intros r Hr; simpl iter_pos.
  - pose proof (Hp p). assert (0 <= shr_m (shr_1 r)) as H1 by (rewrite shr_1_half by done; by apply Z.div_pos).
    assert (0 <= shr_m (iter_pos shr_1 p (shr_1 r))) as H2 by (rewrite IH by done; apply Z.div_pos; lia).
    rewrite !IH, shr_1_half by done. rewrite pow_xI, !Z.div_div by lia. by rewrite Z.mul_assoc.
  - pose proof (Hp p). assert (0 <= shr_m (iter_pos shr_1 p r)) as H2 by (rewrite IH by done; apply Z.div_pos; lia).
    rewrite !IH by done. rewrite pow_xO, !Z.div_div by lia. done.
  - by rewrite shr_1_half.
Qed.

Lemma shr_shift r e n : 0 <= shr_m r -> 0 <= n -> shr_m (shr r e n).1 = shr_m r / 2 ^ n /\ (shr r e n).2 = e + n.
Proof.
  intros Hr Hn. destruct n as [|p|p]; [|by rewrite <-shr_shifts|lia]. simpl. split; [by rewrite Z.div_1_r|lia].
Qed.

Lemma record_m m l : shr_m (shr_record_of_loc m l) = m.
Proof. by destruct l as [|[]]. Qed.

Lemma fexp_high e : -1074 <= e - 53 -> fexp 53 1024 e = e - 53.
Proof. unfold fexp, emin. lia. Qed.

(** Rounding to 53 bits. *)
Lemma shr_fexp_high m e l d :
  2 ^ (d - 1) <= Zpos m < 2 ^ d -> 53 <= d -> -1074 <= e ->
  shr_m (shr_fexp 53 1024 (Zpos m) e l).1 = Zpos m / 2 ^ (d - 53) /\ (shr_fexp 53 1024 (Zpos m) e l).2 = e + (d - 53).
Proof.
  intros Hm Hd He. unfold shr_fexp. simpl Zdigits2. rewrite (digits_of m d Hm), fexp_high by lia.
  replace (d + e - 53 - e) with (d - 53) by lia. rewrite <-(record_m (Zpos m) l) at 2. apply shr_shift; [|lia].
  by rewrite record_m.
Qed.

Lemma round_normal sx m ex l :
  2 ^ 52 <= Zpos m -> -1074 <= ex -> normal sx ex (binary_round_aux 53 1024 sx (Zpos m) ex l).
Proof.
  intros Hm Hex. set (d := Zpos (digits2_pos m)). pose proof (digits_pos m) as Hd. fold d in Hd.
  assert (53 <= d) as Hd53.
  { destruct (Z.le_gt_cases 53 d) as [|Hlt]; [done|]. assert (2 ^ d <= 2 ^ 52) by (apply Z.pow_le_mono_r; lia). lia. }
  unfold binary_round_aux. destruct (shr_fexp_high m ex l d Hd Hd53 Hex) as [H1 H2].
  destruct (shr_fexp _ _ (Zpos m) ex l) as [r1 e1]. simpl in H1, H2. subst e1.
  assert (2 ^ 52 <= shr_m r1 < 2 ^ 53) as Hr1.
  { rewrite H1. assert (0 < 2 ^ (d - 53)) by (apply Z.pow_pos_nonneg; lia). split.
    - apply Z.div_le_lower_bound; [done|]. rewrite <-Z.pow_add_r by lia. replace (d - 53 + 52) with (d - 1) by lia. apply Hd.
    - apply Z.div_lt_upper_bound; [done|]. rewrite <-Z.pow_add_r by lia. replace (d - 53 + 53) with d by lia. apply Hd. }
  assert (2 ^ 52 <= round_nearest_even (shr_m r1) (loc_of_shr_record r1) <= 2 ^ 53) as Hr.
  { unfold round_nearest_even. repeat case_match; lia. }
  clearbody d. generalize dependent (round_nearest_even (shr_m r1) (loc_of_shr_record r1)). intros r Hr.
  destruct r as [|p|p]; [lia| |lia].
  assert (exists d', 2 ^ (d' - 1) <= Zpos p < 2 ^ d' /\ 53 <= d' /\ 2 ^ 52 <= Zpos p / 2 ^ (d' - 53) < 2 ^ 53)
    as (d' & Hp & Hd' & Hq).
  { destruct (decide (Zpos p = 2 ^ 53)) as [->|]; [exists 54; by vm_compute|]. exists 53. rewrite Z.div_1_r.
    change (53 - 1) with 52. lia. }
  destruct (shr_fexp_high p (ex + (d - 53)) loc_Exact d' Hp Hd') as [H3 H4]; [lia|].
  destruct (shr_fexp _ _ (Zpos p) _ loc_Exact) as [r2 e2]. simpl in H3, H4. rewrite H3.
  destruct (Zpos p / _) as [|q|q]; [lia| |lia]. destruct (_ <=? _); [right|by left].
  exists q, e2. split_and!; try done; lia.
Qed.

Lemma iter_xO p n : Zpos (Pos.iter xO p n) = Zpos p * 2 ^ Zpos n.
Proof.
  induction n as [|n IH] using Pos.peano_ind; [simpl; lia|]. rewrite Pos.iter_succ, Pos2Z.inj_xO, IH, Pos2Z.inj_succ.
  rewrite Z.pow_succ_r by lia. lia.
Qed.

Lemma float_of_normal sx p : normal sx (-52) (float_of (if sx then Zneg p else Zpos p)).
Proof.
  assert (normal sx (-52) (binary_round 53 1024 sx p 0)) as H; [|by destruct sx].
  unfold binary_round, shl_align. rewrite Z.add_0_r, Z.sub_0_r. pose proof (digits_pos p) as Hp.
  set (d := Zpos (digits2_pos p)) in *. assert (1 <= d) by (unfold d; lia). clearbody d.
  rewrite fexp_high by lia. destruct (Z.lt_ge_cases d 53) as [Hd|Hd].
  - destruct (d - 53) as [|q|q] eqn:He; [lia..|]. eapply normal_mono; [apply round_normal; [|lia]|lia].
    rewrite iter_xO. replace (Zpos q) with (53 - d) by lia. etrans; [|apply Z.mul_le_mono_nonneg_r; [|apply Hp]].
    + rewrite <-Z.pow_add_r by lia. apply Z.pow_le_mono_r; lia.
    + apply Z.pow_nonneg. lia.
  - assert (2 ^ 52 <= Zpos p) as Hp52.
    { etrans; [|apply Hp]. apply Z.pow_le_mono_r; lia. }
    destruct (d - 53) as [|q|q] eqn:He; [| |lia]; (eapply normal_mono; [apply round_normal; [done|lia]|lia]).
Qed.

(** 1e9 as a float64. *)
Lemma float_of_billion : float_of 1000000000 = S754_finite false 8388608000000000 (-23).
Proof. vm_compute. reflexivity. Qed.

Lemma fdiv_billion sx f : normal sx (-52) f -> normal sx (-1000) (fdiv f (float_of 1000000000)).
Proof.
  rewrite float_of_billion. intros [->|(m & e & -> & Hm & He)]; [left; by destruct sx|].
  unfold fdiv, SFdiv, SFdiv_core_binary. simpl Zdigits2. rewrite (digits_of m 53) by (change (53 - 1) with 52; lia).
  rewrite fexp_high by lia.
  replace (Z.min _ _) with (e + 23 - 53) by lia. replace (e - -23 - (e + 23 - 53)) with 53 by lia. cbv iota beta.
  destruct (Z.div_eucl (Z.shiftl (Zpos m) 53) 8388608000000000) as [q r] eqn:Hq.
  assert (q = Zpos m * 2 ^ 53 / 8388608000000000) as Hq'.
  { rewrite <-Z.shiftl_mul_pow2 by lia. unfold Z.div. by rewrite Hq. }
  assert (2 ^ 52 <= q) as Hq52 by (rewrite Hq'; apply Z.div_le_lower_bound; lia).
  destruct q as [|q|q]; [lia| |lia]. rewrite xorb_false_r.
  eapply normal_mono; [apply round_normal; [done|lia]|lia].
Qed.

(** The larger exponent is lowered to the other. *)
Lemma align_grows m e e' : Zpos m <= Zpos (shl_align m e e').1.
Proof.
  unfold shl_align. destruct (e' - e) as [|q|q]; simpl; [lia..|]. rewrite iter_xO.
  assert (0 < 2 ^ Zpos q) by (apply Z.pow_pos_nonneg; lia). nia.
Qed.

Lemma fadd_normal sx low f g : -1074 <= low -> normal sx low f -> normal sx low g -> normal sx low (fadd f g).
Proof.
  intros Hlow [->|(m & e & -> & Hm & He)] [->|(m' & e' & -> & Hm' & He')]; [left; by destruct sx|by left..|].
  unfold fadd, SFadd. set (ez := Z.min e e'). pose proof (align_grows m e ez) as Ha. pose proof (align_grows m' e' ez) as Hb.
  set (a := (shl_align m e ez).1) in *. set (b := (shl_align m' e' ez).1) in *.
  assert (normal sx low (binary_round 53 1024 sx (a + b) ez)) as H; [|by destruct sx].
  unfold binary_round, shl_align. pose proof (digits_pos (a + b)) as Hd. set (d := Zpos (digits2_pos (a + b))) in *.
  assert (53 <= d) as Hd53.
  { destruct (Z.le_gt_cases 53 d) as [|Hlt]; [done|]. assert (2 ^ d <= 2 ^ 52) by (apply Z.pow_le_mono_r; lia). lia. }
  clearbody d a b. rewrite fexp_high by (unfold ez; lia).
  destruct (d + ez - 53 - ez) as [|q|q] eqn:He0; [| |lia];
    (eapply normal_mono; [apply round_normal; [lia|unfold ez; lia]|unfold ez; lia]).
Qed.

Lemma fadd_zero_l sx low f : normal sx low f -> fadd fzero f = f.
Proof. by intros [->|(m & e & -> & _)]. Qed.

Lemma fadd_zero_r sx low f : normal sx low f -> fadd f fzero = f.
Proof. by intros [->|(m & e & -> & _)]. Qed.

(** A duration that is not zero is a number of seconds with its sign. *)
Lemma Seconds_normal d : d <> 0 -> normal (d <? 0) (-1000) (Seconds d).
Proof.
  intros Hd. unfold Seconds.
  assert (forall z, z <> 0 -> (d < 0 -> z < 0) -> (0 < d -> 0 < z) -> normal (d <? 0) (-52) (float_of z)) as Hf.
  { intros z Hz Hneg Hpos. destruct (Z.ltb_spec d 0).
    - destruct z as [|p|p]; [done|lia|]. apply (float_of_normal true).
    - destruct z as [|p|p]; [done| |lia]. apply (float_of_normal false). }
  pose proof (Z.quot_rem' d Second) as Hqr. change Second with 1000000000 in *.
  assert (d < 0 -> Z.quot d 1000000000 <= 0 /\ Z.rem d 1000000000 <= 0) as Hneg.
  { intros Hd0. split; [apply Z.opp_nonneg_nonpos; rewrite <-Z.quot_opp_l by lia; apply Z.quot_pos; lia|].
    apply Z.rem_nonpos; lia. }
  assert (0 < d -> 0 <= Z.quot d 1000000000 /\ 0 <= Z.rem d 1000000000) as Hpos.
  { intros Hd0. split; [apply Z.quot_pos; lia|apply Z.rem_nonneg; lia]. }
  destruct (decide (Z.rem d 1000000000 = 0)) as [Hr|Hr].
  - rewrite Hr. change (fdiv (float_of 0) (float_of 1000000000)) with fzero.
    assert (normal (d <? 0) (-52) (float_of (Z.quot d 1000000000))) as Hs by (apply Hf; lia).
    rewrite (fadd_zero_r _ _ _ Hs). eapply normal_mono; [exact Hs|lia].
  - assert (normal (d <? 0) (-1000) (fdiv (float_of (Z.rem d 1000000000)) (float_of 1000000000))) as Hn
      by (apply fdiv_billion, Hf; lia).
    destruct (decide (Z.quot d 1000000000 = 0)) as [Hq|Hq].
    + rewrite Hq. change (float_of 0) with fzero. by rewrite (fadd_zero_l _ _ _ Hn).
    + apply fadd_normal; [lia| |done]. eapply normal_mono; [apply Hf; lia|lia].
Qed.

Lemma Seconds_negative d : SFltb (Seconds d) fzero = (d <? 0).
Proof.
  destruct (decide (d = 0)) as [->|Hd]; [by vm_compute|].
  destruct (Seconds_normal d Hd) as [->|(m & e & -> & _)]; by destruct (d <? 0).
Qed.

Lemma Seconds_nonnegative d : 0 <= d -> SFleb fzero (Seconds d) = true.
Proof.
  intros Hd0. destruct (decide (d = 0)) as [->|Hd]; [by vm_compute|].
  destruct (Seconds_normal d Hd) as [->|(m & e & -> & _)]; (destruct (Z.ltb_spec d 0); [lia|done]).
Qed.

Example half_a_second : Seconds 500000000 = S754_finite false 4503599627370496 (-53).
Proof. vm_compute. reflexivity. Qed.
