(* ===== verification/Runtime.v ===== *)
(** * Effects: the environment, contexts, and the program monad

    Everything outside the library (the clock, randomness, cancellation, Redis
    through the third-party clients, application handlers) acts on an abstract
    environment state [E] through the class [Env].  What the library itself
    does that an observer can see (metrics, spans, log lines, handler calls,
    stream writes, sleeps) is recorded as a list of [event]s, in order.

    [M S A] is a computation over a state [S] that returns or panics and emits
    events; [with_defer] is Go's [defer]. *)

From S2P Require Import Prelude GoErrors Validation Config GoDuration.
From stdpp Require Import options.

(** ** Observable events *)

Inductive attr_val :=
| AStr (s : string)
| AInt (z : Z)
| AErr (e : error).

Definition attrs : Type := list (string * attr_val).

Inductive span_code := CodeUnset | CodeError | CodeOk.
Inductive level := LevelDebug | LevelInfo | LevelWarn | LevelError.

#[global] Instance span_code_eq_dec : EqDecision span_code.
Proof. solve_decision. Defined.

Inductive event :=
| EAdd (name : string) (a : attrs)                      (* counter Add(1) *)
| ERecord (name : string) (v : float64) (a : attrs)     (* histogram Record *)
| ESpanStart (span : nat) (name : string) (a : attrs)
| ESpanAttrs (span : nat) (a : attrs)
| ESpanEvent (span : nat) (name : string) (a : attrs)
| ESpanError (span : nat) (e : error)
| ESpanStatus (span : nat) (code : span_code) (desc : string)
| ESpanEnd (span : nat)
| ELog (l : level) (msg : string) (a : attrs)
| EHandler (correlation : option string) (env : Envelope string) (* a handler call *)
| EReturn (err : option error)                          (* and its return *)
| EDecode (payload : string)                            (* an envelope decode *)
| EWrite (stream body : string) (err : option error)    (* a stream write *)
| ESleep (upper : Duration).

(** ** Computations

    [OutOfFuel] is the outcome of a loop whose fuel ran out; theorems show it
    is never reached. *)

Inductive outcome (A : Type) :=
| Ret (a : A)
| Panic (v : string)
| OutOfFuel.
Arguments Ret {A}.
Arguments Panic {A}.
Arguments OutOfFuel {A}.

(** What a call of application code does: return an error value, or panic. *)
Inductive handled :=
| Returned (err : option error)
| Panicked (v : string).

Definition M (S A : Type) : Type := S -> outcome A * S * list event.

Section monad.
Context {S : Type}.

Definition ret {A} (a : A) : M S A := fun s => (Ret a, s, []).

Definition bind {A B} (m : M S A) (k : A -> M S B) : M S B :=
  fun s =>
    let '(o, s1, t1) := m s in
    match o with
    | Ret a => let '(o2, s2, t2) := k a s1 in (o2, s2, t1 ++ t2)
    | Panic v => (Panic v, s1, t1)
    | OutOfFuel => (OutOfFuel, s1, t1)
    end.

Definition get : M S S := fun s => (Ret s, s, []).
Definition modify (f : S -> S) : M S unit := fun s => (Ret tt, f s, []).
Definition emit (e : event) : M S unit := fun s => (Ret tt, s, [e]).
Definition emits (es : list event) : M S unit := fun s => (Ret tt, s, es).
Definition panic {A} (v : string) : M S A := fun s => (Panic v, s, []).
Definition out_of_fuel {A} : M S A := fun s => (OutOfFuel, s, []).

(** [defer d] in a body [m]: [d] runs after [m] whether it returns or
    panics, and the outcome is that of [m]. *)
Definition with_defer {A} (m : M S A) (d : M S unit) : M S A :=
  fun s =>
    let '(o, s1, t1) := m s in
    let '(od, s2, t2) := d s1 in
    match od with
    | Ret _ => (o, s2, t1 ++ t2)
    | Panic v => (Panic v, s2, t1 ++ t2)
    | OutOfFuel => (OutOfFuel, s2, t1 ++ t2)
    end.
End monad.

Declare Scope prog_scope.
Delimit Scope prog_scope with prog.
Notation "x <- m ;; k" := (bind m (fun x => k))
  (at level 100, m at next level, k at level 200, right associativity) : prog_scope.
Notation "m ;; k" := (bind m (fun _ => k))
  (at level 100, k at level 200, right associativity) : prog_scope.
#[global] Open Scope prog_scope.

(** ** Inverting a run

    [minv H] decomposes a run [H : m s = (o, s', t)] of a program into the runs
    of its steps, discarding the outcomes a step cannot have. *)

Section inversion.
Context {S : Type}.

Lemma bind_inv {A B} (m : M S A) (k : A -> M S B) s o s' t :
  bind m k s = (o, s', t) ->
  (exists a s1 t1 t2, m s = (Ret a, s1, t1) /\ k a s1 = (o, s', t2) /\ t = t1 ++ t2) \/
  (exists v, m s = (Panic v, s', t) /\ o = Panic v) \/
  (m s = (OutOfFuel, s', t) /\ o = OutOfFuel).
Proof.
  unfold bind. destruct (m s) as [[[a|v|] s1] t1].
  - destruct (k a s1) as [[o2 s2] t2] eqn:E. intros [= <- <- <-]. left. eauto 10.
  - intros [= <- <- <-]. right; left. eauto.
  - intros [= <- <- <-]. by right; right.
Qed.

Lemma ret_inv {A} (a : A) (s : S) o s' t :
  ret a s = (o, s', t) -> o = Ret a /\ s' = s /\ t = [].
Proof. by intros [= <- <- <-]. Qed.

Lemma get_inv (s : S) o s' t : get s = (o, s', t) -> o = Ret s /\ s' = s /\ t = [].
Proof. by intros [= <- <- <-]. Qed.

Lemma modify_inv (f : S -> S) s o s' t :
  modify f s = (o, s', t) -> o = Ret tt /\ s' = f s /\ t = [].
Proof. by intros [= <- <- <-]. Qed.

Lemma emit_inv e (s : S) o s' t : emit e s = (o, s', t) -> o = Ret tt /\ s' = s /\ t = [e].
Proof. by intros [= <- <- <-]. Qed.

Lemma panic_inv {A} v (s : S) (o : outcome A) s' t :
  panic v s = (o, s', t) -> o = Panic v /\ s' = s /\ t = [].
Proof. by intros [= <- <- <-]. Qed.

Lemma out_of_fuel_inv {A} (s : S) (o : outcome A) s' t :
  out_of_fuel s = (o, s', t) -> o = OutOfFuel /\ s' = s /\ t = [].
Proof. by intros [= <- <- <-]. Qed.
End inversion.

(** The same, forwards. *)
Lemma bind_ret {S A B} (m : M S A) (k : A -> M S B) s a s1 t1 o s' t2 :
  m s = (Ret a, s1, t1) -> k a s1 = (o, s', t2) -> bind m k s = (o, s', t1 ++ t2).
Proof. unfold bind. by intros -> ->. Qed.

Lemma emit_bind {S A} e (k : unit -> M S A) s o s' t :
  k tt s = (o, s', t) -> bind (emit e) k s = (o, s', e :: t).
Proof. unfold bind, emit. by intros ->. Qed.

Ltac minv_prim H :=
  match type of H with
  | ret _ _ = _ => apply ret_inv in H
  | get _ = _ => apply get_inv in H
  | modify _ _ = _ => apply modify_inv in H
  | emit _ _ = _ => apply emit_inv in H
  | panic _ _ = _ => apply panic_inv in H
  | out_of_fuel _ = _ => apply out_of_fuel_inv in H
  end; destruct H as (? & ? & ?).

Ltac minv H :=
  match type of H with
  | bind _ _ _ = _ =>
      let H1 := fresh H in let H2 := fresh H in let E := fresh in
      apply bind_inv in H as [(? & ? & ? & ? & H1 & H2 & E)|[(? & H1 & E)|[H1 E]]];
      [minv H1; subst; minv H2|minv H1; try discriminate; subst..]
  | _ => minv_prim H; simplify_eq
  | _ => idtac
  end.

(** ** What a trace shows *)

Section projections.
Implicit Types (t : list event).

Fixpoint metrics t : list string :=
  match t with [] => [] | EAdd n _ :: t => n :: metrics t | _ :: t => metrics t end.
Fixpoint observations t : list string :=
  match t with [] => [] | ERecord n _ _ :: t => n :: observations t | _ :: t => observations t end.
Fixpoint writes t : list (string * string * option error) :=
  match t with [] => [] | EWrite s b err :: t => (s, b, err) :: writes t | _ :: t => writes t end.
Fixpoint calls t : list (option string * Envelope string) :=
  match t with [] => [] | EHandler corr env :: t => (corr, env) :: calls t | _ :: t => calls t end.
Fixpoint returns t : list (option error) :=
  match t with [] => [] | EReturn err :: t => err :: returns t | _ :: t => returns t end.
Fixpoint decodes t : list string :=
  match t with [] => [] | EDecode p :: t => p :: decodes t | _ :: t => decodes t end.
Fixpoint sleeps t : list Z :=
  match t with [] => [] | ESleep d :: t => d :: sleeps t | _ :: t => sleeps t end.
Fixpoint span_starts t : list nat :=
  match t with [] => [] | ESpanStart n _ _ :: t => n :: span_starts t | _ :: t => span_starts t end.
Fixpoint span_ends t : list nat :=
  match t with [] => [] | ESpanEnd n :: t => n :: span_ends t | _ :: t => span_ends t end.
Fixpoint span_statuses t : list (span_code * string) :=
  match t with [] => [] | ESpanStatus _ c d :: t => (c, d) :: span_statuses t | _ :: t => span_statuses t end.

Lemma metrics_app t1 t2 : metrics (t1 ++ t2) = metrics t1 ++ metrics t2.
Proof. induction t1 as [|[] t1 IH]; simpl; by rewrite ?IH. Qed.
Lemma observations_app t1 t2 : observations (t1 ++ t2) = observations t1 ++ observations t2.
Proof. induction t1 as [|[] t1 IH]; simpl; by rewrite ?IH. Qed.
Lemma writes_app t1 t2 : writes (t1 ++ t2) = writes t1 ++ writes t2.
Proof. induction t1 as [|[] t1 IH]; simpl; by rewrite ?IH. Qed.
Lemma calls_app t1 t2 : calls (t1 ++ t2) = calls t1 ++ calls t2.
Proof. induction t1 as [|[] t1 IH]; simpl; by rewrite ?IH. Qed.
Lemma returns_app t1 t2 : returns (t1 ++ t2) = returns t1 ++ returns t2.
Proof. induction t1 as [|[] t1 IH]; simpl; by rewrite ?IH. Qed.
Lemma decodes_app t1 t2 : decodes (t1 ++ t2) = decodes t1 ++ decodes t2.
Proof. induction t1 as [|[] t1 IH]; simpl; by rewrite ?IH. Qed.
Lemma sleeps_app t1 t2 : sleeps (t1 ++ t2) = sleeps t1 ++ sleeps t2.
Proof. induction t1 as [|[] t1 IH]; simpl; by rewrite ?IH. Qed.
Lemma span_starts_app t1 t2 : span_starts (t1 ++ t2) = span_starts t1 ++ span_starts t2.
Proof. induction t1 as [|[] t1 IH]; simpl; by rewrite ?IH. Qed.
Lemma span_ends_app t1 t2 : span_ends (t1 ++ t2) = span_ends t1 ++ span_ends t2.
Proof. induction t1 as [|[] t1 IH]; simpl; by rewrite ?IH. Qed.
Lemma span_statuses_app t1 t2 : span_statuses (t1 ++ t2) = span_statuses t1 ++ span_statuses t2.
Proof. induction t1 as [|[] t1 IH]; simpl; by rewrite ?IH. Qed.
End projections.

Create Rewrite HintDb trace.
#[export] Hint Rewrite metrics_app observations_app writes_app calls_app returns_app decodes_app
  sleeps_app span_starts_app span_ends_app span_statuses_app : trace.

(** Distribute the projections over appended traces and use what is known of
    the parts. *)
Ltac trace_tac :=
  simpl; autorewrite with trace; simpl;
  repeat match goal with
  | t : list event, H : ?f ?t = _ |- context [?f ?t] => rewrite H
  end;
  rewrite ?app_nil_r; simpl; try done.

(** ** A program logic for traces

    [holds I P m]: from a state satisfying [I], however [m] ends, the state
    satisfies [I] again and every event emitted satisfies [P]. *)

Definition holds {S A} (I : S -> Prop) (P : event -> Prop) (m : M S A) : Prop :=
  forall s, I s -> let '(o, s', t) := m s in I s' /\ Forall P t.

Create HintDb holds.

Section holds.
Context {S : Type} (I : S -> Prop) (P : event -> Prop).

Lemma holds_ret {A} (a : A) : holds I P (ret a).
Proof. by intros s Hs. Qed.

Lemma holds_panic {A} v : holds I P (panic (A := A) v).
Proof. by intros s Hs. Qed.

Lemma holds_out_of_fuel {A} : holds I P (out_of_fuel (A := A)).
Proof. by intros s Hs. Qed.

Lemma holds_emit e : P e -> holds I P (emit e).
Proof. intros He s Hs. simpl. auto. Qed.

Lemma holds_modify f : (forall s, I s -> I (f s)) -> holds I P (modify f).
Proof. intros Hf s Hs. simpl. auto. Qed.

Lemma holds_bind {A B} (m : M S A) (k : A -> M S B) :
  holds I P m -> (forall a, holds I P (k a)) -> holds I P (bind m k).
Proof.
  intros Hm Hk s Hs. unfold bind. specialize (Hm s Hs).
  destruct (m s) as [[[a|v|] s1] t1]; [|done..]. destruct Hm as [Hs1 Ht1].
  specialize (Hk a s1 Hs1). destruct (k a s1) as [[o s2] t2]. destruct Hk as [Hs2 Ht2].
  split; [done|]. by apply Forall_app.
Qed.

Lemma holds_with_defer {A} (m : M S A) d :
  holds I P m -> holds I P d -> holds I P (with_defer m d).
Proof.
  intros Hm Hd s Hs. unfold with_defer. specialize (Hm s Hs).
  destruct (m s) as [[o s1] t1]. destruct Hm as [Hs1 Ht1].
  specialize (Hd s1 Hs1). destruct (d s1) as [[od s2] t2]. destruct Hd as [Hs2 Ht2].
  destruct od; (split; [done|by apply Forall_app]).
Qed.

Lemma holds_if {A} (b : bool) (m1 m2 : M S A) :
  holds I P m1 -> holds I P m2 -> holds I P (if b then m1 else m2).
Proof. by destruct b. Qed.
End holds.

#[export] Hint Resolve holds_ret holds_panic holds_out_of_fuel holds_if : holds.

(** [respects R m]: however [m] ends, the state before, the state after and the
    events emitted are related by [R], which holds of doing nothing and of two
    computations in a row. *)

Class Trail {S} (R : S -> S -> list event -> Prop) := {
  trail_refl s : R s s [];
  trail_app s1 s2 s3 t1 t2 : R s1 s2 t1 -> R s2 s3 t2 -> R s1 s3 (t1 ++ t2);
}.

Definition respects {S A} (R : S -> S -> list event -> Prop) (m : M S A) : Prop :=
  forall s, R s (m s).1.2 (m s).2.

Create HintDb respects.

Section respects.
Context {S : Type} (R : S -> S -> list event -> Prop) `{!Trail R}.

Lemma respects_ret {A} (a : A) : respects R (ret a).
Proof using Type*. intros s. apply trail_refl. Qed.

Lemma respects_panic {A} v : respects R (panic (A := A) v).
Proof using Type*. intros s. apply trail_refl. Qed.

Lemma respects_out_of_fuel {A} : respects R (out_of_fuel (A := A)).
Proof using Type*. intros s. apply trail_refl. Qed.

Lemma respects_bind {A B} (m : M S A) (k : A -> M S B) :
  respects R m -> (forall a, respects R (k a)) -> respects R (bind m k).
Proof using Type*.
  intros Hm Hk s. unfold bind. specialize (Hm s).
  destruct (m s) as [[[a|v|] s1] t1]; [|done..]. specialize (Hk a s1).
  destruct (k a s1) as [[o s2] t2]. by eapply trail_app.
Qed.

Lemma respects_with_defer {A} (m : M S A) d :
  respects R m -> respects R d -> respects R (with_defer m d).
Proof using Type*.
  intros Hm Hd s. unfold with_defer. specialize (Hm s). destruct (m s) as [[o s1] t1].
  specialize (Hd s1). destruct (d s1) as [[[] s2] t2]; by eapply trail_app.
Qed.

Lemma respects_if {A} (b : bool) (m1 m2 : M S A) :
  respects R m1 -> respects R m2 -> respects R (if b then m1 else m2).
Proof. by destruct b. Qed.
End respects.

#[export] Hint Resolve respects_ret respects_panic respects_out_of_fuel respects_if : respects.

(** ** Contexts

    A [context.Context] carries the correlation ID, the messagingtest probe and
    publisher payload (an opaque Go value), the current span, the remote span context extracted from transport
    metadata, and whether it was detached from its parent's cancellation.
    Cancellation itself is a question to the environment. *)
Record Probe (E : Type) := mkProbe {
  NoBackoff : bool;
  Sink : option (string -> string -> E -> option error * E);
}.
Arguments mkProbe {E}.
Arguments NoBackoff {E}.
Arguments Sink {E}.

Record context (E : Type) := mkContext {
  ctx_correlation : option string;
  ctx_probe : option (Probe E);
  ctx_span : option nat;
  ctx_remote : option string;
  ctx_detached : bool;
  ctx_payload : option ref;
}.
Arguments mkContext {E}.
Arguments ctx_correlation {E}.
Arguments ctx_probe {E}.
Arguments ctx_span {E}.
Arguments ctx_remote {E}.
Arguments ctx_detached {E}.
Arguments ctx_payload {E}.

Definition background {E} : context E := mkContext None None None None false None.

Definition contextWithCorrelationID {E} (ctx : context E) (id : string) : context E :=
  mkContext (Some id) (ctx_probe ctx) (ctx_span ctx) (ctx_remote ctx) (ctx_detached ctx)
    (ctx_payload ctx).

Definition correlationIDFromContext {E} (ctx : context E) : option string :=
  ctx_correlation ctx.

Definition testseam_NewContext {E} (ctx : context E) (p : Probe E) : context E :=
  mkContext (ctx_correlation ctx) (Some p) (ctx_span ctx) (ctx_remote ctx) (ctx_detached ctx)
    (ctx_payload ctx).

Definition testseam_FromContext {E} (ctx : context E) : option (Probe E) := ctx_probe ctx.

Definition ctx_with_span {E} (ctx : context E) (span : nat) : context E :=
  mkContext (ctx_correlation ctx) (ctx_probe ctx) (Some span) (ctx_remote ctx) (ctx_detached ctx)
    (ctx_payload ctx).

Definition ctx_with_remote {E} (ctx : context E) (remote : option string) : context E :=
  mkContext (ctx_correlation ctx) (ctx_probe ctx) (ctx_span ctx) remote (ctx_detached ctx)
    (ctx_payload ctx).

(** [context.WithoutCancel]: the values of [ctx], detached from its cancellation. *)
Definition ctx_without_cancel {E} (ctx : context E) : context E :=
  mkContext (ctx_correlation ctx) (ctx_probe ctx) (ctx_span ctx) (ctx_remote ctx) true
    (ctx_payload ctx).

(** testing/publisher.go: [context.WithValue] under [payloadKey]. *)
Definition ctx_with_payload {E} (ctx : context E) (v : ref) : context E :=
  mkContext (ctx_correlation ctx) (ctx_probe ctx) (ctx_span ctx) (ctx_remote ctx) (ctx_detached ctx) (Some v).

Definition metadata : Type := gmap string string.

(** ** The environment *)

Class Env (E : Type) := {
  env_now : E -> Time * E;                           (* time.Now().UTC() *)
  env_uuid : E -> result error string * E;           (* uuid.NewV7(), rendered *)
  env_rand : Z -> E -> Z * E;                        (* rand.Int64N(n) *)
  env_ctx_done : context E -> E -> bool;             (* ctx.Err() != nil *)
  env_timer_first : context E -> Duration -> E -> bool * E; (* timer against ctx.Done() *)
  env_xadd : context E -> string -> string -> string -> metadata -> E -> option error * E;
      (* redisstream.Publisher.Publish: context, stream, message id, body, metadata *)
  env_start_span : context E -> E -> nat * E;        (* tracer.Start *)
  env_span_ids : nat -> string * string;             (* trace and span id of a span *)
  env_extract : metadata -> option string;           (* Propagator.Extract *)
  env_inject : context E -> metadata -> metadata;    (* Propagator.Inject *)
}.

(** [time.RFC3339Nano] formatting and parsing. *)
Class GoTime := {
  format_time : Time -> string;
  parse_time : string -> option Time;
}.

(** [json.Marshal] of an envelope around an application payload of type [P]. *)
Class Marshaler (P : Type) := { marshal_event : Envelope P -> result error string }.

(** Environment calls as computations over the environment. *)
Section env_calls.
Context {E : Type} `{HEnv : !Env E}.

Definition now : M E Time := fun w => let '(t, w') := env_now w in (Ret t, w', []).
Definition new_uuid : M E (result error string) :=
  fun w => let '(r, w') := env_uuid w in (Ret r, w', []).
Definition start_span (ctx : context E) (name : string) (a : attrs) : M E nat :=
  fun w => let '(n, w') := env_start_span ctx w in (Ret n, w', [ESpanStart n name a]).
Definition xadd (ctx : context E) (stream id body : string) (md : metadata) : M E (option error) :=
  fun w => let '(err, w') := env_xadd ctx stream id body md w in (Ret err, w', [EWrite stream body err]).

Lemma now_inv w o w' t :
  now w = (o, w', t) -> o = Ret (fst (env_now w)) /\ w' = snd (env_now w) /\ t = [].
Proof. unfold now. destruct (env_now w). by intros [= <- <- <-]. Qed.

Lemma new_uuid_inv w o w' t :
  new_uuid w = (o, w', t) -> o = Ret (fst (env_uuid w)) /\ w' = snd (env_uuid w) /\ t = [].
Proof. unfold new_uuid. destruct (env_uuid w). by intros [= <- <- <-]. Qed.

Lemma start_span_inv ctx name a w o w' t :
  start_span ctx name a w = (o, w', t) ->
  exists n, o = Ret n /\ w' = snd (env_start_span ctx w) /\ t = [ESpanStart n name a].
Proof. unfold start_span. destruct (env_start_span ctx w). intros [= <- <- <-]. eauto. Qed.

Lemma xadd_inv ctx stream id body md w o w' t :
  xadd ctx stream id body md w = (o, w', t) ->
  exists err, o = Ret err /\ t = [EWrite stream body err].
Proof. unfold xadd. destruct (env_xadd _ _ _ _ _ w). intros [= <- <- <-]. eauto. Qed.
End env_calls.
