(* ===== verification/Sample.v ===== *)
(** * A concrete environment

    A small executable environment against which the definitions evaluate:
    it is what the witnesses and examples instantiate [Env], [GoFmt] and
    [GoTime] with.  Handlers take their results from a script; stream writes
    fail when [w_down] is set; contexts are cancelled when [w_cancelled] is. *)

From S2P Require Import Prelude GoStrings GoErrors Validation Config Runtime.
From stdpp Require Import options.

Record world := mkWorld {
  w_clock : Z;
  w_script : list (option error);
  w_down : option error;
  w_cancelled : bool;
}.

Definition tick (w : world) : world :=
  mkWorld (w_clock w + 1) (w_script w) (w_down w) (w_cancelled w).

#[export] Instance world_env : Env world := {
  env_now w := (w_clock w, tick w);
  env_uuid w := (Ok ("id-" +:+ FormatInt (w_clock w)), tick w);
  env_rand n w := (n - 1, w);
  env_ctx_done _ w := w_cancelled w;
  env_timer_first _ _ w := (negb (w_cancelled w), w);
  env_xadd _ _ _ _ _ w := (w_down w, w);
  env_start_span _ w := (Z.to_nat (w_clock w), tick w);
  env_span_ids n := ("trace", "span");
  env_extract md := md !! "traceparent";
  env_inject _ md := <["traceparent" := "00"]> md;
}.

#[export] Instance plain_fmt : GoFmt := { quote s := s; duration_string := FormatInt }.

#[export] Instance plain_time : GoTime := {
  format_time := FormatInt;
  parse_time s := match ParseInt s with Ok n => Some n | Err _ => None end;
}.

(** A handler that returns the next scripted result, and panics when the
    script is empty. *)
Definition scripted {T : Type} (ctx : context world) (env : Envelope T) (w : world) :
    handled * world :=
  match w_script w with
  | [] => (Panicked "script exhausted", w)
  | r :: rest => (Returned r, mkWorld (w_clock w) rest (w_down w) (w_cancelled w))
  end.
