(* ===== verification/Telemetry.v ===== *)
(** * Telemetry (telemetry.go, internal/testseam)

    Instruments and their all-or-nothing construction, the attribute sets of
    the consume path, and [deliveryRecorder]: the state a delivery accumulates
    and the single [end_] that turns it into a span status, one duration
    observation and exactly one terminal counter. *)

From S2P Require Import Prelude GoStrings GoErrors Validation Config GoDuration Runtime Sample.
From stdpp Require Import options.

Definition telemetryScope : string := "github.com/bcgov/foi-messaging-go".

Definition attrTopic : string := "topic".
Definition attrEventType : string := "event_type".
Definition attrGroup : string := "group".
Definition attrReason : string := "reason".
Definition attrErrorCategory : string := "error_category".
Definition attrStage : string := "stage".

Definition stageValidation : string := "validation".
Definition stageMarshal : string := "marshal".
Definition stageTransport : string := "transport".

Definition metadataPublishedAt : string := "published_at".

Definition reasonNoHandler : string := "no_handler".
Definition reasonDiscard : string := "discard".
Definition categoryPermanent : string := "permanent".
Definition categoryRetryable : string := "retryable".
Definition categoryDeserialization : string := "deserialization".
Definition categoryMaxAttempts : string := "max_attempts".
Definition categoryUnknown : string := "unknown".

Definition KindProcessed : string := "processed".
Definition KindSkipped : string := "skipped".
Definition KindFailed : string := "failed".

(** ** Instruments *)

(** An instrument of a meter provider; [None] is the no-op provider, through
    which nothing is recorded. *)
Record instrument := mkInstrument { i_provider : option ref; i_name : string }.

Record instruments := mkInstruments {
  published : instrument;
  publishFailures : instrument;
  received : instrument;
  processed_ : instrument;
  failed_ : instrument;
  skipped_ : instrument;
  retries : instrument;
  dlq_ : instrument;
  dlqPublishFailures : instrument;
  processingDuration : instrument;
  queueLatency : instrument;
}.

(** The OpenTelemetry metric API: the error of creating an instrument. *)
Class MeterApi := { meter_create : ref -> string -> option error }.

Section instruments.
Context `{!MeterApi}.

Definition new_instrument (mp : option ref) (name : string) : result error instrument :=
  match mp with
  | None => Ok (mkInstrument None name)
  | Some m =>
      match meter_create m name with
      | Some e => Err e
      | None => Ok (mkInstrument (Some m) name)
      end
  end.

Definition buildInstruments (mp : option ref) : result error instruments :=
  let? published := new_instrument mp "messaging.events.published" in
  let? publishFailures := new_instrument mp "messaging.publish.failures" in
  let? received := new_instrument mp "messaging.events.received" in
  let? processed := new_instrument mp "messaging.events.processed" in
  let? failed := new_instrument mp "messaging.events.failed" in
  let? skipped := new_instrument mp "messaging.events.skipped" in
  let? retries := new_instrument mp "messaging.retries" in
  let? dlq := new_instrument mp "messaging.dlq" in
  let? dlqPublishFailures := new_instrument mp "messaging.dlq.publish.failures" in
  let? processingDuration := new_instrument mp "messaging.processing.duration" in
  let? queueLatency := new_instrument mp "messaging.queue.latency" in
  Ok (mkInstruments published publishFailures received processed failed skipped retries dlq
        dlqPublishFailures processingDuration queueLatency).

(** [None] for the first component is a nil [*instruments]. *)
Definition newInstruments (mp : option ref) (log : option ref) : option instruments * list event :=
  let fallback (logs : list event) :=
    match buildInstruments None with
    | Ok inst => (Some inst, logs)
    | Err _ => (None, logs)
    end in
  match mp with
  | None => fallback []
  | Some _ =>
      match buildInstruments mp with
      | Ok inst => (Some inst, [])
      | Err e =>
          fallback match log with
                   | None => []
                   | Some _ =>
                       [ELog LevelWarn "messaging: metric instrument creation failed; metrics are disabled for this instance"
                          [("error", AErr e)]]
                   end
      end
  end.
End instruments.

(** The instrument set of one provider. *)
Definition instruments_of (mp : option ref) : instruments :=
  mkInstruments
    (mkInstrument mp "messaging.events.published") (mkInstrument mp "messaging.publish.failures")
    (mkInstrument mp "messaging.events.received") (mkInstrument mp "messaging.events.processed")
    (mkInstrument mp "messaging.events.failed") (mkInstrument mp "messaging.events.skipped")
    (mkInstrument mp "messaging.retries") (mkInstrument mp "messaging.dlq")
    (mkInstrument mp "messaging.dlq.publish.failures") (mkInstrument mp "messaging.processing.duration")
    (mkInstrument mp "messaging.queue.latency").

(** [counter.Add(ctx, 1, attrs)] and [histogram.Record(ctx, v, attrs)]. *)
Definition add {S} (i : instrument) (a : attrs) : M S unit :=
  match i_provider i with
  | Some _ => emit (EAdd (i_name i) a)
  | None => ret tt
  end.

Definition record {S} (i : instrument) (v : float64) (a : attrs) : M S unit :=
  match i_provider i with
  | Some _ => emit (ERecord (i_name i) v a)
  | None => ret tt
  end.

Definition consumeAttrs (topic group eventType : string) (extra : attrs) : attrs :=
  [(attrTopic, AStr topic); (attrGroup, AStr group)] ++
  (if negb (String.eqb eventType "") then [(attrEventType, AStr eventType)] else []) ++ extra.

(** ** Publish time *)

Section published_at.
Context `{!GoTime}.

Definition publishedAtNow (t : Time) : string := format_time t.

Definition parsePublishedAt (md : metadata) : option Time :=
  match md !! metadataPublishedAt with
  | None => None
  | Some raw => parse_time raw
  end.
End published_at.

(** ** The delivery recorder *)

Inductive outcomeKind := outcomeUnset | outcomeProcessed | outcomeFailed | outcomeSkipped.

#[global] Instance outcomeKind_eq_dec : EqDecision outcomeKind.
Proof. solve_decision. Defined.

Record deliveryRecorder := mkRecorder {
  rec_inst : instruments;
  rec_span : nat;
  rec_log : option ref;
  rec_topic : string;
  rec_group : string;
  rec_start : Time;
  rec_kind : outcomeKind;
  rec_category : string;
  rec_reason : string;
  rec_eventType : string;
  rec_err : option error;
  rec_ended : bool;
  rec_has_probe : bool;
}.

(** What [end_] copies to the probe. *)
Record Verdict := mkVerdict {
  v_Kind : string;
  v_Category : string;
  v_Reason : string;
  v_Err : option error;
}.

(** The state of one delivery: the environment, the recorder the delivery owns
    (allocated when it starts), and what the probe was last told. *)
Record St (E : Type) := mkSt {
  st_env : E;
  st_rec : deliveryRecorder;
  st_verdict : option Verdict;
}.
Arguments mkSt {E}.
Arguments st_env {E}.
Arguments st_rec {E}.
Arguments st_verdict {E}.

Definition newDeliveryRecorder (inst : instruments) (span : nat) (topic group : string)
    (log : option ref) (has_probe : bool) (start : Time) : deliveryRecorder :=
  mkRecorder inst span log topic group start outcomeUnset "" "" "" None false has_probe.

Definition setEventType (eventType : string) (r : deliveryRecorder) : deliveryRecorder :=
  mkRecorder (rec_inst r) (rec_span r) (rec_log r) (rec_topic r) (rec_group r) (rec_start r)
    (rec_kind r) (rec_category r) (rec_reason r) eventType (rec_err r) (rec_ended r) (rec_has_probe r).

Definition processed (r : deliveryRecorder) : deliveryRecorder :=
  mkRecorder (rec_inst r) (rec_span r) (rec_log r) (rec_topic r) (rec_group r) (rec_start r)
    outcomeProcessed (rec_category r) (rec_reason r) (rec_eventType r) (rec_err r) (rec_ended r)
    (rec_has_probe r).

Definition failed (category : string) (err : option error) (r : deliveryRecorder) : deliveryRecorder :=
  mkRecorder (rec_inst r) (rec_span r) (rec_log r) (rec_topic r) (rec_group r) (rec_start r)
    outcomeFailed category (rec_reason r) (rec_eventType r) err (rec_ended r) (rec_has_probe r).

Definition skipped (reason : string) (r : deliveryRecorder) : deliveryRecorder :=
  mkRecorder (rec_inst r) (rec_span r) (rec_log r) (rec_topic r) (rec_group r) (rec_start r)
    outcomeSkipped (rec_category r) reason (rec_eventType r) (rec_err r) (rec_ended r) (rec_has_probe r).

Definition mark_ended (r : deliveryRecorder) : deliveryRecorder :=
  mkRecorder (rec_inst r) (rec_span r) (rec_log r) (rec_topic r) (rec_group r) (rec_start r)
    (rec_kind r) (rec_category r) (rec_reason r) (rec_eventType r) (rec_err r) true (rec_has_probe r).

Definition set_category (category : string) (r : deliveryRecorder) : deliveryRecorder :=
  mkRecorder (rec_inst r) (rec_span r) (rec_log r) (rec_topic r) (rec_group r) (rec_start r)
    (rec_kind r) category (rec_reason r) (rec_eventType r) (rec_err r) (rec_ended r) (rec_has_probe r).

Definition kindName (k : outcomeKind) : string :=
  match k with
  | outcomeProcessed => KindProcessed
  | outcomeSkipped => KindSkipped
  | _ => KindFailed
  end.

Section recorder.
Context {E : Type} `{HEnv : !Env E, HFmt : !GoFmt}.

(** A computation on the environment, run inside a delivery. *)
Definition lift {A} (m : M E A) : M (St E) A :=
  fun s => let '(o, w, t) := m (st_env s) in (o, mkSt w (st_rec s) (st_verdict s), t).

Definition get_rec : M (St E) deliveryRecorder := fun s => (Ret (st_rec s), s, []).
Definition modify_rec (f : deliveryRecorder -> deliveryRecorder) : M (St E) unit :=
  modify (fun s => mkSt (st_env s) (f (st_rec s)) (st_verdict s)).
Definition set_verdict (v : Verdict) : M (St E) unit :=
  modify (fun s => mkSt (st_env s) (st_rec s) (Some v)).

Definition retry (attempt : Z) (err : error) : M (St E) unit :=
  r <- get_rec ;;
  add (retries (rec_inst r)) (consumeAttrs (rec_topic r) (rec_group r) (rec_eventType r) []) ;;
  emit (ESpanEvent (rec_span r) "retry"
          [("messaging.foi.immediate_attempt", AInt attempt); ("error", AStr (Error err))]).

Definition recordFailure (base : attrs) : M (St E) unit :=
  r <- get_rec ;;
  add (failed_ (rec_inst r)) (base ++ [(attrErrorCategory, AStr (rec_category r))]) ;;
  match rec_err r with
  | Some e => emit (ESpanError (rec_span r) e)
  | None => ret tt
  end ;;
  emit (ESpanStatus (rec_span r) CodeError (rec_category r)).

Definition end_ : M (St E) unit :=
  r <- get_rec ;;
  if rec_ended r then ret tt
  else
    modify_rec mark_ended ;;
    (if rec_has_probe r then
       set_verdict (mkVerdict (kindName (rec_kind r)) (rec_category r) (rec_reason r) (rec_err r))
     else ret tt) ;;
    t <- lift now ;;
    let elapsed := Seconds (Since t (rec_start r)) in
    let base := consumeAttrs (rec_topic r) (rec_group r) (rec_eventType r) [] in
    record (processingDuration (rec_inst r)) elapsed base ;;
    match rec_kind r with
    | outcomeProcessed =>
        add (processed_ (rec_inst r)) base ;;
        emit (ESpanStatus (rec_span r) CodeOk "")
    | outcomeSkipped =>
        add (skipped_ (rec_inst r))
          (consumeAttrs (rec_topic r) (rec_group r) "" [(attrReason, AStr (rec_reason r))]) ;;
        emit (ESpanStatus (rec_span r) CodeOk "")
    | outcomeFailed => recordFailure base
    | outcomeUnset =>
        (match rec_log r with
         | Some _ => emit (ELog LevelError "messaging: delivery ended with no recorded outcome; this is a bug in the library"
                             [("topic", AStr (rec_topic r))])
         | None => ret tt
         end) ;;
        modify_rec (set_category categoryUnknown) ;;
        recordFailure base
    end ;;
    emit (ESpanEnd (rec_span r)).
End recorder.

(** ** Inverting the recorder's computations *)

Lemma add_inv {S} i a (s : S) o s' t :
  add i a s = (o, s', t) ->
  o = Ret tt /\ s' = s /\
  t = match i_provider i with Some _ => [EAdd (i_name i) a] | None => [] end.
Proof. unfold add. destruct (i_provider i); by intros [= <- <- <-]. Qed.

Lemma record_inv {S} i v a (s : S) o s' t :
  record i v a s = (o, s', t) ->
  o = Ret tt /\ s' = s /\
  t = match i_provider i with Some _ => [ERecord (i_name i) v a] | None => [] end.
Proof. unfold record. destruct (i_provider i); by intros [= <- <- <-]. Qed.

Section inversion.
Context {E : Type} `{HEnv : !Env E, HFmt : !GoFmt}.
Implicit Types (s : St E).

Lemma lift_inv {A} (m : M E A) s o s' t :
  lift m s = (o, s', t) ->
  exists w', m (st_env s) = (o, w', t) /\ s' = mkSt w' (st_rec s) (st_verdict s).
Proof. unfold lift. destruct (m (st_env s)) as [[o1 w'] t1]. intros [= <- <- <-]. eauto. Qed.

Lemma lift_now_inv s o s' t :
  lift now s = (o, s', t) ->
  exists tm w', o = Ret tm /\ s' = mkSt w' (st_rec s) (st_verdict s) /\ t = [].
Proof. intros (w' & H & ->)%lift_inv. apply now_inv in H as (-> & -> & ->). eauto. Qed.

Lemma get_rec_inv s o s' t : get_rec s = (o, s', t) -> o = Ret (st_rec s) /\ s' = s /\ t = [].
Proof. by intros [= <- <- <-]. Qed.

Lemma modify_rec_inv f s o s' t :
  modify_rec f s = (o, s', t) ->
  o = Ret tt /\ s' = mkSt (st_env s) (f (st_rec s)) (st_verdict s) /\ t = [].
Proof. by intros [= <- <- <-]. Qed.

Lemma retry_inv attempt err s o s' t :
  retry attempt err s = (o, s', t) ->
  o = Ret tt /\ s' = s /\
  t = (match i_provider (retries (rec_inst (st_rec s))) with
       | Some _ => [EAdd (i_name (retries (rec_inst (st_rec s))))
                      (consumeAttrs (rec_topic (st_rec s)) (rec_group (st_rec s))
                         (rec_eventType (st_rec s)) [])]
       | None => []
       end) ++
      [ESpanEvent (rec_span (st_rec s)) "retry"
         [("messaging.foi.immediate_attempt", AInt attempt); ("error", AStr (Error err))]].
Proof.
  unfold retry. intros H. apply bind_inv in H as [(? & ? & ? & ? & H1 & H & ->)|[(? & [=] & _)|[[=] _]]].
  apply get_rec_inv in H1 as ([= ->] & -> & ->).
  apply bind_inv in H as [(? & ? & ? & ? & H1 & H & ->)|[(? & H1 & _)|[H1 _]]];
    apply add_inv in H1 as (? & -> & ->); [|done..].
  by apply emit_inv in H as (-> & -> & ->).
Qed.
End inversion.

(** The instrument set of a live provider, or of the no-op one. *)
Definition metric (mp : option ref) (name : string) : list string :=
  match mp with Some _ => [name] | None => [] end.

(** The terminal counter of an outcome; an unstated one counts as a failure. *)
Definition terminal_metric (k : outcomeKind) : string :=
  match k with
  | outcomeProcessed => "messaging.events.processed"
  | outcomeSkipped => "messaging.events.skipped"
  | outcomeFailed | outcomeUnset => "messaging.events.failed"
  end.

Definition terminal_metrics : list string :=
  ["messaging.events.processed"; "messaging.events.skipped"; "messaging.events.failed"].

Definition terminal_status (r : deliveryRecorder) : span_code * string :=
  match rec_kind r with
  | outcomeProcessed | outcomeSkipped => (CodeOk, "")
  | outcomeFailed => (CodeError, rec_category r)
  | outcomeUnset => (CodeError, categoryUnknown)
  end.

Definition verdict_of (r : deliveryRecorder) : Verdict :=
  mkVerdict (kindName (rec_kind r)) (rec_category r) (rec_reason r) (rec_err r).

Ltac minv_prim H ::=
  match type of H with
  | ret _ _ = _ => apply ret_inv in H
  | get _ = _ => apply get_inv in H
  | modify _ _ = _ => apply modify_inv in H
  | emit _ _ = _ => apply emit_inv in H
  | panic _ _ = _ => apply panic_inv in H
  | out_of_fuel _ = _ => apply out_of_fuel_inv in H
  | add _ _ _ = _ => apply add_inv in H
  | record _ _ _ _ = _ => apply record_inv in H
  | get_rec _ = _ => apply get_rec_inv in H
  | modify_rec _ _ = _ => apply modify_rec_inv in H
  | set_verdict _ _ = _ => apply modify_inv in H
  | retry _ _ _ = _ => apply retry_inv in H
  | lift now _ = _ => apply lift_now_inv in H as (? & ? & H)
  end; destruct H as (? & ? & ?).

(** Nothing of the transport or of the application happened. *)
Record quiet (t : list event) : Prop := {
  q_writes : writes t = [];
  q_calls : calls t = [];
  q_returns : returns t = [];
  q_decodes : decodes t = [];
  q_sleeps : sleeps t = [];
  q_span_starts : span_starts t = [];
}.

Section end_spec.
Context {E : Type} `{HEnv : !Env E, HFmt : !GoFmt}.

(** The recorder's [end_], when it has not run yet. *)
Lemma end_run (s : St E) mp :
  rec_inst (st_rec s) = instruments_of mp -> rec_ended (st_rec s) = false ->
  exists s' t, end_ s = (Ret tt, s', t) /\
    rec_ended (st_rec s') = true /\ rec_kind (st_rec s') = rec_kind (st_rec s) /\
    rec_reason (st_rec s') = rec_reason (st_rec s) /\
    rec_eventType (st_rec s') = rec_eventType (st_rec s) /\
    rec_category (st_rec s') = (if decide (rec_kind (st_rec s) = outcomeUnset) then categoryUnknown
                                else rec_category (st_rec s)) /\
    st_verdict s' = (if rec_has_probe (st_rec s) then Some (verdict_of (st_rec s)) else st_verdict s) /\
    metrics t = metric mp (terminal_metric (rec_kind (st_rec s))) /\
    observations t = metric mp "messaging.processing.duration" /\
    span_statuses t = [terminal_status (st_rec s)] /\ span_ends t = [rec_span (st_rec s)] /\
    quiet t.
Proof.
  destruct s as [w [inst span lg topic group start kind cat reason et err ended probe] v].
  simpl. intros -> ->.
  unfold end_, recordFailure, lift, now, modify_rec, set_verdict, get_rec, add, record, bind,
    modify, emit, ret. simpl.
  destruct probe, kind, lg, err, mp; simpl; destruct (env_now w) as [tm w']; simpl;
    eexists _, _; (split; [reflexivity|]);
    split_and!; reflexivity || constructor; reflexivity.
Qed.
End end_spec.

(** ** Properties *)

Lemma new_instrument_live `{!MeterApi} m name i :
  new_instrument (Some m) name = Ok i -> i = mkInstrument (Some m) name.
Proof. simpl. case_match; congruence. Qed.

Lemma buildInstruments_ok `{!MeterApi} mp inst :
  buildInstruments mp = Ok inst -> inst = instruments_of mp.
Proof.
  destruct mp as [m|]; [|by intros [= <-]].
  unfold buildInstruments. rewrite !result_bind_ok. intros Hb.
  repeat match type of Hb with
  | exists _, _ /\ _ =>
      let i := fresh "i" in let Hi := fresh in destruct Hb as (i & Hi & Hb);
      apply new_instrument_live in Hi; subst; try rewrite !result_bind_ok in Hb
  end. by injection Hb as <-.
Qed.

(** Instrument construction is all or nothing.  [newInstruments] always
    returns a complete set: every instrument of the given provider when all of
    them could be created, every instrument of the no-op provider when there
    is no provider or one creation failed; a failure is logged once, as a
    warning, and never returned to the caller. *)
Lemma newInstruments_total `{!MeterApi} (mp log : option ref) :
  exists logs,
    newInstruments mp log =
      (Some (instruments_of (if decide (is_ok (buildInstruments mp) = true) then mp else None)), logs) /\
    (is_ok (buildInstruments mp) = true -> logs = []) /\
    (is_ok (buildInstruments mp) = false ->
       match log with
       | None => logs = []
       | Some _ => exists msg e, logs = [ELog LevelWarn msg [("error", AErr e)]]
       end).
Proof.
  unfold newInstruments. destruct mp as [m|]; [|by exists []].
  destruct (buildInstruments (Some m)) as [inst|e] eqn:Hb.
  - apply buildInstruments_ok in Hb as ->. by exists [].
  - eexists. split; [done|]. split; [done|]. intros _. destruct log; eauto.
Qed.

(** [end_] records a delivery exactly once.  On a recorder that has not
    ended it emits exactly one terminal counter, the one of the stated outcome
    (a delivery that stated none, as when its handler panicked, counts as
    failed with category unknown), exactly one duration, one span status and
    one span end; it copies the outcome to the probe before that rewriting of
    the category; and calling it again does nothing at all. *)
Lemma end_records_once {E : Type} `{!Env E, !GoFmt} (s : St E) (m : ref) :
  rec_inst (st_rec s) = instruments_of (Some m) ->
  rec_ended (st_rec s) = false ->
  exists s' t,
    end_ s = (Ret tt, s', t) /\
    metrics t = [terminal_metric (rec_kind (st_rec s))] /\
    observations t = ["messaging.processing.duration"] /\
    span_statuses t = [terminal_status (st_rec s)] /\
    span_ends t = [rec_span (st_rec s)] /\
    (rec_has_probe (st_rec s) = true -> st_verdict s' = Some (verdict_of (st_rec s))) /\
    end_ s' = (Ret tt, s', []).
Proof.
  intros Hi He. destruct (end_run s (Some m) Hi He)
    as (s' & t & Hrun & Hend & _ & _ & _ & _ & Hv & Hm & Ho & Hs & Hse & _).
  exists s', t. split_and!; try done.
  - intros Hp. by rewrite Hp in Hv.
  - unfold end_, bind, get_rec. by rewrite Hend.
Qed.

Definition sample_recorder : St world :=
  mkSt (mkWorld 10 [] None false)
    (failed categoryPermanent None
      (newDeliveryRecorder (instruments_of (Some 1%nat)) 4 "orders" "billing" None true 3)) None.

