(* ===== verification/Delivery.v ===== *)
(** * Consuming one message (consumer.go, dlq.go, registry.go [typedDispatch])

    [dispatch] and what it calls: the delivery-attempt cap, envelope decoding
    and validation, routing, the immediate-retry loop, and dead-lettering.
    encoding/json is an interface here ([JsonCodec]; [Wire] implements it); the
    Redis client, the clock, randomness and handlers act through [Env]. *)

From S2P Require Import Prelude GoStrings GoErrors Validation Registry Config GoDuration Runtime.
From S2P Require Import Telemetry.
From stdpp Require Import options.

(** ** dlq.go *)

Definition ReasonPermanent : string := "permanent".
Definition ReasonMaxAttemptsExceeded : string := "max_attempts_exceeded".
Definition ReasonDeserializationFailed : string := "deserialization_failed".

(** [Event] and [EventRaw] are nil-able slices: [None] is nil. *)
Record DeadLetter := mkDeadLetter {
  DeadLetteredAt : Time;
  Reason : string;
  dl_Error : string;
  DeliveryAttempts : Z;
  ConsumerGroup : string;
  dl_ConsumerName : string;
  OriginalTopic : string;
  Event : option string;
  EventRaw : option string;
}.

#[global] Instance DeadLetter_eq_dec : EqDecision DeadLetter.
Proof. solve_decision. Defined.

(** encoding/json on the documents the library reads and writes. *)
Class JsonCodec := {
  json_Valid : string -> bool;
  unmarshal_envelope : string -> result error (Envelope string);
  marshal_envelope : Envelope string -> result error string;
  marshal_deadletter : DeadLetter -> result error string;
  unmarshal_deadletter : string -> result error DeadLetter;
  marshal_fields : gmap string string -> result error string;
}.

(** Decoding a raw payload into an application type, and its zero value. *)
Class Payloads (T : Type) := {
  payload_zero : T;
  payload_unmarshal : string -> result error T;
}.

Definition MetadataStreamID : string := "_foi_stream_id".
Definition MetadataDeliveryAttempt : string := "_foi_delivery_attempt".

(** Reading a Go map of strings: a missing key is the empty string. *)
Definition md_get (md : metadata) (k : string) : string := default "" (md !! k).

Definition deliveryAttempt (md : metadata) : Z :=
  match ParseInt (md_get md MetadataDeliveryAttempt) with
  | Err _ => 1
  | Ok n => if n <? 1 then 1 else n
  end.

Lemma md_get_insert (md : metadata) k v : md_get (<[k := v]> md) k = v.
Proof. unfold md_get. transitivity (default "" (Some v)); [|done]. f_equal. apply lookup_insert_eq. Qed.

Lemma md_get_insert_ne (md : metadata) k k' v : k <> k' -> md_get (<[k := v]> md) k' = md_get md k'.
Proof. intros H. unfold md_get. f_equal. by apply lookup_insert_ne. Qed.

(** An attempt number survives the metadata. *)
Lemma deliveryAttempt_stamp md n :
  md_get md MetadataDeliveryAttempt = FormatInt n -> 1 <= n -> in_int64 n -> deliveryAttempt md = n.
Proof.
  intros H Hn Hr. unfold deliveryAttempt. rewrite H, ParseInt_FormatInt by done.
  destruct (n <? 1) eqn:E; to_prop; [lia|done].
Qed.

(** ** Handlers and consumers *)

Definition dispatchFunc (E : Type) : Type :=
  context E -> Envelope string -> E -> handled * E.

(** handler.go, [Handler]: its [Handle] method. *)
Definition Handler (E T : Type) : Type :=
  context E -> Envelope T -> E -> handled * E.

(** registry.go, [typedDispatch]. *)
Definition typedDispatch {E T} `{!Payloads T} (h : Handler E T) : dispatchFunc E :=
  fun ctx raw w =>
    let decoded :=
      if String.eqb (Payload raw) "" then Ok payload_zero else payload_unmarshal (Payload raw) in
    match decoded with
    | Err e =>
        (Returned (Some (ErrFmt "unmarshalling payload for event type %q: %w"
                      [inl (FQuoted (EventType raw)); inr e])), w)
    | Ok payload =>
        h ctx (mkEnvelope (EventID raw) (EventType raw) (Timestamp raw) (SchemaVersion raw)
                 (CorrelationID raw) (Source raw) payload) w
    end.

(** [deadLetterSink] and its two implementations. *)
Inductive deadLetterSink (E : Type) :=
| redisDeadLetterSink
| probeSink (f : string -> string -> E -> option error * E).
Arguments redisDeadLetterSink {E}.
Arguments probeSink {E}.

Record Consumer (E : Type) := mkConsumer {
  c_cfg : Config;
  c_registry : registry (dispatchFunc E);
  c_running : bool;
  c_dlq : option (deadLetterSink E);
  c_reader : option ref;
  c_inst : instruments;
}.
Arguments mkConsumer {E}.
Arguments c_cfg {E}.
Arguments c_registry {E}.
Arguments c_running {E}.
Arguments c_dlq {E}.
Arguments c_reader {E}.
Arguments c_inst {E}.

Definition deadLetterBody `{!JsonCodec} (payload : string) : option string * option string :=
  if json_Valid payload then (Some payload, None) else (None, Some payload).

Definition set_body (dl : DeadLetter) (b : option string * option string) : DeadLetter :=
  mkDeadLetter (DeadLetteredAt dl) (Reason dl) (dl_Error dl) (DeliveryAttempts dl)
    (ConsumerGroup dl) (dl_ConsumerName dl) (OriginalTopic dl) (fst b) (snd b).

Section consumer.
Context {E : Type} `{HEnv : !Env E, HFmt : !GoFmt, HTime : !GoTime, HJson : !JsonCodec}.
Variable c : Consumer E.

Definition log (l : level) (msg : string) (base extra : attrs) : M (St E) unit :=
  emit (ELog l msg (base ++ extra)).

Definition streamName (topic : string) : string := StreamPrefix (c_cfg c) +:+ ":" +:+ topic.

(** internal/watermill/publisher.go, [Publisher.Publish]. *)
Definition wm_Publish (ctx : context E) (topic id payload : string) (md : metadata) : M E (option error) :=
  err <- xadd ctx topic id payload md ;;
  match err with
  | Some e => ret (Some (ErrFmt "publishing to topic %q: %w" [inl (FQuoted topic); inr e]))
  | None => ret None
  end.

Definition sink_publish (s : deadLetterSink E) (ctx : context E) (stream body : string) :
    M (St E) (option error) :=
  match s with
  | redisDeadLetterSink =>
      id <- lift new_uuid ;;
      match id with
      | Err e => ret (Some (ErrFmt "generating dead letter id: %w" [inr e]))
      | Ok id => lift (wm_Publish ctx stream id body ∅)
      end
  | probeSink f =>
      lift (fun w => let '(err, w') := f stream body w in (Ret err, w', [EWrite stream body err]))
  end.

Definition newDeadLetter (topic reason : string) (cause : error) (attempt : Z) : M (St E) DeadLetter :=
  t <- lift now ;;
  ret (mkDeadLetter t reason (Error cause) attempt (Group (Consumer_ (c_cfg c)))
         (ConsumerName (Consumer_ (c_cfg c))) topic None None).

Definition deadLetter_sink (ctx : context E) : option (deadLetterSink E) :=
  match testseam_FromContext ctx with
  | Some p => match Sink p with Some f => Some (probeSink f) | None => c_dlq c end
  | None => c_dlq c
  end.

Definition dlqStream (topic : string) : string := streamName topic +:+ ".dlq".

Definition deadLetter (ctx : context E) (topic : string) (dl : DeadLetter) : M (St E) (option error) :=
  let stream := dlqStream topic in
  match deadLetter_sink ctx with
  | None =>
      ret (Some (ErrFmt "dead-lettering to %q: no dead letter sink configured" [inl (FQuoted stream)]))
  | Some sink =>
      match marshal_deadletter dl with
      | Err e =>
          ret (Some (ErrFmt "marshalling dead letter for %q: %w" [inl (FQuoted stream); inr e]))
      | Ok body =>
          let a := consumeAttrs topic (Group (Consumer_ (c_cfg c))) ""
                     [(attrReason, AStr (Reason dl))] in
          let fields e := [("topic", AStr topic); ("dlq_stream", AStr stream);
                           ("reason", AStr (Reason dl));
                           ("delivery_attempts", AInt (DeliveryAttempts dl)); ("error", e)] in
          err <- sink_publish sink ctx stream body ;;
          match err with
          | Some e =>
              add (dlqPublishFailures (c_inst c)) a ;;
              log LevelError "messaging: dead letter publish failed" [] (fields (AErr e)) ;;
              ret (Some (ErrFmt "publishing dead letter to %q: %w" [inl (FQuoted stream); inr e]))
          | None =>
              add (dlq_ (c_inst c)) a ;;
              log LevelWarn "messaging: event dead-lettered" [] (fields (AStr (dl_Error dl))) ;;
              ret None
          end
      end
  end.

(** ** The immediate-retry loop *)

Definition call_handler (handler : dispatchFunc E) (ctx : context E) (env : Envelope string) :
    M (St E) (option error) :=
  emit (EHandler (correlationIDFromContext ctx) env) ;;
  err <- lift (fun w =>
           match handler ctx env w with
           | (Returned err, w') => (Ret err, w', [])
           | (Panicked v, w') => (Panic v, w', [])
           end) ;;
  emit (EReturn err) ;;
  ret err.

Definition sleepWithJitter (ctx : context E) (upper : Duration) : M (St E) bool :=
  if upper <=? 0 then
    lift (fun w => (Ret (negb (env_ctx_done ctx w)), w, []))
  else
    lift (fun w =>
      let '(d, w1) := env_rand upper w in
      let '(fired, w2) := env_timer_first ctx d w1 in
      (Ret fired, w2, [ESleep d])).

Definition retry_upper (ctx : context E) (i : Z) : Duration :=
  match ctx_probe ctx with
  | Some p => if NoBackoff p then 0 else backoffUpperBound (Retry (c_cfg c)) i
  | None => backoffUpperBound (Retry (c_cfg c)) i
  end.

Section retry_loop.
Variables (ctx : context E) (topic payload : string) (attempt : Z)
  (handler : dispatchFunc E) (env : Envelope string) (lg : attrs).

(** One iteration of the loop per unit of fuel. *)
Fixpoint retry_loop (fuel : nat) (i : Z) : M (St E) (option error) :=
  match fuel with
  | O => out_of_fuel
  | S fuel' =>
      err <- call_handler handler ctx env ;;
      match err with
      | None => modify_rec processed ;; ret None
      | Some e =>
          if IsDiscard err then
            log LevelWarn "messaging: handler discarded event" lg [("error", AErr e)] ;;
            modify_rec (skipped reasonDiscard) ;;
            ret None
          else if IsPermanent err then
            log LevelError "messaging: handler returned a permanent error" lg [("error", AErr e)] ;;
            modify_rec (failed categoryPermanent err) ;;
            dl <- newDeadLetter topic ReasonPermanent e attempt ;;
            deadLetter ctx topic (set_body dl (deadLetterBody payload))
          else if MaxImmediateRetries (Retry (c_cfg c)) <=? i then
            log LevelError "messaging: handler returned error, immediate retries exhausted" lg
              [("immediate_attempts", AInt (i + 1)); ("error", AErr e)] ;;
            modify_rec (failed categoryRetryable err) ;;
            ret err
          else
            log LevelDebug "messaging: retrying handler" lg
              [("immediate_attempt", AInt (i + 1)); ("error", AErr e)] ;;
            retry (i + 1) e ;;
            woke <- sleepWithJitter ctx (retry_upper ctx i) ;;
            if negb woke then
              modify_rec (failed categoryRetryable err) ;;
              ret err
            else retry_loop fuel' (i + 1)
      end
  end.
End retry_loop.

Definition retry_fuel : nat := S (Z.to_nat (MaxImmediateRetries (Retry (c_cfg c)))).

Definition runWithRetry (ctx : context E) (topic payload : string) (attempt : Z)
    (handler : dispatchFunc E) (env : Envelope string) (lg : attrs) : M (St E) (option error) :=
  let lg := lg ++ [("topic", AStr topic); ("event_type", AStr (EventType env));
                   ("schema_version", AStr (SchemaVersion env)); ("event_id", AStr (EventID env));
                   ("delivery_attempt", AInt attempt)] in
  retry_loop ctx topic payload attempt handler env lg retry_fuel 0.
End consumer.

(** ** dispatch *)

Section dispatch.
Context {E : Type} `{HEnv : !Env E, HFmt : !GoFmt, HTime : !GoTime, HJson : !JsonCodec}.
Variable c : Consumer E.

(** The base logger of a delivery; the payload rides it only when
    [LogPayloads] is set. *)
Definition delivery_logger (span : nat) (payload : string) (md : metadata) : attrs :=
  let ids := env_span_ids span in
  [("stream_id", AStr (md_get md MetadataStreamID));
   ("delivery_attempt", AStr (md_get md MetadataDeliveryAttempt));
   ("trace_id", AStr (fst ids)); ("span_id", AStr (snd ids))] ++
  (if LogPayloads (Telemetry (c_cfg c)) then [("payload", AStr payload)] else []).

Definition queue_latency (topic : string) (md : metadata) : M (St E) unit :=
  match parsePublishedAt md with
  | None => ret tt
  | Some publishedAt =>
      t <- lift now ;;
      let latency := Seconds (Since t publishedAt) in
      record (queueLatency (c_inst c)) (if SFltb latency fzero then fzero else latency)
        [(attrTopic, AStr topic)]
  end.

(** The common tail of the three deserialization failures. *)
Definition reject (ctx : context E) (topic payload : string) (attempt : Z) (err cause : error) :
    M (St E) (option error) :=
  modify_rec (failed categoryDeserialization (Some err)) ;;
  dl <- newDeadLetter c topic ReasonDeserializationFailed cause attempt ;;
  deadLetter c ctx topic (set_body dl (None, Some payload)).

(** [dispatch] from the registry lookup on. *)
Definition route_and_run (ctx : context E) (topic payload : string) (attempt : Z)
    (env : Envelope string) (major : Z) (lg : attrs) : M (St E) (option error) :=
  let '(handler, m) := lookup_route (c_registry c) topic (EventType env) major in
  if bool_decide (m = matchNone) then
    log LevelDebug "messaging: no handler for event" lg
      [("topic", AStr topic); ("event_type", AStr (EventType env));
       ("schema_version", AStr (SchemaVersion env)); ("event_id", AStr (EventID env))] ;;
    modify_rec (skipped reasonNoHandler) ;;
    ret None
  else
    (if bool_decide (m = matchTyped) then modify_rec (setEventType (EventType env)) else ret tt) ;;
    match handler with
    | None => panic "nil handler"
    | Some h =>
        runWithRetry c (contextWithCorrelationID ctx (CorrelationID env)) topic payload attempt h env lg
    end.

(** [dispatch] once the delivery attempt is within the cap. *)
Definition decode_and_run (ctx : context E) (span : nat) (topic payload : string) (attempt : Z)
    (lg : attrs) : M (St E) (option error) :=
  emit (EDecode payload) ;;
  match unmarshal_envelope payload with
  | Err e =>
      log LevelError "messaging: undecodable event envelope" lg [("topic", AStr topic); ("error", AErr e)] ;;
      reject ctx topic payload attempt e
        (ErrFmt "unmarshalling envelope on topic %q: %w" [inl (FQuoted topic); inr e])
  | Ok env =>
      emit (ESpanAttrs span
              [("messaging.message.id", AStr (EventID env));
               ("messaging.foi.event_type", AStr (EventType env));
               ("messaging.foi.schema_version", AStr (SchemaVersion env));
               ("messaging.foi.correlation_id", AStr (CorrelationID env))]) ;;
      match validateEnvelope env with
      | Some e =>
          log LevelError "messaging: invalid event envelope" lg
            [("topic", AStr topic); ("event_id", AStr (EventID env)); ("error", AErr e)] ;;
          reject ctx topic payload attempt e
            (ErrFmt "validating envelope on topic %q: %w" [inl (FQuoted topic); inr e])
      | None =>
          match majorVersion (SchemaVersion env) with
          | Err e =>
              log LevelError "messaging: unparseable schema version" lg
                [("topic", AStr topic); ("event_id", AStr (EventID env)); ("error", AErr e)] ;;
              reject ctx topic payload attempt e
                (ErrFmt "parsing schema version on topic %q: %w" [inl (FQuoted topic); inr e])
          | Ok major => route_and_run ctx topic payload attempt env major lg
          end
      end
  end.

(** The part of [dispatch] between the deferred [rec.end()] and its return. *)
Definition dispatch_body (ctx : context E) (span : nat) (topic payload : string) (md : metadata) :
    M (St E) (option error) :=
  add (received (c_inst c)) [(attrTopic, AStr topic)] ;;
  queue_latency topic md ;;
  let lg := delivery_logger span payload md in
  let attempt := deliveryAttempt md in
  let cap := MaxDeliveryAttempts (Consumer_ (c_cfg c)) in
  emit (ESpanAttrs span [("messaging.foi.delivery_attempt", AInt attempt)]) ;;
  if cap <? attempt then
    log LevelWarn "messaging: delivery attempt cap exceeded" lg
      [("topic", AStr topic); ("max_delivery_attempts", AInt cap)] ;;
    let err := ErrFmt "delivery attempt %d exceeded MaxDeliveryAttempts %d"
                 [inl (FInt attempt); inl (FInt cap)] in
    modify_rec (failed categoryMaxAttempts (Some err)) ;;
    dl <- newDeadLetter c topic ReasonMaxAttemptsExceeded err attempt ;;
    deadLetter c ctx topic (set_body dl (deadLetterBody payload))
  else decode_and_run ctx span topic payload attempt lg.

Definition dispatch (ctx : context E) (topic payload : string) (md : metadata) :
    M (St E) (option error) :=
  let ctx := match env_extract md with Some r => ctx_with_remote ctx (Some r) | None => ctx end in
  span <- lift (start_span ctx ("process " +:+ topic)
            [("messaging.system", AStr "redis");
             ("messaging.operation.name", AStr "process");
             ("messaging.destination.name", AStr (streamName c topic));
             ("messaging.consumer.group.name", AStr (Group (Consumer_ (c_cfg c))));
             ("messaging.foi.stream_id", AStr (md_get md MetadataStreamID))]) ;;
  let ctx := ctx_with_span ctx span in
  let probe := testseam_FromContext ctx in
  t <- lift now ;;
  modify_rec (fun _ => newDeliveryRecorder (c_inst c) span topic (Group (Consumer_ (c_cfg c)))
                         (Logger (Telemetry (c_cfg c))) (bool_decide (is_Some probe)) t) ;;
  with_defer (dispatch_body ctx span topic payload md) end_.

(** The OnUndecodable hook: a stream entry the marshaller could not read. *)
Definition handleUndecodable (runCtx : context E) (topicByStream : gmap string string)
    (stream entryID : string) (fields : gmap string string) : M (St E) (option error) :=
  match topicByStream !! stream with
  | None => ret (Some (ErrFmt "no topic registered for stream %q" [inl (FQuoted stream)]))
  | Some topic =>
      add (received (c_inst c)) [(attrTopic, AStr topic)] ;;
      match marshal_fields fields with
      | Err e =>
          ret (Some (ErrFmt "marshalling fields of undecodable entry %q: %w"
                       [inl (FQuoted entryID); inr e]))
      | Ok raw =>
          dl <- newDeadLetter c topic ReasonDeserializationFailed
                  (ErrFmt "stream entry %q could not be unmarshalled" [inl (FQuoted entryID)]) 1 ;;
          deadLetter c (ctx_without_cancel runCtx) topic (set_body dl (None, Some raw))
      end
  end.
End dispatch.
