(* ===== verification/SampleDelivery.v ===== *)
(** * A concrete consumer

    A codec for a two-document world and a consumer of one topic, against
    which witnesses and examples evaluate the consume path. *)

From S2P Require Import Prelude GoStrings GoErrors Validation Registry Config GoDuration Runtime Sample.
From S2P Require Import Telemetry Delivery.
From stdpp Require Import options.

Definition sample_envelope : Envelope string :=
  mkEnvelope "e1" "order.created" 5 "1.2.0" "corr-1" "orders.service" "{}".

(** Knows one envelope, whose encoding is the word order; refuses the rest,
    and takes only the word junk for invalid JSON. *)
#[export] Instance plain_codec : JsonCodec := {
  json_Valid p := negb (String.eqb p "junk");
  unmarshal_envelope p := if String.eqb p "order" then Ok sample_envelope else Err (errorf "bad JSON");
  marshal_envelope _ := Ok "order";
  marshal_deadletter dl :=
    Ok (Reason dl +:+ ":" +:+ default "" (Event dl) +:+ default "" (EventRaw dl));
  unmarshal_deadletter _ := Err (errorf "not a dead letter");
  marshal_fields _ := Ok "{}";
}.

(** Every instrument can be created. *)
#[export] Instance plain_meter : MeterApi := { meter_create _ _ := None }.

Definition sample_consumer (cfg : Config) (h : dispatchFunc world) : Consumer world :=
  mkConsumer cfg (addTyped newRegistry "orders" "order.created" 1 h).1 true
    (Some redisDeadLetterSink) (Some 9%nat) (instruments_of (Some 1%nat)).

Definition sample_state (w : world) : St world :=
  mkSt w (newDeliveryRecorder (instruments_of None) 0 "" "" None false 0) None.

(** Run the sample consumer on one payload, its handler returning [script]. *)
Definition sample_dispatch (cfg : Config) (script : list (option error)) (down : option error)
    (attempt payload : string) : outcome (option error) * St world * list event :=
  dispatch (sample_consumer cfg scripted) background "orders" payload
    {[ MetadataDeliveryAttempt := attempt ]} (sample_state (mkWorld 10 script down false)).

(** What an observer sees: outcome, counters, stream writes, handler results. *)
Definition observed (x : outcome (option error) * St world * list event) :=
  (x.1.1, metrics x.2, writes x.2, returns x.2).

Definition boom : error := errorf "boom".

Example a_success :
  observed (sample_dispatch minimal_validated [None] None "1" "order") =
  (Ret None, ["messaging.events.received"; "messaging.events.processed"], [], [None]).
Proof. vm_compute. reflexivity. Qed.

Example a_retry_then_success :
  observed (sample_dispatch minimal_validated [Some boom; None] None "1" "order") =
  (Ret None, ["messaging.events.received"; "messaging.retries"; "messaging.events.processed"], [],
   [Some boom; None]).
Proof. vm_compute. reflexivity. Qed.

Example an_exhausted_retry :
  observed (sample_dispatch minimal_validated (replicate 4 (Some boom)) None "1" "order") =
  (Ret (Some boom),
   ["messaging.events.received"; "messaging.retries"; "messaging.retries"; "messaging.retries";
    "messaging.events.failed"], [], replicate 4 (Some boom)).
Proof. vm_compute. reflexivity. Qed.

Example a_permanent_error :
  observed (sample_dispatch minimal_validated [AsPermanent (Some boom)] None "1" "order") =
  (Ret None, ["messaging.events.received"; "messaging.dlq"; "messaging.events.failed"],
   [("foi:orders.dlq", "permanent:order", None)], [AsPermanent (Some boom)]).
Proof. vm_compute. reflexivity. Qed.

Example a_capped_event :
  observed (sample_dispatch minimal_validated [None] None "6" "order") =
  (Ret None, ["messaging.events.received"; "messaging.dlq"; "messaging.events.failed"],
   [("foi:orders.dlq", "max_attempts_exceeded:order", None)], []).
Proof. vm_compute. reflexivity. Qed.

Example a_panic :
  observed (sample_dispatch minimal_validated [] None "1" "order") =
  (Panic "script exhausted", ["messaging.events.received"; "messaging.events.failed"], [], []).
Proof. vm_compute. reflexivity. Qed.
