(* ===== verification/DeliveryFrame.v ===== *)
(** * What a delivery does to the world around it

    [library_move] is what one call of the library does to the environment,
    [reached] a path of such moves and of calls of one handler, [handled_by] a
    path on which these calls are the handler calls of a trace.  Two program
    logics over the runs of [dispatch] and [handleUndecodable]: [steps R], that a
    run satisfies a relation [R] which library moves and bookkeeping keep, given
    that the handler's calls do ([moved_by] and [walks] are two), and [yields P],
    that a run returns a value satisfying [P]. *)

From S2P Require Import Prelude GoStrings GoErrors Validation Registry Config GoDuration Runtime Sample.
From S2P Require Import Telemetry Delivery.
From stdpp Require Import options.

#[local] Set Default Proof Using "Type*".

(** ** Paths through the environment *)

(** What the library's own calls do to the environment, where its dead letters
    go to [sink]. *)
Inductive library_move {E} `{HEnv : !Env E} (sink : option (deadLetterSink E)) : E -> E -> Prop :=
| move_now w : library_move sink w (env_now w).2
| move_uuid w : library_move sink w (env_uuid w).2
| move_rand n w : library_move sink w (env_rand n w).2
| move_timer ctx d w : library_move sink w (env_timer_first ctx d w).2
| move_xadd ctx stream id body md w : library_move sink w (env_xadd ctx stream id body md w).2
| move_span ctx w : library_move sink w (env_start_span ctx w).2
| move_probe f stream body w : sink = Some (probeSink f) -> library_move sink w (f stream body w).2.

(** From [w] to [w'] by moves of the library and by the calls of one handler,
    with their outcomes in order. *)
Inductive reached {E} `{HEnv : !Env E} (sink : option (deadLetterSink E)) (call : E -> handled * E) :
    E -> list handled -> E -> Prop :=
| reached_here w : reached sink call w [] w
| reached_move w w1 os w2 : library_move sink w w1 -> reached sink call w1 os w2 -> reached sink call w os w2
| reached_call w o w1 os w2 : call w = (o, w1) -> reached sink call w1 os w2 -> reached sink call w (o :: os) w2.

Definition returned (o : handled) : option (option error) :=
  match o with Returned err => Some err | Panicked _ => None end.

(** The handler calls on the trace [t] are calls of [call], on the way from [w]
    to [w'], and what they returned is what [call] returned there. *)
Definition handled_by {E} `{HEnv : !Env E} sink (call : E -> handled * E) (w : E) (t : list event) (w' : E) : Prop :=
  exists os, reached sink call w os w' /\ omap returned os = returns t /\ length os = length (calls t).

Section paths.
Context {E : Type} `{HEnv : !Env E}.
Variables (sink : option (deadLetterSink E)) (call : E -> handled * E).

Lemma reached_app w1 os1 w2 os2 w3 :
  reached sink call w1 os1 w2 -> reached sink call w2 os2 w3 -> reached sink call w1 (os1 ++ os2) w3.
Proof. induction 1; simpl; [done|eauto using reached_move|eauto using reached_call]. Qed.

Lemma handled_by_app w1 t1 w2 t2 w3 :
  handled_by sink call w1 t1 w2 -> handled_by sink call w2 t2 w3 -> handled_by sink call w1 (t1 ++ t2) w3.
Proof.
  intros (os1 & H1 & Hr1 & Hc1) (os2 & H2 & Hr2 & Hc2). exists (os1 ++ os2). split; [by eapply reached_app|].
  by rewrite omap_app, returns_app, calls_app, !length_app, Hr1, Hr2, Hc1, Hc2.
Qed.

Lemma handled_by_moves w w' : rtc (library_move sink) w w' -> handled_by sink call w [] w'.
Proof. intros H. exists []. split; [|done]. induction H; [constructor|by eapply reached_move]. Qed.

(** Where the handler does the same. *)
Lemma reached_ext call' w os w' :
  (forall w, call w = call' w) -> reached sink call w os w' -> reached sink call' w os w'.
Proof. intros Hc. induction 1; [constructor|by eapply reached_move|eapply reached_call; [by rewrite <-Hc|done]]. Qed.

(** Without a handler call only the library acted. *)
Lemma handled_by_quiet w t w' : handled_by sink call w t w' -> calls t = [] -> rtc (library_move sink) w w'.
Proof.
  intros (os & H & _ & Hlen) Ht. rewrite Ht in Hlen. destruct os; [|done]. clear Hlen. remember [] as os eqn:Hos.
  induction H; [done|eapply rtc_l; [done|auto]|done].
Qed.

Lemma handled_by_ext call' w t w' :
  (forall w, call w = call' w) -> handled_by sink call w t w' -> handled_by sink call' w t w'.
Proof. intros Hc (os & H & ?). exists os. split; [by eapply reached_ext|done]. Qed.

Lemma handled_by_trace w t t' w' :
  calls t = calls t' -> returns t = returns t' -> handled_by sink call w t w' -> handled_by sink call w t' w'.
Proof. intros Hc Hr (os & ? & ? & ?). exists os. by rewrite <-Hc, <-Hr. Qed.
End paths.

(** The context a delivery works under, and gives to its handler. *)
Definition delivery_ctx {E} `{HEnv : !Env E} (ctx : context E) (md : metadata) (span : nat) : context E :=
  ctx_with_span (match env_extract md with Some r => ctx_with_remote ctx (Some r) | None => ctx end) span.

Lemma delivery_ctx_sink {E} `{HEnv : !Env E} (c : Consumer E) ctx md span :
  deadLetter_sink c (delivery_ctx ctx md span) = deadLetter_sink c ctx.
Proof. unfold delivery_ctx. by destruct (env_extract md). Qed.

Lemma call_handler_run {E} (h : dispatchFunc E) ctx env (s : St E) :
  call_handler h ctx env s =
  match h ctx env (st_env s) with
  | (Returned err, w') =>
      (Ret err, mkSt w' (st_rec s) (st_verdict s), [EHandler (ctx_correlation ctx) env; EReturn err])
  | (Panicked v, w') =>
      (Panic v, mkSt w' (st_rec s) (st_verdict s), [EHandler (ctx_correlation ctx) env])
  end.
Proof.
  unfold call_handler, bind, emit, lift, ret. simpl.
  by destruct (h ctx env (st_env s)) as [[err|v] w'].
Qed.

(** ** A logic of trails *)

(** The calls the library makes outside move the environment by [Q]. *)
Class QuietEnv {E} `{HEnv : !Env E} (Q : E -> E -> Prop) := {
  quiet_now w : Q w (env_now w).2;
  quiet_uuid w : Q w (env_uuid w).2;
  quiet_rand n w : Q w (env_rand n w).2;
  quiet_timer ctx d w : Q w (env_timer_first ctx d w).2;
  quiet_xadd ctx stream id body md w : Q w (env_xadd ctx stream id body md w).2;
  quiet_span ctx w : Q w (env_start_span ctx w).2;
}.

(** So do the handlers a consumer has. *)
Definition quiet_handlers {E} (Q : E -> E -> Prop) (c : Consumer E) : Prop :=
  forall topic ty major h m, lookup_route (c_registry c) topic ty major = (Some h, m) ->
    forall ctx env w, Q w (h ctx env w).2.

(** An event that is no handler call and no return of one. *)
Definition unhandled (e : event) : bool :=
  match e with EHandler _ _ | EReturn _ => false | _ => true end.

(** A relation between the states around a run and its trace that the library's
    moves and its bookkeeping keep. *)
Class Framed {E} `{HEnv : !Env E} (sink : option (deadLetterSink E)) (R : St E -> St E -> list event -> Prop) := {
  framed_trail :: Trail R;
  framed_events t s : forallb unhandled t = true -> R s s t;
  framed_rec s r v : R s (mkSt (st_env s) r v) [];
  framed_move w w' r v : library_move sink w w' -> R (mkSt w r v) (mkSt w' r v) [];
}.

Section frame.
Context {E : Type} `{HEnv : !Env E, HFmt : !GoFmt, HTime : !GoTime, HJson : !JsonCodec}.
Variables (sink : option (deadLetterSink E)) (R : St E -> St E -> list event -> Prop).
Context `{HR : !Framed sink R}.

Definition steps {A} (m : M (St E) A) : Prop := respects R m.

Lemma steps_ret {A} (a : A) : steps (ret a).
Proof. apply (respects_ret R). Qed.
Lemma steps_panic {A} v : steps (panic (A := A) v).
Proof. intros s. apply trail_refl. Qed.
Lemma steps_out_of_fuel {A} : steps (out_of_fuel (A := A)).
Proof. intros s. apply trail_refl. Qed.
Lemma steps_emit e : unhandled e = true -> steps (emit e).
Proof. intros He s. apply framed_events. simpl. by rewrite He. Qed.
Lemma steps_bind {A B} (m : M (St E) A) (k : A -> M (St E) B) :
  steps m -> (forall a, steps (k a)) -> steps (bind m k).
Proof. apply (respects_bind R). Qed.
Lemma steps_if {A} (b : bool) (m1 m2 : M (St E) A) : steps m1 -> steps m2 -> steps (if b then m1 else m2).
Proof. by destruct b. Qed.
Lemma steps_get_rec : steps get_rec.
Proof. intros s. apply trail_refl. Qed.
Lemma steps_modify_rec f : steps (modify_rec f).
Proof. intros s. apply framed_rec. Qed.
Lemma steps_set_verdict v : steps (set_verdict v).
Proof. intros s. apply framed_rec. Qed.
Lemma steps_add i a : steps (add i a).
Proof. unfold add. destruct (i_provider i); [by apply steps_emit|apply steps_ret]. Qed.
Lemma steps_record i v a : steps (record i v a).
Proof. unfold record. destruct (i_provider i); [by apply steps_emit|apply steps_ret]. Qed.
Lemma steps_log l msg base extra : steps (log l msg base extra).
Proof. by apply steps_emit. Qed.

Lemma steps_lift {A} (m : M E A) :
  (forall w, rtc (library_move sink) w (m w).1.2 /\ forallb unhandled (m w).2 = true) -> steps (lift m).
Proof.
  intros Hm [w r v]. unfold lift. simpl. destruct (Hm w) as [Hw Ht]. destruct (m w) as [[o w'] t]. simpl in *.
  induction Hw as [w|w w1 w2 H1 _ IH]; [by apply framed_events|]. eapply (trail_app _ _ _ []); [by apply framed_move|done].
Qed.

Lemma steps_now : steps (lift now).
Proof.
  apply steps_lift. intros w. unfold now. pose proof (move_now sink w). destruct (env_now w). split; [by apply rtc_once|done].
Qed.
Lemma steps_uuid : steps (lift new_uuid).
Proof.
  apply steps_lift. intros w. unfold new_uuid. pose proof (move_uuid sink w). destruct (env_uuid w).
  split; [by apply rtc_once|done].
Qed.
Lemma steps_span ctx name a : steps (lift (start_span ctx name a)).
Proof.
  apply steps_lift. intros w. unfold start_span. pose proof (move_span sink ctx w). destruct (env_start_span ctx w).
  split; [by apply rtc_once|done].
Qed.

Lemma steps_publish ctx stream id body md : steps (lift (wm_Publish ctx stream id body md)).
Proof.
  apply steps_lift. intros w. unfold wm_Publish, bind, xadd. pose proof (move_xadd sink ctx stream id body md w).
  destruct (env_xadd _ _ _ _ _ w) as [[e|] w']; (split; [by apply rtc_once|done]).
Qed.

Lemma steps_sleep ctx upper : steps (sleepWithJitter ctx upper).
Proof.
  unfold sleepWithJitter. apply steps_if; apply steps_lift; intros w; [done|].
  pose proof (move_rand sink upper w). destruct (env_rand upper w) as [d w1].
  pose proof (move_timer sink ctx d w1). destruct (env_timer_first _ _ _). split; [|done].
  eapply rtc_l; [eassumption|by apply rtc_once].
Qed.

Create HintDb steps.
Hint Resolve steps_ret steps_panic steps_out_of_fuel steps_bind steps_if steps_get_rec steps_modify_rec
  steps_set_verdict steps_add steps_record steps_log steps_now steps_uuid steps_span steps_publish steps_sleep : steps.
Hint Extern 1 (steps (emit _)) => by apply steps_emit : steps.

Ltac steps_tac := repeat first [progress intros|solve [auto with steps]|apply steps_bind|apply steps_if|case_match].

Lemma steps_recordFailure base : steps (recordFailure base).
Proof. unfold recordFailure. steps_tac. Qed.
Lemma steps_retry attempt err : steps (retry attempt err).
Proof. unfold retry. steps_tac. Qed.
Hint Resolve steps_recordFailure steps_retry : steps.

Lemma steps_end : steps end_.
Proof. unfold end_. steps_tac. Qed.

Variable c : Consumer E.

Lemma steps_queue_latency topic md : steps (queue_latency c topic md).
Proof. unfold queue_latency. steps_tac. Qed.

Lemma steps_newDeadLetter topic reason cause attempt : steps (newDeadLetter c topic reason cause attempt).
Proof. unfold newDeadLetter. steps_tac. Qed.
Hint Resolve steps_end steps_queue_latency steps_newDeadLetter : steps.

Lemma steps_deadLetter ctx topic dl : deadLetter_sink c ctx = sink -> steps (deadLetter c ctx topic dl).
Proof.
  intros Hctx. unfold deadLetter. destruct (deadLetter_sink c ctx) as [sk|]; [|auto with steps].
  destruct (marshal_deadletter dl) as [body|]; [|auto with steps]. apply steps_bind; [|steps_tac].
  unfold sink_publish. destruct sk as [|f]; [steps_tac|]. apply steps_lift. intros w.
  pose proof (move_probe sink f (dlqStream c topic) body w (eq_sym Hctx)).
  destruct (f _ _ w) as [err w']. split; [by apply rtc_once|done].
Qed.

Lemma steps_letter ctx topic reason cause attempt body :
  deadLetter_sink c ctx = sink ->
  steps (dl <- newDeadLetter c topic reason cause attempt ;; deadLetter c ctx topic (set_body dl body)).
Proof. intros. apply steps_bind; [auto with steps|intros]. by apply steps_deadLetter. Qed.
Hint Resolve steps_deadLetter steps_letter : steps.

Lemma steps_retry_loop ctx topic payload attempt h env lg fuel i :
  deadLetter_sink c ctx = sink -> steps (call_handler h ctx env) ->
  steps (retry_loop c ctx topic payload attempt h env lg fuel i).
Proof.
  intros Hctx Hh. revert i. induction fuel as [|fuel IH]; intros i; [auto with steps|].
  cbn [retry_loop]. steps_tac.
Qed.

(** A delivery keeps [R] when the calls of the handler the event is routed to
    do. *)
Lemma steps_dispatch_body ctx span topic payload md :
  deadLetter_sink c ctx = sink ->
  (forall env major h m, unmarshal_envelope payload = Ok env -> majorVersion (SchemaVersion env) = Ok major ->
     lookup_route (c_registry c) topic (EventType env) major = (Some h, m) ->
     steps (call_handler h (contextWithCorrelationID ctx (CorrelationID env)) env)) ->
  steps (dispatch_body c ctx span topic payload md).
Proof.
  intros Hctx Hcalls. unfold dispatch_body. do 3 (apply steps_bind; [auto with steps|intros _]).
  apply steps_if; [steps_tac|]. unfold decode_and_run, reject. apply steps_bind; [auto with steps|intros _].
  destruct (unmarshal_envelope payload) as [env|e] eqn:Hu; [|steps_tac].
  apply steps_bind; [auto with steps|intros _]. destruct (validateEnvelope env); [steps_tac|].
  destruct (majorVersion (SchemaVersion env)) as [major|e] eqn:Hm; [|steps_tac].
  unfold route_and_run. destruct (lookup_route _ _ _ _) as [h m] eqn:Hl. apply steps_if; [steps_tac|].
  apply steps_bind; [steps_tac|intros _]. destruct h as [h|]; [|auto with steps]. apply steps_retry_loop; [done|by eapply Hcalls].
Qed.

Lemma steps_dispatch ctx topic payload md :
  deadLetter_sink c ctx = sink ->
  (forall span env major h m, unmarshal_envelope payload = Ok env -> majorVersion (SchemaVersion env) = Ok major ->
     lookup_route (c_registry c) topic (EventType env) major = (Some h, m) ->
     steps (call_handler h (contextWithCorrelationID (delivery_ctx ctx md span) (CorrelationID env)) env)) ->
  steps (dispatch c ctx topic payload md).
Proof.
  intros Hctx Hcalls. unfold dispatch. apply steps_bind; [auto with steps|intros span].
  apply steps_bind; [auto with steps|intros t]. apply steps_bind; [auto with steps|intros _].
  apply (respects_with_defer R); [|apply steps_end]. apply (steps_dispatch_body (delivery_ctx ctx md span)); [|by eauto].
  by rewrite delivery_ctx_sink.
Qed.

Lemma steps_handleUndecodable ctx tps stream id f :
  deadLetter_sink c ctx = sink -> steps (handleUndecodable c ctx tps stream id f).
Proof. intros Hctx. unfold handleUndecodable. steps_tac. Qed.
End frame.

(** ** Two relations it keeps *)

Section moved.
Context {E : Type} `{HEnv : !Env E, HFmt : !GoFmt, HTime : !GoTime, HJson : !JsonCodec}.
Variable Q : E -> E -> Prop.
Context `{HQ : !PreOrder Q, HQuiet : !QuietEnv Q}.

Definition moved_by (s s' : St E) (_ : list event) : Prop := Q (st_env s) (st_env s').

(** Where no probe takes the dead letters, the library's moves are [Q]. *)
Lemma library_quiet sink w w' : (forall f, sink <> Some (probeSink f)) -> library_move sink w w' -> Q w w'.
Proof.
  intros Hsink []; [apply quiet_now|apply quiet_uuid|apply quiet_rand|apply quiet_timer|apply quiet_xadd|apply quiet_span|].
  by destruct (Hsink f).
Qed.

Lemma moved_by_framed sink : (forall f, sink <> Some (probeSink f)) -> Framed sink moved_by.
Proof.
  intros Hsink. split; unfold moved_by; [split; unfold moved_by; [done|intros; by etrans]|done..|].
  intros w w' r v. by apply library_quiet.
Qed.

Variable c : Consumer E.

(** In a consumer that serves, dead letters go to Redis, and contexts carry no
    probe. *)
Hypothesis redis_sink : forall f, c_dlq c <> Some (probeSink f).
Hypothesis handlers_quiet : quiet_handlers Q c.

Lemma serving_sink ctx f : ctx_probe ctx = None -> deadLetter_sink c ctx <> Some (probeSink f).
Proof. intros Hctx. unfold deadLetter_sink, testseam_FromContext. by rewrite Hctx. Qed.

Lemma moves_dispatch ctx topic payload md : ctx_probe ctx = None -> respects moved_by (dispatch c ctx topic payload md).
Proof.
  intros Hctx. pose proof (moved_by_framed _ (fun f => serving_sink ctx f Hctx)).
  apply (steps_dispatch (deadLetter_sink c ctx) moved_by); [done|]. intros span env major h m _ _ Hl s.
  unfold moved_by. rewrite call_handler_run. specialize (handlers_quiet _ _ _ _ _ Hl).
  match goal with |- context [h ?ctx ?env ?w] => specialize (handlers_quiet ctx env w); destruct (h ctx env w) as [[]] end; done.
Qed.

Lemma moves_handleUndecodable ctx tps stream id f :
  ctx_probe ctx = None -> respects moved_by (handleUndecodable c ctx tps stream id f).
Proof.
  intros Hctx. pose proof (moved_by_framed _ (fun f => serving_sink ctx f Hctx)).
  by apply (steps_handleUndecodable (deadLetter_sink c ctx) moved_by).
Qed.
End moved.

Section walks.
Context {E : Type} `{HEnv : !Env E, HFmt : !GoFmt, HTime : !GoTime, HJson : !JsonCodec}.
Variables (sink : option (deadLetterSink E)) (call : E -> handled * E).

Definition walks (s s' : St E) (t : list event) : Prop := handled_by sink call (st_env s) t (st_env s').

Lemma unhandled_events t : forallb unhandled t = true -> returns t = [] /\ calls t = [].
Proof.
  induction t as [|e t IH]; simpl; [done|]. intros [He Ht]%andb_true_iff. destruct (IH Ht). by destruct e.
Qed.

#[export] Instance walks_framed : Framed sink walks.
Proof.
  split; unfold walks.
  - split; [intros s; exists []; split; [constructor|done]|intros; by eapply handled_by_app].
  - intros t s [Hr Hc]%unhandled_events. exists []. rewrite Hr, Hc. split; [constructor|done].
  - intros s r v. exists []. split; [constructor|done].
  - intros w w' r v Hm. exists []. split; [eapply reached_move; [done|constructor]|done].
Qed.

Lemma walks_call h ctx env : (forall w, h ctx env w = call w) -> respects walks (call_handler h ctx env).
Proof.
  intros Hh s. unfold walks. rewrite call_handler_run. specialize (Hh (st_env s)).
  destruct (h ctx env (st_env s)) as [[err|v] w']; eexists [_];
    (split; [eapply reached_call; [by rewrite <-Hh|constructor]|done]).
Qed.
End walks.

(** ** Returning *)

Section yields.
Context {S : Type}.

(** [m] returns, and a value satisfying [P]. *)
Definition yields {A} (P : A -> Prop) (m : M S A) : Prop := forall s, exists a s' t, m s = (Ret a, s', t) /\ P a.

Lemma yields_ret {A} (P : A -> Prop) a : P a -> yields P (ret a).
Proof. intros Ha s. by exists a, s, []. Qed.

Lemma yields_emit e : yields (fun _ => True) (emit (S := S) e).
Proof. intros s. by exists tt, s, [e]. Qed.

Lemma yields_modify f : yields (fun _ => True) (modify (S := S) f).
Proof. intros s. by exists tt, (f s), []. Qed.

Lemma yields_bind {A B} (P : A -> Prop) (R : B -> Prop) (m : M S A) (k : A -> M S B) :
  yields P m -> (forall a, P a -> yields R (k a)) -> yields R (bind m k).
Proof.
  intros Hm Hk s. destruct (Hm s) as (a & s1 & t1 & Hms & Ha). destruct (Hk a Ha s1) as (b & s2 & t2 & Hks & Hb).
  exists b, s2, (t1 ++ t2). split; [|done]. unfold bind. by rewrite Hms, Hks.
Qed.

Lemma yields_with_defer {A} (P : A -> Prop) (m : M S A) d :
  yields P m -> yields (fun _ => True) d -> yields P (with_defer m d).
Proof.
  intros Hm Hd s. destruct (Hm s) as (a & s1 & t1 & Hms & Ha). destruct (Hd s1) as (b & s2 & t2 & Hds & _).
  exists a, s2, (t1 ++ t2). split; [|done]. unfold with_defer. by rewrite Hms, Hds.
Qed.
End yields.

(** Redis takes dead letters: identifiers can be generated, letters and raw
    fields encoded, and XADD succeeds. *)
Record letters_accepted {E} `{!Env E, !JsonCodec} : Prop := {
  la_uuid (w : E) : is_ok (env_uuid w).1 = true;
  la_encode dl : is_ok (marshal_deadletter dl) = true;
  la_fields fs : is_ok (marshal_fields fs) = true;
  la_xadd ctx stream id body md (w : E) : (env_xadd ctx stream id body md w).1 = None;
}.
Arguments letters_accepted E {_ _}.

Section capped.
Context {E : Type} `{HEnv : !Env E, HFmt : !GoFmt, HTime : !GoTime, HJson : !JsonCodec}.
Notation any := (fun _ => True).

Lemma yields_lift {A} (P : A -> Prop) (m : M E A) : yields P m -> yields P (lift m).
Proof.
  intros Hm s. destruct (Hm (st_env s)) as (a & w & t & Hms & Ha). exists a, (mkSt w (st_rec s) (st_verdict s)), t.
  split; [|done]. unfold lift. by rewrite Hms.
Qed.

Lemma yields_now : yields any (lift (E := E) now).
Proof. apply yields_lift. intros w. unfold now. destruct (env_now w). eauto 10. Qed.

Lemma yields_get_rec : yields any (get_rec (E := E)).
Proof. intros s. unfold get_rec. eauto 10. Qed.

Lemma yields_add i a : yields any (add (S := St E) i a).
Proof. unfold add. destruct (i_provider i); [apply yields_emit|by apply yields_ret]. Qed.

Lemma yields_record i ns a : yields any (record (S := St E) i ns a).
Proof. unfold record. destruct (i_provider i); [apply yields_emit|by apply yields_ret]. Qed.

Lemma yields_modify_rec f : yields any (modify_rec (E := E) f).
Proof. apply yields_modify. Qed.

Lemma yields_set_verdict v : yields any (set_verdict (E := E) v).
Proof. apply yields_modify. Qed.

Lemma yields_log l msg base extra : yields any (log (E := E) l msg base extra).
Proof. apply yields_emit. Qed.

Create HintDb yields.
Hint Resolve yields_emit yields_modify_rec yields_set_verdict yields_log yields_now yields_get_rec yields_add yields_record : yields.
Hint Extern 1 (yields _ (ret _)) => (by apply yields_ret) : yields.

Ltac yields_tac :=
  repeat first [progress intros|solve [auto with yields]|eapply (yields_bind any)|case_match].

Lemma yields_recordFailure base : yields any (recordFailure (E := E) base).
Proof. unfold recordFailure. yields_tac. Qed.
Hint Resolve yields_recordFailure : yields.

Lemma yields_end : yields any (end_ (E := E)).
Proof. unfold end_. yields_tac. Qed.

Variable c : Consumer E.
Hypothesis accepted : letters_accepted E.
Hypothesis sink : c_dlq c = Some redisDeadLetterSink.

Lemma yields_deadLetter ctx topic dl : ctx_probe ctx = None -> yields (fun err => err = None) (deadLetter c ctx topic dl).
Proof using accepted sink.
  intros Hctx. unfold deadLetter, deadLetter_sink, testseam_FromContext. rewrite Hctx, sink.
  pose proof (la_encode accepted dl) as Henc. destruct (marshal_deadletter dl) as [body|]; [|done].
  apply (yields_bind (fun err => err = None)).
  - unfold sink_publish. apply (yields_bind (fun id => is_ok id = true)).
    + apply yields_lift. intros w. unfold new_uuid. pose proof (la_uuid accepted w). destruct (env_uuid w). eauto 10.
    + intros [id|] Hid; [|done]. apply yields_lift. intros w. unfold wm_Publish, bind, xadd.
      pose proof (la_xadd accepted ctx (dlqStream c topic) id body ∅ w) as Hx.
      destruct (env_xadd _ _ _ _ _ w) as [err w']. simpl in Hx. subst. simpl. unfold ret. eauto 10.
  - intros ? ->. yields_tac.
Qed.

(** A delivery over the cap returns nil once Redis takes its dead letter. *)
Lemma capped_yields ctx topic payload md :
  ctx_probe ctx = None -> MaxDeliveryAttempts (Consumer_ (c_cfg c)) < deliveryAttempt md ->
  yields (fun err => err = None) (dispatch c ctx topic payload md).
Proof using accepted sink.
  intros Hctx Hcap. unfold dispatch. set (ctx' := match env_extract md with Some _ => _ | None => _ end).
  assert (ctx_probe ctx' = None) as Hctx' by (unfold ctx'; by destruct (env_extract md)). clearbody ctx'.
  apply (yields_bind any).
  { apply yields_lift. intros w. unfold start_span. destruct (env_start_span _ w). eauto 10. }
  intros span _. apply (yields_bind any); [auto with yields|intros t _]. apply (yields_bind any); [auto with yields|intros _ _].
  apply yields_with_defer; [|apply yields_end]. unfold dispatch_body.
  apply (yields_bind any); [auto with yields|intros _ _].
  apply (yields_bind any); [unfold queue_latency; yields_tac|intros _ _].
  apply (yields_bind any); [auto with yields|intros _ _]. apply Z.ltb_lt in Hcap as ->.
  apply (yields_bind any); [auto with yields|intros _ _]. apply (yields_bind any); [auto with yields|intros _ _].
  apply (yields_bind any); [unfold newDeadLetter; yields_tac|intros dl _]. by apply yields_deadLetter.
Qed.

(** The hook returns nil once Redis takes its dead letter. *)
Lemma undecodable_yields ctx tps stream topic id fs :
  ctx_probe ctx = None -> tps !! stream = Some topic ->
  yields (fun err => err = None) (handleUndecodable c ctx tps stream id fs).
Proof using accepted sink.
  intros Hctx Htop. unfold handleUndecodable. rewrite Htop. apply (yields_bind any); [auto with yields|intros _ _].
  pose proof (la_fields accepted fs) as Hf. destruct (marshal_fields fs) as [raw|]; [|done].
  apply (yields_bind any); [unfold newDeadLetter; yields_tac|intros dl _]. by apply yields_deadLetter.
Qed.
End capped.

(** Calls that move the environment by less are quiet for more. *)
Lemma quiet_env_mono {E} `{!Env E} (Q Q' : E -> E -> Prop) :
  (forall w w', Q w w' -> Q' w w') -> QuietEnv Q -> QuietEnv Q'.
Proof. intros HQ []. split; auto. Qed.

Lemma quiet_handlers_mono {E} (Q Q' : E -> E -> Prop) (c : Consumer E) :
  (forall w w', Q w w' -> Q' w w') -> quiet_handlers Q c -> quiet_handlers Q' c.
Proof. intros HQ Hq topic ty major h m Hl ctx env w. eapply HQ, Hq, Hl. Qed.
