(* ===== verification/DeliverySpec.v ===== *)
(** * What a delivery does: specification of [dispatch]

    [dispatched] is the specification of one delivery, a rule per exit path,
    over what an observer sees of it: the envelope decodes, handler calls and
    returns, stream writes and metrics of its trace, the outcome it stated, the
    error it returns (nil acks), and what happened to the environment: the
    library's own calls, and runs of the handler the event is routed to.
    [dispatch_refines] shows that [dispatch] implements it; the properties of the
    consume path (nothing is acked that was not settled, exactly one terminal
    counter, the cap before decoding, bounded retries) follow from the rules. *)

From S2P Require Import Prelude GoStrings GoErrors Validation Registry Config GoDuration Runtime Sample.
From S2P Require Import Telemetry Delivery DeliveryFrame.
From stdpp Require Import options.

#[local] Set Default Proof Using "Type*".

(** ** The specification *)

Section spec.
Context {E : Type} `{HEnv : !Env E, HFmt : !GoFmt, HTime : !GoTime, HJson : !JsonCodec}.
Variable c : Consumer E.
(** The meter provider of the consumer's instruments. *)
Variable mp : option ref.
(** Where dead letters go. *)
Variable sink : option (deadLetterSink E).

Definition publishing_failed (stream : string) (e : error) : error :=
  ErrFmt "publishing dead letter to %q: %w" [inl (FQuoted stream); inr e].

(** The outcome of dead-lettering [dl]: the error returned, the stream writes
    made, and the counters incremented.  Nothing is written only when there is
    no sink, the document cannot be encoded, or no identifier can be generated
    for the new entry. *)
Inductive dlq_result (stream : string) (dl : DeadLetter) :
    option error -> list (string * string * option error) -> list string -> Prop :=
| dlq_written body :
    is_Some sink -> marshal_deadletter dl = Ok body ->
    dlq_result stream dl None [(stream, body, None)] (metric mp "messaging.dlq")
| dlq_write_failed body e e' :
    is_Some sink -> marshal_deadletter dl = Ok body ->
    dlq_result stream dl (Some (publishing_failed stream e')) [(stream, body, Some e)]
      (metric mp "messaging.dlq.publish.failures")
| dlq_no_id (w : E) e :
    sink = Some redisDeadLetterSink -> is_ok (marshal_deadletter dl) = true ->
    (env_uuid w).1 = Err e ->
    dlq_result stream dl (Some (publishing_failed stream (ErrFmt "generating dead letter id: %w" [inr e]))) []
      (metric mp "messaging.dlq.publish.failures")
| dlq_no_encoding e :
    is_Some sink -> marshal_deadletter dl = Err e ->
    dlq_result stream dl (Some (ErrFmt "marshalling dead letter for %q: %w" [inl (FQuoted stream); inr e])) [] []
| dlq_no_sink :
    sink = None ->
    dlq_result stream dl
      (Some (ErrFmt "dead-lettering to %q: no dead letter sink configured" [inl (FQuoted stream)])) [] [].

(** The dead letter a delivery writes: its metadata and the original bytes. *)
Definition letter (t : Time) (topic reason : string) (cause : error) (attempt : Z)
    (body : option string * option string) : DeadLetter :=
  mkDeadLetter t reason (Error cause) attempt (Group (Consumer_ (c_cfg c)))
    (ConsumerName (Consumer_ (c_cfg c))) topic (fst body) (snd body).

(** One dead-lettering of a payload, as [dlq_result] says. *)
Definition dead_lettered (topic reason : string) (cause : error) (attempt : Z)
    (body : option string * option string) (err : option error) ws ms : Prop :=
  exists t, dlq_result (dlqStream c topic) (letter t topic reason cause attempt body) err ws ms.

(** How the retry loop ends, from the last result of the handler after
    [n] retried ones: the error returned, the outcome stated, and the writes
    and counters of this last step. *)
Inductive concluded (topic payload : string) (attempt : Z) (n : nat) (r : deliveryRecorder) :
    option error -> option error -> deliveryRecorder ->
    list (string * string * option error) -> list string -> Prop :=
| concluded_processed : concluded topic payload attempt n r None None (processed r) [] []
| concluded_discard e :
    IsDiscard (Some e) = true ->
    concluded topic payload attempt n r (Some e) None (skipped reasonDiscard r) [] []
| concluded_permanent e err ws ms :
    IsPermanent (Some e) = true ->
    dead_lettered topic ReasonPermanent e attempt (deadLetterBody payload) err ws ms ->
    concluded topic payload attempt n r (Some e) err (failed categoryPermanent (Some e) r) ws ms
| concluded_exhausted e :
    IsRetryable (Some e) = true ->
    MaxImmediateRetries (Retry (c_cfg c)) <= Z.of_nat n ->
    concluded topic payload attempt n r (Some e) (Some e) (failed categoryRetryable (Some e) r) [] []
| concluded_abandoned e :
    (* the context was cancelled during the backoff of retry n + 1 *)
    IsRetryable (Some e) = true ->
    Z.of_nat n < MaxImmediateRetries (Retry (c_cfg c)) ->
    concluded topic payload attempt n r (Some e) (Some e) (failed categoryRetryable (Some e) r) []
      (metric mp "messaging.retries").

(** The backoffs of the loop from iteration [k] on: at most one per retry,
    drawn below that retry's bound. *)
Inductive slept : nat -> list Duration -> Prop :=
| slept_nil k : slept k []
| slept_skip k l : slept (S k) l -> slept k l
| slept_cons k w l :
    Z.of_nat k < MaxImmediateRetries (Retry (c_cfg c)) ->
    0 < backoffUpperBound (Retry (c_cfg c)) (Z.of_nat k) ->
    slept (S k) l ->
    slept k (fst (env_rand (backoffUpperBound (Retry (c_cfg c)) (Z.of_nat k)) w) :: l).

(** The retry loop from iteration [k] on: [retried] are the results that are
    retried, all retryable, and no more than MaxImmediateRetries in all. *)
Inductive retried_run (corr : option string) (topic payload : string) (attempt : Z) (env : Envelope string)
    (k : nat) (r : deliveryRecorder) (t : list event) :
    outcome (option error) -> deliveryRecorder -> Prop :=
| retried_returns retried last err r' ws ms :
    Forall (fun e => IsRetryable e = true) retried ->
    Z.of_nat (k + length retried) <= Z.max 0 (MaxImmediateRetries (Retry (c_cfg c))) ->
    returns t = retried ++ [last] ->
    calls t = replicate (S (length retried)) (corr, env) ->
    slept k (sleeps t) ->
    concluded topic payload attempt (k + length retried) r last err r' ws ms ->
    writes t = ws ->
    metrics t = mjoin (replicate (length retried) (metric mp "messaging.retries")) ++ ms ->
    retried_run corr topic payload attempt env k r t (Ret err) r'
| retried_panics retried v :
    Forall (fun e => IsRetryable e = true) retried ->
    Z.of_nat (k + length retried) <= Z.max 0 (MaxImmediateRetries (Retry (c_cfg c))) ->
    returns t = retried ->
    calls t = replicate (S (length retried)) (corr, env) ->
    slept k (sleeps t) ->
    writes t = [] ->
    metrics t = mjoin (replicate (length retried) (metric mp "messaging.retries")) ->
    retried_run corr topic payload attempt env k r t (Panic v) r.
(** Why a payload is refused before routing: the error recorded, and the
    cause the dead letter carries. *)
Inductive unreadable (topic payload : string) : error -> error -> Prop :=
| unreadable_json e :
    unmarshal_envelope payload = Err e ->
    unreadable topic payload e (ErrFmt "unmarshalling envelope on topic %q: %w" [inl (FQuoted topic); inr e])
| unreadable_envelope env e :
    unmarshal_envelope payload = Ok env -> validateEnvelope env = Some e ->
    unreadable topic payload e (ErrFmt "validating envelope on topic %q: %w" [inl (FQuoted topic); inr e])
| unreadable_version env e :
    unmarshal_envelope payload = Ok env -> validateEnvelope env = None ->
    majorVersion (SchemaVersion env) = Err e ->
    unreadable topic payload e (ErrFmt "parsing schema version on topic %q: %w" [inl (FQuoted topic); inr e]).

Definition readable (payload : string) (env : Envelope string) (major : Z) : Prop :=
  unmarshal_envelope payload = Ok env /\ validateEnvelope env = None /\
  majorVersion (SchemaVersion env) = Ok major.

Definition cap_error (attempt : Z) : error :=
  ErrFmt "delivery attempt %d exceeded MaxDeliveryAttempts %d"
    [inl (FInt attempt); inl (FInt (MaxDeliveryAttempts (Consumer_ (c_cfg c))))].

(** The recorder once an event is routed: only a typed registration lets the
    event type onto the metrics. *)
Definition routed (m : routeMatch) (env : Envelope string) (r : deliveryRecorder) : deliveryRecorder :=
  if bool_decide (m = matchTyped) then setEventType (EventType env) r else r.

End spec.

Section delivery.
Context {E : Type} `{HEnv : !Env E, HFmt : !GoFmt, HTime : !GoTime, HJson : !JsonCodec}.
Variables (c : Consumer E) (mp : option ref) (ctx : context E).
Local Notation "'sink'" := (deadLetter_sink c ctx).

(** One delivery, between its first counter and its end, from the environment
    [w] to [w'].  The calls on its trace are calls of the handler the event is
    routed to, and that handler and the library's own calls make up all that
    happens to the environment. *)
Inductive dispatched (topic payload : string) (md : metadata) (r : deliveryRecorder) (w : E)
    (t : list event) : outcome (option error) -> deliveryRecorder -> E -> Prop :=
| dispatched_capped err w' :
    MaxDeliveryAttempts (Consumer_ (c_cfg c)) < deliveryAttempt md ->
    decodes t = [] -> calls t = [] -> returns t = [] -> sleeps t = [] ->
    dead_lettered c mp sink topic ReasonMaxAttemptsExceeded (cap_error c (deliveryAttempt md)) (deliveryAttempt md)
      (deadLetterBody payload) err (writes t) (metrics t) ->
    rtc (library_move sink) w w' ->
    dispatched topic payload md r w t (Ret err)
      (failed categoryMaxAttempts (Some (cap_error c (deliveryAttempt md))) r) w'
| dispatched_rejected e cause err w' :
    deliveryAttempt md <= MaxDeliveryAttempts (Consumer_ (c_cfg c)) ->
    unreadable topic payload e cause ->
    decodes t = [payload] -> calls t = [] -> returns t = [] -> sleeps t = [] ->
    dead_lettered c mp sink topic ReasonDeserializationFailed cause (deliveryAttempt md) (None, Some payload)
      err (writes t) (metrics t) ->
    rtc (library_move sink) w w' ->
    dispatched topic payload md r w t (Ret err) (failed categoryDeserialization (Some e) r) w'
| dispatched_unhandled env major h w' :
    deliveryAttempt md <= MaxDeliveryAttempts (Consumer_ (c_cfg c)) ->
    readable payload env major ->
    lookup_route (c_registry c) topic (EventType env) major = (h, matchNone) ->
    decodes t = [payload] -> calls t = [] -> returns t = [] -> sleeps t = [] -> writes t = [] -> metrics t = [] ->
    rtc (library_move sink) w w' ->
    dispatched topic payload md r w t (Ret None) (skipped reasonNoHandler r) w'
| dispatched_handled env major h m o r' w' :
    deliveryAttempt md <= MaxDeliveryAttempts (Consumer_ (c_cfg c)) ->
    readable payload env major -> m <> matchNone ->
    lookup_route (c_registry c) topic (EventType env) major = (Some h, m) ->
    decodes t = [payload] ->
    retried_run c mp sink (Some (CorrelationID env)) topic payload (deliveryAttempt md)
      env 0 (routed m env r) t o r' ->
    handled_by sink (h (contextWithCorrelationID ctx (CorrelationID env)) env) w t w' ->
    dispatched topic payload md r w t o r' w'.
End delivery.

(** The whole delivery from the state [s]: received once, [dispatched], and
    ended once. *)
Record delivery {E : Type} `{HEnv : !Env E, HFmt : !GoFmt, HTime : !GoTime, HJson : !JsonCodec} (c : Consumer E)
    (mp : option ref) (ctx : context E) (topic payload : string) (md : metadata) (span : nat) (start : Time)
    (final : deliveryRecorder) (s : St E) (o : outcome (option error)) (s' : St E) (body t : list event) : Prop := {
  dv_dispatched : exists w w',
    rtc (library_move (deadLetter_sink c ctx)) (st_env s) w /\
    dispatched c mp (delivery_ctx ctx md span) topic payload md
      (newDeliveryRecorder (c_inst c) span topic (Group (Consumer_ (c_cfg c)))
         (Logger (Telemetry (c_cfg c))) (bool_decide (is_Some (ctx_probe ctx))) start)
      w body o final w' /\
    rtc (library_move (deadLetter_sink c ctx)) w' (st_env s');
  dv_metrics : metrics t = metric mp "messaging.events.received" ++ metrics body ++
                           metric mp (terminal_metric (rec_kind final));
  dv_writes : writes t = writes body;
  dv_calls : calls t = calls body;
  dv_returns : returns t = returns body;
  dv_decodes : decodes t = decodes body;
  dv_sleeps : sleeps t = sleeps body;
  dv_observations : observations t =
    (if bool_decide (is_Some (parsePublishedAt md)) then metric mp "messaging.queue.latency" else []) ++
    metric mp "messaging.processing.duration";
  dv_span_starts : span_starts t = [span];
  dv_statuses : span_statuses t = [terminal_status final];
  dv_ends : span_ends t = [span];
  dv_verdict : is_Some (ctx_probe ctx) -> st_verdict s' = Some (verdict_of final);
}.

(** ** Dead-lettering *)

(** Nothing but log lines, counters and stream writes. *)
Record bookkeeping (t : list event) : Prop := {
  bk_calls : calls t = [];
  bk_returns : returns t = [];
  bk_decodes : decodes t = [];
  bk_sleeps : sleeps t = [];
  bk_observations : observations t = [];
  bk_span_starts : span_starts t = [];
  bk_span_ends : span_ends t = [];
  bk_span_statuses : span_statuses t = [];
}.

Lemma bookkeeping_app t1 t2 : bookkeeping t1 -> bookkeeping t2 -> bookkeeping (t1 ++ t2).
Proof. intros [] []. constructor; trace_tac. Qed.

Section runs.
Context {E : Type} `{HEnv : !Env E, HFmt : !GoFmt, HTime : !GoTime, HJson : !JsonCodec}.
Variables (c : Consumer E) (mp : option ref).
Hypothesis (Hinst : c_inst c = instruments_of mp).

Lemma sink_publish_run sink ctx stream body (s : St E) :
  exists err w' t, sink_publish sink ctx stream body s = (Ret err, mkSt w' (st_rec s) (st_verdict s), t) /\
    metrics t = [] /\ bookkeeping t /\
    match err with
    | None => writes t = [(stream, body, None)]
    | Some err => (exists e, writes t = [(stream, body, Some e)]) \/
        (writes t = [] /\ sink = redisDeadLetterSink /\ exists w e, (env_uuid w).1 = Err e /\
         err = ErrFmt "generating dead letter id: %w" [inr e])
    end.
Proof.
  destruct s as [w r v]. destruct sink as [|f]; simpl.
  - unfold bind, lift, new_uuid, wm_Publish, bind, xadd. simpl.
    destruct (env_uuid w) as [[id|e] w1] eqn:Hid; simpl.
    + destruct (env_xadd ctx stream id body ∅ w1) as [[e|] w2]; simpl;
        eexists _, _, _; split; try reflexivity; split_and!; try done; eauto.
    + eexists _, _, _; split; [reflexivity|]; split_and!; try done. right. split_and!; try done.
      exists w, e. by rewrite Hid.
  - unfold lift. simpl. destruct (f stream body w) as [[e|] w1];
      eexists _, _, _; split; try reflexivity; split_and!; try done; eauto.
Qed.

Lemma deadLetter_run ctx topic dl (s : St E) :
  exists err w' t, deadLetter c ctx topic dl s = (Ret err, mkSt w' (st_rec s) (st_verdict s), t) /\
    bookkeeping t /\ dlq_result mp (deadLetter_sink c ctx) (dlqStream c topic) dl err (writes t) (metrics t).
Proof.
  unfold deadLetter. destruct (deadLetter_sink c ctx) as [sink|] eqn:Hsink.
  2: { destruct s. eexists _, _, _. split; [reflexivity|]. split; [done|]. by apply dlq_no_sink. }
  assert (is_Some (deadLetter_sink c ctx)) as Hsome by by rewrite Hsink.
  destruct (marshal_deadletter dl) as [body|e] eqn:Em.
  2: { destruct s. eexists _, _, _. split; [reflexivity|]. split; [done|]. by apply dlq_no_encoding. }
  unfold bind at 1.
  destruct (sink_publish_run sink ctx (dlqStream c topic) body s) as (err & w' & t & -> & Hm & Hb & Hw).
  rewrite Hinst. destruct err as [e|].
  - unfold add. destruct mp as [m|]; simpl; eexists _, _, _; split; try reflexivity; (split;
      [by apply bookkeeping_app|]); autorewrite with trace; rewrite Hm;
      (destruct Hw as [[e' ->]|(-> & -> & w0 & e0 & He0 & ->)];
       [by eapply dlq_write_failed|eapply dlq_no_id; [done|by rewrite Em|exact He0]]).
  - unfold add. destruct mp as [m|]; simpl; eexists _, _, _; split; try reflexivity; (split;
      [by apply bookkeeping_app|]); autorewrite with trace; rewrite Hm, Hw; simpl; by eapply dlq_written.
Qed.

Lemma IsRetryable_else e :
  IsDiscard (Some e) = false -> IsPermanent (Some e) = false -> IsRetryable (Some e) = true.
Proof.
  unfold IsDiscard, IsPermanent, IsRetryable. by destruct (classOf (Some e)) as [[]|].
Qed.

Lemma sleep_run ctx upper (s : St E) :
  exists woke w' t, sleepWithJitter ctx upper s = (Ret woke, mkSt w' (st_rec s) (st_verdict s), t) /\
    (t = [] \/ 0 < upper /\ t = [ESleep (fst (env_rand upper (st_env s)))]).
Proof.
  unfold sleepWithJitter. destruct (upper <=? 0) eqn:Eu; to_prop; unfold lift; simpl; [eauto 10|].
  destruct (env_rand upper (st_env s)) as [d w1]. destruct (env_timer_first ctx d w1).
  eexists _, _, _. split; [reflexivity|]. by right.
Qed.

Lemma newDeadLetter_run topic reason cause attempt (s : St E) :
  exists tm w', newDeadLetter c topic reason cause attempt s =
    (Ret (letter c tm topic reason cause attempt (None, None)), mkSt w' (st_rec s) (st_verdict s), []).
Proof.
  unfold newDeadLetter, bind, lift, now, ret. destruct (env_now (st_env s)) as [tm w']. eauto.
Qed.

Lemma retry_run a e (s : St E) :
  rec_inst (st_rec s) = instruments_of mp ->
  exists t, retry a e s = (Ret tt, s, t) /\ bookkeeping t /\ writes t = [] /\
    metrics t = metric mp "messaging.retries".
Proof.
  destruct s as [w [] v]. simpl. intros ->. unfold retry, bind, get_rec, add, emit. simpl.
  destruct mp; simpl; eexists; split_and!; reflexivity || constructor; reflexivity.
Qed.

(** Run a dead letter construction, or a dead-lettering, where it stands. *)
Ltac run_newDeadLetter tm w :=
  match goal with |- context [newDeadLetter c ?a ?b ?x ?d ?s] =>
    let H := fresh in destruct (newDeadLetter_run a b x d s) as (tm & w & H); rewrite H; clear H; simpl
  end.
Ltac run_deadLetter err w t Hb Hd :=
  match goal with |- context [deadLetter c ?a ?b ?x ?s] =>
    let H := fresh in
    destruct (deadLetter_run a b x s) as (err & w & t & H & Hb & Hd); rewrite H; clear H; simpl
  end.

Section loop.
Variables (ctx : context E) (topic payload : string) (attempt : Z)
  (handler : dispatchFunc E) (env : Envelope string) (lg : attrs).

(** Only handler calls, retries, sleeps and what dead-lettering does. *)
Record loop_events (t : list event) : Prop := {
  le_decodes : decodes t = [];
  le_observations : observations t = [];
  le_span_starts : span_starts t = [];
  le_span_ends : span_ends t = [];
  le_span_statuses : span_statuses t = [];
}.

Lemma loop_events_app t1 t2 : loop_events t1 -> loop_events t2 -> loop_events (t1 ++ t2).
Proof. intros [] []. constructor; trace_tac. Qed.

Lemma loop_events_bookkeeping t : bookkeeping t -> loop_events t.
Proof. by intros []. Qed.

Lemma retried_stops k r t last err r' ms :
  Z.of_nat k <= Z.max 0 (MaxImmediateRetries (Retry (c_cfg c))) ->
  returns t = [last] -> calls t = [(ctx_correlation ctx, env)] -> metrics t = ms ->
  slept c k (sleeps t) ->
  concluded c mp (deadLetter_sink c ctx) topic payload attempt k r last err r' (writes t) ms ->
  retried_run c mp (deadLetter_sink c ctx) (ctx_correlation ctx) topic payload attempt env k r t (Ret err) r'.
Proof.
  intros Hk Hret Hcall Hm Hs Hc.
  apply (retried_returns _ _ _ _ _ _ _ _ _ _ _ [] last err r' (writes t) ms); simpl; try done;
    by rewrite Nat.add_0_r.
Qed.

(** One more retried result in front of the iterations that follow it. *)
Lemma retried_again k r t1 t2 e o r' :
  IsRetryable e = true ->
  returns t1 = [e] -> calls t1 = [(ctx_correlation ctx, env)] -> writes t1 = [] ->
  metrics t1 = metric mp "messaging.retries" ->
  (forall l, slept c (S k) l -> slept c k (sleeps t1 ++ l)) ->
  retried_run c mp (deadLetter_sink c ctx) (ctx_correlation ctx) topic payload attempt env (S k) r t2 o r' ->
  retried_run c mp (deadLetter_sink c ctx) (ctx_correlation ctx) topic payload attempt env k r (t1 ++ t2) o r'.
Proof.
  intros He Hr1 Hc1 Hw1 Hm1 Hs1 [retried last err r2 ws ms Hf Hk Hr2 Hc2 Hs2 Hcon Hw2 Hm2
                             |retried v Hf Hk Hr2 Hc2 Hs2 Hw2 Hm2];
    rewrite Nat.add_succ_comm in *.
  - apply (retried_returns _ _ _ _ _ _ _ _ _ _ _ (e :: retried) last err r2 ws ms);
      autorewrite with trace; rewrite ?Hr1, ?Hc1, ?Hw1, ?Hm1, ?Hr2, ?Hc2, ?Hw2, ?Hm2; try done.
    + by constructor.
    + by apply Hs1.
    + simpl. by rewrite (assoc_L (++)).
  - apply (retried_panics _ _ _ _ _ _ _ _ _ _ _ (e :: retried) v);
      autorewrite with trace; rewrite ?Hr1, ?Hc1, ?Hw1, ?Hm1, ?Hr2, ?Hc2, ?Hw2, ?Hm2; try done.
    + by constructor.
    + by apply Hs1.
Qed.

Lemma retry_upper_pos i :
  0 < retry_upper c ctx i -> retry_upper c ctx i = backoffUpperBound (Retry (c_cfg c)) i.
Proof. unfold retry_upper. destruct (ctx_probe ctx) as [p|]; [|done]. by destruct (NoBackoff p). Qed.

Lemma retry_loop_run fuel k (s : St E) :
  rec_inst (st_rec s) = instruments_of mp ->
  Z.of_nat k <= Z.max 0 (MaxImmediateRetries (Retry (c_cfg c))) ->
  (Z.to_nat (MaxImmediateRetries (Retry (c_cfg c))) - k < fuel)%nat ->
  exists o w' r' t,
    retry_loop c ctx topic payload attempt handler env lg fuel (Z.of_nat k) s =
      (o, mkSt w' r' (st_verdict s), t) /\
    loop_events t /\
    retried_run c mp (deadLetter_sink c ctx) (ctx_correlation ctx) topic payload attempt env k (st_rec s) t o r'.
Proof.
  revert k s. induction fuel as [|fuel IH]; intros k s Hri Hk Hf; [lia|].
  cbn [retry_loop]. unfold bind at 1. rewrite call_handler_run.
  destruct (handler ctx env (st_env s)) as [[err|v] w1].
  2: { eexists _, _, _, _. split; [reflexivity|]. split; [done|].
       apply (retried_panics _ _ _ _ _ _ _ _ _ _ _ []); simpl; try done; [lia|constructor]. }
  destruct err as [e|].
  2: { eexists _, _, _, _. split; [reflexivity|]. split; [done|].
       eapply retried_stops; try done; constructor. }
  destruct (IsDiscard (Some e)) eqn:Ed.
  { eexists _, _, _, _. split; [reflexivity|]. split; [done|].
    eapply retried_stops; try done; [constructor|by apply concluded_discard]. }
  destruct (IsPermanent (Some e)) eqn:Ep.
  { cbn [bind log emit modify_rec modify]. unfold bind at 1.
    run_newDeadLetter tm w2. run_deadLetter err w3 t3 Hb3 Hd3.
    eexists _, _, _, _. split; [reflexivity|]. destruct Hb3. split; [by constructor|].
    eapply retried_stops; simpl; try done; [by f_equal..| |].
    + rewrite bk_sleeps0. constructor.
    + apply concluded_permanent; [done|]. by exists tm. }
  assert (IsRetryable (Some e) = true) as Hr by (by apply IsRetryable_else).
  destruct (_ <=? Z.of_nat k) eqn:Em; to_prop.
  { eexists _, _, _, _. split; [reflexivity|]. split; [done|].
    eapply retried_stops; try done; [constructor|apply concluded_exhausted; [done|lia]]. }
  cbn [bind log emit]. unfold bind at 1 2.
  destruct (retry_run (Z.of_nat k + 1) e (mkSt w1 (st_rec s) (st_verdict s)))
    as (t1 & -> & [] & Hw1 & Hm1); [done|].
  destruct (sleep_run ctx (retry_upper c ctx (Z.of_nat k)) (mkSt w1 (st_rec s) (st_verdict s)))
    as (woke & w2 & t2 & -> & Ht2).
  assert (loop_events t2 /\ returns t2 = [] /\ calls t2 = [] /\ writes t2 = [] /\ metrics t2 = [])
    as ([] & Hr2 & Hc2 & Hw2 & Hm2) by (by destruct Ht2 as [->|[_ ->]]).
  assert (forall l, slept c (S k) l -> slept c k (sleeps t2 ++ l)) as Hs2.
  { intros l Hl. destruct Ht2 as [->|[Hu ->]]; [by apply slept_skip|]. simpl.
    apply retry_upper_pos in Hu as Hu'. rewrite Hu' in *. by apply slept_cons. }
  destruct woke; simpl.
  - destruct (IH (S k) (mkSt w2 (st_rec s) (st_verdict s))) as (o & w' & r' & t & Hrun & [] & Hret);
      [done|lia..|].
    replace (Z.of_nat k + 1) with (Z.of_nat (S k)) by lia. rewrite Hrun.
    eexists _, _, _, _. split; [reflexivity|]. split; [constructor; trace_tac|].
    rewrite !app_comm_cons, !(assoc_L (++)).
    eapply retried_again; [exact Hr|by trace_tac..| |done].
    intros l Hl. trace_tac. by apply Hs2.
  - eexists _, _, _, _. split; [reflexivity|]. split; [constructor; trace_tac|].
    eapply retried_stops with (ms := metric mp "messaging.retries"); trace_tac.
    + specialize (Hs2 [] ltac:(constructor)). by rewrite app_nil_r in Hs2.
    + by apply concluded_abandoned.
Qed.
End loop.

Lemma retried_run_prefix ctx corr topic payload attempt env k r t1 t2 o r' :
  calls t1 = [] -> returns t1 = [] -> writes t1 = [] -> metrics t1 = [] -> sleeps t1 = [] ->
  retried_run c mp (deadLetter_sink c ctx) corr topic payload attempt env k r t2 o r' ->
  retried_run c mp (deadLetter_sink c ctx) corr topic payload attempt env k r (t1 ++ t2) o r'.
Proof.
  intros Hc1 Hr1 Hw1 Hm1 Hs1 []; [eapply retried_returns|eapply retried_panics];
    autorewrite with trace; rewrite ?Hc1, ?Hr1, ?Hw1, ?Hm1, ?Hs1; eassumption.
Qed.

Lemma reject_run ctx topic payload attempt err cause (s : St E) :
  exists o w' t,
    reject c ctx topic payload attempt err cause s =
      (Ret o, mkSt w' (failed categoryDeserialization (Some err) (st_rec s)) (st_verdict s), t) /\
    bookkeeping t /\
    dead_lettered c mp (deadLetter_sink c ctx) topic ReasonDeserializationFailed cause attempt (None, Some payload) o
      (writes t) (metrics t).
Proof.
  unfold reject. cbn [bind modify_rec modify]. unfold bind at 1.
  run_newDeadLetter tm w. run_deadLetter o w' t Hb Hd.
  eexists _, _, _. split; [reflexivity|]. split; [done|]. by exists tm.
Qed.

(** The calls on the trace [t], from [w] to [w'], are of the handler the payload
    is routed to, if there is one. *)
Definition routed_call ctx topic payload (call : E -> handled * E) : Prop :=
  forall env major h m, unmarshal_envelope payload = Ok env -> majorVersion (SchemaVersion env) = Ok major ->
    lookup_route (c_registry c) topic (EventType env) major = (Some h, m) ->
    forall w, h (contextWithCorrelationID ctx (CorrelationID env)) env w = call w.

Definition walked ctx topic payload w t w' : Prop :=
  forall call, routed_call ctx topic payload call -> handled_by (deadLetter_sink c ctx) call w t w'.

Lemma routed_call_exists ctx topic payload : exists call, routed_call ctx topic payload call.
Proof.
  unfold routed_call. destruct (unmarshal_envelope payload) as [env|]; [|by exists (fun w => (Returned None, w))].
  destruct (majorVersion (SchemaVersion env)) as [major|] eqn:Hm; [|exists (fun w => (Returned None, w)); intros; congruence].
  destruct (lookup_route (c_registry c) topic (EventType env) major) as [[h|] m] eqn:Hl;
    [|exists (fun w => (Returned None, w)); intros; congruence].
  exists (h (contextWithCorrelationID ctx (CorrelationID env)) env). intros. congruence.
Qed.

Lemma walked_quiet ctx topic payload w t w' :
  walked ctx topic payload w t w' -> calls t = [] -> rtc (library_move (deadLetter_sink c ctx)) w w'.
Proof.
  intros Hw Ht. destruct (routed_call_exists ctx topic payload) as [call Hc]. by eapply handled_by_quiet, Ht; apply Hw.
Qed.

(** Log lines, span attributes and the decodes [ds]: what precedes routing. *)
Record inert (ds : list string) (t : list event) : Prop := {
  in_decodes : decodes t = ds;
  in_calls : calls t = [];
  in_returns : returns t = [];
  in_writes : writes t = [];
  in_metrics : metrics t = [];
  in_sleeps : sleeps t = [];
}.

Lemma route_and_run_run ctx topic payload md env major lg t0 (s : St E) :
  rec_inst (st_rec s) = instruments_of mp ->
  deliveryAttempt md <= MaxDeliveryAttempts (Consumer_ (c_cfg c)) ->
  readable payload env major ->
  inert [payload] t0 ->
  exists o w' r' t,
    route_and_run c ctx topic payload (deliveryAttempt md) env major lg s =
      (o, mkSt w' r' (st_verdict s), t) /\
    loop_events t /\ (forall w, walked ctx topic payload w (t0 ++ t) w' ->
      dispatched c mp ctx topic payload md (st_rec s) w (t0 ++ t) o r' w').
Proof.
  intros Hri Hcap Hread [Hd0 Hc0 Hr0 Hw0 Hm0 Hs0]. unfold route_and_run.
  destruct (lookup_route (c_registry c) topic (EventType env) major) as [h m] eqn:Hl.
  destruct (bool_decide_reflect (m = matchNone)) as [->|Hm].
  { eexists _, _, _, _. split; [reflexivity|]. split; [done|].
    intros w0 Hwalk. eapply dispatched_unhandled; [done..| | | | | | |eapply walked_quiet; [exact Hwalk|]]; trace_tac. }
  assert (forall A (k : M (St E) A),
    bind (if bool_decide (m = matchTyped) then modify_rec (setEventType (EventType env)) else ret tt)
      (fun _ => k) s = k (mkSt (st_env s) (routed m env (st_rec s)) (st_verdict s))) as Hset.
  { intros A k. unfold routed. destruct s. case_bool_decide; unfold bind; simpl;
      destruct (k _) as [[]]; done. }
  rewrite Hset. destruct h as [h|].
  - unfold runWithRetry. 
    destruct (retry_loop_run (contextWithCorrelationID ctx (CorrelationID env)) topic payload
      (deliveryAttempt md) h env
      (lg ++ [("topic", AStr topic); ("event_type", AStr (EventType env));
                   ("schema_version", AStr (SchemaVersion env)); ("event_id", AStr (EventID env));
                   ("delivery_attempt", AInt (deliveryAttempt md))])
      (retry_fuel c) 0 (mkSt (st_env s) (routed m env (st_rec s)) (st_verdict s)))
      as (o & w' & r' & t & Hrun & Ht & Hret).
    { simpl. unfold routed. by case_bool_decide. }
    { simpl. lia. }
    { unfold retry_fuel. lia. }
    change (Z.of_nat 0) with 0 in Hrun. rewrite Hrun.
    eexists _, _, _, _. split; [reflexivity|]. split; [done|].
    intros w0 Hwalk. eapply dispatched_handled; [done..| | |].
    + destruct Ht. trace_tac.
    + by apply retried_run_prefix.
    + apply Hwalk. destruct Hread as (Hu & _ & Hmaj). intros env1 major1 h1 m1 Hu1 Hm1 Hl1. rewrite Hu in Hu1. injection Hu1 as <-. rewrite Hmaj in Hm1. injection Hm1 as <-. rewrite Hl in Hl1. by injection Hl1 as <- <-.
  - by apply lookup_route_none in Hl.
Qed.

Record spanless (t : list event) : Prop := {
  sl_observations : observations t = [];
  sl_span_starts : span_starts t = [];
  sl_span_ends : span_ends t = [];
  sl_span_statuses : span_statuses t = [];
}.

Lemma spanless_app t1 t2 : spanless t1 -> spanless t2 -> spanless (t1 ++ t2).
Proof. intros [] []. constructor; trace_tac. Qed.

Lemma loop_events_spanless t : loop_events t -> spanless t.
Proof. by intros []. Qed.

Lemma decode_and_run_run ctx span topic payload md lg (s : St E) :
  rec_inst (st_rec s) = instruments_of mp ->
  deliveryAttempt md <= MaxDeliveryAttempts (Consumer_ (c_cfg c)) ->
  exists o w' r' t,
    decode_and_run c ctx span topic payload (deliveryAttempt md) lg s =
      (o, mkSt w' r' (st_verdict s), t) /\
    spanless t /\ (forall w, walked ctx topic payload w t w' -> dispatched c mp ctx topic payload md (st_rec s) w t o r' w').
Proof.
  intros Hri Hcap. unfold decode_and_run.
  (* the three failures: two or three events, then [reject] *)
  assert (forall t0 e cause k, unreadable topic payload e cause -> inert [payload] t0 ->
    spanless t0 ->
    (forall o s' t, reject c ctx topic payload (deliveryAttempt md) e cause s = (o, s', t) ->
       k s = (o, s', t0 ++ t)) ->
    exists o w' r' t, k s = (o, mkSt w' r' (st_verdict s), t) /\
      spanless t /\ (forall w, walked ctx topic payload w t w' -> dispatched c mp ctx topic payload md (st_rec s) w t o r' w')) as Hrej.
  { intros t0 e cause k Hu [] Hl Hk.
    destruct (reject_run ctx topic payload (deliveryAttempt md) e cause s)
      as (err & w' & t & Hrun & Hb & Hdl).
    eexists _, _, _, _. split; [by apply Hk|]. 
    split; [by apply spanless_app, loop_events_spanless, loop_events_bookkeeping|]. destruct Hb.
    intros w0 Hwalk. assert (calls (t0 ++ t) = []) as Hc by trace_tac.
    eapply dispatched_rejected; [done|done|trace_tac..| |by eapply walked_quiet].
    autorewrite with trace. rewrite in_writes0, in_metrics0. done. }
  destruct (unmarshal_envelope payload) as [env|e] eqn:Hu.
  2: { eapply (Hrej [_; _]); cycle 3; [intros o s' t Hr; by apply emit_bind, emit_bind|by apply unreadable_json|done|done]. }
  destruct (validateEnvelope env) as [e|] eqn:Hv.
  { eapply (Hrej [_; _; _]); cycle 3; [intros o s' t Hr; by apply emit_bind, emit_bind, emit_bind|by eapply unreadable_envelope|done|done]. }
  destruct (majorVersion (SchemaVersion env)) as [major|e] eqn:Hm.
  2: { eapply (Hrej [_; _; _]); cycle 3; [intros o s' t Hr; by apply emit_bind, emit_bind, emit_bind|by eapply unreadable_version|done|done]. }
  destruct (route_and_run_run ctx topic payload md env major lg
    [EDecode payload; ESpanAttrs span
       [("messaging.message.id", AStr (EventID env));
        ("messaging.foi.event_type", AStr (EventType env));
        ("messaging.foi.schema_version", AStr (SchemaVersion env));
        ("messaging.foi.correlation_id", AStr (CorrelationID env))]] s)
    as (o & w' & r' & t & Hrun & Hl & Hd); [done|done|by split_and!|done|].
  eexists _, _, _, _. split; [apply emit_bind, emit_bind, Hrun|]. by split; [destruct Hl|].
Qed.

Lemma queue_latency_run topic md (s : St E) :
  exists w' t, queue_latency c topic md s = (Ret tt, mkSt w' (st_rec s) (st_verdict s), t) /\
    quiet t /\ metrics t = [] /\ span_starts t = [] /\ span_ends t = [] /\ span_statuses t = [] /\
    observations t =
      if bool_decide (is_Some (parsePublishedAt md)) then metric mp "messaging.queue.latency" else [].
Proof.
  unfold queue_latency. destruct s as [w r v].
  destruct (parsePublishedAt md) as [at_|]; simpl; [|by eexists _, []].
  unfold bind, lift, now. simpl. destruct (env_now w) as [tm w'].
  rewrite Hinst. destruct mp as [m|]; by eexists _, _.
Qed.

(** What a delivery never changes of its recorder. *)
Definition same_delivery (r r' : deliveryRecorder) : Prop :=
  rec_inst r' = rec_inst r /\ rec_span r' = rec_span r /\ rec_ended r' = rec_ended r /\
  rec_has_probe r' = rec_has_probe r.

Lemma dispatched_keeps ctx topic payload md r w t o r' w' :
  dispatched c mp ctx topic payload md r w t o r' w' -> same_delivery r r'.
Proof.
  intros [| | |? ? ? m ? ? ? ? ? ? ? ? Hrun]; try done; unfold routed in *.
  destruct Hrun as [? ? ? ? ? ? ? ? ? ? ? [] ? ?|]; by case_bool_decide.
Qed.

Lemma received_run topic (s : St E) :
  exists t, add (received (c_inst c)) [(attrTopic, AStr topic)] s = (Ret tt, s, t) /\
    quiet t /\ spanless t /\ metrics t = metric mp "messaging.events.received".
Proof. rewrite Hinst. destruct mp as [m|]; by eexists. Qed.

(** [dispatch] once the attempt is known: the cap, then decoding. *)
Lemma attempt_run ctx span topic payload md lg (s : St E) :
  rec_inst (st_rec s) = instruments_of mp ->
  exists o w' r' t,
    (let attempt := deliveryAttempt md in
     let cap := MaxDeliveryAttempts (Consumer_ (c_cfg c)) in
     if cap <? attempt then
       log LevelWarn "messaging: delivery attempt cap exceeded" lg
         [("topic", AStr topic); ("max_delivery_attempts", AInt cap)] ;;
       let err := cap_error c attempt in
       modify_rec (failed categoryMaxAttempts (Some err)) ;;
       dl <- newDeadLetter c topic ReasonMaxAttemptsExceeded err attempt ;;
       deadLetter c ctx topic (set_body dl (deadLetterBody payload))
     else decode_and_run c ctx span topic payload attempt lg) s =
      (o, mkSt w' r' (st_verdict s), t) /\
    spanless t /\ (forall w, walked ctx topic payload w t w' -> dispatched c mp ctx topic payload md (st_rec s) w t o r' w').
Proof.
  intros Hri. cbv zeta. destruct (_ <? deliveryAttempt md) eqn:Ec; to_prop.
  - cbn [bind log emit modify_rec modify]. unfold bind at 1.
    run_newDeadLetter tm w2. run_deadLetter err w3 t3 Hb3 Hd3.
    eexists _, _, _, _. split; [reflexivity|]. split; [by destruct Hb3|].
    destruct Hb3. intros w0 Hwalk. eapply dispatched_capped; try done; [by exists tm|by eapply walked_quiet].
  - by apply decode_and_run_run.
Qed.

Lemma dispatch_body_run ctx span topic payload md (s : St E) :
  rec_inst (st_rec s) = instruments_of mp ->
  exists o w' r' t1 t2,
    dispatch_body c ctx span topic payload md s = (o, mkSt w' r' (st_verdict s), t1 ++ t2) /\
    quiet t1 /\ metrics t1 = metric mp "messaging.events.received" /\
    span_starts t1 = [] /\ span_ends t1 = [] /\ span_statuses t1 = [] /\
    observations t1 =
      (if bool_decide (is_Some (parsePublishedAt md)) then metric mp "messaging.queue.latency" else []) /\
    spanless t2 /\ dispatched c mp ctx topic payload md (st_rec s) (st_env s) t2 o r' w'.
Proof.
  intros Hri. pose proof (fun call Hc => steps_dispatch_body _ (walks (deadLetter_sink c ctx) call) c ctx span topic payload md
    eq_refl (fun env major h m Hu Hm Hl => walks_call _ call h _ env (Hc env major h m Hu Hm Hl)) s) as Hwalk.
  destruct (received_run topic s) as (t1 & H1 & [] & [] & Hm1).
  destruct (queue_latency_run topic md s) as (w2 & t2 & H2 & [] & Hm2 & ? & ? & ? & Ho2).
  destruct (attempt_run ctx span topic payload md (delivery_logger c span payload md)
    (mkSt w2 (st_rec s) (st_verdict s))) as (o & w' & r' & t3 & Hrun & Hs3 & Hd3); [done|].
  eexists o, w', r', (t1 ++ t2 ++ [ESpanAttrs span
     [("messaging.foi.delivery_attempt", AInt (deliveryAttempt md))]]), t3.
  match goal with |- ?run = ?r /\ _ => assert (run = r) as Hbody end.
  { rewrite <- !(assoc_L (++)). eapply bind_ret; [exact H1|]. eapply bind_ret; [exact H2|].
    apply emit_bind, Hrun. }
  split; [exact Hbody|]. split_and!; [constructor| | | | | | |]; [trace_tac..|].
  apply Hd3. intros call Hc. specialize (Hwalk call Hc). rewrite Hbody in Hwalk.
  eapply handled_by_trace; [| |exact Hwalk]; trace_tac.
Qed.

Lemma dispatch_run ctx topic payload md (s : St E) :
  exists o s' t span start final body,
    dispatch c ctx topic payload md s = (o, s', t) /\
    delivery c mp ctx topic payload md span start final s o s' body t.
Proof.
  destruct s as [w r v]. unfold dispatch.
  set (ctx' := match env_extract md with Some _ => _ | None => _ end).
  unfold bind at 1, lift, start_span. pose proof (move_span (deadLetter_sink c ctx) ctx' w) as Hmove1. simpl st_env.
  destruct (env_start_span _ _) as [span w1]. change (ctx_with_span ctx' span) with (delivery_ctx ctx md span).
  clearbody ctx'. unfold bind at 1 2, lift, now, modify_rec, modify, testseam_FromContext. simpl.
  pose proof (move_now (deadLetter_sink c ctx) w1) as Hmove2. destruct (env_now w1) as [start w2].
  replace (ctx_probe (match env_extract md with Some r => _ | None => _ end)) with (ctx_probe ctx)
    by (by destruct (env_extract md)).
  unfold with_defer.
  set (r0 := newDeliveryRecorder _ _ _ _ _ _ _). cbn [st_env st_verdict].
  destruct (dispatch_body_run (delivery_ctx ctx md span) span topic payload md (mkSt w2 r0 v))
    as (o & w3 & final & t1 & t2 & -> & [] & Hm & Hss & Hse & Hst & Ho & [] & Hd); [done|].
  destruct (dispatched_keeps _ _ _ _ _ _ _ _ _ _ Hd) as (Hi & Hspan & He & Hpr).
  cbn [st_verdict].
  pose proof (steps_end _ (walks (deadLetter_sink c ctx) (fun w => (Returned None, w))) (mkSt w3 final v)) as Hend.
  destruct (end_run (mkSt w3 final v) mp)
    as (s' & t3 & Hrun3 & _ & _ & _ & _ & _ & Hv3 & Hm3 & Ho3 & Hs3 & He3 & []); [by simpl; rewrite Hi|done|].
  rewrite Hrun3 in Hend |- *. eexists _, _, _, span, start, final, t2. split; [reflexivity|].
  split; [|trace_tac..].
  - exists w2, w3. split; [|split; [exact Hd|by eapply handled_by_quiet, q_calls0]].
    eapply rtc_l; [exact Hmove1|]. by apply rtc_once.
  - by rewrite (assoc_L (++)).
  - by rewrite Hspan.
  - intros Hprobe. rewrite Hpr. simpl. by rewrite (bool_decide_eq_true_2 _ Hprobe).
Qed.
End runs.
