(* ===== verification/DeliveryProperties.v ===== *)
(** * Properties of the consume path

    Consequences of the refinement of [dispatch] by [dispatched]: what an
    acknowledgement and a refusal mean, the accounting of a delivery, the
    attempt cap, the bounds on handler calls and on backoff, and what a handler
    is given. *)

From S2P Require Import Prelude GoStrings GoErrors Validation Registry Config GoDuration Runtime Sample.
From S2P Require Import Telemetry Delivery SampleDelivery DeliveryFrame DeliverySpec.
From stdpp Require Import options.

#[local] Set Default Proof Using "Type*".

Lemma deadLetterBody_spec `{!JsonCodec} payload :
  (deadLetterBody payload = (Some payload, None) /\ json_Valid payload = true) \/
  (deadLetterBody payload = (None, Some payload) /\ json_Valid payload = false).
Proof. unfold deadLetterBody. destruct (json_Valid payload); auto. Qed.

(** The counters a delivery may touch besides its first and its last. *)
Definition inner_metrics : list string :=
  ["messaging.dlq"; "messaging.dlq.publish.failures"; "messaging.retries"].

Section props.
Context {E : Type} `{HEnv : !Env E, HFmt : !GoFmt, HTime : !GoTime, HJson : !JsonCodec}.
Variables (c : Consumer E) (mp : option ref).

(** The dead letter carries the original bytes, in exactly one field. *)
Definition carries (dl : DeadLetter) (payload : string) : Prop :=
  (Event dl = Some payload /\ EventRaw dl = None /\ json_Valid payload = true) \/
  (Event dl = None /\ EventRaw dl = Some payload).

(** The ways a delivery may be acknowledged. *)
Inductive settled (topic payload : string) (md : metadata) (t : list event) : Prop :=
| settled_handled env rs last :
    calls t = replicate (S (length rs)) (Some (CorrelationID env), env) ->
    returns t = rs ++ [last] -> last = None \/ IsDiscard last = true ->
    writes t = [] -> settled topic payload md t
| settled_unhandled env major h :
    readable payload env major ->
    lookup_route (c_registry c) topic (EventType env) major = (h, matchNone) ->
    calls t = [] -> writes t = [] -> settled topic payload md t
| settled_dead_lettered dl body :
    marshal_deadletter dl = Ok body ->
    OriginalTopic dl = topic -> DeliveryAttempts dl = deliveryAttempt md -> carries dl payload ->
    writes t = [(dlqStream c topic, body, None)] ->
    filter (fun n => n = "messaging.dlq") (metrics t) = metric mp "messaging.dlq" ->
    settled topic payload md t.

Lemma dead_lettered_ok sink topic reason cause attempt body ws ms :
  dead_lettered c mp sink topic reason cause attempt body None ws ms ->
  exists tm b, marshal_deadletter (letter c tm topic reason cause attempt body) = Ok b /\
    ws = [(dlqStream c topic, b, None)] /\ ms = metric mp "messaging.dlq".
Proof. intros [tm H]. inversion H; subst; eauto. Qed.

Lemma dead_lettered_err sink topic reason cause attempt body e ws ms :
  dead_lettered c mp sink topic reason cause attempt body (Some e) ws ms -> Forall (fun w => w.2 <> None) ws.
Proof. intros [tm H]. inversion H; subst; by repeat constructor. Qed.

Lemma dead_lettered_writes sink topic reason cause attempt body err ws ms :
  dead_lettered c mp sink topic reason cause attempt body err ws ms -> (length ws <= 1)%nat.
Proof. intros [tm H]. inversion H; subst; simpl; lia. Qed.

(** Every dead letter goes to the topic's stream, encoded. *)
Lemma dead_lettered_letters sink topic reason cause attempt body err ws ms stream b e :
  dead_lettered c mp sink topic reason cause attempt body err ws ms -> (stream, b, e) ∈ ws ->
  stream = dlqStream c topic /\
  exists tm, marshal_deadletter (letter c tm topic reason cause attempt body) = Ok b.
Proof.
  intros [tm H] Hin. inversion H; subst; try by apply elem_of_nil in Hin.
  all: apply list_elem_of_singleton in Hin; simplify_eq; eauto.
Qed.

Lemma metric_Forall (P : string -> Prop) n : P n -> Forall P (metric mp n).
Proof. intros. destruct mp; simpl; auto. Qed.

Lemma dead_lettered_metrics sink topic reason cause attempt body err ws ms :
  dead_lettered c mp sink topic reason cause attempt body err ws ms ->
  Forall (fun n => n ∈ inner_metrics) ms.
Proof. intros [tm H]. inversion H; subst; try constructor; apply metric_Forall; set_solver. Qed.

Lemma concluded_metrics sink topic payload attempt n r last err r' ws ms :
  concluded c mp sink topic payload attempt n r last err r' ws ms ->
  Forall (fun n => n ∈ inner_metrics) ms.
Proof.
  intros []; try constructor; [by eapply dead_lettered_metrics|apply metric_Forall; set_solver].
Qed.

Lemma retries_metrics n :
  Forall (fun n => n ∈ inner_metrics) (mjoin (replicate n (metric mp "messaging.retries"))).
Proof.
  induction n as [|n IH]; simpl; [constructor|]. apply Forall_app. split; [|done].
  apply metric_Forall. set_solver.
Qed.

Lemma dispatched_metrics ctx topic payload md r w t o r' w' :
  dispatched c mp ctx topic payload md r w t o r' w' -> Forall (fun n => n ∈ inner_metrics) (metrics t).
Proof.
  intros [? ? ? ? ? ? ? Hdl|? ? ? ? ? ? ? ? ? ? Hdl|? ? ? ? ? ? ? ? ? ? ? ? ->|? ? ? ? ? ? ? ? ? ? ? ? Hrun];
    [by eapply dead_lettered_metrics..|done|].
  destruct Hrun as [? ? ? ? ? ? ? ? ? ? ? Hc _ ->|? ? ? ? ? ? ? _ ->]; [|apply retries_metrics].
  apply Forall_app. split; [apply retries_metrics|by eapply concluded_metrics].
Qed.

Lemma filter_metric k :
  filter (fun n => n = "messaging.dlq") (metric mp k) = if decide (k = "messaging.dlq") then metric mp k else [].
Proof. destruct mp; simpl; [|by destruct (decide _)]. rewrite filter_cons, filter_nil. by repeat case_decide. Qed.

Lemma filter_retries n :
  filter (fun n => n = "messaging.dlq") (mjoin (replicate n (metric mp "messaging.retries"))) = [].
Proof. induction n as [|n IH]; simpl; [done|]. rewrite filter_app, IH, filter_metric. done. Qed.

(** A dead-lettering that returned nil, as the last step of a body. *)
Lemma dead_lettered_settled sink topic payload md reason cause body t k ms :
  dead_lettered c mp sink topic reason cause (deliveryAttempt md) body None (writes t) ms ->
  metrics t = mjoin (replicate k (metric mp "messaging.retries")) ++ ms ->
  (body = deadLetterBody payload \/ body = (None, Some payload)) ->
  settled topic payload md t.
Proof.
  intros (tm & b & Hb & Hw & ->)%dead_lettered_ok Hm Hbody.
  eapply settled_dead_lettered; [exact Hb|done..| |done|].
  - unfold carries. simpl. destruct Hbody as [->| ->]; [|auto].
    destruct (deadLetterBody_spec payload) as [[-> ?]|[-> ?]]; simpl; auto.
  - rewrite Hm, filter_app, filter_retries, filter_metric. done.
Qed.

Lemma dispatched_settled ctx topic payload md r w t r' w' :
  dispatched c mp ctx topic payload md r w t (Ret None) r' w' -> settled topic payload md t.
Proof.
  intros H. remember (Ret None) as o eqn:Ho.
  destruct H as [err w' ? ? ? ? ? Hdl|e cause err w' ? ? ? ? ? ? Hdl|env major h w' ? ? ? ? ? ? ? ? ?
                |env major h m o r' w' ? ? ? ? ? Hrun]; simplify_eq.
  - eapply (dead_lettered_settled _ _ _ _ _ _ _ _ 0); eauto.
  - eapply (dead_lettered_settled _ _ _ _ _ _ _ _ 0); eauto.
  - by eapply settled_unhandled.
  - inversion Hrun as [rs last err r2 ws ms ? ? Hret Hcalls Hslept Hcon Hw Hm|]; subst.
    inversion Hcon; subst; [by eapply settled_handled; eauto|by eapply settled_handled; eauto|].
    eapply dead_lettered_settled; eauto.
Qed.

Lemma dispatched_unsettled ctx topic payload md r w t o r' w' :
  dispatched c mp ctx topic payload md r w t o r' w' -> o <> Ret None ->
  Forall (fun w => w.2 <> None) (writes t).
Proof.
  intros [[e|] w2 ? ? ? ? ? Hdl|e cause [e'|] w2 ? ? ? ? ? ? Hdl|? ? ? ? ? ? ? ? ? ? ? -> ?
                |env major h m o' r2 w2 ? ? ? ? ? Hrun] Ho; try done;
    [by eapply dead_lettered_err..|].
  destruct Hrun as [rs last [err|] r3 ws ms ? ? Hret Hcalls Hslept Hcon Hw Hm|? ? ? ? ? ? ? Hw]; subst; try done;
    [|by rewrite Hw].
  inversion Hcon; subst; try constructor. by eapply dead_lettered_err.
Qed.
Definition dead_letter_reasons : list string :=
  [ReasonDeserializationFailed; ReasonPermanent; ReasonMaxAttemptsExceeded].

(** The payload as a dead letter holds it: raw when it did not decode. *)
Definition letter_body (reason payload : string) : option string * option string :=
  if bool_decide (reason = ReasonDeserializationFailed) then (None, Some payload) else deadLetterBody payload.

(** Every write of a delivery is a dead letter with the bytes delivered. *)
Definition letter_written (topic payload : string) (md : metadata) (stream b : string) : Prop :=
  stream = dlqStream c topic /\
  exists tm reason cause, reason ∈ dead_letter_reasons /\
    marshal_deadletter (letter c tm topic reason cause (deliveryAttempt md) (letter_body reason payload)) = Ok b.

Lemma dispatched_letters ctx topic payload md r w t o r' w' stream b e :
  dispatched c mp ctx topic payload md r w t o r' w' -> (stream, b, e) ∈ writes t ->
  letter_written topic payload md stream b.
Proof.
  intros H Hin.
  assert (forall reason cause err ms, reason ∈ dead_letter_reasons ->
    dead_lettered c mp (deadLetter_sink c ctx) topic reason cause (deliveryAttempt md) (letter_body reason payload) err (writes t) ms ->
    letter_written topic payload md stream b) as Hdl.
  { intros reason cause err ms Hb Hd. destruct (dead_lettered_letters _ _ _ _ _ _ _ _ _ _ _ _ Hd Hin) as [-> [tm ?]].
    split; [done|]. by exists tm, reason, cause. }
  assert (Forall (fun r => r ∈ dead_letter_reasons) dead_letter_reasons) as Hreasons by (apply Forall_forall; auto).
  do 3 apply Forall_cons in Hreasons as [? Hreasons].
  destruct H as [? ? ? ? ? ? ? Hd|? ? ? ? ? ? ? ? ? ? Hd|? ? ? ? ? ? ? ? ? ? ? Hw|? ? ? ? ? ? ? ? ? ? ? ? Hrun];
    [by eapply Hdl; [|exact Hd]..| |].
  { rewrite Hw in Hin. by apply elem_of_nil in Hin. }
  destruct Hrun as [? ? ? ? ? ? ? ? ? ? ? Hcon Hw ?|? ? ? ? ? ? ? Hw]; rewrite Hw in *; [|by apply elem_of_nil in Hin].
  inversion Hcon as [| |? ? ? ? ? Hd| |]; subst; try by eapply Hdl; [|exact Hd].
  all: match goal with H : [] = writes _ |- _ => rewrite <-H in Hin; by apply elem_of_nil in Hin end.
Qed.
End props.

Lemma deliveryAttempt_int64 md : in_int64 (deliveryAttempt md).
Proof.
  unfold deliveryAttempt. destruct (ParseInt _) as [n|] eqn:Hn; [|by unfold_int64].
  apply ParseInt_int64 in Hn. case_match; [by unfold_int64|done].
Qed.

Lemma deliveryAttempt_pos md : 1 <= deliveryAttempt md.
Proof. unfold deliveryAttempt. case_match; [|lia]. case_match; to_prop; lia. Qed.

(** ** Runs of [dispatch] *)

Section claims.
Context {E : Type} `{HEnv : !Env E, HFmt : !GoFmt, HTime : !GoTime, HJson : !JsonCodec}.
Implicit Types (c : Consumer E) (s : St E) (mp : option ref).

Lemma dispatch_delivery c mp ctx topic payload md s o s' t :
  c_inst c = instruments_of mp ->
  dispatch c ctx topic payload md s = (o, s', t) ->
  exists span start final body, delivery c mp ctx topic payload md span start final s o s' body t.
Proof.
  intros Hi Hrun. destruct (dispatch_run c mp Hi ctx topic payload md s)
    as (o1 & s1 & t1 & span & start & final & body & Hrun1 & Hd).
  rewrite Hrun in Hrun1. simplify_eq. eauto.
Qed.

Lemma dispatch_letters c mp ctx topic payload md s o s' t stream b e :
  c_inst c = instruments_of mp -> dispatch c ctx topic payload md s = (o, s', t) ->
  (stream, b, e) ∈ writes t -> letter_written c topic payload md stream b.
Proof.
  intros Hi Hrun Hin. destruct (dispatch_delivery _ _ _ _ _ _ _ _ _ _ Hi Hrun) as (? & ? & ? & ? & [(? & ? & _ & Hd & _) ? Hw]).
  rewrite Hw in Hin. by eapply dispatched_letters.
Qed.

Lemma dispatched_total c mp ctx topic payload md r w t o r' w' :
  dispatched c mp ctx topic payload md r w t o r' w' -> o <> OutOfFuel.
Proof. intros [| | |? ? ? ? ? ? ? ? ? ? ? ? Hrun]; try done. by destruct Hrun. Qed.

(** What a handler is called with. *)
Definition handler_given c (topic payload : string) (md : metadata)
    (call : option string * Envelope string) : Prop :=
  exists env major h m,
    deliveryAttempt md <= MaxDeliveryAttempts (Consumer_ (c_cfg c)) /\
    readable payload env major /\ m <> matchNone /\
    lookup_route (c_registry c) topic (EventType env) major = (Some h, m) /\
    call = (Some (CorrelationID env), env).

Lemma dispatched_calls c mp ctx topic payload md r w t o r' w' :
  dispatched c mp ctx topic payload md r w t o r' w' ->
  Forall (handler_given c topic payload md) (calls t) /\
  Z.of_nat (length (calls t)) <= 1 + Z.max 0 (MaxImmediateRetries (Retry (c_cfg c))).
Proof.
  intros [? ? ? ? -> ? ? ?|? ? ? ? ? ? ? -> ? ? ?|? ? ? ? ? ? ? ? -> ? ? ? ?|env major h m ? ? ? ? ? ? ? ? Hrun];
    try (split; [done|simpl; lia]).
  destruct Hrun as [? ? ? ? ? ? ? ? ? -> ? ? ? ?|? ? ? ? ? -> ? ? ?]; rewrite length_replicate;
    (split; [|lia]); apply Forall_replicate; by exists env, major, h, m.
Qed.

(** A routed event within the cap reaches its handler, and nothing else does. *)
Lemma dispatched_handles c mp ctx topic payload md r w t o r' w' env major h m :
  dispatched c mp ctx topic payload md r w t o r' w' ->
  deliveryAttempt md <= MaxDeliveryAttempts (Consumer_ (c_cfg c)) ->
  readable payload env major -> lookup_route (c_registry c) topic (EventType env) major = (Some h, m) ->
  m <> matchNone ->
  (exists n, calls t = replicate (S n) (Some (CorrelationID env), env)) /\
  handled_by (deadLetter_sink c ctx) (h (contextWithCorrelationID ctx (CorrelationID env)) env) w t w'.
Proof.
  intros H Hcap (He & Hv & Hm) Hl Hne.
  destruct H as [err w' ? ? ? ? ? Hdl|e cause err w' ? Hun|env' major' h' w' ? (He' & Hv' & Hm') Hl'
                |env' major' h' m' o r' w' ? (He' & Hv' & Hm') ? Hl' _ Hrun Hby]; [lia|..].
  - inversion Hun; congruence.
  - simplify_eq. congruence.
  - assert (env' = env) as -> by congruence. assert (h' = h) as -> by congruence. destruct Hrun; eauto.
Qed.

(** What runs the calls of a delivery: the calls [call] of one handler, under the
    delivery's context, from its first state to its last. *)
Definition runs_handler c ctx md (call : context E -> E -> handled * E) s t s' : Prop :=
  exists span, handled_by (deadLetter_sink c ctx) (call (delivery_ctx ctx md span)) (st_env s) t (st_env s').

Lemma delivery_runs_handler c mp ctx topic payload md span start final s o s' body t env major h m :
  delivery c mp ctx topic payload md span start final s o s' body t ->
  deliveryAttempt md <= MaxDeliveryAttempts (Consumer_ (c_cfg c)) ->
  readable payload env major -> lookup_route (c_registry c) topic (EventType env) major = (Some h, m) ->
  m <> matchNone ->
  (exists n, calls t = replicate (S n) (Some (CorrelationID env), env)) /\
  runs_handler c ctx md (fun ctx => h (contextWithCorrelationID ctx (CorrelationID env)) env) s t s'.
Proof.
  intros [(w1 & w2 & H1 & Hd & H2) _ _ Hct Hrt _ _ _ _ _ _ _] Hcap Hread Hl Hm.
  destruct (dispatched_handles _ _ _ _ _ _ _ _ _ _ _ _ _ _ _ _ Hd Hcap Hread Hl Hm) as [Hc Hby].
  split; [by rewrite Hct|]. exists span. rewrite delivery_ctx_sink in Hby.
  eapply handled_by_trace; [| |eapply handled_by_app; [apply handled_by_moves, H1|]; eapply handled_by_app;
    [exact Hby|apply handled_by_moves, H2]]; by rewrite app_nil_r, ?Hct, ?Hrt.
Qed.

(** A panic leaves a handler call without its return; nothing else does. *)
Lemma dispatched_returns c mp ctx topic payload md r w t o r' w' :
  dispatched c mp ctx topic payload md r w t o r' w' ->
  match o with
  | Ret _ => length (calls t) = length (returns t)
  | Panic _ => rec_kind r' = rec_kind r /\ length (calls t) = S (length (returns t))
  | OutOfFuel => False
  end.
Proof.
  intros [? ? ? ? -> ->|? ? ? ? ? ? ? -> ->|? ? ? ? ? ? ? ? -> ->|env major h m ? ? ? ? ? ? ? ? Hrun]; try done.
  destruct Hrun as [? ? ? ? ? ? ? ? -> ->|? ? ? ? -> ->].
  - rewrite length_app, length_replicate. simpl. lia.
  - rewrite length_replicate. split; [|done]. unfold routed. by case_bool_decide.
Qed.

Lemma inner_not_terminal l :
  Forall (fun n => n ∈ inner_metrics) l ->
  filter (fun n => n ∈ terminal_metrics) l = [] /\ filter (fun n => n = "messaging.events.received") l = [].
Proof.
  induction 1 as [|n l Hn _ [IH1 IH2]]; [done|].
  rewrite !filter_cons, IH1, IH2.
  repeat (apply elem_of_cons in Hn as [->|Hn]); [done..|by apply elem_of_nil in Hn].
Qed.

(** C1: [dispatch] implements the delivery specification.  Every run ends, in
    one of the ways [dispatched] lists (capped, undecodable or invalid,
    without a handler, or through the retry loop), having counted the event
    received once before it and one terminal counter after it, with one
    duration, one span, and the outcome copied to the probe. *)
Theorem dispatch_refines c mp ctx topic payload md s :
  c_inst c = instruments_of mp ->
  exists o s' t span start final body,
    dispatch c ctx topic payload md s = (o, s', t) /\
    delivery c mp ctx topic payload md span start final s o s' body t.
Proof. intros Hi. by apply dispatch_run. Qed.

Lemma nil_settles c mp ctx topic payload md s s' t :
  c_inst c = instruments_of mp ->
  dispatch c ctx topic payload md s = (Ret None, s', t) ->
  settled c mp topic payload md t.
Proof.
  intros Hi Hrun. edestruct dispatch_delivery as (span & start & final & body & Hd); [done..|].
  destruct Hd as [(w1 & w2 & _ & Hd & _) Hm Hw Hc Hr _ _ _ _ _ _ _].
  destruct (dispatched_settled _ _ _ _ _ _ _ _ _ _ _ Hd);
    [eapply settled_handled|eapply settled_unhandled|eapply settled_dead_lettered];
    rewrite ?Hc, ?Hr, ?Hw, ?Hm; try done.
  rewrite !filter_app, !filter_metric.
  destruct (rec_kind final); simpl; by rewrite app_nil_r.
Qed.

(** C2: nothing is acknowledged that was not settled.  When [dispatch] returns
    nil, either the handler's last result was nil or a discard and nothing
    was written, or no handler is registered for the event and nothing was
    written, or exactly one stream write was made and succeeded: a dead
    letter on the topic's DLQ stream, carrying the original bytes in exactly
    one of its two fields, and counted once. *)
Theorem ack_settles c mp ctx topic payload md s s' t :
  c_inst c = instruments_of mp ->
  dispatch c ctx topic payload md s = (Ret None, s', t) ->
  settled c mp topic payload md t.
Proof. apply nil_settles. Qed.

(** C17: what is refused is kept.  When [dispatch] returns an error, or a
    handler panics, no stream write succeeded, so the entry stays pending
    without a dead-letter copy of it; the loops of [dispatch] never run out
    of fuel. *)
Theorem refusal_writes_nothing c mp ctx topic payload md s o s' t :
  c_inst c = instruments_of mp ->
  dispatch c ctx topic payload md s = (o, s', t) ->
  o <> Ret None ->
  o <> OutOfFuel /\ Forall (fun w => w.2 <> None) (writes t).
Proof.
  intros Hi Hrun Ho. edestruct dispatch_delivery as (span & start & final & body & Hd); [done..|].
  destruct Hd as [(w1 & w2 & _ & Hd & _) _ -> _ _ _ _ _ _ _ _ _].
  split; [by eapply dispatched_total|by eapply dispatched_unsettled].
Qed.

(** C3: one delivery, one account.  However [dispatch] ends, panics included,
    it counts the event received once, increments exactly one terminal
    counter, records one duration and opens and closes one span with one
    status; a panic counts as failed, with status category unknown. *)
Theorem one_terminal_outcome c m ctx topic payload md s o s' t :
  c_inst c = instruments_of (Some m) ->
  dispatch c ctx topic payload md s = (o, s', t) ->
  exists kind category span,
    filter (fun n => n = "messaging.events.received") (metrics t) = ["messaging.events.received"] /\
    filter (fun n => n ∈ terminal_metrics) (metrics t) = [terminal_metric kind] /\
    filter (fun n => n = "messaging.processing.duration") (observations t) =
      ["messaging.processing.duration"] /\
    span_starts t = [span] /\ span_ends t = [span] /\
    span_statuses t = [if decide (kind = outcomeProcessed \/ kind = outcomeSkipped)
                       then (CodeOk, "") else (CodeError, category)] /\
    (forall v, o = Panic v -> kind = outcomeUnset /\ category = categoryUnknown).
Proof.
  intros Hi Hrun. edestruct dispatch_delivery as (span & start & final & body & Hd); [done..|].
  destruct Hd as [(w1 & w2 & _ & Hd & _) -> _ _ _ _ _ Ho Hss Hst Hse _].
  pose proof (dispatched_metrics _ _ _ _ _ _ _ _ _ _ _ _ Hd) as Hin.
  apply inner_not_terminal in Hin as [Ht Hr].
  exists (rec_kind final), (terminal_status final).2, span. rewrite !filter_app, Ht, Hr, Ho.
  split_and!; try done.
  - by destruct (rec_kind final).
  - by destruct (rec_kind final).
  - by case_bool_decide.
  - rewrite Hst. unfold terminal_status. by destruct (rec_kind final).
  - intros v ->. apply dispatched_returns in Hd as [Hk _]. unfold terminal_status. by rewrite Hk.
Qed.

(** C15: the attempt cap stops poison messages before anything reads them.  An
    event delivered more than MaxDeliveryAttempts times is never decoded and
    given to no handler; its delivery returns, having tried once to write its
    dead letter, with reason max_attempts_exceeded, the attempt and the original
    bytes, and having counted the event failed.  A nil return means the write
    succeeded; nothing is written only where there is no sink, the letter has
    no JSON encoding or no identifier can be generated, and then the error that
    says so is returned. *)
Theorem cap_dead_letters_undecoded c mp ctx topic payload md s o s' t :
  c_inst c = instruments_of mp ->
  dispatch c ctx topic payload md s = (o, s', t) ->
  MaxDeliveryAttempts (Consumer_ (c_cfg c)) < deliveryAttempt md ->
  decodes t = [] /\ calls t = [] /\
  exists err ms, o = Ret err /\
    metrics t = metric mp "messaging.events.received" ++ ms ++ metric mp "messaging.events.failed" /\
    dead_lettered c mp (deadLetter_sink c ctx) topic ReasonMaxAttemptsExceeded (cap_error c (deliveryAttempt md))
      (deliveryAttempt md) (deadLetterBody payload) err (writes t) ms.
Proof.
  intros Hi Hrun Hcap. edestruct dispatch_delivery as (span & start & final & body & Hd); [done..|].
  destruct Hd as [(w1 & w2 & _ & Hd & _) -> -> -> _ -> _ _ _ _ _ _]. rewrite <-(delivery_ctx_sink c ctx md span).
  destruct Hd; try lia. split_and!; eauto.
Qed.

(** C16: handlers are given validated events, a bounded number of times.  Every
    handler call of a delivery is of the handler the registry resolves, with
    the envelope decoded from the payload, which passed validation and whose
    major version routed it, under a context carrying its correlation ID: that
    handler's runs, with the results on the trace, and the library's own calls
    are all that happens to the environment.
    There are at most 1 + MaxImmediateRetries calls and at most one decode,
    and every call returns unless a panic ends the delivery. *)
Theorem handler_calls_bounded c mp ctx topic payload md s o s' t :
  c_inst c = instruments_of mp ->
  dispatch c ctx topic payload md s = (o, s', t) ->
  Forall (handler_given c topic payload md) (calls t) /\
  (calls t <> [] -> exists env major h m, readable payload env major /\
     lookup_route (c_registry c) topic (EventType env) major = (Some h, m) /\
     runs_handler c ctx md (fun ctx => h (contextWithCorrelationID ctx (CorrelationID env)) env) s t s') /\
  Z.of_nat (length (calls t)) <= 1 + Z.max 0 (MaxImmediateRetries (Retry (c_cfg c))) /\
  (length (decodes t) <= 1)%nat /\
  match o with
  | Ret _ => length (calls t) = length (returns t)
  | Panic _ => length (calls t) = S (length (returns t))
  | OutOfFuel => False
  end.
Proof.
  intros Hi Hrun. edestruct dispatch_delivery as (span & start & final & body & Hd); [done..|].
  pose proof (fun env major h m => delivery_runs_handler _ _ _ _ _ _ _ _ _ _ _ _ _ _ env major h m Hd) as Hby.
  destruct Hd as [(w1 & w2 & _ & Hd & _) _ _ Hc -> -> _ _ _ _ _ _]. rewrite Hc in *.
  pose proof (dispatched_calls _ _ _ _ _ _ _ _ _ _ _ _ Hd) as [Hg ?].
  pose proof (dispatched_returns _ _ _ _ _ _ _ _ _ _ _ _ Hd) as Hr.
  split_and!; [done| |done| |].
  { intros Hne. destruct Hg as [|call l (env & major & h & m & Hcap & Hread & Hm & Hl & _)]; [done|].
    exists env, major, h, m. split_and!; [done..|]. by eapply Hby. }
  - by destruct Hd as [? ? ? ->|? ? ? ? ? ? ->|? ? ? ? ? ? ? ->|? ? ? ? ? ? ? ? ? ? ? ->]; simpl; lia.
  - destruct o; [done| |done]. by destruct Hr.
Qed.

(** A run that does not run out of fuel is the run with more fuel. *)
Definition enough {T A} (m1 m2 : M T A) : Prop := forall x, (m1 x).1.1 <> OutOfFuel -> m2 x = m1 x.

Lemma enough_refl {T A} (m : M T A) : enough m m.
Proof. done. Qed.

Lemma enough_bind {T A B} (m : M T A) (k1 k2 : A -> M T B) :
  (forall a, enough (k1 a) (k2 a)) -> enough (bind m k1) (bind m k2).
Proof.
  intros Hk x. unfold bind. destruct (m x) as [[[a|v|] s1] t]; [|done..]. intros H. rewrite Hk; [done|].
  intros Hk1. apply H. destruct (k1 a s1) as [[o s2] t2]. simpl in *. by subst.
Qed.

Lemma retry_loop_enough c ctx topic payload attempt h env lg fuel1 fuel2 i :
  (fuel1 <= fuel2)%nat ->
  enough (retry_loop c ctx topic payload attempt h env lg fuel1 i)
    (retry_loop c ctx topic payload attempt h env lg fuel2 i).
Proof.
  revert fuel2 i. induction fuel1 as [|fuel1 IH]; intros [|fuel2] i Hf; [by intros x []..|lia|]. cbn [retry_loop].
  apply enough_bind. intros err. destruct err as [e|]; [|apply enough_refl].
  repeat (case_match; [apply enough_refl|]). repeat (apply enough_bind; intros).
  case_match; [apply enough_refl|]. apply IH. lia.
Qed.

(** C25: the immediate-retry loop terminates.  Whatever its handler and the backoffs do, it
    returns or panics within one iteration more than MaxImmediateRetries (one
    if that is negative), and the bound plays no part: with any larger one the
    run is the same. *)
Theorem retry_loop_terminates c mp ctx topic payload attempt h env lg fuel s :
  c_inst c = instruments_of mp -> rec_inst (st_rec s) = instruments_of mp ->
  (S (Z.to_nat (MaxImmediateRetries (Retry (c_cfg c)))) <= fuel)%nat ->
  retry_loop c ctx topic payload attempt h env lg fuel 0 s =
    retry_loop c ctx topic payload attempt h env lg (retry_fuel c) 0 s /\
  (retry_loop c ctx topic payload attempt h env lg fuel 0 s).1.1 <> OutOfFuel.
Proof.
  intros Hi Hri Hf.
  destruct (retry_loop_run c mp Hi ctx topic payload attempt h env lg (retry_fuel c) 0 s Hri)
    as (o & w' & r' & t & Hrun & _ & Hret); [lia|unfold retry_fuel; lia|]. change (Z.of_nat 0) with 0 in Hrun.
  assert (o <> OutOfFuel) as Ho by by destruct Hret.
  rewrite (retry_loop_enough c ctx topic payload attempt h env lg (retry_fuel c) fuel 0 Hf s); rewrite Hrun; done.
Qed.

Lemma slept_bound c k l :
  (forall n w, 0 < n -> 0 <= fst (env_rand n w) < n) ->
  backoff_in_range (Retry (c_cfg c)) ->
  slept c k l ->
  0 <= sum_Z l <= sum_Z (map (ideal_bound (Retry (c_cfg c)))
                          (seq k (Z.to_nat (MaxImmediateRetries (Retry (c_cfg c))) - k))).
Proof.
  intros Hrand Hr. set (n := Z.to_nat (MaxImmediateRetries (Retry (c_cfg c)))).
  induction 1 as [k|k l _ IH|k w l Hk Hu _ IH].
  - split; [done|]. eapply sum_Z_bounds with (m := MaxBackoff (Retry (c_cfg c))).
    intros x Hx. apply list_elem_of_fmap in Hx as (i & -> & _). by apply ideal_bound_range.
  - destruct (decide (k < n)%nat) as [Hk|Hk].
    + replace (n - k)%nat with (S (n - S k)) by lia. simpl.
      pose proof (ideal_bound_range _ k Hr). unfold sum_Z in *. simpl. lia.
    + replace (n - k)%nat with O by lia. by replace (n - S k)%nat with O in IH by lia.
  - replace (n - k)%nat with (S (n - S k)) by lia. simpl.
    pose proof (Hrand _ w Hu) as Hd. rewrite backoffUpperBound_ideal in * by done.
    unfold sum_Z in *. simpl. lia.
Qed.

Lemma dispatched_slept c mp ctx topic payload md r w t o r' w' :
  dispatched c mp ctx topic payload md r w t o r' w' -> slept c 0 (sleeps t).
Proof.
  intros [? ? ? ? ? ? ->|? ? ? ? ? ? ? ? ? ->|? ? ? ? ? ? ? ? ? ? ->|? ? ? ? ? ? ? ? ? ? ? ? Hrun];
    [constructor..|by destruct Hrun].
Qed.

(** C18: in-process backoff never outlasts the reclaim threshold.  For a
    consumer running with an accepted configuration whose backoff does not
    overflow 64 bits ([backoff_in_range], and MaxImmediateRetries times MaxBackoff
    at most 2^63 - 1 ns), the time one delivery spends sleeping
    between immediate retries is below ClaimMinIdle, so backoff alone cannot
    make another consumer reclaim the entry; [env_rand] is only assumed to
    return a value of the range it is asked for. *)
Theorem backoff_below_claim_idle c mp ctx topic payload md s o s' t (p : Process) (cfg : Config) :
  (forall n w, 0 < n -> 0 <= fst (env_rand n w) < n) ->
  validate_for_consumer p cfg = Ok (c_cfg c) ->
  backoff_in_range (Retry (c_cfg c)) ->
  MaxImmediateRetries (Retry (c_cfg c)) * MaxBackoff (Retry (c_cfg c)) <= int64_max ->
  c_inst c = instruments_of mp ->
  dispatch c ctx topic payload md s = (o, s', t) ->
  0 <= sum_Z (sleeps t) < ClaimMinIdle (Consumer_ (c_cfg c)).
Proof.
  intros Hrand Hv Hr Hb Hi Hrun.
  edestruct dispatch_delivery as (span & start & final & body & Hd); [done..|].
  destruct Hd as [(w1 & w2 & _ & Hd & _) _ _ _ _ _ -> _ _ _ _ _].
  apply dispatched_slept, slept_bound in Hd; [|done..].
  rewrite Nat.sub_0_r in Hd. fold (ideal_worst_case (Retry (c_cfg c))) in Hd.
  pose proof (validated_backoff _ _ _ Hv) as Hlt. rewrite worstCaseBackoff_exact in Hlt by done. lia.
Qed.
End claims.

(** A negative MaxDeliveryAttempts is accepted, and then no handler ever
    runs.  Validation does not reject it (zero is defaulted, the other negative
    fields are refused), and a consumer with that configuration dead-letters
    every event undecoded, on its first delivery. *)
Lemma negative_cap_accepted :
  exists cfg0 cfg,
    MaxDeliveryAttempts (Consumer_ cfg0) = -1 /\
    validate_for_consumer sample_process cfg0 = Ok cfg /\
    forall (E : Type) (HEnv : Env E) (HFmt : GoFmt) (HTime : GoTime) (HJson : JsonCodec)
        (c : Consumer E) mp ctx topic payload md s o s' t,
      c_cfg c = cfg -> c_inst c = instruments_of mp ->
      dispatch c ctx topic payload md s = (o, s', t) ->
      decodes t = [] /\ calls t = [].
Proof.
  exists (set_consumer minimal_config (mkConsumerConfig "billing-service" "" 0 0 0 (-1) 0)).
  eexists. split; [done|]. split; [vm_compute; reflexivity|].
  intros E HEnv HFmt HTime HJson c mp ctx topic payload md s o s' t Hc Hi Hrun.
  edestruct dispatch_delivery as (span & start & final & body & Hd); [done..|].
  destruct Hd as [(w1 & w2 & _ & Hd & _) _ _ -> _ -> _ _ _ _ _ _].
  pose proof (deliveryAttempt_pos md).
  destruct Hd; try (rewrite Hc in *; simpl in *; lia). done.
Qed.

(** ** Witnesses: the sample consumer *)

Lemma dispatch_refines_witness :
  c_inst (sample_consumer minimal_validated scripted) = instruments_of (Some 1%nat) /\
  exists o s' t span start final body,
    dispatch (sample_consumer minimal_validated scripted) background "orders" "order" ∅
      (sample_state (mkWorld 10 [None] None false)) = (o, s', t) /\
    delivery (sample_consumer minimal_validated scripted) (Some 1%nat) background "orders" "order" ∅
      span start final (sample_state (mkWorld 10 [None] None false)) o s' body t.
Proof.
  split; [reflexivity|].
  exact (dispatch_refines (sample_consumer minimal_validated scripted) (Some 1%nat) background
    "orders" "order" ∅ (sample_state (mkWorld 10 [None] None false)) eq_refl).
Defined.

(** A permanent error: the event is dead-lettered, then acknowledged. *)
Lemma ack_settles_witness :
  let run := sample_dispatch minimal_validated [AsPermanent (Some boom)] None "1" "order" in
  run.1.1 = Ret None /\
  settled (sample_consumer minimal_validated scripted) (Some 1%nat) "orders" "order"
    {[ MetadataDeliveryAttempt := "1" ]} run.2.
Proof.
  intros run. split; [reflexivity|].
  apply (ack_settles (sample_consumer minimal_validated scripted) (Some 1%nat) background "orders" "order"
    {[ MetadataDeliveryAttempt := "1" ]} (sample_state (mkWorld 10 [AsPermanent (Some boom)] None false))
    run.1.2 run.2); vm_compute; reflexivity.
Defined.

(** The same, with Redis refusing the dead letter. *)
Lemma refusal_writes_nothing_witness :
  let run := sample_dispatch minimal_validated [AsPermanent (Some boom)] (Some boom) "1" "order" in
  run.1.1 <> Ret None /\ length (writes run.2) = 1%nat /\
  run.1.1 <> OutOfFuel /\ Forall (fun w => w.2 <> None) (writes run.2).
Proof.
  intros run. split; [vm_compute; discriminate|]. split; [reflexivity|].
  apply (refusal_writes_nothing (sample_consumer minimal_validated scripted) (Some 1%nat) background
    "orders" "order" {[ MetadataDeliveryAttempt := "1" ]}
    (sample_state (mkWorld 10 [AsPermanent (Some boom)] (Some boom) false)) run.1.1 run.1.2 run.2);
    [reflexivity|vm_compute; reflexivity|vm_compute; discriminate].
Defined.

(** A handler that panics. *)
Lemma one_terminal_outcome_witness :
  let run := sample_dispatch minimal_validated [] None "1" "order" in
  exists kind category span,
    filter (fun n => n = "messaging.events.received") (metrics run.2) = ["messaging.events.received"] /\
    filter (fun n => n ∈ terminal_metrics) (metrics run.2) = [terminal_metric kind] /\
    filter (fun n => n = "messaging.processing.duration") (observations run.2) =
      ["messaging.processing.duration"] /\
    span_starts run.2 = [span] /\ span_ends run.2 = [span] /\
    span_statuses run.2 = [if decide (kind = outcomeProcessed \/ kind = outcomeSkipped)
                       then (CodeOk, "") else (CodeError, category)] /\
    (forall v, Panic (A := option error) "script exhausted" = Panic v ->
       kind = outcomeUnset /\ category = categoryUnknown).
Proof.
  intros run.
  apply (one_terminal_outcome (sample_consumer minimal_validated scripted) 1%nat background "orders" "order"
    {[ MetadataDeliveryAttempt := "1" ]} (sample_state (mkWorld 10 [] None false))
    (Panic "script exhausted") run.1.2 run.2); vm_compute; reflexivity.
Defined.

(** The sixth delivery, with the default cap of five. *)
Lemma cap_dead_letters_undecoded_witness :
  let md := {[ MetadataDeliveryAttempt := "6" ]} in
  let run := sample_dispatch minimal_validated [None] None "6" "order" in
  deliveryAttempt md = 6 /\ decodes run.2 = [] /\ calls run.2 = [] /\
  exists err ms, run.1.1 = Ret err /\
    metrics run.2 = ["messaging.events.received"] ++ ms ++ ["messaging.events.failed"] /\
    dead_lettered (sample_consumer minimal_validated scripted) (Some 1%nat)
      (deadLetter_sink (sample_consumer minimal_validated scripted) background) "orders"
      ReasonMaxAttemptsExceeded (cap_error (sample_consumer minimal_validated scripted) (deliveryAttempt md)) (deliveryAttempt md)
      (deadLetterBody "order") err (writes run.2) ms.
Proof.
  intros md run. split; [vm_compute; reflexivity|].
  apply (cap_dead_letters_undecoded (sample_consumer minimal_validated scripted) (Some 1%nat) background
    "orders" "order" {[ MetadataDeliveryAttempt := "6" ]} (sample_state (mkWorld 10 [None] None false))
    run.1.1 run.1.2 run.2); vm_compute; reflexivity.
Defined.

(** A handler that keeps failing. *)
Definition failing_state : St world :=
  mkSt (mkWorld 10 (replicate 9 (Some boom)) None false)
    (newDeliveryRecorder (instruments_of (Some 1%nat)) 0 "" "" None false 0) None.
Definition failing_loop (fuel : nat) :=
  retry_loop (sample_consumer minimal_validated scripted) background "orders" "order" 1 scripted sample_envelope [] fuel 0
    failing_state.

Lemma retry_loop_terminates_witness :
  retry_fuel (sample_consumer minimal_validated scripted) = 4%nat /\
  failing_loop 100 = failing_loop 4 /\ (failing_loop 100).1.1 <> OutOfFuel.
Proof.
  assert (retry_fuel (sample_consumer minimal_validated scripted) = 4%nat) as Hf by (vm_compute; reflexivity).
  split; [exact Hf|]. unfold failing_loop. rewrite <-Hf.
  apply (retry_loop_terminates (sample_consumer minimal_validated scripted) (Some 1%nat) background "orders"
    "order" 1 scripted sample_envelope [] 100 failing_state).
  all: first [reflexivity|vm_compute; lia].
Defined.

Lemma handler_calls_bounded_witness :
  let run := sample_dispatch minimal_validated (replicate 9 (Some boom)) None "1" "order" in
  length (calls run.2) = 4%nat /\
  Forall (handler_given (sample_consumer minimal_validated scripted) "orders" "order"
            {[ MetadataDeliveryAttempt := "1" ]}) (calls run.2) /\
  (calls run.2 <> [] -> exists env major h m, readable "order" env major /\
     lookup_route (c_registry (sample_consumer minimal_validated scripted)) "orders" (EventType env) major = (Some h, m) /\
     runs_handler (sample_consumer minimal_validated scripted) background {[ MetadataDeliveryAttempt := "1" ]}
       (fun ctx => h (contextWithCorrelationID ctx (CorrelationID env)) env)
       (sample_state (mkWorld 10 (replicate 9 (Some boom)) None false)) run.2 run.1.2) /\
  Z.of_nat (length (calls run.2)) <= 1 + Z.max 0 3 /\
  (length (decodes run.2) <= 1)%nat /\
  length (calls run.2) = length (returns run.2).
Proof.
  intros run. split; [reflexivity|].
  apply (handler_calls_bounded (sample_consumer minimal_validated scripted) (Some 1%nat) background
    "orders" "order" {[ MetadataDeliveryAttempt := "1" ]}
    (sample_state (mkWorld 10 (replicate 9 (Some boom)) None false)) (Ret (Some boom)) run.1.2 run.2);
    vm_compute; reflexivity.
Defined.

Lemma backoff_below_claim_idle_witness :
  let run := sample_dispatch minimal_validated (replicate 9 (Some boom)) None "1" "order" in
  sleeps run.2 = [100 * Millisecond - 1; 200 * Millisecond - 1; 400 * Millisecond - 1] /\
  0 <= sum_Z (sleeps run.2) < ClaimMinIdle (Consumer_ minimal_validated).
Proof.
  intros run. split; [vm_compute; reflexivity|].
  apply (backoff_below_claim_idle (sample_consumer minimal_validated scripted) (Some 1%nat) background
    "orders" "order" {[ MetadataDeliveryAttempt := "1" ]}
    (sample_state (mkWorld 10 (replicate 9 (Some boom)) None false)) run.1.1 run.1.2 run.2
    sample_process minimal_config).
  - simpl. lia.
  - vm_compute. reflexivity.
  - vm_compute. repeat split; discriminate.
  - vm_compute. discriminate.
  - reflexivity.
  - vm_compute. reflexivity.
Defined.

(** ** Stream entries the marshaller could not read *)

Section undecodable.
Context {E : Type} `{HEnv : !Env E, HFmt : !GoFmt, HTime : !GoTime, HJson : !JsonCodec}.
Implicit Types (c : Consumer E) (s : St E).

(** An unreadable stream entry of a subscribed stream is counted received,
    never touches a handler or a terminal counter, and is acknowledged only
    after one dead letter was written: reason deserialization_failed, attempt
    1, its raw fields as EventRaw.  On any other stream nothing happens and
    the hook returns an error, which keeps the entry pending. *)
Lemma handleUndecodable_run c mp ctx topics stream entry fields s :
  c_inst c = instruments_of mp ->
  exists o s' t,
    handleUndecodable c ctx topics stream entry fields s = (Ret o, s', t) /\
    calls t = [] /\ filter (fun n => n ∈ terminal_metrics) (metrics t) = [] /\
    match topics !! stream with
    | None => is_Some o /\ t = []
    | Some topic =>
        filter (fun n => n = "messaging.events.received") (metrics t) =
          metric mp "messaging.events.received" /\
        (is_Some o -> Forall (fun w => w.2 <> None) (writes t)) /\
        (o = None -> exists raw tm cause body,
           marshal_fields fields = Ok raw /\
           marshal_deadletter (letter c tm topic ReasonDeserializationFailed cause 1 (None, Some raw)) = Ok body /\
           writes t = [(dlqStream c topic, body, None)])
    end.
Proof.
  intros Hi. unfold handleUndecodable. destruct (topics !! stream) as [topic|].
  2: { destruct s. eexists _, _, _. split; [reflexivity|]. split_and!; eauto. }
  destruct (received_run c mp Hi topic s) as (t1 & H1 & [] & _ & Hm1).
  unfold bind at 1. rewrite H1. clear H1.
  destruct (marshal_fields fields) as [raw|e].
  2: { eexists _, _, _. split; [reflexivity|]. autorewrite with trace.
       rewrite q_calls, q_writes, Hm1. destruct mp; split_and!; naive_solver. }
  unfold bind at 1.
  match goal with |- context [newDeadLetter c ?a ?b ?x ?d ?s] =>
    destruct (newDeadLetter_run c mp Hi a b x d s) as (tm & w & ->); simpl end.
  match goal with |- context [deadLetter c ?a ?b ?x ?s] =>
    destruct (deadLetter_run c mp Hi a b x s) as (err & w' & t2 & -> & [] & Hd); simpl end.
  eexists _, _, _. split; [reflexivity|]. autorewrite with trace. rewrite q_calls, q_writes, Hm1, bk_calls.
  rewrite !filter_app.
  assert (Forall (fun n => n ∈ inner_metrics) (metrics t2)) as [-> ->]%inner_not_terminal.
  { eapply (dead_lettered_metrics c mp (deadLetter_sink c ctx) topic ReasonDeserializationFailed _ 1 (None, Some raw)).
    exists tm. exact Hd. }
  split_and!; [done|by destruct mp|by destruct mp| |].
  - intros [e ->]. eapply (dead_lettered_err c mp (deadLetter_sink c ctx) topic ReasonDeserializationFailed _ 1 (None, Some raw)).
    exists tm. exact Hd.
  - intros ->. destruct (dead_lettered_ok c mp (deadLetter_sink c ctx) topic ReasonDeserializationFailed _ 1 (None, Some raw) _ _
      (ex_intro _ tm Hd)) as (tm' & b & ? & ? & _). eauto 10.
Qed.

(** What the hook writes is a dead letter of the entry's fields. *)
Lemma handleUndecodable_letters c mp ctx topics stream entry fields s o s' t st b e :
  c_inst c = instruments_of mp ->
  handleUndecodable c ctx topics stream entry fields s = (o, s', t) -> (st, b, e) ∈ writes t ->
  exists topic raw tm cause, topics !! stream = Some topic /\ st = dlqStream c topic /\
    marshal_fields fields = Ok raw /\
    marshal_deadletter (letter c tm topic ReasonDeserializationFailed cause 1 (None, Some raw)) = Ok b.
Proof.
  intros Hi. unfold handleUndecodable. destruct (topics !! stream) as [topic|].
  2: { destruct s. intros [= <- <- <-] Hin. by apply elem_of_nil in Hin. }
  destruct (received_run c mp Hi topic s) as (t1 & H1 & [] & _ & _). unfold bind at 1. rewrite H1. clear H1.
  destruct (marshal_fields fields) as [raw|err].
  2: { intros [= <- <- <-]. autorewrite with trace. rewrite q_writes. intros Hin. by apply elem_of_nil in Hin. }
  unfold bind at 1.
  match goal with |- context [newDeadLetter c ?a ?b ?x ?d ?s] =>
    destruct (newDeadLetter_run c mp Hi a b x d s) as (tm & w & ->); simpl end.
  match goal with |- context [deadLetter c ?a ?b ?x ?s] =>
    destruct (deadLetter_run c mp Hi a b x s) as (err & w' & t2 & -> & _ & Hd); simpl end.
  intros [= <- <- <-]. autorewrite with trace. rewrite q_writes. simpl. intros Hin.
  pose proof (ex_intro (fun tm => dlq_result mp (deadLetter_sink c ctx) (dlqStream c topic) (letter c tm topic ReasonDeserializationFailed _ 1
    (None, Some raw)) err (writes t2) (metrics t2)) tm Hd) as Hdl.
  destruct (dead_lettered_letters c mp (deadLetter_sink c ctx) topic _ _ _ _ _ _ _ _ _ _ Hdl Hin) as [-> [tm' Hb]].
  exists topic, raw, tm'. eexists. split_and!; [done..|exact Hb].
Qed.
End undecodable.

(** ** Typed handlers *)

(** C27: a typed handler sees the event or nothing.  When the payload decodes
    (an empty one is the type's zero value) the handler is called once with
    the delivery's context, the envelope's fields unchanged and the decoded
    payload, and its result is the result; when it does not decode the handler
    is not called, and the error returned has the classification, and the
    causes, of the decoding error it wraps: an unclassified one is retried. *)
Theorem typedDispatch_decodes {E T : Type} `{!Payloads T} (h : Handler E T) (ctx : context E)
    (env : Envelope string) (w : E) :
  (exists p, (if String.eqb (Payload env) "" then Ok payload_zero else payload_unmarshal (Payload env)) = Ok p /\
     exists env', typedDispatch h ctx env w = h ctx env' w /\ Payload env' = p /\
       (EventID env', EventType env', Timestamp env', SchemaVersion env', CorrelationID env', Source env') =
       (EventID env, EventType env, Timestamp env, SchemaVersion env, CorrelationID env, Source env)) \/
  (exists e err, payload_unmarshal (Payload env) = Err e /\ Payload env <> "" /\
     typedDispatch h ctx env w = (Returned (Some err), w) /\
     classOf (Some err) = classOf (Some e) /\
     (classOf (Some e) = None -> IsRetryable (Some err) = true) /\
     forall target, errors_Is (Some e) target = true -> errors_Is (Some err) target = true).
Proof.
  unfold typedDispatch. destruct (String.eqb_spec (Payload env) "") as [->|Hne].
  - left. exists payload_zero. split; [done|]. by eexists.
  - destruct (payload_unmarshal (Payload env)) as [p|e] eqn:Hp; [left|right].
    + exists p. split; [done|]. by eexists.
    + eexists e, _. split; [done|]. split; [done|]. split; [reflexivity|].
      pose proof (classOf_wrap "unmarshalling payload for event type %q: %w" [FQuoted (EventType env)] e) as Hc.
      simpl in Hc. split_and!; [done| |].
      * unfold IsRetryable. rewrite Hc. by intros ->.
      * intros target.
        by rewrite <-(errors_Is_wrap "unmarshalling payload for event type %q: %w" [FQuoted (EventType env)] e target).
Qed.
