(* ===== verification/DeliveryMetrics.v ===== *)
(** * What a delivery puts on its telemetry

    Metric attributes of the consume path stay within a set fixed by the
    configuration and the registrations, whatever a message contains: an event
    type becomes an attribute only when a typed handler is registered for it.
    Payload bytes reach a log line only under [LogPayloads].  Proved with the
    trace logic [holds] over [dispatch]. *)

From S2P Require Import Prelude GoStrings GoErrors Validation Registry Config GoDuration Runtime Sample.
From S2P Require Import Telemetry Delivery SampleDelivery.
From stdpp Require Import options.

#[local] Set Default Proof Using "Type*".

Definition failure_categories : list string :=
  [categoryPermanent; categoryRetryable; categoryDeserialization; categoryMaxAttempts; categoryUnknown].

Definition metric_reasons : list string :=
  [reasonNoHandler; reasonDiscard; ReasonPermanent; ReasonMaxAttemptsExceeded; ReasonDeserializationFailed].

Section telemetry.
Context {E : Type} `{HEnv : !Env E, HFmt : !GoFmt, HTime : !GoTime, HJson : !JsonCodec}.
Variables (c : Consumer E) (topic : string).

Definition registered_type (eventType : string) : Prop :=
  exists major h, lookup_route (c_registry c) topic eventType major = (Some h, matchTyped).

(** An attribute a metric of this delivery may carry. *)
Definition bounded_attr (kv : string * attr_val) : Prop :=
  match kv with
  | (k, AStr v) =>
      (k = attrTopic /\ v = topic) \/ (k = attrGroup /\ v = Group (Consumer_ (c_cfg c))) \/
      (k = attrEventType /\ registered_type v) \/
      (k = attrReason /\ v ∈ metric_reasons) \/
      (k = attrErrorCategory /\ v ∈ failure_categories)
  | _ => False
  end.

Definition bounded_event (e : event) : Prop :=
  match e with
  | EAdd _ a => Forall bounded_attr a
  | ERecord name v a =>
      Forall bounded_attr a /\ (name = "messaging.queue.latency" -> SFleb fzero v = true)
  | ELog _ _ a =>
      LogPayloads (Telemetry (c_cfg c)) = false -> "payload" ∉ a.*1
  | _ => True
  end.

(** What the recorder of this delivery keeps true. *)
Definition bounded_rec (r : deliveryRecorder) : Prop :=
  rec_topic r = topic /\ rec_group r = Group (Consumer_ (c_cfg c)) /\
  (exists mp, rec_inst r = instruments_of mp) /\
  (rec_eventType r = "" \/ registered_type (rec_eventType r)) /\
  (rec_kind r = outcomeFailed -> rec_category r ∈ failure_categories) /\
  (rec_kind r = outcomeSkipped -> rec_reason r ∈ metric_reasons).

(** Computations that keep [J] of the recorder and emit only bounded events. *)
Definition keeps {A} (J : deliveryRecorder -> Prop) (m : M (St E) A) : Prop :=
  holds (fun s => J (st_rec s)) bounded_event m.
Implicit Types (J : deliveryRecorder -> Prop).

Lemma keeps_ret {A} J (a : A) : keeps J (ret a).
Proof. apply holds_ret. Qed.

Lemma keeps_bind {A B} J (m : M (St E) A) (k : A -> M (St E) B) :
  keeps J m -> (forall a, keeps J (k a)) -> keeps J (bind m k).
Proof. apply holds_bind. Qed.

Lemma keeps_if {A} J (b : bool) (m1 m2 : M (St E) A) :
  keeps J m1 -> keeps J m2 -> keeps J (if b then m1 else m2).
Proof. apply holds_if. Qed.

Lemma keeps_emit J e : bounded_event e -> keeps J (emit e).
Proof. apply holds_emit. Qed.

Lemma keeps_lift {A} J (m : M E A) :
  (forall w, Forall bounded_event (m w).2) -> keeps J (lift m).
Proof. intros Hm [w r v] Hs. unfold lift. simpl. specialize (Hm w). by destruct (m w) as [[o w'] t]. Qed.

Lemma keeps_now J : keeps J (lift now).
Proof. apply keeps_lift. intros w. unfold now. by destruct (env_now w). Qed.

Lemma keeps_get_rec {B} J (k : deliveryRecorder -> M (St E) B) :
  (forall r, J r -> keeps J (k r)) -> keeps J (bind get_rec k).
Proof.
  intros Hk s Hs. unfold bind, get_rec. specialize (Hk (st_rec s) Hs s Hs).
  destruct (k _ s) as [[o s'] t]. by destruct Hk.
Qed.

Lemma keeps_modify_rec J f : (forall r, J r -> J (f r)) -> keeps J (modify_rec f).
Proof. intros Hf. apply holds_modify. intros [w r v] Hr. simpl in *. auto. Qed.

Lemma keeps_set_verdict J v : keeps J (set_verdict v).
Proof. by apply holds_modify. Qed.

Lemma keeps_add J i a : Forall bounded_attr a -> keeps J (add i a).
Proof. intros Ha. unfold add. destruct (i_provider i); [by apply holds_emit|apply holds_ret]. Qed.

Lemma keeps_record J i v a :
  Forall bounded_attr a -> (i_name i = "messaging.queue.latency" -> SFleb fzero v = true) -> keeps J (record i v a).
Proof. intros Ha Hn. unfold record. destruct (i_provider i); [by apply holds_emit|apply holds_ret]. Qed.

Lemma bounded_consumeAttrs eventType extra :
  eventType = "" \/ registered_type eventType -> Forall bounded_attr extra ->
  Forall bounded_attr (consumeAttrs topic (Group (Consumer_ (c_cfg c))) eventType extra).
Proof.
  intros He Hx. unfold consumeAttrs. constructor; [left; done|]. constructor; [right; left; done|].
  destruct (String.eqb_spec eventType ""); simpl; [done|]. constructor; [|done].
  right; right; left. by destruct He.
Qed.

Lemma bounded_topic : Forall bounded_attr [(attrTopic, AStr topic)].
Proof. apply Forall_singleton. simpl. auto. Qed.

Lemma bounded_reason reason :
  reason ∈ metric_reasons -> Forall bounded_attr [(attrReason, AStr reason)].
Proof. intros. apply Forall_singleton. simpl. auto 10. Qed.

Lemma bounded_category category :
  category ∈ failure_categories -> Forall bounded_attr [(attrErrorCategory, AStr category)].
Proof. intros. apply Forall_singleton. simpl. auto 10. Qed.

(** A logger that carries the payload only when asked to. *)
Definition discreet (lg : attrs) : Prop :=
  LogPayloads (Telemetry (c_cfg c)) = false -> "payload" ∉ lg.*1.

Lemma discreet_app a b : discreet a -> discreet b -> discreet (a ++ b).
Proof. unfold discreet. rewrite fmap_app, not_elem_of_app. auto. Qed.

Lemma discreet_keys (a : attrs) : bool_decide ("payload" ∉ a.*1) = true -> discreet a.
Proof. intros H%bool_decide_eq_true_1 _. exact H. Qed.

Lemma keeps_log J l msg base extra :
  discreet base -> bool_decide ("payload" ∉ extra.*1) = true -> keeps J (log l msg base extra).
Proof. intros Hb Hx. apply holds_emit. by apply discreet_app, discreet_keys. Qed.

Hint Resolve keeps_ret keeps_emit keeps_now keeps_set_verdict keeps_add keeps_record keeps_log
  keeps_if keeps_bind keeps_modify_rec keeps_get_rec bounded_topic bounded_reason bounded_category
  bounded_consumeAttrs discreet_app Forall_app_2 : holds.
Hint Extern 1 (bounded_event _) => exact I : holds.
Hint Extern 1 (bounded_event (ELog _ _ _)) => (by apply discreet_keys) : holds.
Hint Extern 1 (bool_decide _ = true) => reflexivity : holds.
Hint Extern 1 (discreet []) => (by apply discreet_keys) : holds.
Hint Extern 1 (Forall bounded_attr []) => constructor : holds.

Lemma keeps_recordFailure J base :
  Forall bounded_attr base -> (forall r, J r -> rec_category r ∈ failure_categories) ->
  keeps J (recordFailure base).
Proof.
  intros Hb HJ. apply keeps_get_rec. intros r Hr. apply keeps_bind; [by auto with holds|intros _].
  destruct (rec_err r); auto with holds.
Qed.

Lemma keeps_unknown J base :
  Forall bounded_attr base -> (forall r, J r -> J (set_category categoryUnknown r)) ->
  keeps J (modify_rec (set_category categoryUnknown) ;; recordFailure base).
Proof.
  intros Hb HJ [w r v] Hr. unfold bind at 1. simpl.
  assert (keeps (fun r => J r /\ rec_category r = categoryUnknown) (recordFailure base)) as H.
  { apply keeps_recordFailure; [done|]. intros ? [_ ->]. unfold failure_categories. set_solver. }
  specialize (H (mkSt w (set_category categoryUnknown r) v) (conj (HJ _ Hr) eq_refl)).
  destruct (recordFailure base _) as [[o s'] t]. by destruct H as [[? _] ?].
Qed.

Lemma keeps_end : keeps bounded_rec end_.
Proof.
  intros s Hs. set (J := fun r => bounded_rec r /\ rec_kind r = rec_kind (st_rec s)).
  enough (keeps J end_) as H.
  { specialize (H s (conj Hs eq_refl)). destruct (end_ s) as [[o s'] t]. by destruct H as [[? _] ?]. }
  apply keeps_get_rec. intros r [(Ht & Hg & Hi & He & Hf & Hsk) Hk]. apply keeps_if; [by auto with holds|].
  assert (forall x, Forall bounded_attr x ->
    Forall bounded_attr (consumeAttrs (rec_topic r) (rec_group r) (rec_eventType r) x)) as Hbase
    by (rewrite Ht, Hg; auto with holds).
  assert (forall x, Forall bounded_attr x ->
    Forall bounded_attr (consumeAttrs (rec_topic r) (rec_group r) "" x)) as Hskip
    by (rewrite Ht, Hg; auto with holds).
  apply keeps_bind; [by apply keeps_modify_rec|intros _].
  apply keeps_bind; [by destruct (rec_has_probe r); auto with holds|intros _].
  apply keeps_bind; [auto with holds|intros t].
  apply keeps_bind; [|intros _].
  { apply keeps_record; [auto with holds|]. destruct Hi as [mp ->]. done. }
  apply keeps_bind; [|auto with holds].
  destruct (rec_kind r) eqn:Hkind.
  - apply keeps_bind; [by destruct (rec_log r); auto with holds|intros _].
    apply keeps_unknown; [by auto with holds|].
    intros r' [(? & ? & ? & ? & ? & ?) Hk']. split; [|done]. split_and!; try done.
    intros Hf'. simpl in Hf'. congruence.
  - auto 10 with holds.
  - apply keeps_recordFailure; [auto with holds|]. intros r' [(_ & _ & _ & _ & Hf' & _) Hk'].
    apply Hf'. congruence.
  - auto 10 with holds.
Qed.

Lemma discreet_delivery_logger span payload md : discreet (delivery_logger c span payload md).
Proof.
  unfold delivery_logger. apply discreet_app; [by apply discreet_keys|].
  intros ->. simpl. by apply not_elem_of_nil.
Qed.

Hint Resolve discreet_delivery_logger : holds.

Lemma keeps_xadd J ctx stream id body md : keeps J (lift (wm_Publish ctx stream id body md)).
Proof.
  apply keeps_lift. intros w. unfold wm_Publish, bind, xadd.
  destruct (env_xadd _ _ _ _ _ w) as [[e|] w']; simpl; by repeat constructor.
Qed.

Lemma keeps_sink_publish J sink ctx stream body : keeps J (sink_publish sink ctx stream body).
Proof.
  destruct sink as [|f]; simpl.
  - apply keeps_bind.
    + apply keeps_lift. intros w. unfold new_uuid. by destruct (env_uuid w).
    + intros [id|e]; [apply keeps_xadd|auto with holds].
  - apply keeps_lift. intros w. destruct (f stream body w). by repeat constructor.
Qed.

Lemma keeps_deadLetter J ctx dl :
  Reason dl ∈ metric_reasons -> keeps J (deadLetter c ctx topic dl).
Proof.
  intros Hr. unfold deadLetter. destruct (deadLetter_sink c ctx); [|auto with holds].
  destruct (marshal_deadletter dl); [|auto with holds].
  apply keeps_bind; [apply keeps_sink_publish|].
  intros [e|]; auto 10 with holds.
Qed.

Lemma keeps_newDeadLetter {A} J reason cause attempt (k : DeadLetter -> M (St E) A) :
  (forall dl, Reason dl = reason -> keeps J (k dl)) ->
  keeps J (bind (newDeadLetter c topic reason cause attempt) k).
Proof.
  intros Hk s Hs. unfold bind, newDeadLetter, bind, lift, now, ret. destruct (env_now _) as [t w].
  match goal with |- context [k ?dl ?s] => specialize (Hk dl eq_refl s Hs); destruct (k dl s) as [[o s'] t'] end.
  by destruct Hk.
Qed.

Lemma keeps_call_handler J h ctx env : keeps J (call_handler h ctx env).
Proof.
  apply keeps_bind; [by auto with holds|intros _]. apply keeps_bind; [|by auto with holds].
  apply keeps_lift. intros w. by destruct (h ctx env w) as [[]].
Qed.

Lemma keeps_sleep J ctx upper : keeps J (sleepWithJitter ctx upper).
Proof.
  unfold sleepWithJitter. apply keeps_if; apply keeps_lift; intros w; [done|].
  destruct (env_rand upper w). destruct (env_timer_first _ _ _). by repeat constructor.
Qed.

Lemma bounded_processed r : bounded_rec r -> bounded_rec (processed r).
Proof. by intros (? & ? & ? & ? & ? & ?). Qed.

Lemma bounded_failed category err r :
  category ∈ failure_categories -> bounded_rec r -> bounded_rec (failed category err r).
Proof. by intros ? (? & ? & ? & ? & ? & ?). Qed.

Lemma bounded_skipped reason r :
  reason ∈ metric_reasons -> bounded_rec r -> bounded_rec (skipped reason r).
Proof. by intros ? (? & ? & ? & ? & ? & ?). Qed.

Lemma bounded_setEventType eventType r :
  registered_type eventType -> bounded_rec r -> bounded_rec (setEventType eventType r).
Proof. intros ? (? & ? & ? & ? & ? & ?). split_and!; try done. by right. Qed.

Hint Resolve keeps_deadLetter keeps_newDeadLetter keeps_call_handler keeps_sleep
  bounded_processed bounded_failed bounded_skipped bounded_setEventType : holds.
Hint Extern 1 (_ ∈ failure_categories) => (unfold failure_categories; set_solver) : holds.
Hint Extern 1 (_ ∈ metric_reasons) => (unfold metric_reasons; set_solver) : holds.

Lemma keeps_retry attempt err : keeps bounded_rec (retry attempt err).
Proof.
  apply keeps_get_rec. intros r (-> & -> & _ & He & _). auto with holds.
Qed.

(** Dead-lettering a new letter, whatever body it is given. *)
Lemma keeps_letter J ctx reason cause attempt body :
  reason ∈ metric_reasons ->
  keeps J (dl <- newDeadLetter c topic reason cause attempt ;; deadLetter c ctx topic (set_body dl body)).
Proof. intros Hr. apply keeps_newDeadLetter. intros dl <-. by apply keeps_deadLetter. Qed.

Hint Resolve keeps_retry keeps_letter : holds.

Lemma keeps_retry_loop ctx payload attempt h env lg fuel i :
  discreet lg -> keeps bounded_rec (retry_loop c ctx topic payload attempt h env lg fuel i).
Proof.
  intros Hlg. revert i. induction fuel as [|fuel IH]; intros i; [apply holds_out_of_fuel|].
  cbn [retry_loop]. apply keeps_bind; [by auto with holds|].
  intros [e|]; [|by auto with holds].
  apply keeps_if; [by auto 10 with holds|].
  apply keeps_if; [by auto 10 with holds|].
  apply keeps_if; [by auto 10 with holds|].
  apply keeps_bind; [by auto with holds|intros _].
  apply keeps_bind; [by auto with holds|intros _].
  apply keeps_bind; [by auto with holds|intros woke].
  apply keeps_if; auto with holds.
Qed.

Lemma keeps_route_and_run ctx payload attempt env major lg :
  discreet lg -> keeps bounded_rec (route_and_run c ctx topic payload attempt env major lg).
Proof.
  intros Hlg. unfold route_and_run.
  destruct (lookup_route _ _ _ _) as [h m] eqn:Hl. apply keeps_if; [by auto 10 with holds|].
  apply keeps_bind; [|intros _].
  - destruct (bool_decide_reflect (m = matchTyped)) as [->|]; [|by auto with holds].
    apply keeps_modify_rec. intros r. apply bounded_setEventType.
    destruct h as [h|]; [by exists major, h|by apply lookup_route_none in Hl].
  - destruct h; [|apply holds_panic]. apply keeps_retry_loop, discreet_app; [done|by apply discreet_keys].
Qed.

Lemma keeps_reject ctx payload attempt err cause :
  keeps bounded_rec (reject c ctx topic payload attempt err cause).
Proof. unfold reject. auto with holds. Qed.

Hint Resolve keeps_reject keeps_route_and_run : holds.

Lemma keeps_decode_and_run ctx span payload attempt lg :
  discreet lg -> keeps bounded_rec (decode_and_run c ctx span topic payload attempt lg).
Proof.
  intros Hlg. unfold decode_and_run. apply keeps_bind; [by auto with holds|intros _].
  destruct (unmarshal_envelope payload) as [env|e]; [|by auto with holds].
  apply keeps_bind; [by auto with holds|intros _].
  destruct (validateEnvelope env); [by auto with holds|].
  destruct (majorVersion (SchemaVersion env)); auto with holds.
Qed.

Lemma keeps_queue_latency J md :
  (exists mp, c_inst c = instruments_of mp) -> keeps J (queue_latency c topic md).
Proof.
  intros [mp Hi]. unfold queue_latency. destruct (parsePublishedAt md) as [at_|]; [|by auto with holds].
  apply keeps_bind; [by auto with holds|intros tm]. apply keeps_record; [by auto with holds|].
  intros _. rewrite Seconds_negative. case_match; to_prop; [done|]. by apply Seconds_nonnegative.
Qed.

Lemma keeps_dispatch_body ctx span payload md :
  (exists mp, c_inst c = instruments_of mp) ->
  keeps bounded_rec (dispatch_body c ctx span topic payload md).
Proof.
  intros Hi. unfold dispatch_body. apply keeps_bind; [by auto with holds|intros _].
  apply keeps_bind; [by apply keeps_queue_latency|intros _].
  apply keeps_bind; [by auto with holds|intros _].
  apply keeps_if; [by auto 10 with holds|]. by apply keeps_decode_and_run, discreet_delivery_logger.
Qed.

Lemma bounded_dispatch ctx payload md s :
  (exists mp, c_inst c = instruments_of mp) ->
  Forall bounded_event (dispatch c ctx topic payload md s).2.
Proof.
  intros Hi. destruct s as [w r v]. unfold dispatch.
  unfold bind at 1, lift, start_span. destruct (env_start_span _ _) as [span w1].
  unfold bind at 1 2, lift, now, modify_rec, modify. simpl. destruct (env_now w1) as [start w2].
  match goal with |- context [with_defer ?m ?d ?s] =>
    pose proof (holds_with_defer _ _ m d (keeps_dispatch_body _ span payload md Hi) keeps_end s) as H;
    destruct (with_defer m d s) as [[o s'] t]
  end.
  simpl. constructor; [done|]. apply H. simpl. split_and!; try done. by left.
Qed.
End telemetry.

(** C19: metric attributes cannot be driven by message content.  Every counter
    and histogram attribute of a delivery is the topic, the group, a reason or
    error category from a fixed list, or an event type for which a typed
    handler is registered on the topic; a queue latency is never negative; and
    no log line carries a payload attribute unless LogPayloads is set. *)
Theorem telemetry_is_bounded {E : Type} `{!Env E, !GoFmt, !GoTime, !JsonCodec} (c : Consumer E)
    mp ctx topic payload md (s s' : St E) o t :
  c_inst c = instruments_of mp ->
  dispatch c ctx topic payload md s = (o, s', t) ->
  Forall (bounded_event c topic) t.
Proof.
  intros Hi Hrun. pose proof (bounded_dispatch c topic ctx payload md s (ex_intro _ mp Hi)) as Hb.
  by rewrite Hrun in Hb.
Qed.

(** The sample handler fails permanently: three counters, two log lines. *)
Lemma telemetry_is_bounded_witness :
  let run := sample_dispatch minimal_validated [AsPermanent (Some boom)] None "1" "order" in
  length (metrics run.2) = 3%nat /\
  Forall (bounded_event (sample_consumer minimal_validated scripted) "orders") run.2.
Proof.
  intros run. split; [vm_compute; reflexivity|].
  apply (telemetry_is_bounded (sample_consumer minimal_validated scripted) (Some 1%nat) background "orders"
    "order" {[ MetadataDeliveryAttempt := "1" ]}
    (sample_state (mkWorld 10 [AsPermanent (Some boom)] None false)) run.1.2 run.1.1 run.2);
    vm_compute; reflexivity.
Defined.
