(* ===== verification/Publisher.v ===== *)
(** * Publishing (publisher.go, envelope.go, internal/watermill/publisher.go)

    [Publish]: correlation ID resolution, the envelope, validation, marshalling
    and the single transport write, inside one span.  The transport is the
    publisher's [publishFn] field, by default [wm_Publish]. *)

From S2P Require Import Prelude GoStrings GoErrors Validation Registry Config GoDuration Runtime Sample.
From S2P Require Import Telemetry Delivery SampleDelivery DeliverySpec.
From stdpp Require Import options.

#[local] Set Default Proof Using "Type*".

Record PublishResult := mkPublishResult {
  pr_EventID : string;
  pr_Timestamp : Time;
}.

Record publishOptions := mkPublishOptions { correlationID : string }.

Definition PublishOption : Type := publishOptions -> publishOptions.

Definition WithCorrelationID (id : string) : PublishOption := fun _ => mkPublishOptions id.

(** internal/redis/client.go.  The client is the options go-redis is given:
    construction does not dial. *)
Record ClientOptions := mkClientOptions {
  co_Address : string;
  co_Username : string;
  co_Password : string;
  co_TLS : option ref;
  co_DB : Z;
  co_PoolSize : Z;
}.

(** The fields of [goredis.Options] the library sets. *)
Record goredis_Options := mkGoredisOptions {
  go_Addr : string;
  go_Username : string;
  go_Password : string;
  go_TLSConfig : option ref;
  go_DB : Z;
  go_PoolSize : Z;
}.

Definition NewClient (opts : ClientOptions) : goredis_Options :=
  mkGoredisOptions (co_Address opts) (co_Username opts) (co_Password opts) (co_TLS opts)
    (co_DB opts) (co_PoolSize opts).

Definition redisClientOptions (c : RedisConfig) : ClientOptions :=
  mkClientOptions (Address c) (Username c) (Password c) (TLS c) (DB c) (PoolSize c).

(** internal/watermill/publisher.go, [Publisher] and [NewPublisher]: the error
    is the one redisstream.NewPublisher returned. *)
Record wmPublisher := mkWmPublisher { wp_client : goredis_Options }.

Definition wm_NewPublisher (client : goredis_Options) (err : option error) : result error wmPublisher :=
  match err with
  | Some e => Err (ErrFmt "creating redis stream publisher: %w" [inr e])
  | None => Ok (mkWmPublisher client)
  end.

(** [Publisher.Close]: [pub_Close] is the Close of Watermill's publisher, which
    closes the client. *)
Definition wm_Publisher_Close (pub_Close : goredis_Options -> option error) (p : wmPublisher) : option error :=
  pub_Close (wp_client p).

(** [publishFn]: context, stream, id, body, metadata. *)
Definition publishFunc (E : Type) : Type :=
  context E -> string -> string -> string -> metadata -> M E (option error).

Record Publisher (E : Type) := mkPublisher {
  p_cfg : Config;
  p_wm : wmPublisher;
  p_inst : instruments;
  p_publishFn : publishFunc E;
}.
Arguments mkPublisher {E}.
Arguments p_cfg {E}.
Arguments p_wm {E}.
Arguments p_inst {E}.
Arguments p_publishFn {E}.

Definition Publisher_Close {E} (pub_Close : goredis_Options -> option error) (p : Publisher E) : option error :=
  wm_Publisher_Close pub_Close (p_wm p).

Section publisher.
Context {E : Type} `{HEnv : !Env E, HTime : !GoTime}.

Definition resolveCorrelationID (ctx : context E) (opts : publishOptions) :
    M E (result error string) :=
  if negb (String.eqb (correlationID opts) "") then ret (Ok (correlationID opts))
  else
    let generate :=
      id <- new_uuid ;;
      match id with
      | Err e => ret (Err (ErrFmt "generating correlation id: %w" [inr e]))
      | Ok s => ret (Ok s)
      end in
    match correlationIDFromContext ctx with
    | Some id => if negb (String.eqb id "") then ret (Ok id) else generate
    | None => generate
    end.

Definition newEnvelope {P} (def : EventDef) (source correlationID : string) (payload : P) :
    M E (result error (Envelope P)) :=
  id <- new_uuid ;;
  match id with
  | Err e => ret (Err (ErrFmt "generating event id: %w" [inr e]))
  | Ok s =>
      t <- now ;;
      ret (Ok (mkEnvelope s (Type_ def) t (Version def) correlationID source payload))
  end.

(** [err] is the error redisstream.NewPublisher may return. *)
Definition NewPublisher `{!MeterApi} (proc : Process) (cfg : Config) (err : option error) :
    result error (Publisher E) * list event :=
  match Validate proc cfg with
  | (_, Some e) => (Err (ErrFmt "invalid config: %w" [inr e]), [])
  | (cfg, None) =>
      match wm_NewPublisher (NewClient (redisClientOptions (Redis cfg))) err with
      | Err e => (Err (ErrFmt "creating watermill publisher: %w" [inr e]), [])
      | Ok wm =>
          match newInstruments (MeterProvider (Telemetry cfg)) (Logger (Telemetry cfg)) with
          | (Some inst, logs) => (Ok (mkPublisher cfg wm inst wm_Publish), logs)
          | (None, logs) => (Err (errorf "nil instruments"), logs)
          end
      end
  end.

Section publish.
Context {P : Type} `{HMar : !Marshaler P}.
Variables (p : Publisher E).

Definition publish_attrs (def : EventDef) : attrs :=
  [(attrTopic, AStr (Topic def)); (attrEventType, AStr (Type_ def))].

Definition fail (span : nat) (def : EventDef) (stage : string) (err : error) :
    M E (result error PublishResult) :=
  add (publishFailures (p_inst p)) (publish_attrs def ++ [(attrStage, AStr stage)]) ;;
  emit (ESpanError span err) ;;
  emit (ESpanStatus span CodeError stage) ;;
  ret (Err err).

(** [Publish] from the resolution of the correlation ID to its return. *)
Definition publish_body (ctx : context E) (span : nat) (stream : string) (def : EventDef)
    (payload : P) (options : publishOptions) : M E (result error PublishResult) :=
  corr <- resolveCorrelationID ctx options ;;
  match corr with
  | Err e => fail span def stageValidation e
  | Ok correlationID =>
      env <- newEnvelope def (cfg_Source (p_cfg p)) correlationID payload ;;
      match env with
      | Err e => fail span def stageValidation e
      | Ok env =>
          match validateEnvelope env with
          | Some e => fail span def stageValidation e
          | None =>
              emit (ESpanAttrs span [("messaging.message.id", AStr (EventID env));
                                     ("messaging.foi.correlation_id", AStr (CorrelationID env))]) ;;
              match marshal_event env with
              | Err e => fail span def stageMarshal (ErrFmt "marshaling envelope: %w" [inr e])
              | Ok body =>
                  t <- now ;;
                  let md := env_inject ctx {[ metadataPublishedAt := publishedAtNow t ]} in
                  err <- p_publishFn p ctx stream (EventID env) body md ;;
                  match err with
                  | Some e =>
                      fail span def stageTransport
                        (ErrFmt "publishing to stream %q: %w" [inl (FQuoted stream); inr e])
                  | None =>
                      add (published (p_inst p)) (publish_attrs def) ;;
                      emit (ESpanStatus span CodeOk "") ;;
                      ret (Ok (mkPublishResult (EventID env) (Timestamp env)))
                  end
              end
          end
      end
  end.

Definition publish_stream (def : EventDef) : string :=
  StreamPrefix (p_cfg p) +:+ ":" +:+ Topic def.

Definition Publish (ctx : context E) (def : EventDef) (payload : P) (opts : list PublishOption) :
    M E (result error PublishResult) :=
  if String.eqb (Topic def) "" then ret (Err (errorf "event def: topic is required"))
  else
    let stream := publish_stream def in
    span <- start_span ctx ("publish " +:+ Topic def)
              [("messaging.system", AStr "redis");
               ("messaging.operation.name", AStr "publish");
               ("messaging.destination.name", AStr stream);
               ("messaging.foi.event_type", AStr (Type_ def));
               ("messaging.foi.schema_version", AStr (Version def))] ;;
    let ctx := ctx_with_span ctx span in
    with_defer
      (publish_body ctx span stream def payload
         (foldl (fun o opt => opt o) (mkPublishOptions "") opts))
      (emit (ESpanEnd span)).
End publish.
End publisher.

(** ** What a publish does *)

Section spec.
Context {E : Type} `{HEnv : !Env E, HTime : !GoTime}.

(** Where the correlation ID of a publish comes from: the option, else the
    context, else a fresh identifier. *)
Definition correlation_choice (ctx : context E) (opts : publishOptions) (id : string) : Prop :=
  if negb (String.eqb (correlationID opts) "") then id = correlationID opts
  else
    match default "" (ctx_correlation ctx) with
    | EmptyString => exists w w', env_uuid w = (Ok id, w')
    | x => id = x
    end.

Lemma resolve_run ctx opts (w : E) :
  exists r w', resolveCorrelationID ctx opts w = (Ret r, w', []) /\
    match r with Ok id => correlation_choice ctx opts id | Err _ => True end.
Proof.
  unfold resolveCorrelationID, correlation_choice, correlationIDFromContext, bind, new_uuid, ret.
  destruct (String.eqb (correlationID opts) ""); simpl; [|by eexists _, _].
  destruct (ctx_correlation ctx) as [[|a x]|]; simpl; [|by eexists _, _|];
    destruct (env_uuid w) as [[s|e] w1] eqn:Hu; simpl; eexists _, _; (split; [reflexivity|]); simpl; eauto.
Qed.

Lemma newEnvelope_run {P} def source corr (payload : P) (w : E) :
  exists r w', newEnvelope def source corr payload w = (Ret r, w', []) /\
    match r with
    | Ok env => exists id t, env = mkEnvelope id (Type_ def) t (Version def) corr source payload
    | Err _ => True
    end.
Proof.
  unfold newEnvelope, bind, new_uuid, now, ret. destruct (env_uuid w) as [[s|e] w1]; simpl; [|by eexists _, _].
  destruct (env_now w1). eexists _, _. split; [reflexivity|]. simpl. eauto.
Qed.

(** A transport that keeps to itself: no metrics, no spans. *)
Record plain_transport (fn : publishFunc E) : Prop := {
  pt_returns : forall ctx stream id body md w, exists err w' t, fn ctx stream id body md w = (Ret err, w', t) /\
    metrics t = [] /\ span_starts t = [] /\ span_ends t = [] /\ span_statuses t = [];
}.

Lemma wm_Publish_run ctx stream id body md (w : E) :
  exists err w', wm_Publish ctx stream id body md w =
    (Ret err, w', [EWrite stream body (fst (env_xadd ctx stream id body md w))]) /\
    (err = None <-> fst (env_xadd ctx stream id body md w) = None).
Proof.
  unfold wm_Publish, bind, xadd, ret. destruct (env_xadd ctx stream id body md w) as [[e|] w1]; simpl;
    eexists _, _; (split; [reflexivity|]); split; (done || by intros [=]).
Qed.

Lemma wm_Publish_plain : plain_transport wm_Publish.
Proof.
  split. intros ctx stream id body md w.
  destruct (wm_Publish_run ctx stream id body md w) as (err & w' & -> & _). by eexists _, _, _.
Qed.

Definition stages : list string := [stageValidation; stageMarshal; stageTransport].

Section publish.
Context {P : Type} `{HMar : !Marshaler P}.
Variables (p : Publisher E) (mp : option ref) (ctx : context E) (def : EventDef) (payload : P)
  (opts : publishOptions).
Hypothesis (Hinst : p_inst p = instruments_of mp).
Hypothesis (Hfn : plain_transport (p_publishFn p)).

(** The envelope of this publish. *)
Definition publishable (env : Envelope P) : Prop :=
  EventType env = Type_ def /\ SchemaVersion env = Version def /\
  Source env = cfg_Source (p_cfg p) /\ Payload env = payload /\
  correlation_choice ctx opts (CorrelationID env) /\ validateEnvelope env = None.

(** One call of the transport, with the event's ID as message ID, its
    encoding as body, and metadata carrying the publish time. *)
Definition sent (ctx' : context E) (env : Envelope P) (err : option error) (tw : list event) : Prop :=
  exists body t w w', marshal_event env = Ok body /\
    p_publishFn p ctx' (publish_stream p def) (EventID env) body
      (env_inject ctx' {[ metadataPublishedAt := publishedAtNow t ]}) w = (Ret err, w', tw).

(** How a publish ends: its result, the events of the transport, and the
    counter and span status recorded. *)
Inductive publish_ends (ctx' : context E) :
    result error PublishResult -> list event -> list string -> list (span_code * string) -> Prop :=
| publish_ok env tw :
    publishable env -> sent ctx' env None tw ->
    publish_ends ctx' (Ok (mkPublishResult (EventID env) (Timestamp env))) tw
      (metric mp "messaging.events.published") [(CodeOk, "")]
| publish_unsent e stage :
    stage = stageValidation \/ stage = stageMarshal ->
    publish_ends ctx' (Err e) [] (metric mp "messaging.publish.failures") [(CodeError, stage)]
| publish_refused env e tw :
    publishable env -> sent ctx' env (Some e) tw ->
    publish_ends ctx'
      (Err (ErrFmt "publishing to stream %q: %w" [inl (FQuoted (publish_stream p def)); inr e])) tw
      (metric mp "messaging.publish.failures") [(CodeError, stageTransport)].

Lemma fail_run span stage e (w : E) :
  exists t, fail p span def stage e w = (Ret (Err e), w, t) /\
    metrics t = metric mp "messaging.publish.failures" /\ writes t = [] /\
    span_starts t = [] /\ span_ends t = [] /\ span_statuses t = [(CodeError, stage)].
Proof. unfold fail. rewrite Hinst. destruct mp; by eexists. Qed.

Lemma success_run {A} span (a : A) (w : E) :
  exists t, (add (published (p_inst p)) (publish_attrs def) ;;
             emit (ESpanStatus span CodeOk "") ;; ret a) w = (Ret a, w, t) /\
    metrics t = metric mp "messaging.events.published" /\ writes t = [] /\
    span_starts t = [] /\ span_ends t = [] /\ span_statuses t = [(CodeOk, "")].
Proof. rewrite Hinst. destruct mp; by eexists. Qed.

(** The run of a part of [publish_body]. *)
Definition ends_well (ctx' : context E) (m : M E (result error PublishResult)) (w : E) : Prop :=
  exists r w' t tw ms sts, m w = (Ret r, w', t) /\
    publish_ends ctx' r tw ms sts /\
    metrics t = ms /\ writes t = writes tw /\ span_starts t = [] /\ span_ends t = [] /\
    span_statuses t = sts.

Lemma ends_fail ctx' span stage e (w : E) :
  stage = stageValidation \/ stage = stageMarshal -> ends_well ctx' (fail p span def stage e) w.
Proof.
  intros Hs. destruct (fail_run span stage e w) as (t & Hrun & Hm & Hw & Hss & Hse & Hst).
  eexists _, _, _, [], _, _. split; [exact Hrun|]. split; [by apply publish_unsent|]. by rewrite Hw.
Qed.

(** A silent first step does not change how the rest ends. *)
Lemma ends_bind {A} ctx' (m : M E A) k (w w1 : E) a t :
  m w = (Ret a, w1, t) -> metrics t = [] -> writes t = [] -> span_starts t = [] ->
  span_ends t = [] -> span_statuses t = [] ->
  ends_well ctx' (k a) w1 -> ends_well ctx' (bind m k) w.
Proof.
  intros Hm Ht1 Ht2 Ht3 Ht4 Ht5 (r & w2 & t2 & tw & ms & sts & Hk & He & ? & ? & ? & ? & ?).
  eexists _, _, _, tw, ms, sts. split; [by eapply bind_ret|].
  autorewrite with trace. rewrite Ht1, Ht2, Ht3, Ht4, Ht5. done.
Qed.

Lemma ends_transport ctx' span env body (w : E) :
  publishable env -> marshal_event env = Ok body ->
  ends_well ctx'
    (t <- now ;;
     let md := env_inject ctx' {[ metadataPublishedAt := publishedAtNow t ]} in
     err <- p_publishFn p ctx' (publish_stream p def) (EventID env) body md ;;
     match err with
     | Some e =>
         fail p span def stageTransport
           (ErrFmt "publishing to stream %q: %w" [inl (FQuoted (publish_stream p def)); inr e])
     | None =>
         add (published (p_inst p)) (publish_attrs def) ;;
         emit (ESpanStatus span CodeOk "") ;;
         ret (Ok (mkPublishResult (EventID env) (Timestamp env)))
     end) w.
Proof.
  intros Hp Hb. unfold now. destruct (env_now w) as [tm w1] eqn:Hnow.
  eapply (ends_bind _ _ _ w w1 tm []); [by rewrite Hnow|done..|].
  destruct (pt_returns _ Hfn ctx' (publish_stream p def) (EventID env) body
    (env_inject ctx' {[ metadataPublishedAt := publishedAtNow tm ]}) w1)
    as (err & w2 & tw & Hrun & Hm & Hss & Hse & Hst).
  assert (sent ctx' env err tw) as Hsent by (exists body, tm, w1, w2; auto).
  destruct err as [e|].
  - destruct (fail_run span stageTransport (ErrFmt "publishing to stream %q: %w"
      [inl (FQuoted (publish_stream p def)); inr e]) w2) as (t & Hf & Hm2 & Hw2 & Hss2 & Hse2 & Hst2).
    eexists _, _, _, tw, _, _. split; [eapply bind_ret; [exact Hrun|exact Hf]|].
    split; [by eapply publish_refused|]. autorewrite with trace.
    by rewrite Hm, Hm2, Hw2, Hss, Hss2, Hse, Hse2, Hst, Hst2, app_nil_r.
  - destruct (success_run span (Ok (A := PublishResult) (E := error)
      (mkPublishResult (EventID env) (Timestamp env))) w2) as (t & Hf & Hm2 & Hw2 & Hss2 & Hse2 & Hst2).
    eexists _, _, _, tw, _, _. split; [eapply bind_ret; [exact Hrun|exact Hf]|].
    split; [by eapply publish_ok|]. autorewrite with trace.
    by rewrite Hm, Hm2, Hw2, Hss, Hss2, Hse, Hse2, Hst, Hst2, app_nil_r.
Qed.

Lemma publish_body_run span (w : E) ctx' :
  ctx_correlation ctx' = ctx_correlation ctx ->
  ends_well ctx' (publish_body p ctx' span (publish_stream p def) def payload opts) w.
Proof.
  intros Hc. unfold publish_body.
  destruct (resolve_run ctx' opts w) as (r1 & w1 & Hr1 & Hcorr).
  eapply ends_bind; [exact Hr1|done..|]. destruct r1 as [corr|e]; [|by apply ends_fail; left].
  destruct (newEnvelope_run def (cfg_Source (p_cfg p)) corr payload w1) as (r2 & w2 & Hr2 & Henv).
  eapply ends_bind; [exact Hr2|done..|]. destruct r2 as [env|e]; [|by apply ends_fail; left].
  destruct (validateEnvelope env) as [e|] eqn:Hv; [by apply ends_fail; left|].
  eapply ends_bind; [reflexivity|done..|].
  destruct (marshal_event env) as [body|e] eqn:Hb; [|by apply ends_fail; right].
  apply ends_transport; [|done]. destruct Henv as (id & t & ->).
  split_and!; try done. unfold correlation_choice in *. by rewrite <-Hc.
Qed.
End publish.

(** How a whole publish ends. *)
Lemma publish_run {P} `{HMar : !Marshaler P} (p : Publisher E) mp ctx def (payload : P) opts (w : E) :
  p_inst p = instruments_of mp -> plain_transport (p_publishFn p) -> Topic def <> "" ->
  exists r w' t tw ms sts span,
    Publish p ctx def payload opts w = (Ret r, w', t) /\
    publish_ends p mp ctx def payload (foldl (fun o opt => opt o) (mkPublishOptions "") opts)
      (ctx_with_span ctx span) r tw ms sts /\
    metrics t = ms /\ writes t = writes tw /\ span_starts t = [span] /\ span_ends t = [span] /\
    span_statuses t = sts.
Proof.
  intros Hi Hf Ht. unfold Publish. destruct (String.eqb_spec (Topic def) ""); [done|].
  unfold bind, start_span. destruct (env_start_span ctx w) as [span w1].
  destruct (publish_body_run p mp ctx def payload (foldl (fun o opt => opt o) (mkPublishOptions "") opts)
    Hi Hf span w1 (ctx_with_span ctx span)) as (r & w2 & t & tw & ms & sts & Hrun & He & ? & ? & Hss & Hse & Hst);
    [done|].
  unfold with_defer. rewrite Hrun. simpl.
  eexists _, _, _, tw, ms, sts, span. split; [reflexivity|]. split; [done|].
  simpl. autorewrite with trace. simpl. rewrite Hss, Hse, !app_nil_r. done.
Qed.
End spec.

(** ** Properties *)

Section claims.
Context {E P : Type} `{HEnv : !Env E, HTime : !GoTime, HMar : !Marshaler P}.

Definition options_of (opts : list PublishOption) : publishOptions :=
  foldl (fun o opt => opt o) (mkPublishOptions "") opts.

Lemma sent_writes (p : Publisher E) ctx def (env : Envelope P) err tw :
  p_publishFn p = wm_Publish -> sent p def ctx env err tw ->
  exists body err', marshal_event env = Ok body /\ writes tw = [(publish_stream p def, body, err')] /\
    (err = None <-> err' = None).
Proof.
  intros Hf (body & t & w & w' & Hb & Hrun). rewrite Hf in Hrun.
  destruct (wm_Publish_run ctx (publish_stream p def) (EventID env) body
    (env_inject ctx {[ metadataPublishedAt := publishedAtNow t ]}) w) as (err1 & w1 & H1 & Hiff).
  rewrite H1 in Hrun. simplify_eq. eauto.
Qed.

(** C20: a publish is all or nothing.  When [Publish] returns a result, exactly
    one entry was written to the topic's stream, successfully; its body is
    the encoding of an envelope that passes validation, carries the event
    definition's type and version, the configured source, the payload and the
    correlation ID of highest priority (option, then context, then fresh),
    and whose ID and timestamp are the ones returned.  When it returns an
    error no write succeeded. *)
Theorem publish_all_or_nothing (p : Publisher E) mp ctx def (payload : P) opts w o w' t :
  p_inst p = instruments_of mp -> p_publishFn p = wm_Publish ->
  Publish p ctx def payload opts w = (o, w', t) ->
  match o with
  | Ret (Ok res) => exists env body,
      publishable p ctx def payload (options_of opts) env /\
      marshal_event env = Ok body /\ res = mkPublishResult (EventID env) (Timestamp env) /\
      writes t = [(publish_stream p def, body, None)]
  | Ret (Err _) => Forall (fun x => x.2 <> None) (writes t) /\ (length (writes t) <= 1)%nat
  | _ => False
  end.
Proof.
  intros Hi Hf Hrun. destruct (String.eqb_spec (Topic def) "") as [Ht|Ht].
  { unfold Publish in Hrun. rewrite Ht in Hrun. simpl in Hrun. injection Hrun as <- <- <-. simpl. auto with lia. }
  edestruct publish_run as (r & w2 & t2 & tw & ms & sts & span & Hrun2 & He & _ & Hw & _);
    [exact Hi|rewrite Hf; apply wm_Publish_plain|exact Ht|].
  rewrite Hrun in Hrun2. simplify_eq. rewrite Hw. destruct He as [env ? Hp Hs|e stage ?|env e ? Hp Hs].
  - apply sent_writes in Hs as (body & err' & Hb & Hwr & Hiff); [|done].
    destruct Hiff as [Hiff _]. rewrite (Hiff eq_refl) in Hwr. by exists env, body.
  - simpl. auto with lia.
  - apply sent_writes in Hs as (body & [err'|] & Hb & Hwr & Hiff); [|by pose proof (proj2 Hiff eq_refl)|done].
    rewrite Hwr. split; [by repeat constructor|simpl; lia].
Qed.

(** C26: every publish attempt is accounted for once.  Whatever the transport
    does, a publish with a topic opens and closes one span, gives it one
    status, and increments exactly one of the two publish counters: published
    with an Ok status, or publish failures with the failing stage as error
    status; a missing topic is refused before anything is recorded. *)
Theorem publish_accounted (p : Publisher E) mp ctx def (payload : P) opts w :
  p_inst p = instruments_of mp -> plain_transport (p_publishFn p) ->
  exists r w' t, Publish p ctx def payload opts w = (Ret r, w', t) /\
    (Topic def = "" -> t = [] /\ is_ok r = false) /\
    (Topic def <> "" ->
       (exists span, span_starts t = [span] /\ span_ends t = [span]) /\
       ((is_ok r = true /\ metrics t = metric mp "messaging.events.published" /\
         span_statuses t = [(CodeOk, "")]) \/
        (is_ok r = false /\ metrics t = metric mp "messaging.publish.failures" /\
         exists stage, stage ∈ stages /\ span_statuses t = [(CodeError, stage)]))).
Proof.
  intros Hi Hf. destruct (String.eqb_spec (Topic def) "") as [Ht|Ht].
  { unfold Publish. rewrite Ht. by eexists _, _, _. }
  edestruct (publish_run (P := P) p mp ctx def payload opts w) as
    (r & w2 & t2 & tw & ms & sts & span & Hrun2 & He & Hm & Hw & Hss & Hse & Hst); [done..|].
  eexists _, _, _. split; [exact Hrun2|]. split; [done|]. intros _. split; [eauto|].
  rewrite Hm, Hst. destruct He as [env ? Hp Hs|e stage Hstage|env e ? Hp Hs]; simpl;
    [by left|right; split_and!; [done..|]|right; split_and!; [done..|]].
  - exists stage. split; [|done]. unfold stages. destruct Hstage as [->| ->]; set_solver.
  - exists stageTransport. split; [|done]. unfold stages. set_solver.
Qed.
End claims.

(** ** Witnesses *)

Section witnesses.
(** The one envelope the sample publisher writes, and a codec that knows it. *)
Definition the_envelope : Envelope string :=
  mkEnvelope "id-11" "order.created" 12 "1.0.0" "c-7" "billing.service" "{}".

Instance one_marshaler : Marshaler string := {
  marshal_event env := if bool_decide (env = the_envelope) then Ok "published" else Err (errorf "no");
}.

Instance one_codec : JsonCodec := {
  json_Valid _ := true;
  unmarshal_envelope p := if String.eqb p "published" then Ok the_envelope else Err (errorf "bad JSON");
  marshal_envelope _ := Ok "published";
  marshal_deadletter _ := Ok "dead";
  unmarshal_deadletter _ := Err (errorf "not a dead letter");
  marshal_fields _ := Ok "{}";
}.

Definition sample_publisher : Publisher world :=
  mkPublisher minimal_validated (mkWmPublisher (NewClient (redisClientOptions (Redis minimal_validated))))
    (instruments_of (Some 1%nat)) wm_Publish.

Definition sample_def : EventDef := mkEventDef "orders" "order.created" "1.0.0".

Definition sample_publish (down : option error) :=
  Publish sample_publisher background sample_def "{}" [WithCorrelationID "c-7"] (mkWorld 10 [] down false).

Lemma publish_all_or_nothing_witness :
  (sample_publish None).1.1 = Ret (Ok (mkPublishResult "id-11" 12)) /\
  exists env body,
    publishable sample_publisher background sample_def "{}" (mkPublishOptions "c-7") env /\
    marshal_event env = Ok body /\
    mkPublishResult "id-11" 12 = mkPublishResult (EventID env) (Timestamp env) /\
    writes (sample_publish None).2 = [("foi:orders", body, None)].
Proof.
  split; [vm_compute; reflexivity|].
  apply (publish_all_or_nothing sample_publisher (Some 1%nat) background sample_def "{}"
    [WithCorrelationID "c-7"] (mkWorld 10 [] None false) (Ret (Ok (mkPublishResult "id-11" 12)))
    (sample_publish None).1.2 (sample_publish None).2); vm_compute; reflexivity.
Defined.

Lemma publish_accounted_witness :
  plain_transport (p_publishFn sample_publisher) /\
  exists r w' t, sample_publish (Some boom) = (Ret r, w', t) /\
    (Topic sample_def = "" -> t = [] /\ is_ok r = false) /\
    (Topic sample_def <> "" ->
       (exists span, span_starts t = [span] /\ span_ends t = [span]) /\
       ((is_ok r = true /\ metrics t = ["messaging.events.published"] /\ span_statuses t = [(CodeOk, "")]) \/
        (is_ok r = false /\ metrics t = ["messaging.publish.failures"] /\
         exists stage, stage ∈ stages /\ span_statuses t = [(CodeError, stage)]))).
Proof.
  split; [apply wm_Publish_plain|].
  exact (publish_accounted sample_publisher (Some 1%nat) background sample_def "{}"
    [WithCorrelationID "c-7"] (mkWorld 10 [] (Some boom) false) eq_refl wm_Publish_plain).
Defined.

End witnesses.

(** A version no consumer can route can be published.  Validation checks
    only the shape of a schema version, so one whose major part is 2^63 passes
    on both sides and fails to parse on the consuming side. *)
Lemma unroutable_version_accepted :
  exists env : Envelope string,
    validateEnvelope env = None /\ validateEventDef (mkEventDef "orders" (EventType env) (SchemaVersion env)) = None /\
    is_ok (majorVersion (SchemaVersion env)) = false.
Proof.
  exists (mkEnvelope "id" "order.created" 1 "9223372036854775808.0.0" "c" "s" "").
  split_and!; vm_compute; reflexivity.
Qed.
