(* ===== verification/StreamReader.v ===== *)
(** * Redis Streams commands (internal/redis/stream.go)

    The operations of [StreamReader] over the Redis client, an interface
    ([RedisClient]) whose replies are arbitrary; errors are classified by the
    text of the reply, as the code does. *)

From S2P Require Import Prelude GoStrings GoErrors Config Runtime Sample.
From stdpp Require Import options.

(** [errors.New("consumer group does not exist")] *)
Definition ErrNoGroup : error := ErrVar "ErrNoGroup" "consumer group does not exist".

Definition fields : Type := gmap string string.

Record Entry := mkEntry {
  ent_ID : string;
  Fields : fields;
}.

Record PendingEntry := mkPendingEntry {
  pe_ID : string;
  RetryCount : Z;
  Idle : Duration;
}.

#[global] Instance Entry_eq_dec : EqDecision Entry.
Proof. solve_decision. Defined.
#[global] Instance PendingEntry_eq_dec : EqDecision PendingEntry.
Proof. solve_decision. Defined.

(** The go-redis commands the package issues.  A reply is a value or an error;
    [goredis.Nil] is one of the errors. *)
Class RedisClient (E : Type) := {
  xgroup_create_mkstream : context E -> string -> string -> string -> E -> option error * E;
      (* stream, group, start *)
  xreadgroup : context E -> string -> string -> string -> Z -> Duration -> E ->
      result error (list (string * list (string * fields))) * E;
      (* group, consumer, stream, count, block: messages by stream *)
  xpending_ext : context E -> string -> string -> Duration -> Z -> E ->
      result error (list (string * Z * Duration)) * E;
      (* stream, group, idle, count, over the whole range: id, deliveries, idle *)
  xclaim : context E -> string -> string -> string -> Duration -> list string -> E ->
      result error (list (string * fields)) * E;
      (* stream, group, consumer, min idle, ids *)
  xack : context E -> string -> string -> list string -> E -> option error * E;
  redis_nil : error -> bool; (* err == goredis.Nil *)
  redis_close : E -> option error * E;
}.

Record StreamReader := mkStreamReader {
  sr_group : string;
  sr_consumer : string;
}.

Definition NewStreamReader (group consumer : string) : StreamReader := mkStreamReader group consumer.

Section reader.
Context {E : Type} `{HFmt : !GoFmt, HRedis : !RedisClient E}.
Variable r : StreamReader.

Definition classifyGroupErr (err : error) : error :=
  if HasPrefix (Error err) "NOGROUP" then ErrFmt "%w: %w" [inr ErrNoGroup; inr err] else err.

Definition EnsureGroup (ctx : context E) (stream : string) (w : E) : option error * E :=
  let '(err, w') := xgroup_create_mkstream ctx stream (sr_group r) "0" w in
  match err with
  | None => (None, w')
  | Some e =>
      if Contains (Error e) "BUSYGROUP" then (None, w')
      else (Some (ErrFmt "creating consumer group %q on stream %q: %w"
                    [inl (FQuoted (sr_group r)); inl (FQuoted stream); inr e]), w')
  end.

Definition to_entry (m : string * fields) : Entry := mkEntry m.1 m.2.

Definition ReadNew (ctx : context E) (stream : string) (count : Z) (block : Duration) (w : E) :
    result error (list Entry) * E :=
  let '(streams, w') := xreadgroup ctx (sr_group r) (sr_consumer r) stream count block w in
  match streams with
  | Err e =>
      if redis_nil e then (Ok [], w')
      else (Err (ErrFmt "reading group %q on stream %q: %w"
                   [inl (FQuoted (sr_group r)); inl (FQuoted stream); inr (classifyGroupErr e)]), w')
  | Ok streams => (Ok (mjoin (map (fun s => map to_entry s.2) streams)), w')
  end.

Definition reader_Close (w : E) : option error * E := redis_close w.

Definition PendingOverIdle (ctx : context E) (stream : string) (minIdle : Duration) (count : Z) (w : E) :
    result error (list PendingEntry) * E :=
  let '(pending, w') := xpending_ext ctx stream (sr_group r) minIdle count w in
  match pending with
  | Err e =>
      if redis_nil e then (Ok [], w')
      else (Err (ErrFmt "listing pending entries on stream %q: %w"
                   [inl (FQuoted stream); inr (classifyGroupErr e)]), w')
  | Ok pending => (Ok (map (fun p => mkPendingEntry p.1.1 p.1.2 p.2) pending), w')
  end.

Definition Claim (ctx : context E) (stream : string) (minIdle : Duration) (ids : list string) (w : E) :
    result error (list Entry) * E :=
  match ids with
  | [] => (Ok [], w)
  | _ :: _ =>
      let '(messages, w') := xclaim ctx stream (sr_group r) (sr_consumer r) minIdle ids w in
      match messages with
      | Err e =>
          if redis_nil e then (Ok [], w')
          else (Err (ErrFmt "claiming entries on stream %q: %w"
                       [inl (FQuoted stream); inr (classifyGroupErr e)]), w')
      | Ok messages => (Ok (map to_entry messages), w')
      end
  end.

Definition Ack (ctx : context E) (stream : string) (ids : list string) (w : E) : option error * E :=
  match ids with
  | [] => (None, w)
  | _ :: _ =>
      let '(err, w') := xack ctx stream (sr_group r) ids w in
      match err with
      | Some e => (Some (ErrFmt "acking entries on stream %q: %w" [inl (FQuoted stream); inr e]), w')
      | None => (None, w')
      end
  end.
End reader.

(** ** Properties *)

Definition no_group (e : error) : bool := errors_Is (Some e) "ErrNoGroup".

Section errors.
Context `{HFmt : !GoFmt}.

Lemma errors_Is_two e1 e2 f target :
  errors_Is (Some (ErrFmt f [inr e1; inr e2])) target =
  errors_Is (Some e1) target || errors_Is (Some e2) target.
Proof. unfold errors_Is. simpl. rewrite existsb_app, app_nil_r. done. Qed.

Lemma no_group_classify e : no_group (classifyGroupErr e) = HasPrefix (Error e) "NOGROUP" || no_group e.
Proof.
  unfold classifyGroupErr, no_group. destruct (HasPrefix (Error e) "NOGROUP"); [|done].
  by rewrite errors_Is_two.
Qed.

Lemma classify_keeps e target :
  errors_Is (Some e) target = true -> errors_Is (Some (classifyGroupErr e)) target = true.
Proof.
  intros H. unfold classifyGroupErr. destruct (HasPrefix _ _); [|done]. by rewrite errors_Is_two, H, orb_true_r.
Qed.
End errors.

Section claims.
Context {E : Type} `{HFmt : !GoFmt, HRedis : !RedisClient E}.

(** How a failed reply comes back: the error names a lost group exactly when
    the reply says NOGROUP (or already did), and keeps every cause. *)
Definition reports (reply err : error) : Prop :=
  no_group err = HasPrefix (Error reply) "NOGROUP" || no_group reply /\
  forall target, errors_Is (Some reply) target = true -> errors_Is (Some err) target = true.

Lemma reports_wrap f v (e : error) : reports e (ErrFmt f (map inl v ++ [inr (classifyGroupErr e)])).
Proof.
  split.
  - unfold no_group at 1. rewrite errors_Is_wrap. apply no_group_classify.
  - intros target H. rewrite errors_Is_wrap. by apply classify_keeps.
Qed.

(** What a reading command returns for a reply: its values through [f]; nothing
    when Redis has nothing; otherwise an error that reports the reply. *)
Definition answers {A B : Type} (f : A -> list B) (reply : result error A * E) (got : result error (list B) * E) :
    Prop :=
  got.2 = reply.2 /\
  match reply.1 with
  | Ok a => got.1 = Ok (f a)
  | Err e => if redis_nil e then got.1 = Ok [] else exists err, got.1 = Err err /\ reports e err
  end.

(** What a command without a result returns: success, also for the failures
    [benign] names, or an error that keeps every cause. *)
Definition acknowledges (benign : error -> bool) (reply got : option error * E) : Prop :=
  got.2 = reply.2 /\
  match reply.1 with
  | None => got.1 = None
  | Some e =>
      if benign e then got.1 = None
      else exists err, got.1 = Some err /\
             forall target, errors_Is (Some err) target = errors_Is (Some e) target
  end.

(** C32: a lost consumer group is told apart from every other failure.  The three
    reading commands return the reply's entries, an empty result when Redis has
    nothing, and otherwise an error that is ErrNoGroup exactly when the reply
    starts with NOGROUP, without hiding the reply; an empty list of IDs issues
    no command at all; creating a group that exists is a success; and every
    other failure of XGROUP CREATE or XACK is returned with its causes. *)
Theorem reader_reports (r : StreamReader) ctx stream n d ids (w : E) :
  answers (fun ss => mjoin (map (fun s => map to_entry s.2) ss))
    (xreadgroup ctx (sr_group r) (sr_consumer r) stream n d w) (ReadNew r ctx stream n d w) /\
  answers (map (fun p => mkPendingEntry p.1.1 p.1.2 p.2))
    (xpending_ext ctx stream (sr_group r) d n w) (PendingOverIdle r ctx stream d n w) /\
  (if decide (ids = []) then Claim r ctx stream d ids w = (Ok [], w) /\ Ack r ctx stream ids w = (None, w)
   else answers (map to_entry) (xclaim ctx stream (sr_group r) (sr_consumer r) d ids w)
          (Claim r ctx stream d ids w) /\
        acknowledges (fun _ => false) (xack ctx stream (sr_group r) ids w) (Ack r ctx stream ids w)) /\
  acknowledges (fun e => Contains (Error e) "BUSYGROUP")
    (xgroup_create_mkstream ctx stream (sr_group r) "0" w) (EnsureGroup r ctx stream w).
Proof.
  unfold answers, acknowledges. split; [|split; [|split]].
  - unfold ReadNew. destruct (xreadgroup _ _ _ _ _ _ w) as [[l|e] w']; [done|]. simpl.
    destruct (redis_nil e); [done|]. split; [done|]. eexists. split; [done|].
    apply (reports_wrap _ [FQuoted (sr_group r); FQuoted stream]).
  - unfold PendingOverIdle. destruct (xpending_ext _ _ _ _ _ w) as [[l|e] w']; [done|]. simpl.
    destruct (redis_nil e); [done|]. split; [done|]. eexists. split; [done|]. apply (reports_wrap _ [FQuoted stream]).
  - destruct ids as [|id ids]; [done|]. simpl. split.
    + unfold Claim. destruct (xclaim _ _ _ _ _ _ w) as [[l|e] w']; [done|]. simpl.
      destruct (redis_nil e); [done|]. split; [done|]. eexists. split; [done|]. apply (reports_wrap _ [FQuoted stream]).
    + unfold Ack. destruct (xack _ _ _ _ w) as [[e|] w']; [|done]. simpl.
      split; [done|]. eexists. split; [done|]. intros target. apply (errors_Is_wrap "acking entries on stream %q: %w" [FQuoted stream]).
  - unfold EnsureGroup. destruct (xgroup_create_mkstream _ _ _ _ w) as [[e|] w']; [|done]. simpl.
    destruct (Contains (Error e) "BUSYGROUP"); [done|]. split; [done|]. eexists. split; [done|].
    intros target. apply (errors_Is_wrap "creating consumer group %q on stream %q: %w" [FQuoted (sr_group r); FQuoted stream]).
Qed.
End claims.
