(* ===== verification/Subscriber.v ===== *)
(** * The stream subscriber (internal/watermill/subscriber.go)

    One subscription: its read loop, its claim loop and a goroutine per message
    in flight, sharing a counting semaphore.  A state machine whose labels are
    the atomic actions of the goroutines, with the replies of Redis, the
    decisions of handlers and the choices of [select] as their arguments;
    [step] is executable, and the properties hold of every interleaving.

    A send on [sc.out] is a rendezvous: [EmSend] is the loop's send and the
    router's receive at once, so it happens when the router does receive, and
    never if it has stopped.  A message is in [st_flights] while its goroutine
    waits, and in [st_left] once that has left on closing, until its handler,
    which nothing stops, has ended too ([LLate]). *)

From S2P Require Import Prelude GoStrings GoErrors Config Runtime Sample.
From S2P Require Import Telemetry Delivery StreamReader.
From stdpp Require Import options.

(** ** Messages *)

Record message := mkMessage {
  msg_Payload : string;
  msg_Metadata : metadata;
}.

#[global] Instance message_eq_dec : EqDecision message.
Proof. solve_decision. Defined.

(** [redisstream.DefaultMarshallerUnmarshaller.Unmarshal]. *)
Class WmUnmarshaller := { wm_unmarshal : fields -> result error message }.

(** [msg.Metadata.Set] *)
Definition md_set (k v : string) (m : message) : message :=
  mkMessage (msg_Payload m) (<[k := v]> (msg_Metadata m)).

Definition decodeEntry `{!WmUnmarshaller} (e : Entry) (attempt : Z) : result error message :=
  match wm_unmarshal (Fields e) with
  | Err err => Err (ErrFmt "unmarshalling entry %q: %w" [inl (FQuoted (ent_ID e)); inr err])
  | Ok msg =>
      Ok (md_set MetadataDeliveryAttempt (FormatInt attempt) (md_set MetadataStreamID (ent_ID e) msg))
  end.

(** ** Construction *)

Definition ErrNoReader : error := ErrVar "ErrNoReader" "subscriber: Reader is required".

Definition defaultBlockTime : Duration := Second.
Definition claimBatchSize : Z := 100.
Definition readErrorBackoff : Duration := 500 * Millisecond.
Definition ackTimeout : Duration := 5 * Second.

Record SubscriberOptions := mkSubscriberOptions {
  so_Reader : option ref;
  so_Concurrency : Z;
  so_ClaimInterval : Duration;
  so_ClaimMinIdle : Duration;
  so_BlockTime : Duration;
  so_Logger : option ref;
  so_OnUndecodable : option ref;
}.

Record Subscriber := mkSubscriber {
  sb_reader : ref;
  sb_concurrency : Z;
  sb_claimInterval : Duration;
  sb_claimMinIdle : Duration;
  sb_blockTime : Duration;
  sb_logger : ref;
  sb_onUndecodable : option ref;
}.

Definition NewSubscriber (p : Process) (o : SubscriberOptions) : result error Subscriber :=
  match so_Reader o with
  | None => Err ErrNoReader
  | Some r =>
      Ok (mkSubscriber r (if so_Concurrency o <? 1 then 1 else so_Concurrency o)
            (so_ClaimInterval o) (so_ClaimMinIdle o)
            (if so_BlockTime o <=? 0 then defaultBlockTime else so_BlockTime o)
            (match so_Logger o with Some l => l | None => slog_default p end)
            (so_OnUndecodable o))
  end.

(** ** State *)

(** What a loop holding a slot does inside [emit]. *)
Inductive emit_pc :=
| EHook (e : Entry)                       (* undecodable: call the hook *)
| EHookAck (e : Entry)                    (* the hook recorded it: ack *)
| ESend (e : Entry) (msg : message).      (* hand the message to the router *)

Inductive read_pc :=
| RAcquire
| RRead
| RRecreate
| RPause
| REmit (p : emit_pc)
| RDone.

Inductive claim_pc :=
| CTick
| CScan
| CRecreate
| CPause
| CAcquire (p : PendingEntry) (rest : list PendingEntry)
| CClaim (p : PendingEntry) (rest : list PendingEntry)
| CRecreateClaim
| CEmit (p : emit_pc) (rest : list PendingEntry)
| CDone.

(** A message handed to the router, and what its handler decided: [Some true]
    acked, [Some false] nacked. *)
Record flight := mkFlight {
  fl_ID : string;
  fl_msg : message;
  fl_settled : option bool;
}.

(** What an observer sees of a subscription. *)
Inductive sub_event :=
| SRead (e : Entry)                            (* a new entry was read *)
| SListed (ps : list PendingEntry)             (* a sweep of the pending list *)
| SClaimed (p : PendingEntry) (e : Entry)      (* claiming p returned e *)
| SSent (id : string) (msg : message)          (* handed to the router *)
| SSettled (id : string) (msg : message) (ok : bool)
| SHooked (id : string) (f : fields) (r : option error)
| SLeft (id : string) (msg : message)          (* its goroutine gave it up on closing *)
| SAck (id : string) (err : option error)      (* an XACK and its result *)
| SEnsure (err : option error)
| SLog (l : level) (msg : string).

Record sub_state := mkSub {
  st_cap : nat;            (* cap(sem) *)
  st_sem : nat;            (* len(sem) *)
  st_hook : bool;          (* onUndecodable != nil *)
  st_cancelled : bool;     (* ctx.Done() *)
  st_closing : bool;       (* s.closing is closed *)
  st_read : read_pc;
  st_claim : claim_pc;
  st_flights : list flight;  (* messages whose goroutine waits for them to settle *)
  st_left : list flight;     (* messages it gave up on closing, their handlers still running *)
  st_trace : list sub_event;
}.

Definition with_sem (n : nat) (s : sub_state) : sub_state :=
  mkSub (st_cap s) n (st_hook s) (st_cancelled s) (st_closing s) (st_read s) (st_claim s)
    (st_flights s) (st_left s) (st_trace s).
Definition with_read (pc : read_pc) (s : sub_state) : sub_state :=
  mkSub (st_cap s) (st_sem s) (st_hook s) (st_cancelled s) (st_closing s) pc (st_claim s)
    (st_flights s) (st_left s) (st_trace s).
Definition with_claim (pc : claim_pc) (s : sub_state) : sub_state :=
  mkSub (st_cap s) (st_sem s) (st_hook s) (st_cancelled s) (st_closing s) (st_read s) pc
    (st_flights s) (st_left s) (st_trace s).
Definition with_flights (fs : list flight) (s : sub_state) : sub_state :=
  mkSub (st_cap s) (st_sem s) (st_hook s) (st_cancelled s) (st_closing s) (st_read s) (st_claim s)
    fs (st_left s) (st_trace s).
Definition with_left (fs : list flight) (s : sub_state) : sub_state :=
  mkSub (st_cap s) (st_sem s) (st_hook s) (st_cancelled s) (st_closing s) (st_read s) (st_claim s)
    (st_flights s) fs (st_trace s).
Definition tell (es : list sub_event) (s : sub_state) : sub_state :=
  mkSub (st_cap s) (st_sem s) (st_hook s) (st_cancelled s) (st_closing s) (st_read s) (st_claim s)
    (st_flights s) (st_left s) (st_trace s ++ es).

Definition stopped (s : sub_state) : bool := st_closing s || st_cancelled s.

(** [acquire] when it takes a slot: the send on [sem] is ready. *)
Definition acquire (s : sub_state) : option sub_state :=
  if (st_sem s <? st_cap s)%nat then Some (with_sem (S (st_sem s)) s) else None.

(** [release] blocks on an empty semaphore. *)
Definition release (s : sub_state) : option sub_state :=
  match st_sem s with
  | O => None
  | S n => Some (with_sem n s)
  end.

(** ** Actions *)

Inductive emit_label :=
| EmHook (r : option error)
| EmNoHook
| EmHookAck (err : option error)
| EmSend      (* the router receives the message: its receive and the loop's send are one action *)
| EmAbort.

Inductive label :=
| LCancel                                   (* the subscription's ctx is cancelled *)
| LClose                                    (* Close closes s.closing *)
| LRAcquire
| LRStop
| LRRead (res : result error (list Entry))
| LREnsure (err : option error)
| LRPause
| LREmit (l : emit_label)
| LCTick
| LCStop
| LCScan (res : result error (list PendingEntry))
| LCEnsure (err : option error)
| LCPause
| LCAcquire
| LCClaim (res : result error (list Entry))
| LCEmit (l : emit_label)
| LHandle (i : nat) (ok : bool)             (* the router acks or nacks message i *)
| LFlightAck (i : nat) (err : option error) (* its goroutine sees the ack *)
| LFlightDone (i : nat)                     (* or the nack, or the closing *)
| LLate (i : nat) (ok : bool).              (* a handler ends after the closing made its goroutine leave *)

(** [ack]: an XACK, its failure logged. *)
Definition ack_events (id : string) (err : option error) : list sub_event :=
  SAck id err ::
  match err with Some _ => [SLog LevelError "messaging: acking stream entry failed"] | None => [] end.

Section machine.
Context `{HUnm : !WmUnmarshaller}.

(** The start of [emit]: decode, and log an entry that cannot be. *)
Definition emit_begin (e : Entry) (attempt : Z) (s : sub_state) : emit_pc * sub_state :=
  match decodeEntry e attempt with
  | Err _ => (EHook e, tell [SLog LevelError "messaging: undecodable stream entry"] s)
  | Ok msg => (ESend e msg, s)
  end.

(** One action of [emit]: it continues, or returns a boolean. *)
Definition emit_step (p : emit_pc) (l : emit_label) (s : sub_state) :
    option ((emit_pc + bool) * sub_state) :=
  match p, l with
  | EHook e, EmNoHook =>
      if st_hook s then None
      else s' ← release s; Some (inr (negb (stopped s')), s')
  | EHook e, EmHook r =>
      if st_hook s then
        let s := tell [SHooked (ent_ID e) (Fields e) r] s in
        match r with
        | None => Some (inl (EHookAck e), s)
        | Some _ =>
            s' ← release (tell [SLog LevelError "messaging: dead-lettering undecodable entry failed"] s);
            Some (inr (negb (stopped s')), s')
        end
      else None
  | EHookAck e, EmHookAck err =>
      s' ← release (tell (ack_events (ent_ID e) err) s);
      Some (inr (negb (stopped s')), s')
  | ESend e msg, EmSend =>
      Some (inr true, with_flights (st_flights s ++ [mkFlight (ent_ID e) msg None])
                        (tell [SSent (ent_ID e) msg] s))
  | ESend e msg, EmAbort =>
      if stopped s then s' ← release s; Some (inr false, s') else None
  | _, _ => None
  end.

Definition warn_missing : sub_event := SLog LevelWarn "messaging: consumer group missing, recreating".

(** [recreateGroup] after its warning: the EnsureGroup it issued returned [err]. *)
Definition recreateGroup (err : option error) (s : sub_state) : sub_state :=
  tell (SEnsure err ::
        match err with
        | Some _ => if stopped s then []
                    else [SLog LevelError "messaging: recreating consumer group failed"]
        | None => []
        end) s.

Definition read_step (l : label) (s : sub_state) : option sub_state :=
  match st_read s, l with
  | RAcquire, LRAcquire => s' ← acquire s; Some (with_read RRead s')
  | RAcquire, LRStop => if stopped s then Some (with_read RDone s) else None
  | RRead, LRRead (Ok (e :: _)) =>
      let '(p, s') := emit_begin e 1 (tell [SRead e] s) in Some (with_read (REmit p) s')
  | RRead, LRRead (Ok []) =>
      s' ← release s; Some (with_read (if stopped s' then RDone else RAcquire) s')
  | RRead, LRRead (Err err) =>
      s' ← release s;
      Some (if stopped s' then with_read RDone s'
            else if no_group err then with_read RRecreate (tell [warn_missing] s')
            else with_read RPause (tell [SLog LevelError "messaging: reading from stream failed"] s'))
  | RRecreate, LREnsure err => Some (with_read RPause (recreateGroup err s))
  | RPause, LRPause => Some (with_read RAcquire s)
  | REmit p, LREmit el =>
      '(r, s') ← emit_step p el s;
      Some (with_read match r with
                      | inl p' => REmit p'
                      | inr true => RAcquire
                      | inr false => RDone
                      end s')
  | _, _ => None
  end.

(** The [for range pending] of [claimLoop]. *)
Definition claim_next (pending : list PendingEntry) : claim_pc :=
  match pending with
  | [] => CTick
  | p :: rest => CAcquire p rest
  end.

Definition claim_step (l : label) (s : sub_state) : option sub_state :=
  match st_claim s, l with
  | CTick, LCTick => Some (with_claim CScan s)
  | CTick, LCStop | CAcquire _ _, LCStop => if stopped s then Some (with_claim CDone s) else None
  | CScan, LCScan (Ok pending) => Some (with_claim (claim_next pending) (tell [SListed pending] s))
  | CScan, LCScan (Err err) =>
      Some (if stopped s then with_claim CDone s
            else if no_group err then with_claim CRecreate (tell [warn_missing] s)
            else with_claim CPause (tell [SLog LevelError "messaging: scanning pending entries failed"] s))
  | CRecreate, LCEnsure err => Some (with_claim CPause (recreateGroup err s))
  | CPause, LCPause => Some (with_claim CTick s)
  | CAcquire p rest, LCAcquire => s' ← acquire s; Some (with_claim (CClaim p rest) s')
  | CClaim p rest, LCClaim (Ok (e :: _)) =>
      let '(pc, s') := emit_begin e (wrap64 (RetryCount p + 1)) (tell [SClaimed p e] s) in
      Some (with_claim (CEmit pc rest) s')
  | CClaim p rest, LCClaim (Ok []) =>
      s' ← release s; Some (with_claim (if stopped s' then CDone else claim_next rest) s')
  | CClaim p rest, LCClaim (Err err) =>
      s' ← release s;
      Some (if stopped s' then with_claim CDone s'
            else if no_group err then with_claim CRecreateClaim (tell [warn_missing] s')
            else with_claim (claim_next rest)
                   (tell [SLog LevelError "messaging: claiming pending entry failed"] s'))
  | CRecreateClaim, LCEnsure err => Some (with_claim CTick (recreateGroup err s))
  | CEmit p rest, LCEmit el =>
      '(r, s') ← emit_step p el s;
      Some (with_claim match r with
                       | inl p' => CEmit p' rest
                       | inr true => claim_next rest
                       | inr false => CDone
                       end s')
  | _, _ => None
  end.

(** The goroutine of a message in flight, and the router settling it.  When
    [Close] races an ack that has already landed, the ack is honoured; a
    message not settled by then is left to its handler, whose ack nothing waits
    for any more. *)
Definition flight_step (l : label) (s : sub_state) : option sub_state :=
  match l with
  | LHandle i ok =>
      f ← st_flights s !! i;
      match fl_settled f with
      | Some _ => None
      | None => Some (with_flights (<[i := mkFlight (fl_ID f) (fl_msg f) (Some ok)]> (st_flights s))
                        (tell [SSettled (fl_ID f) (fl_msg f) ok] s))
      end
  | LFlightAck i err =>
      f ← st_flights s !! i;
      if decide (fl_settled f = Some true) then
        release (with_flights (delete i (st_flights s)) (tell (ack_events (fl_ID f) err) s))
      else None
  | LFlightDone i =>
      f ← st_flights s !! i;
      let gone := with_flights (delete i (st_flights s)) s in
      match fl_settled f with
      | Some true => None
      | Some false => release gone
      | None =>
          if st_closing s then
            release (with_left (st_left s ++ [f]) (tell [SLeft (fl_ID f) (fl_msg f)] gone))
          else None
      end
  | LLate i ok =>
      f ← st_left s !! i;
      Some (with_left (delete i (st_left s)) (tell [SSettled (fl_ID f) (fl_msg f) ok] s))
  | _ => None
  end.

(** [Subscriber.Close] up to its wait; the wait is over when the state is
    drained. *)
Definition begin_Close (s : sub_state) : sub_state :=
  mkSub (st_cap s) (st_sem s) (st_hook s) (st_cancelled s) true (st_read s) (st_claim s) (st_flights s) (st_left s)
    (st_trace s).

Definition step (l : label) (s : sub_state) : option sub_state :=
  match l with
  | LCancel => Some (mkSub (st_cap s) (st_sem s) (st_hook s) true (st_closing s) (st_read s)
                       (st_claim s) (st_flights s) (st_left s) (st_trace s))
  | LClose => Some (begin_Close s)
  | LRAcquire | LRStop | LRRead _ | LREnsure _ | LRPause | LREmit _ => read_step l s
  | LCTick | LCStop | LCScan _ | LCEnsure _ | LCPause | LCAcquire | LCClaim _ | LCEmit _ => claim_step l s
  | LHandle _ _ | LFlightAck _ _ | LFlightDone _ | LLate _ _ => flight_step l s
  end.

Definition run (ls : list label) (s : sub_state) : option sub_state := run_steps step ls s.
End machine.

(** [Subscribe]: the group is ensured, then the loops start; the claim loop
    only when the interval is positive. *)
Definition Subscribe (sb : Subscriber) (stream : string) (ensure : option error) : result error sub_state :=
  match ensure with
  | Some e => Err (ErrFmt "ensuring consumer group on %q: %w" [inl (FQuoted stream); inr e])
  | None =>
      Ok (mkSub (Z.to_nat (sb_concurrency sb)) 0 (bool_decide (is_Some (sb_onUndecodable sb))) false false
            RAcquire (if 0 <? sb_claimInterval sb then CTick else CDone) [] [] [])
  end.

(** ** A concrete subscription *)

(** Takes an entry's payload field for the message; an entry without one is
    undecodable. *)
#[export] Instance plain_unmarshaller : WmUnmarshaller := {
  wm_unmarshal f :=
    match f !! "payload" with
    | Some p => Ok (mkMessage p ∅)
    | None => Err (errorf "missing payload")
    end;
}.

Definition sample_subscriber : Subscriber := mkSubscriber 1%nat 1 Second Second Second 2%nat (Some 3%nat).

Definition sample_entry : Entry := mkEntry "1-0" {[ "payload" := "order" ]}.

Definition sample_pending : PendingEntry := mkPendingEntry "1-0" 1 (60 * Second).

Definition sample_start : sub_state := mkSub 1 0 true false false RAcquire CTick [] [] [].

(** Read, handed over, nacked, then reclaimed, acked, and drained. *)
Definition sample_labels : list label :=
  [LRAcquire; LRRead (Ok [sample_entry]); LREmit EmSend; LHandle 0 false; LFlightDone 0;
   LCTick; LCScan (Ok [sample_pending]); LCAcquire; LCClaim (Ok [sample_entry]); LCEmit EmSend;
   LHandle 0 true; LClose; LRStop; LFlightAck 0 None; LCStop].

Definition sample_final : sub_state := default sample_start (run sample_labels sample_start).

Definition sample_message (attempt : string) : message :=
  mkMessage "order" (<[MetadataDeliveryAttempt := attempt]> {[ MetadataStreamID := "1-0" ]}).

(** Given up on closing while its handler runs, which succeeds afterwards. *)
Example a_late_success :
  run [LRAcquire; LRRead (Ok [sample_entry]); LREmit EmSend; LClose; LFlightDone 0; LRStop; LCStop; LLate 0 true]
    sample_start =
  Some (mkSub 1 0 true false true RDone CDone [] []
    [SRead sample_entry; SSent "1-0" (sample_message "1"); SLeft "1-0" (sample_message "1");
     SSettled "1-0" (sample_message "1") true]).
Proof. vm_compute. reflexivity. Qed.

Example a_redelivery :
  run sample_labels sample_start =
  Some (mkSub 1 0 true false true RDone CDone [] []
    [SRead sample_entry; SSent "1-0" (sample_message "1"); SSettled "1-0" (sample_message "1") false;
     SListed [sample_pending]; SClaimed sample_pending sample_entry; SSent "1-0" (sample_message "2");
     SSettled "1-0" (sample_message "2") true; SAck "1-0" None]).
Proof. vm_compute. reflexivity. Qed.
