(* ===== verification/SubscriberProperties.v ===== *)
(** * Properties of a subscription

    Invariants of every interleaving of a subscription's goroutines: the
    semaphore counts exactly the slots held, an XACK follows a handler's or the
    hook's success, messages carry the attempt number Redis implies, and
    closing can always drain. *)

From S2P Require Import Prelude GoStrings GoErrors Validation Registry Config Runtime Sample.
From S2P Require Import Telemetry Delivery SampleDelivery DeliverySpec DeliveryProperties.
From S2P Require Import StreamReader Subscriber.
From stdpp Require Import options.

Section invariants.
Context `{HUnm : !WmUnmarshaller}.
Implicit Types (s : sub_state).

(** Step inversion: the state after an action, branch by branch. *)
Ltac step_cases H :=
  repeat (case_match; simplify_option_eq; try done); simplify_option_eq.

(** ** Slots *)

Definition read_slots (pc : read_pc) : nat :=
  match pc with RRead | REmit _ => 1 | _ => 0 end.
Definition claim_slots (pc : claim_pc) : nat :=
  match pc with CClaim _ _ | CEmit _ _ => 1 | _ => 0 end.

(** The semaphore counts the slots held, and never exceeds its capacity. *)
Record slots_ok s : Prop := {
  so_sem : st_sem s = (read_slots (st_read s) + claim_slots (st_claim s) + length (st_flights s))%nat;
  so_cap : (st_sem s <= st_cap s)%nat;
}.

Lemma release_inv s s' : release s = Some s' -> s' = with_sem (pred (st_sem s)) s /\ (0 < st_sem s)%nat.
Proof. unfold release. destruct (st_sem s); [done|]. intros [= <-]. simpl. split; [done|lia]. Qed.

Lemma acquire_inv s s' : acquire s = Some s' -> s' = with_sem (S (st_sem s)) s /\ (st_sem s < st_cap s)%nat.
Proof. unfold acquire. case_match; [|done]. intros [= <-]. split; [done|by apply Nat.ltb_lt]. Qed.

(** What an action of [emit] does to the slots. *)
Lemma emit_step_slots p l s r s' :
  emit_step p l s = Some (r, s') ->
  st_read s' = st_read s /\ st_claim s' = st_claim s /\ st_cap s' = st_cap s /\
  match r with
  | inl _ => st_sem s' = st_sem s /\ st_flights s' = st_flights s
  | inr _ => (st_sem s' = pred (st_sem s) /\ (0 < st_sem s)%nat /\ st_flights s' = st_flights s) \/
             (st_sem s' = st_sem s /\ length (st_flights s') = S (length (st_flights s)))
  end.
Proof.
  intros H. unfold emit_step in H. destruct p, l; try done; step_cases H;
    try match goal with H : release _ = Some _ |- _ => apply release_inv in H as [-> ?] end;
    simpl in *; split_and!; auto.
  right. split; [done|]. rewrite length_app. simpl. lia.
Qed.

Lemma emit_begin_slots e a s p s' :
  emit_begin e a s = (p, s') ->
  st_sem s' = st_sem s /\ st_flights s' = st_flights s /\ st_read s' = st_read s /\
  st_claim s' = st_claim s /\ st_cap s' = st_cap s.
Proof. unfold emit_begin. case_match; by intros [= <- <-]. Qed.

(** Invert the semaphore operations an action made. *)
Ltac sem_inv :=
  repeat match goal with
  | H : release _ = Some _ |- _ => apply release_inv in H as [-> ?]
  | H : acquire _ = Some _ |- _ => apply acquire_inv in H as [-> ?]
  end.

Lemma claim_next_slots ps : claim_slots (claim_next ps) = O.
Proof. by destruct ps. Qed.

Ltac slots_tac :=
  repeat match goal with
  | H : emit_begin _ _ _ = _ |- _ => apply emit_begin_slots in H as (? & ? & ? & ? & ?)
  | H : emit_step _ _ _ = Some (?r, _) |- _ =>
      apply emit_step_slots in H as (? & ? & ? & H); destruct r as [?|[]]; destruct_and?
  | H : _ \/ _ |- _ => destruct H; destruct_and?
  end;
  simpl in *; rewrite ?claim_next_slots in *;
  try (constructor; simpl in *; repeat (case_match; simpl in *); rewrite ?claim_next_slots in *;
       simplify_eq/=;
       repeat match goal with H : ?f ?x = ?f ?y |- context [?f ?x] => rewrite H end; simpl; lia).

Lemma read_step_slots l s s' : slots_ok s -> read_step l s = Some s' -> slots_ok s'.
Proof.
  intros [Hsem Hcap] H. unfold read_step in H.
  destruct (st_read s) eqn:Hpc, l; try done; simpl in *;
    repeat (case_match; try done); simplify_option_eq; sem_inv; slots_tac.
  destruct (emit_step _ _ _) as [[r s1]|] eqn:He; simplify_option_eq; slots_tac.
Qed.

Lemma claim_step_slots l s s' : slots_ok s -> claim_step l s = Some s' -> slots_ok s'.
Proof.
  intros [Hsem Hcap] H. unfold claim_step in H.
  destruct (st_claim s) eqn:Hpc, l; try done; simpl in *;
    repeat (case_match; try done); simplify_option_eq; sem_inv; slots_tac.
  destruct (emit_step _ _ _) as [[r s1]|] eqn:He; simplify_option_eq; slots_tac.
Qed.

Lemma flight_step_slots l s s' : slots_ok s -> flight_step l s = Some s' -> slots_ok s'.
Proof.
  intros [Hsem Hcap] H. unfold flight_step in H.
  destruct l as [| | | | | | | | | | | | | | | |i ok|i err|i|i ok]; try done.
  4: { destruct (st_left s !! i) as [f|]; simplify_option_eq. done. }
  all: destruct (st_flights s !! i) as [f|] eqn:Hf; simplify_option_eq;
    repeat (case_match; try done); simplify_option_eq; sem_inv; simpl in *;
    pose proof (lookup_lt_Some _ _ _ Hf); constructor; simpl;
    rewrite ?length_insert, ?length_delete by eauto; lia.
Qed.

Lemma step_slots l s s' : slots_ok s -> step l s = Some s' -> slots_ok s'.
Proof.
  destruct l; cbn [step]; eauto using read_step_slots, claim_step_slots, flight_step_slots;
    intros [] [= <-]; by constructor.
Qed.

Lemma subscribe_slots sb stream ensure s : Subscribe sb stream ensure = Ok s -> slots_ok s.
Proof.
  unfold Subscribe. destruct ensure; [done|]. intros [= <-]. constructor; simpl; [|lia]. by case_match.
Qed.

(** ** Where events come from *)

(** The entry [e] became the message [msg]: a first delivery, or a claim of a
    listed entry, whose delivery count it extends. *)
Inductive stamped (t : list sub_event) (e : Entry) (msg : message) : Prop :=
| stamped_read : SRead e ∈ t -> decodeEntry e 1 = Ok msg -> stamped t e msg
| stamped_claimed p ps :
    SClaimed p e ∈ t -> SListed ps ∈ t -> p ∈ ps ->
    decodeEntry e (wrap64 (RetryCount p + 1)) = Ok msg -> stamped t e msg.

(** What licenses an XACK of [id]: its handler succeeded, or the hook recorded it. *)
Definition licensed (t : list sub_event) (id : string) : Prop :=
  (exists msg, SSettled id msg true ∈ t) \/ (exists f, SHooked id f None ∈ t).

Definition emit_known (t : list sub_event) (p : emit_pc) : Prop :=
  match p with
  | EHook e => is_ok (wm_unmarshal (Fields e)) = false
  | EHookAck e => licensed t (ent_ID e)
  | ESend e msg => stamped t e msg
  end.

Definition flight_known (t : list sub_event) (f : flight) : Prop :=
  SSent (fl_ID f) (fl_msg f) ∈ t /\
  (forall ok, fl_settled f = Some ok -> SSettled (fl_ID f) (fl_msg f) ok ∈ t).

(** A message its goroutine left was sent, and left on the trace. *)
Definition left_known (t : list sub_event) (f : flight) : Prop :=
  SSent (fl_ID f) (fl_msg f) ∈ t /\ SLeft (fl_ID f) (fl_msg f) ∈ t.

Definition read_known (t : list sub_event) (pc : read_pc) : Prop :=
  match pc with REmit p => emit_known t p | _ => True end.

Definition claim_known (t : list sub_event) (pc : claim_pc) : Prop :=
  match pc with
  | CAcquire p rest | CClaim p rest => exists ps, SListed ps ∈ t /\ p :: rest ⊆ ps
  | CEmit p rest => emit_known t p /\ exists ps, SListed ps ∈ t /\ rest ⊆ ps
  | _ => True
  end.

(** What an event of a trace implies of the events before it. *)
Definition event_known (t : list sub_event) (ev : sub_event) : Prop :=
  match ev with
  | SSent id msg => exists e, ent_ID e = id /\ stamped t e msg
  | SSettled id msg _ | SLeft id msg => SSent id msg ∈ t
  | SAck id _ => licensed t id
  | _ => True
  end.

Record known s : Prop := {
  kn_read : read_known (st_trace s) (st_read s);
  kn_claim : claim_known (st_trace s) (st_claim s);
  kn_flights : Forall (flight_known (st_trace s)) (st_flights s);
  kn_left : Forall (left_known (st_trace s)) (st_left s);
  kn_trace : forall pre ev post, st_trace s = pre ++ ev :: post -> event_known pre ev;
}.

(** These only grow with the trace. *)
Lemma in_app_l {A} (x : A) t es : x ∈ t -> x ∈ t ++ es.
Proof. intros. apply elem_of_app. by left. Qed.

Lemma in_app_r {A} (x : A) t es : x ∈ es -> x ∈ t ++ es.
Proof. intros. apply elem_of_app. by right. Qed.

Hint Resolve in_app_l in_app_r : go.
Hint Extern 1 (_ ∈ [_]) => apply list_elem_of_singleton; reflexivity : go.

Lemma stamped_mono t es e msg : stamped t e msg -> stamped (t ++ es) e msg.
Proof. intros []; [apply stamped_read|eapply stamped_claimed]; eauto with go. Qed.

Lemma licensed_mono t es id : licensed t id -> licensed (t ++ es) id.
Proof. intros [[x H]|[x H]]; [left|right]; exists x; auto with go. Qed.

Hint Resolve stamped_mono licensed_mono : go.

Lemma emit_known_mono t es p : emit_known t p -> emit_known (t ++ es) p.
Proof. destruct p; simpl; auto with go. Qed.

Lemma flight_known_mono t es f : flight_known t f -> flight_known (t ++ es) f.
Proof. intros [H1 H2]. split; auto with go. Qed.

Lemma left_known_mono t es f : left_known t f -> left_known (t ++ es) f.
Proof. intros [H1 H2]. split; auto with go. Qed.

Lemma read_known_mono t es pc : read_known t pc -> read_known (t ++ es) pc.
Proof. destruct pc; simpl; auto using emit_known_mono. Qed.

Lemma claim_known_mono t es pc : claim_known t pc -> claim_known (t ++ es) pc.
Proof.
  destruct pc; simpl; [done..| | |done| |done]; [intros (ps & ? & ?)..|intros (? & ps & ? & ?)];
    naive_solver eauto using emit_known_mono with go.
Qed.

Lemma event_known_mono t es ev : event_known t ev -> event_known (t ++ es) ev.
Proof. destruct ev; simpl; auto with go. intros (e & ? & ?). eauto with go. Qed.

Lemma trace_known_app t es :
  (forall pre ev post, t = pre ++ ev :: post -> event_known pre ev) ->
  Forall (event_known t) es ->
  forall pre ev post, t ++ es = pre ++ ev :: post -> event_known pre ev.
Proof.
  intros Ht Hes pre ev post H. apply app_eq_app in H as (l & [[-> H]|[-> H]]).
  - destruct l as [|x l]; simplify_eq/=.
    + rewrite app_nil_r in *. by apply Forall_cons in Hes as [? _].
    + by eapply Ht.
  - apply event_known_mono. rewrite H in Hes. apply Forall_app in Hes as [_ Hes].
    by apply Forall_cons in Hes as [? _].
Qed.

Hint Resolve emit_known_mono flight_known_mono read_known_mono claim_known_mono : go.

(** The common shape of an action: the trace grows by justified events. *)
Lemma known_extend s s' es :
  known s -> st_trace s' = st_trace s ++ es -> Forall (event_known (st_trace s)) es ->
  read_known (st_trace s') (st_read s') -> claim_known (st_trace s') (st_claim s') ->
  Forall (flight_known (st_trace s')) (st_flights s') -> st_left s' = st_left s -> known s'.
Proof.
  intros [_ _ _ Hl Ht] Hes Hk Hr Hc Hf Hleft. constructor; try done; rewrite Hes; [|by apply trace_known_app].
  rewrite Hleft. eapply Forall_impl; [exact Hl|]. intros. by apply left_known_mono.
Qed.

Lemma flights_known_mono t es fs :
  Forall (flight_known t) fs -> Forall (flight_known (t ++ es)) fs.
Proof. intros. eapply Forall_impl; eauto with go. Qed.

(** What an action of [emit] adds. *)
Record emitted s (r : emit_pc + bool) s' (es : list sub_event) : Prop := {
  em_trace : st_trace s' = st_trace s ++ es;
  em_events : Forall (event_known (st_trace s)) es;
  em_read : st_read s' = st_read s;
  em_claim : st_claim s' = st_claim s;
  em_left : st_left s' = st_left s;
  em_pc : forall p, r = inl p -> emit_known (st_trace s') p;
  em_flights : Forall (flight_known (st_trace s)) (st_flights s) ->
               Forall (flight_known (st_trace s')) (st_flights s');
}.

Ltac events_tac := repeat apply Forall_cons_2; try apply Forall_nil_2; simpl; try done.

Lemma ack_events_known t id err : licensed t id -> Forall (event_known t) (ack_events id err).
Proof. intros. unfold ack_events. destruct err; by events_tac. Qed.

Lemma emit_step_known p l s r s' :
  emit_known (st_trace s) p -> emit_step p l s = Some (r, s') -> exists es, emitted s r s' es.
Proof.
  intros Hp H. destruct p as [e|e|e msg], l; try done; simpl in H.
  - destruct (st_hook s); [|done]. destruct r0 as [err|]; simplify_option_eq; sem_inv.
    + eexists. split; simpl; rewrite <-?(assoc_L (++)); try done; [by events_tac|].
      apply flights_known_mono.
    + eexists. split; simpl; try done; [by events_tac| |apply flights_known_mono].
      intros ? [= <-]. right. eauto with go.
  - destruct (st_hook s); [done|]. simplify_option_eq; sem_inv. exists [].
    split; simpl; rewrite ?app_nil_r; done.
  - simplify_option_eq; sem_inv. eexists. split; simpl; try done; [by apply ack_events_known|].
    apply flights_known_mono.
  - simplify_option_eq. eexists. split; simpl; try done; [events_tac; eauto|].
    intros Hf. apply Forall_app. split; [by apply flights_known_mono|]. apply Forall_singleton.
    split; [simpl; auto with go|done].
  - destruct (stopped s); [|done]. simplify_option_eq; sem_inv. exists [].
    split; simpl; rewrite ?app_nil_r; done.
Qed.

Lemma emit_begin_known e a s p s' :
  (forall msg, decodeEntry e a = Ok msg -> stamped (st_trace s) e msg) ->
  emit_begin e a s = (p, s') ->
  exists es, emitted s (inl p) s' es.
Proof.
  intros Hs H. unfold emit_begin in H. destruct (decodeEntry e a) as [msg|err] eqn:Hd; simplify_eq.
  - exists []. split; rewrite ?app_nil_r; try done. intros ? [= <-]. simpl. auto.
  - eexists. split; simpl; try done; [by events_tac| |apply flights_known_mono].
    intros ? [= <-]. simpl. unfold decodeEntry in Hd. by destruct (wm_unmarshal (Fields e)).
Qed.

(** ** Every action preserves what is known *)

Lemma known_tell es s : known s -> Forall (event_known (st_trace s)) es -> known (tell es s).
Proof.
  intros Hk Hes. pose proof Hk as [Hr Hc Hf _ _]. eapply known_extend; [exact Hk|done|done|..]; simpl;
    auto using flights_known_mono with go.
Qed.

Lemma known_sem n s : known s -> known (with_sem n s).
Proof. by intros []. Qed.

Lemma known_with_read pc s : known s -> read_known (st_trace s) pc -> known (with_read pc s).
Proof. by intros []. Qed.

Lemma known_with_claim pc s : known s -> claim_known (st_trace s) pc -> known (with_claim pc s).
Proof. by intros []. Qed.

Lemma known_with_flights fs s : known s -> Forall (flight_known (st_trace s)) fs -> known (with_flights fs s).
Proof. by intros []. Qed.

Lemma known_with_left fs s : known s -> Forall (left_known (st_trace s)) fs -> known (with_left fs s).
Proof. by intros []. Qed.

Lemma known_emitted s r s' es : known s -> emitted s r s' es -> known s'.
Proof.
  intros Hk [Ht He Hr Hc Hl _ Hf]. pose proof Hk as [Hr0 Hc0 Hf0 _ _].
  eapply known_extend; [exact Hk|done|done|..]; rewrite ?Hr, ?Hc, ?Ht; auto with go.
  rewrite <-Ht. auto.
Qed.

Hint Resolve known_tell known_sem known_with_read known_with_claim known_with_flights : go.
Hint Extern 1 (Forall (event_known _) _) => (by events_tac) : go.
Hint Extern 1 (read_known _ _) => exact I : go.
Hint Extern 1 (claim_known _ _) => exact I : go.

Lemma known_recreate err s : known s -> known (recreateGroup err s).
Proof. intros. apply known_tell; [done|]. destruct err; [destruct (stopped s)|]; by events_tac. Qed.

Hint Resolve known_recreate : go.

Lemma read_step_known l s s' : known s -> read_step l s = Some s' -> known s'.
Proof.
  intros Hk H. unfold read_step in H. pose proof (kn_read _ Hk) as Hpc.
  destruct (st_read s) eqn:Hread, l; try done; simpl in Hpc.
  - simplify_option_eq; sem_inv. auto with go.
  - destruct (stopped s); simplify_eq. auto with go.
  - destruct res as [[|e es]|err].
    + simplify_option_eq; sem_inv. apply known_with_read; [auto with go|]. by case_match.
    + destruct (emit_begin e 1 (tell [SRead e] s)) as [p s1] eqn:He. simplify_eq.
      apply emit_begin_known in He as [es1 He].
      * apply known_with_read; [eapply known_emitted; [|exact He]; auto with go|]. by apply (em_pc _ _ _ _ He).
      * intros msg. apply stamped_read. simpl. auto with go.
    + simplify_option_eq; sem_inv. repeat case_match; auto with go.
  - simplify_eq. auto with go.
  - simplify_eq. auto with go.
  - destruct (emit_step p l s) as [[r s1]|] eqn:He; simplify_option_eq.
    apply emit_step_known in He as [es1 He]; [|done].
    apply known_with_read; [by eapply known_emitted|]. destruct r as [p'|[]]; [|done..].
    by apply (em_pc _ _ _ _ He).
Qed.

Lemma claim_next_known t ps pending :
  SListed ps ∈ t -> pending ⊆ ps -> claim_known t (claim_next pending).
Proof. destruct pending; simpl; eauto. Qed.

Lemma claim_step_known l s s' : known s -> claim_step l s = Some s' -> known s'.
Proof.
  intros Hk H. unfold claim_step in H. pose proof (kn_claim _ Hk) as Hpc.
  destruct (st_claim s) eqn:Hclaim, l; try done; simpl in Hpc.
  - simplify_eq. auto with go.
  - destruct (stopped s); simplify_eq. auto with go.
  - destruct res as [ps|err]; simplify_eq.
    + apply known_with_claim; [auto with go|]. eapply claim_next_known; [simpl; auto with go|done].
    + repeat case_match; auto with go.
  - simplify_eq. auto with go.
  - simplify_eq. auto with go.
  - destruct (stopped s); simplify_eq. auto with go.
  - simplify_option_eq; sem_inv. apply known_with_claim; auto with go.
  - destruct Hpc as (ps & Hps & Hsub).
    assert (rest ⊆ ps) as Hrest by (intros x ?; apply Hsub; by right).
    destruct res as [[|e es]|err].
    + simplify_option_eq; sem_inv. apply known_with_claim; [auto with go|].
      case_match; [done|]. by eapply claim_next_known.
    + destruct (emit_begin _ _ _) as [pc s1] eqn:He. simplify_eq.
      apply emit_begin_known in He as [es1 He].
      * apply known_with_claim; [eapply known_emitted; [|exact He]; auto with go|].
        split; [by apply (em_pc _ _ _ _ He)|]. exists ps. rewrite (em_trace _ _ _ _ He). simpl. auto with go.
      * intros msg. eapply stamped_claimed; simpl; [auto with go|apply in_app_l, Hps|].
        apply Hsub. by left.
    + simplify_option_eq; sem_inv. repeat case_match; auto with go.
      apply known_with_claim; [auto with go|]. eapply claim_next_known; [simpl; apply in_app_l, Hps|done].
  - simplify_eq. auto with go.
  - destruct Hpc as (Hp & ps & Hps & Hrest).
    destruct (emit_step p l s) as [[r s1]|] eqn:He; simplify_option_eq.
    apply emit_step_known in He as [es1 He]; [|done].
    apply known_with_claim; [by eapply known_emitted|].
    assert (SListed ps ∈ st_trace s1) as Hps1 by (rewrite (em_trace _ _ _ _ He); auto with go).
    destruct r as [p'|[]]; [|by eapply claim_next_known|done].
    split; [by apply (em_pc _ _ _ _ He)|eauto].
Qed.

Lemma flight_step_known l s s' : known s -> flight_step l s = Some s' -> known s'.
Proof.
  intros Hk H. unfold flight_step in H. pose proof (kn_flights _ Hk) as Hfs. pose proof (kn_left _ Hk) as Hls.
  destruct l as [| | | | | | | | | | | | | | | |i ok|i err|i|i ok]; try done.
  4: { destruct (st_left s !! i) as [f|] eqn:Hf; simplify_option_eq.
       destruct (Forall_lookup_1 _ _ _ _ Hls Hf) as [Hsent _]. apply known_with_left; [apply known_tell; [done|by events_tac]|].
       apply Forall_delete. eapply Forall_impl; [exact Hls|]. intros. by apply left_known_mono. }
  all: destruct (st_flights s !! i) as [f|] eqn:Hf; try done; simpl in H.
  - destruct (Forall_lookup_1 _ _ _ _ Hfs Hf) as [Hsent _].
    destruct (fl_settled f); simplify_eq. apply known_with_flights.
    + apply known_tell; [done|]. by events_tac.
    + apply Forall_insert; [by apply flights_known_mono|]. split; simpl; [auto with go|].
      intros ? [= ->]. auto with go.
  - destruct (Forall_lookup_1 _ _ _ _ Hfs Hf) as [_ Hset].
    destruct (decide (fl_settled f = Some true)) as [Ht|]; simplify_option_eq; sem_inv.
    apply known_sem, known_with_flights.
    + apply known_tell; [done|]. apply ack_events_known. left. eauto.
    + apply Forall_delete. by apply flights_known_mono.
  - destruct (Forall_lookup_1 _ _ _ _ Hfs Hf) as [Hsent _].
    assert (known (with_flights (delete i (st_flights s)) s)) as Hgone
      by (apply known_with_flights; [done|by apply Forall_delete]).
    destruct (fl_settled f) as [[]|]; [done| |destruct (st_closing s); [|done]]; sem_inv; apply known_sem; [done|].
    apply known_with_left; [by apply known_tell; [|events_tac]|]. apply Forall_app. split.
    + eapply Forall_impl; [exact Hls|]. intros. by apply left_known_mono.
    + apply Forall_singleton. split; simpl; auto with go.
Qed.

Lemma step_known l s s' : known s -> step l s = Some s' -> known s'.
Proof.
  destruct l; cbn [step]; eauto using read_step_known, claim_step_known, flight_step_known;
    intros [] [= <-]; by constructor.
Qed.

Lemma subscribe_known sb stream ensure s : Subscribe sb stream ensure = Ok s -> known s.
Proof.
  unfold Subscribe. destruct ensure; [done|]. intros [= <-]. constructor; simpl; try done.
  - by case_match.
  - intros pre ev post H. by destruct pre.
Qed.

(** ** Completed work is acknowledged *)

Definition no_settle (ev : sub_event) : Prop :=
  match ev with SSettled _ _ _ | SLeft _ _ => False | _ => True end.

(** The loops only add to the trace and to the messages in flight, settle
    nothing and give up nothing. *)
Definition loop_grows s s' : Prop :=
  exists es fs, st_trace s' = st_trace s ++ es /\ st_flights s' = st_flights s ++ fs /\
    st_closing s' = st_closing s /\ Forall no_settle es.

Lemma grows_refl s : loop_grows s s.
Proof. exists [], []. by rewrite !app_nil_r. Qed.

Lemma grows_trans s1 s2 s3 : loop_grows s1 s2 -> loop_grows s2 s3 -> loop_grows s1 s3.
Proof.
  intros (es1 & fs1 & H1 & H2 & H7 & H3) (es2 & fs2 & H4 & H5 & H8 & H6). exists (es1 ++ es2), (fs1 ++ fs2).
  rewrite H4, H1, H5, H2, H8, H7, !(assoc_L (++)). split_and!; try done. by apply Forall_app.
Qed.

Lemma grows_tell es s :
  Forall no_settle es -> loop_grows s (tell es s).
Proof. intros. exists es, []. by rewrite app_nil_r. Qed.

Lemma grows_same s s' :
  st_trace s' = st_trace s -> st_flights s' = st_flights s -> st_closing s' = st_closing s -> loop_grows s s'.
Proof. intros H1 H2 H3. exists [], []. by rewrite H1, H2, H3, !app_nil_r. Qed.

Lemma grows_recreate err s : loop_grows s (recreateGroup err s).
Proof. apply grows_tell. destruct err; [destruct (stopped s)|]; by events_tac. Qed.

Lemma emit_step_grows p l s r s' : emit_step p l s = Some (r, s') -> loop_grows s s'.
Proof.
  intros H. destruct p as [e|e|e msg], l; try done; simpl in H.
  - destruct (st_hook s); [|done]. destruct r0; simplify_option_eq; sem_inv.
    + exists [SHooked (ent_ID e) (Fields e) (Some e0); SLog LevelError "messaging: dead-lettering undecodable entry failed"], [].
      simpl. rewrite <-(assoc_L (++)), app_nil_r. by split_and!; [..|events_tac].
    + apply grows_tell. by events_tac.
  - destruct (st_hook s); [done|]. simplify_option_eq; sem_inv. by apply grows_same.
  - simplify_option_eq; sem_inv. eapply grows_trans; [apply (grows_tell (ack_events (ent_ID e) err))|by apply grows_same].
    destruct err; by events_tac.
  - simplify_option_eq. eexists [_], [_]. by split_and!; [..|events_tac].
  - destruct (stopped s); [|done]. simplify_option_eq; sem_inv. by apply grows_same.
Qed.

Lemma emit_begin_grows e a s p s' : emit_begin e a s = (p, s') -> loop_grows s s'.
Proof.
  unfold emit_begin. case_match; intros [= <- <-]; [apply grows_refl|apply grows_tell; by events_tac].
Qed.

Lemma grows_with_read pc s s' : loop_grows s s' -> loop_grows s (with_read pc s').
Proof. done. Qed.
Lemma grows_with_claim pc s s' : loop_grows s s' -> loop_grows s (with_claim pc s').
Proof. done. Qed.
Lemma grows_with_sem n s s' : loop_grows s s' -> loop_grows s (with_sem n s').
Proof. done. Qed.
Lemma grows_with_tell ev s s' :
  no_settle ev -> loop_grows s s' -> loop_grows s (tell [ev] s').
Proof. intros. eapply grows_trans; [done|]. apply grows_tell. by events_tac. Qed.

Lemma grows_if (b : bool) s s1 s2 : loop_grows s s1 -> loop_grows s s2 -> loop_grows s (if b then s1 else s2).
Proof. by destruct b. Qed.

Hint Resolve grows_if grows_with_read grows_with_claim grows_with_sem grows_with_tell grows_refl grows_recreate : go.
Hint Extern 1 (no_settle _) => exact I : go.

Lemma read_step_grows l s s' : read_step l s = Some s' -> loop_grows s s'.
Proof.
  intros H. unfold read_step in H.
  destruct (st_read s), l; try done; simpl in *;
    repeat (case_match; try done); simplify_option_eq; sem_inv; auto 8 with go.
  - apply grows_with_read. eapply grows_trans; [|by eapply emit_begin_grows]. auto with go.
  - destruct (emit_step _ _ _) as [[r s1]|] eqn:He; simplify_option_eq.
    apply grows_with_read. by eapply emit_step_grows.
Qed.

Lemma claim_step_grows l s s' : claim_step l s = Some s' -> loop_grows s s'.
Proof.
  intros H. unfold claim_step in H.
  destruct (st_claim s), l; try done; simpl in *;
    repeat (case_match; try done); simplify_option_eq; sem_inv; auto 8 with go.
  - apply grows_with_claim. eapply grows_trans; [|by eapply emit_begin_grows]. auto with go.
  - destruct (emit_step _ _ _) as [[r s1]|] eqn:He; simplify_option_eq.
    apply grows_with_claim. by eapply emit_step_grows.
Qed.

(** Every success a handler reported is acked after it, or its goroutine is
    about to ack it, unless that had given the message up before. *)
Definition honoured s : Prop :=
  forall pre id msg post, st_trace s = pre ++ SSettled id msg true :: post ->
    (exists f, f ∈ st_flights s /\ fl_ID f = id /\ fl_settled f = Some true) \/
    (exists err, SAck id err ∈ post) \/ SLeft id msg ∈ pre.

(** Only [Close] makes a goroutine give up its message. *)
Definition patient s : Prop := forall id msg, SLeft id msg ∈ st_trace s -> st_closing s = true.

(** An event of a grown trace was there before, or is new. *)
Lemma app_split {A} (t es pre : list A) ev post :
  t ++ es = pre ++ ev :: post -> (exists post', t = pre ++ ev :: post' /\ post = post' ++ es) \/
    (exists pre', pre = t ++ pre' /\ es = pre' ++ ev :: post).
Proof.
  intros H. apply app_eq_app in H as (l & [[-> H]|[-> H]]); [|right; by exists l].
  destruct l as [|x l]; simpl in H; [right; exists []; by rewrite !app_nil_r|]. simplify_eq. left. by exists l.
Qed.

(** A step that settles nothing and keeps the flights that have succeeded, but
    for those it acks. *)
Lemma honoured_extend s s' es :
  honoured s -> st_trace s' = st_trace s ++ es -> (forall id msg, SSettled id msg true ∉ es) ->
  (forall f, f ∈ st_flights s -> fl_settled f = Some true ->
     (exists f', f' ∈ st_flights s' /\ fl_ID f' = fl_ID f /\ fl_settled f' = Some true) \/
     exists err, SAck (fl_ID f) err ∈ es) ->
  honoured s'.
Proof.
  intros Hh Ht Hes Hf pre id msg post H. rewrite Ht in H. apply app_split in H as [(post' & H & ->)|(pre' & _ & ->)].
  2: { destruct (Hes id msg). apply elem_of_app. right. left. }
  destruct (Hh _ _ _ _ H) as [(f & Hin & <- & Hs)|[[err Ha]|Hl]].
  - destruct (Hf f Hin Hs) as [Hk|[err Ha]]; [by left|right; left; exists err]. auto with go.
  - right. left. exists err. auto with go.
  - by right; right.
Qed.

Lemma honoured_grows s s' : honoured s -> loop_grows s s' -> honoured s'.
Proof.
  intros Hh (es & fs & Ht & Hf & _ & Hes). eapply honoured_extend; [exact Hh|exact Ht| |].
  - intros id msg Hin. rewrite Forall_forall in Hes. by apply Hes in Hin.
  - intros f Hin Hs. left. exists f. rewrite Hf. auto with go.
Qed.

Lemma ack_events_settle id id' err msg : SSettled id msg true ∉ ack_events id' err.
Proof. unfold ack_events. intros Hin. destruct err; repeat (apply elem_of_cons in Hin as [Hin|Hin]; [done|]); by apply elem_of_nil in Hin. Qed.

(** Removing flight [i] keeps the others that have succeeded. *)
Lemma flights_delete s (i : nat) f f' :
  st_flights s !! i = Some f -> f' ∈ st_flights s -> f' <> f -> f' ∈ delete i (st_flights s).
Proof.
  intros Hf [j Hj]%list_elem_of_lookup Hne. eapply elem_of_delete_ne; [exact Hf|exact Hj|congruence].
Qed.

(** The success of flight [i], or of a message that was left, is new. *)
Lemma honoured_settled s s' id msg ok :
  honoured s -> st_trace s' = st_trace s ++ [SSettled id msg ok] ->
  (forall f, f ∈ st_flights s -> fl_settled f = Some true -> f ∈ st_flights s') ->
  (ok = true -> (exists f, f ∈ st_flights s' /\ fl_ID f = id /\ fl_settled f = Some true) \/ SLeft id msg ∈ st_trace s) ->
  honoured s'.
Proof.
  intros Hh Ht Hf Hnew pre id' msg' post H. rewrite Ht in H. apply app_split in H as [(post' & H & ->)|(pre' & -> & H)].
  - destruct (Hh _ _ _ _ H) as [(f & Hin & <- & Hs)|[[err Ha]|Hl]]; [left; eauto|right; left; eauto with go|by right; right].
  - destruct pre' as [|? pre']; [|by destruct pre']. simplify_eq/=. rewrite app_nil_r.
    destruct (Hnew eq_refl); [by left|by right; right].
Qed.

Lemma flight_step_honoured l s s' : known s -> honoured s -> flight_step l s = Some s' -> honoured s'.
Proof.
  intros Hk Hh H. unfold flight_step in H. pose proof (kn_left _ Hk) as Hls.
  destruct l as [| | | | | | | | | | | | | | | |i ok|i err|i|i ok]; try done.
  4: { destruct (st_left s !! i) as [f|] eqn:Hf; simplify_option_eq.
       eapply honoured_settled; [exact Hh|reflexivity|done|]. right. by destruct (Forall_lookup_1 _ _ _ _ Hls Hf). }
  all: destruct (st_flights s !! i) as [f|] eqn:Hf; try done; simpl in H.
  - destruct (fl_settled f) eqn:Hs; simplify_eq. eapply honoured_settled; [exact Hh|reflexivity| |].
    + simpl. intros f' [j Hj]%list_elem_of_lookup Hs'. apply list_elem_of_lookup. exists j.
      rewrite list_lookup_insert_ne; [exact Hj|]. intros ->. congruence.
    + intros ->. left. exists (mkFlight (fl_ID f) (fl_msg f) (Some true)). split; [|done].
      apply list_elem_of_lookup. exists i. apply list_lookup_insert_eq. by eapply lookup_lt_Some.
  - case_decide as Hs; [|done]. sem_inv. eapply honoured_extend; [exact Hh|reflexivity|intros; apply ack_events_settle|].
    intros f' Hin Hs'. destruct (decide (fl_ID f = fl_ID f')) as [He|Hne].
    + right. exists err. rewrite <-He. left.
    + left. exists f'. split; [|done]. eapply flights_delete; [exact Hf|exact Hin|congruence].
  - destruct (fl_settled f) as [[]|] eqn:Hs; [done| |destruct (st_closing s); [|done]]; sem_inv;
      [apply (honoured_extend s _ []); [exact Hh|simpl; by rewrite app_nil_r|set_solver|]
      |apply (honoured_extend s _ [SLeft (fl_ID f) (fl_msg f)]); [exact Hh|reflexivity|set_solver|]];
      intros f' Hin Hs'; left; exists f'; (split; [|done]); (eapply flights_delete; [exact Hf|exact Hin|congruence]).
Qed.

Lemma step_honoured l s s' : known s -> honoured s -> step l s = Some s' -> honoured s'.
Proof.
  intros Hk Hh. destruct l; cbn [step]; intros H;
    try (eapply honoured_grows; [exact Hh|]; first [by eapply read_step_grows|by eapply claim_step_grows]);
    try (by eapply flight_step_honoured); by injection H as <-.
Qed.

Lemma patient_extend s s' es :
  patient s -> st_trace s' = st_trace s ++ es -> (st_closing s = true -> st_closing s' = true) ->
  (forall id msg, SLeft id msg ∈ es -> st_closing s = true) -> patient s'.
Proof. intros Hp Ht Hc Hes id msg Hin. rewrite Ht in Hin. apply elem_of_app in Hin as [Hin|Hin]; eauto. Qed.

Lemma patient_grows s s' : patient s -> loop_grows s s' -> patient s'.
Proof.
  intros Hp (es & _ & Ht & _ & Hc & Hes). eapply patient_extend; [exact Hp|exact Ht|by rewrite Hc|].
  intros id msg Hin. rewrite Forall_forall in Hes. by apply Hes in Hin.
Qed.

Lemma flight_step_patient l s s' : patient s -> flight_step l s = Some s' -> patient s'.
Proof.
  intros Hp H. unfold flight_step in H.
  destruct l as [| | | | | | | | | | | | | | | |i ok|i err|i|i ok]; try done;
    [destruct (st_flights s !! i) as [f|]; try done; simpl in H..|destruct (st_left s !! i); try done; simpl in H].
  - destruct (fl_settled f); simplify_eq. by eapply patient_extend; [exact Hp|reflexivity|done|set_solver].
  - case_decide; [|done]. sem_inv. eapply patient_extend; [exact Hp|reflexivity|done|]. intros id msg Hin. unfold ack_events in Hin.
    destruct err; repeat (apply elem_of_cons in Hin as [Hin|Hin]; [done|]); by apply elem_of_nil in Hin.
  - destruct (fl_settled f) as [[]|]; [done| |destruct (st_closing s) eqn:Hc; [|done]]; sem_inv; [exact Hp|].
    by eapply patient_extend; [exact Hp|reflexivity|done|].
  - simplify_eq. by eapply patient_extend; [exact Hp|reflexivity|done|set_solver].
Qed.

Lemma step_patient l s s' : patient s -> step l s = Some s' -> patient s'.
Proof.
  intros Hp. destruct l; cbn [step]; intros H;
    try (eapply patient_grows; [exact Hp|]; first [by eapply read_step_grows|by eapply claim_step_grows]);
    try (by eapply flight_step_patient); injection H as <-; try exact Hp; intros id msg Hin; done.
Qed.

(** ** Draining *)

(** The goroutines have all returned and every slot is free. *)
Definition drained s : Prop :=
  st_read s = RDone /\ st_claim s = CDone /\ st_flights s = [] /\ st_sem s = O.

(** What is not the library's to do: a handler ends, the router receives an
    offered message, the context is cancelled, [Close] is called. *)
Definition outside (l : label) : bool :=
  match l with
  | LHandle _ _ | LLate _ _ | LCancel | LClose | LREmit EmSend | LCEmit EmSend => true
  | _ => false
  end.

(** The same action of the library, up to what Redis replies and the hook
    returns. *)
Definition same_emit (l l' : emit_label) : Prop :=
  match l, l' with
  | EmHook _, EmHook _ | EmHookAck _, EmHookAck _ => True
  | _, _ => l = l'
  end.

Definition same_action (l l' : label) : Prop :=
  match l, l' with
  | LRRead _, LRRead _ | LREnsure _, LREnsure _ | LCScan _, LCScan _ | LCEnsure _, LCEnsure _ | LCClaim _, LCClaim _ => True
  | LREmit e, LREmit e' | LCEmit e, LCEmit e' => same_emit e e'
  | LFlightAck i _, LFlightAck j _ => i = j
  | _, _ => l = l'
  end.

(** The library brings about [Q]: one of its goroutines has an action to take,
    which no reply blocks, and whatever the reply is and whatever then happens
    outside, the library brings about [Q]. *)
Inductive ensures (Q : sub_state -> Prop) : sub_state -> Prop :=
| ensures_here s : Q s -> ensures Q s
| ensures_act l s :
    outside l = false ->
    (forall l', same_action l l' -> is_Some (step l' s)) ->
    (forall l' s1 ls s2, same_action l l' -> step l' s = Some s1 ->
       forallb outside ls = true -> run ls s1 = Some s2 -> ensures Q s2) ->
    ensures Q s.

(** What is left to do while the subscriber is closing. *)
Definition emit_rank (p : emit_pc) : nat := match p with EHookAck _ => 2 | _ => 3 end.
Definition read_rank (pc : read_pc) : nat :=
  match pc with RDone => 0 | RAcquire => 1 | RPause => 2 | RRecreate => 3 | REmit p => emit_rank p | RRead => 4 end.
Definition claim_rank (pc : claim_pc) : nat :=
  match pc with
  | CDone => 0
  | CTick | CAcquire _ _ => 1
  | CScan | CPause | CRecreateClaim => 2
  | CRecreate => 3
  | CEmit p _ => emit_rank p
  | CClaim _ _ => 4
  end.
Definition todo s : nat := (read_rank (st_read s) + claim_rank (st_claim s) + length (st_flights s))%nat.

Definition closing_ok s : Prop := slots_ok s /\ st_closing s = true.

Lemma todo_drained s : slots_ok s -> todo s = O -> drained s.
Proof.
  intros [Hsem _]. unfold todo, drained. destruct (st_read s) as [| | | |[]|]; simpl; try lia.
  destruct (st_claim s) as [| | | | | | |[]|]; simpl; try lia. destruct (st_flights s); [done|simpl; lia].
Qed.

Lemma claim_next_rank ps : claim_rank (claim_next ps) = 1%nat.
Proof. by destruct ps. Qed.

(** What happens outside leaves no more to do. *)
Lemma send_outside p s r s' :
  emit_step p EmSend s = Some (r, s') ->
  r = inr true /\ emit_rank p = 3%nat /\ st_closing s' = st_closing s /\ st_read s' = st_read s /\
  st_claim s' = st_claim s /\ length (st_flights s') = S (length (st_flights s)).
Proof. destruct p; [done..|]. intros [= <- <-]. simpl. rewrite length_app. simpl. split_and!; [done..|lia]. Qed.

Lemma outside_step l s s' :
  closing_ok s -> outside l = true -> step l s = Some s' -> closing_ok s' /\ (todo s' <= todo s)%nat.
Proof.
  intros [Hs Hc] Ho H. assert (st_closing s' = true /\ (todo s' <= todo s)%nat) as [Hc' Ht];
    [|split; [split; [by eapply step_slots|done]|done]].
  unfold todo. destruct l as [| | | | | | |[]| | | | | | | |[]|i ok|i err|i|i ok]; try done; cbn [step] in H.
  - by injection H as <-.
  - by injection H as <-.
  - unfold read_step in H. destruct (st_read s) as [| | | |p|] eqn:Hpc; try done.
    destruct (emit_step p EmSend s) as [[r s1]|] eqn:He; simplify_option_eq.
    apply send_outside in He as (-> & Hr & -> & _ & -> & ->). simpl. rewrite Hr. split; [done|lia].
  - unfold claim_step in H. destruct (st_claim s) as [| | | | | | |p rest|] eqn:Hpc; try done.
    destruct (emit_step p EmSend s) as [[r s1]|] eqn:He; simplify_option_eq.
    apply send_outside in He as (-> & Hr & -> & -> & _ & ->). simpl. rewrite Hr, claim_next_rank. split; [done|lia].
  - unfold flight_step in H. destruct (st_flights s !! i) as [f|]; [|done]. simpl in H. destruct (fl_settled f); [done|].
    simplify_eq. simpl. by rewrite length_insert.
  - unfold flight_step in H. destruct (st_left s !! i); [|done]. simpl in H. by simplify_eq.
Qed.

Lemma outside_run ls s s' :
  closing_ok s -> forallb outside ls = true -> run ls s = Some s' -> closing_ok s' /\ (todo s' <= todo s)%nat.
Proof.
  revert s. induction ls as [|l ls IH]; intros s Hs Ho H; [by injection H as <-|].
  unfold run in H. simpl in *. apply andb_prop in Ho as [Hl Hls].
  destruct (step l s) as [s1|] eqn:H1; [|done]. destruct (outside_step _ _ _ Hs Hl H1) as [Hs1 Ht].
  destruct (IH s1 Hs1 Hls H) as [? ?]. split; [done|lia].
Qed.

(** The library always has something to do, and every reply gets it further. *)
Definition furthers (l : label) s : Prop :=
  outside l = false /\
  forall l', same_action l l' -> exists s', step l' s = Some s' /\ st_closing s' = true /\ (todo s' < todo s)%nat.

Lemma release_held s : (0 < st_sem s)%nat -> release s = Some (with_sem (pred (st_sem s)) s).
Proof. unfold release. destruct (st_sem s); [lia|done]. Qed.

Lemma emit_leaves p s :
  st_closing s = true -> (0 < st_sem s)%nat ->
  exists l, l <> EmSend /\ forall l', same_emit l l' -> exists r s', emit_step p l' s = Some (r, s') /\
    st_closing s' = true /\ st_read s' = st_read s /\ st_claim s' = st_claim s /\ st_flights s' = st_flights s /\
    match r with inl p' => (emit_rank p' < emit_rank p)%nat | inr b => b = false end.
Proof.
  intros Hc Hn.
  assert (forall s', st_closing s' = true -> negb (stopped s') = false) as Hstop
    by (intros s' H; unfold stopped; by rewrite H).
  assert (forall es, release (tell es s) = Some (with_sem (pred (st_sem s)) (tell es s))) as Hrel
    by (intros es; by apply (release_held (tell es s))).
  pose proof (release_held s Hn) as Hrel0. destruct p as [e|e|e msg].
  - destruct (st_hook s) eqn:Hh.
    + exists (EmHook None). split; [done|]. intros [[err|]| | | |] Hl; try done; simpl; rewrite Hh; simpl.
      * eexists _, _. rewrite (release_held (tell _ (tell _ s))) by done. split; [reflexivity|].
        split_and!; try done. by apply Hstop.
      * eexists _, _. split; [reflexivity|]. split_and!; [done..|simpl; lia].
    + exists EmNoHook. split; [done|]. intros [| | | |] Hl; try done. simpl. rewrite Hh, Hrel0.
      eexists _, _. split; [reflexivity|]. split_and!; try done. by apply Hstop.
  - exists (EmHookAck None). split; [done|]. intros [| |err| |] Hl; try done. simpl. rewrite Hrel.
    eexists _, _. split; [reflexivity|]. split_and!; try done. by apply Hstop.
  - exists EmAbort. split; [done|]. intros [| | | |] Hl; try done. simpl. unfold stopped at 1. rewrite Hc, Hrel0.
    eexists _, _. split; [reflexivity|]. by split_and!.
Qed.

Ltac stop := unfold stopped in *; simpl in *.

Lemma furthers_read s : closing_ok s -> st_read s <> RDone -> exists l, furthers l s.
Proof.
  intros [Hs Hc] Hpc. pose proof (so_sem _ Hs) as Hsem. unfold furthers, todo.
  destruct (st_read s) as [| | | |p|] eqn:Hr; simpl in Hsem; [..|done].
  - exists LRStop. split; [done|]. intros [] Hl; try done.
    eexists. split; [simpl; unfold read_step; rewrite Hr; stop; rewrite Hc; reflexivity|]. split; [done|simpl; lia].
  - exists (LRRead (Ok [])). split; [done|]. intros [| | | |res| | | | | | | | | | | | | | |] Hl; try done.
    assert (release s = Some (with_sem (pred (st_sem s)) s)) as Hrel by (apply release_held; lia).
    simpl. unfold read_step. rewrite Hr. destruct res as [[|e es]|err].
    + rewrite Hrel. eexists. split; [reflexivity|]. stop. rewrite Hc. split; [done|simpl; lia].
    + unfold emit_begin. destruct (decodeEntry e 1); (eexists; split; [reflexivity|split; [done|simpl; lia]]).
    + rewrite Hrel. eexists. split; [reflexivity|]. stop. rewrite Hc. split; [done|simpl; lia].
  - exists (LREnsure None). split; [done|]. intros [| | | | |err| | | | | | | | | | | | | |] Hl; try done.
    eexists. split; [simpl; unfold read_step; by rewrite Hr|]. split; [done|simpl; lia].
  - exists LRPause. split; [done|]. intros [] Hl; try done.
    eexists. split; [simpl; unfold read_step; by rewrite Hr|]. split; [done|simpl; lia].
  - destruct (emit_leaves p s Hc) as (l & Hl & He); [lia|]. exists (LREmit l). split; [by destruct l|].
    intros [| | | | | | |l'| | | | | | | | | | | |] Hsame; try done.
    destruct (He l' Hsame) as (r & s' & Hstep & Hc' & _ & Hcl & Hf & Hrank).
    eexists. split; [simpl; unfold read_step; rewrite Hr, Hstep; reflexivity|]. split; [done|].
    simpl. rewrite Hcl, Hf. destruct r as [p'|b]; simpl; [lia|]. subst. simpl. destruct p; simpl; lia.
Qed.

Lemma furthers_claim s : closing_ok s -> st_claim s <> CDone -> exists l, furthers l s.
Proof.
  intros [Hs Hc] Hpc. pose proof (so_sem _ Hs) as Hsem. unfold furthers, todo.
  destruct (st_claim s) as [| | | |p rest|p rest| |p rest|] eqn:Hcl; simpl in Hsem; [..|done].
  1, 5: exists LCStop; (split; [done|]); intros [] Hl; try done;
    (eexists; split; [simpl; unfold claim_step; rewrite Hcl; stop; rewrite Hc; reflexivity|split; [done|simpl; lia]]).
  - exists (LCScan (Ok [])). split; [done|]. intros [| | | | | | | | | |res| | | | | | | | |] Hl; try done.
    simpl. unfold claim_step. rewrite Hcl. destruct res as [ps|err].
    + eexists. split; [reflexivity|]. simpl. rewrite claim_next_rank. split; [done|lia].
    + eexists. split; [reflexivity|]. stop. rewrite Hc. split; [done|simpl; lia].
  - exists (LCEnsure None). split; [done|]. intros [| | | | | | | | | | |err| | | | | | | |] Hl; try done.
    eexists. split; [simpl; unfold claim_step; by rewrite Hcl|]. split; [done|simpl; lia].
  - exists LCPause. split; [done|]. intros [] Hl; try done.
    eexists. split; [simpl; unfold claim_step; by rewrite Hcl|]. split; [done|simpl; lia].
  - exists (LCClaim (Ok [])). split; [done|]. intros [| | | | | | | | | | | | | |res| | | | |] Hl; try done.
    assert (release s = Some (with_sem (pred (st_sem s)) s)) as Hrel by (apply release_held; lia).
    simpl. unfold claim_step. rewrite Hcl. destruct res as [[|e es]|err].
    + rewrite Hrel. eexists. split; [reflexivity|]. stop. rewrite Hc. split; [done|simpl; lia].
    + unfold emit_begin. destruct (decodeEntry e _); (eexists; split; [reflexivity|split; [done|simpl; lia]]).
    + rewrite Hrel. eexists. split; [reflexivity|]. stop. rewrite Hc. split; [done|simpl; lia].
  - exists (LCEnsure None). split; [done|]. intros [| | | | | | | | | | |err| | | | | | | |] Hl; try done.
    eexists. split; [simpl; unfold claim_step; by rewrite Hcl|]. split; [done|simpl; lia].
  - destruct (emit_leaves p s Hc) as (l & Hl & He); [lia|]. exists (LCEmit l). split; [by destruct l|].
    intros [| | | | | | | | | | | | | | |l'| | | |] Hsame; try done.
    destruct (He l' Hsame) as (r & s' & Hstep & Hc' & Hr & _ & Hf & Hrank).
    eexists. split; [simpl; unfold claim_step; rewrite Hcl, Hstep; reflexivity|]. split; [done|].
    simpl. rewrite Hr, Hf. destruct r as [p'|b]; simpl; [lia|]. subst. simpl. destruct p; simpl; lia.
Qed.

Lemma furthers_flight s : closing_ok s -> st_flights s <> [] -> exists l, furthers l s.
Proof.
  intros [Hs Hc] Hne. pose proof (so_sem _ Hs) as Hsem. unfold furthers, todo.
  destruct (st_flights s) as [|f fs] eqn:Hf; [done|]. simpl in Hsem.
  assert (forall s', st_sem s' = st_sem s -> release s' = Some (with_sem (pred (st_sem s')) s')) as Hrel
    by (intros s' H; apply release_held; lia).
  destruct (decide (fl_settled f = Some true)) as [He|He].
  - exists (LFlightAck 0 None). split; [done|].
    intros [| | | | | | | | | | | | | | | | |i err| |] Hl; try done. simpl in Hl. subst. simpl. rewrite Hf. simpl.
    rewrite decide_True by done. rewrite Hrel by done. eexists. split; [reflexivity|]. split; [done|simpl; lia].
  - exists (LFlightDone 0). split; [done|]. intros l' <-. simpl. rewrite Hf. simpl.
    destruct (fl_settled f) as [[]|]; [done| |rewrite Hc];
      (rewrite Hrel by done; eexists; split; [reflexivity|split; [done|simpl; lia]]).
Qed.

Lemma closing_furthers s : closing_ok s -> todo s <> O -> exists l, furthers l s.
Proof.
  intros Hs Ht. unfold todo in Ht.
  assert (st_read s <> RDone \/ st_read s = RDone) as [Hr|Hr] by (destruct (st_read s); auto); [by apply furthers_read|].
  assert (st_claim s <> CDone \/ st_claim s = CDone) as [Hc|Hc] by (destruct (st_claim s); auto); [by apply furthers_claim|].
  apply furthers_flight; [done|]. intros Hf. by rewrite Hr, Hc, Hf in Ht.
Qed.

Lemma closing_drains n s : (todo s <= n)%nat -> closing_ok s -> ensures drained s.
Proof.
  revert s. induction n as [|n IH]; intros s Hn Hs.
  { apply ensures_here, todo_drained; [apply Hs|lia]. }
  destruct (decide (todo s = O)) as [H0|H0]; [by apply ensures_here, todo_drained; [apply Hs|]|].
  destruct (closing_furthers s Hs H0) as (l & Hl & Hf). apply (ensures_act _ l); [done| |].
  - intros l' Hsame. destruct (Hf l' Hsame) as (s' & -> & _). by eexists.
  - intros l' s1 ls s2 Hsame H1 Hls H2. destruct (Hf l' Hsame) as (s' & Hs' & Hc & Ht). simplify_eq.
    destruct (outside_run ls s1 s2) as [? ?]; [|done|done|by apply IH; [lia|]].
    split; [|done]. destruct Hs. by eapply step_slots.
Qed.
(** The capacity never changes. *)
Lemma emit_step_cap p l s r s' : emit_step p l s = Some (r, s') -> st_cap s' = st_cap s.
Proof. intros H. by apply emit_step_slots in H as (_ & _ & ? & _). Qed.

Lemma step_cap l s s' : step l s = Some s' -> st_cap s' = st_cap s.
Proof.
  intros H. destruct l; cbn [step] in H; try (by injection H as <-);
    unfold read_step, claim_step, flight_step in H;
    try (destruct (st_flights s !! i) as [f|] eqn:?; [|done]; simpl in H;
         repeat case_match; simplify_option_eq; sem_inv; done);
    first [destruct (st_read s); try done; simpl in H|destruct (st_claim s); try done; simpl in H];
    repeat (case_match; try done); simplify_option_eq; sem_inv; try done;
    try match goal with
    | H : emit_begin _ _ _ = _ |- _ => by apply emit_begin_slots in H as (_ & _ & _ & _ & ?)
    end;
    try (by repeat case_match).
  all: destruct (emit_step _ _ _) as [[r s1]|] eqn:He; simplify_option_eq; by eapply emit_step_cap.
Qed.

(** ** Claims *)

(** What holds after any interleaving of a subscription's actions. *)
Record sound (cap : nat) s : Prop := {
  sd_slots : slots_ok s;
  sd_known : known s;
  sd_honoured : honoured s;
  sd_patient : patient s;
  sd_cap : st_cap s = cap;
}.

Lemma run_sound sb stream ensure s0 ls s :
  Subscribe sb stream ensure = Ok s0 -> run ls s0 = Some s -> sound (Z.to_nat (sb_concurrency sb)) s.
Proof.
  intros Hs. apply run_steps_invariant.
  - intros l s1 s2 [] Hstep. split;
      [by eapply step_slots|by eapply step_known|by eapply step_honoured|by eapply step_patient|by apply step_cap in Hstep as ->].
  - split; [by eapply subscribe_slots|by eapply subscribe_known| | |].
    + unfold Subscribe in Hs. destruct ensure; simplify_eq. intros pre id msg post H. by destruct pre.
    + unfold Subscribe in Hs. destruct ensure; simplify_eq. intros id msg H. by apply elem_of_nil in H.
    + unfold Subscribe in Hs. by destruct ensure; simplify_eq.
Qed.

(** C5: the concurrency bound holds.  After any interleaving of the read loop,
    the claim loop, the message goroutines, shutdown and the router, the
    semaphore counts exactly the slots held (one per loop between acquiring and
    handing over, one per message in flight), so no release can block and at
    most Concurrency messages of the stream are in flight. *)
Theorem in_flight_bounded sb stream ensure s0 ls s :
  Subscribe sb stream ensure = Ok s0 -> run ls s0 = Some s ->
  st_sem s = (read_slots (st_read s) + claim_slots (st_claim s) + length (st_flights s))%nat /\
  (length (st_flights s) <= st_sem s <= Z.to_nat (sb_concurrency sb))%nat.
Proof.
  intros Hs Hr. destruct (run_sound _ _ _ _ _ _ Hs Hr) as [[Hsem Hcap] _ _ _ Hc]. rewrite <-Hc. lia.
Qed.

(** C6: nothing is acked in Redis that did not succeed.  Whatever the
    interleaving, an XACK of an entry is preceded by its handler's success or
    by the undecodable hook's; a handler settles only messages that were sent
    to it, and each of those is the decoding of an entry read or claimed
    before. *)
Theorem acks_follow_success sb stream ensure s0 ls s pre ev post :
  Subscribe sb stream ensure = Ok s0 -> run ls s0 = Some s -> st_trace s = pre ++ ev :: post ->
  match ev with
  | SAck id _ => licensed pre id
  | SSettled id msg _ => SSent id msg ∈ pre
  | SSent id msg => exists e, ent_ID e = id /\ stamped pre e msg
  | _ => True
  end.
Proof.
  intros Hs Hr Ht. destruct (run_sound _ _ _ _ _ _ Hs Hr) as [_ [_ _ _ _ Hk] _ _ _].
  specialize (Hk _ _ _ Ht). by destruct ev.
Qed.

Lemma stamped_metadata t e msg :
  stamped t e msg ->
  exists a, decodeEntry e a = Ok msg /\
    (a = 1 \/ exists p ps, SClaimed p e ∈ t /\ SListed ps ∈ t /\ p ∈ ps /\ a = wrap64 (RetryCount p + 1)).
Proof. intros []; eauto 10. Qed.

Lemma decodeEntry_metadata e a msg :
  decodeEntry e a = Ok msg ->
  md_get (msg_Metadata msg) MetadataStreamID = ent_ID e /\
  md_get (msg_Metadata msg) MetadataDeliveryAttempt = FormatInt a.
Proof.
  unfold decodeEntry. destruct (wm_unmarshal (Fields e)); [|done]. intros [= <-]. unfold md_set. simpl.
  split; [|apply md_get_insert]. etrans; [by apply md_get_insert_ne|apply md_get_insert].
Qed.

(** C12: the attempt number handlers and the cap see is the one Redis implies.
    Every message sent carries its entry's ID, and an attempt number that the
    consume path reads back exactly: 1 for a newly read entry, and for a
    reclaimed one the delivery count its sweep listed plus one. *)
Theorem attempts_are_exact sb stream ensure s0 ls s pre id msg post :
  Subscribe sb stream ensure = Ok s0 -> run ls s0 = Some s ->
  st_trace s = pre ++ SSent id msg :: post ->
  (forall p ps, SListed ps ∈ pre -> p ∈ ps -> 0 <= RetryCount p < int64_max) ->
  md_get (msg_Metadata msg) MetadataStreamID = id /\
  exists e, ent_ID e = id /\
    ((SRead e ∈ pre /\ deliveryAttempt (msg_Metadata msg) = 1) \/
     exists p, SClaimed p e ∈ pre /\ deliveryAttempt (msg_Metadata msg) = RetryCount p + 1).
Proof.
  intros Hs Hr Ht Hcount. destruct (run_sound _ _ _ _ _ _ Hs Hr) as [_ [_ _ _ _ Hk] _ _ _].
  destruct (Hk _ _ _ Ht) as (e & <- & Hst).
  destruct Hst as [Hread Hd|p ps Hcl Hl Hp Hd]; apply decodeEntry_metadata in Hd as [Hid Ha]; split; auto;
    exists e; (split; [done|]); [left|right; exists p]; (split; [done|]).
  - apply deliveryAttempt_stamp; [done|lia|unfold in_int64; unfold_int64; lia].
  - pose proof (Hcount _ _ Hl Hp). rewrite wrap64_id in Ha by (unfold in_int64 in *; unfold_int64; lia).
    apply deliveryAttempt_stamp; [done|lia|unfold in_int64 in *; unfold_int64; lia].
Qed.

(** C7: Close finishes, and completed work is not forgotten.  From any reachable
    state in which the subscriber is closing the library brings about a drained
    one, with both loops returned, no goroutine waiting on a message and every
    slot free: at each turn one of its goroutines has something to do, whatever
    Redis replies to it and the hook returns, and whatever the handlers and the
    router do in between.  And in a drained state every success of a handler was
    followed by an XACK of its entry, unless it came after the message's
    goroutine had given the message up, which goroutines do only on closing. *)
Theorem close_drains sb stream ensure s0 ls s :
  Subscribe sb stream ensure = Ok s0 -> run ls s0 = Some s ->
  (st_closing s = true -> ensures drained s) /\
  (drained s -> forall pre id msg post, st_trace s = pre ++ SSettled id msg true :: post ->
     (exists err, SAck id err ∈ post) \/ (SLeft id msg ∈ pre /\ st_closing s = true)).
Proof.
  intros Hs Hr. destruct (run_sound _ _ _ _ _ _ Hs Hr) as [Hsl _ Hh Hp _]. split.
  - intros Hc. by eapply closing_drains.
  - intros (_ & _ & Hf & _) pre id msg post Ht. destruct (Hh _ _ _ _ Ht) as [(f & Hin & _)|[?|Hl]]; [|by left|right].
    + rewrite Hf in Hin. by apply elem_of_nil in Hin.
    + split; [done|]. eapply Hp. rewrite Ht. by apply in_app_l.
Qed.
End invariants.

(** ** From Redis to the handler and back *)

(** No event is lost.  Suppose the router acks a message only when
    [dispatch] returned nil for its payload and metadata, and the hook is
    [handleUndecodable], as [Run] wires them.  Then whatever the interleaving,
    every entry acked in Redis was settled first: handled, discarded, without
    a handler, or preserved by one successful dead-letter write. *)
Lemma acked_entries_are_settled {E : Type} `{!WmUnmarshaller, !Env E, !GoFmt, !GoTime, !JsonCodec}
    (c : Consumer E) mp topic topics sb stream ensure s0 ls s pre id err post :
  c_inst c = instruments_of mp -> topics !! stream = Some topic ->
  Subscribe sb stream ensure = Ok s0 -> run ls s0 = Some s ->
  (forall id msg, SSettled id msg true ∈ st_trace s ->
     exists ctx w w' t, dispatch c ctx topic (msg_Payload msg) (msg_Metadata msg) w = (Ret None, w', t)) ->
  (forall id f, SHooked id f None ∈ st_trace s ->
     exists ctx w w' t, handleUndecodable c ctx topics stream id f w = (Ret None, w', t)) ->
  st_trace s = pre ++ SAck id err :: post ->
  (exists msg ctx w w' t, SSent id msg ∈ pre /\
     dispatch c ctx topic (msg_Payload msg) (msg_Metadata msg) w = (Ret None, w', t) /\
     settled c mp topic (msg_Payload msg) (msg_Metadata msg) t) \/
  (exists f ctx w w' t raw tm cause body, SHooked id f None ∈ pre /\
     handleUndecodable c ctx topics stream id f w = (Ret None, w', t) /\
     marshal_fields f = Ok raw /\
     marshal_deadletter (letter c tm topic ReasonDeserializationFailed cause 1 (None, Some raw)) = Ok body /\
     writes t = [(dlqStream c topic, body, None)]).
Proof.
  intros Hi Htop Hs Hr Hrouter Hhook Ht. destruct (run_sound _ _ _ _ _ _ Hs Hr) as [_ [_ _ _ _ Hk] _ _ _].
  destruct (Hk _ _ _ Ht) as [[msg Hset]|[f Hh]].
  - left. assert (SSent id msg ∈ pre) as Hsent.
    { apply list_elem_of_split in Hset as (pre1 & pre2 & ->).
      apply in_app_l. apply (Hk pre1 (SSettled id msg true) (pre2 ++ SAck id err :: post)). rewrite Ht. by rewrite <-app_assoc. }
    destruct (Hrouter id msg) as (ctx & w & w' & t & Hd); [rewrite Ht; by apply in_app_l|].
    exists msg, ctx, w, w', t. split; [done|]. split; [done|]. by eapply nil_settles.
  - right. destruct (Hhook id f) as (ctx & w & w' & t & Hd); [rewrite Ht; by apply in_app_l|].
    destruct (handleUndecodable_run c mp ctx topics stream id f w Hi) as (o & w2 & t2 & Hrun & _ & _ & Hspec).
    pose proof Hd as Hd'. rewrite Hrun in Hd'. injection Hd' as -> -> ->. rewrite Htop in Hspec. destruct Hspec as (_ & _ & Hw).
    destruct (Hw eq_refl) as (raw & tm & cause & body & ? & ? & ?). exists f, ctx, w, w', t, raw, tm, cause, body. auto.
Qed.

(** ** Witnesses *)

(** A redelivered message, after the loops have shut down. *)
Lemma in_flight_bounded_witness :
  st_sem sample_final = 0%nat /\
  st_sem sample_final =
    (read_slots (st_read sample_final) + claim_slots (st_claim sample_final) +
     length (st_flights sample_final))%nat /\
  (length (st_flights sample_final) <= st_sem sample_final <= Z.to_nat (sb_concurrency sample_subscriber))%nat.
Proof.
  split; [reflexivity|].
  apply (in_flight_bounded sample_subscriber "orders" None sample_start sample_labels sample_final);
    vm_compute; reflexivity.
Defined.

(** Its acknowledgement. *)
Lemma acks_follow_success_witness :
  licensed (take 7 (st_trace sample_final)) "1-0".
Proof.
  refine (acks_follow_success sample_subscriber "orders" None sample_start sample_labels sample_final
    (take 7 (st_trace sample_final)) (SAck "1-0" None) [] _ _ _); vm_compute; reflexivity.
Defined.

(** Its second delivery, which carries attempt number two. *)
Lemma attempts_are_exact_witness :
  deliveryAttempt (msg_Metadata (sample_message "2")) = 2 /\
  md_get (msg_Metadata (sample_message "2")) MetadataStreamID = "1-0" /\
  exists e, ent_ID e = "1-0" /\
    ((SRead e ∈ take 5 (st_trace sample_final) /\ deliveryAttempt (msg_Metadata (sample_message "2")) = 1) \/
     exists p, SClaimed p e ∈ take 5 (st_trace sample_final) /\
       deliveryAttempt (msg_Metadata (sample_message "2")) = RetryCount p + 1).
Proof.
  split; [reflexivity|].
  apply (attempts_are_exact sample_subscriber "orders" None sample_start sample_labels sample_final
    (take 5 (st_trace sample_final)) "1-0" (sample_message "2") (drop 6 (st_trace sample_final)));
    [reflexivity|vm_compute; reflexivity|vm_compute; reflexivity|].
  intros p ps Hl Hp. vm_compute in Hl. repeat (apply elem_of_cons in Hl as [Hl|Hl]; [try discriminate Hl|]);
    [|by apply elem_of_nil in Hl].
  injection Hl as ->. apply list_elem_of_singleton in Hp as ->. by vm_compute.
Defined.

(** The subscription closes while a message is in flight; the drained state it
    ends in has its acknowledgement. *)
Lemma close_drains_witness :
  let closing := default sample_start (run (take 12 sample_labels) sample_start) in
  st_closing closing = true /\ length (st_flights closing) = 1%nat /\ ensures drained closing /\
  drained sample_final /\
  forall pre id msg post, st_trace sample_final = pre ++ SSettled id msg true :: post ->
    (exists err, SAck id err ∈ post) \/ (SLeft id msg ∈ pre /\ st_closing sample_final = true).
Proof.
  intros closing. assert (drained sample_final) as Hd by (vm_compute; auto).
  assert (run (take 12 sample_labels) sample_start = Some closing) as Hrun by (vm_compute; reflexivity).
  assert (st_closing closing = true) as Hc by (vm_compute; reflexivity).
  split; [exact Hc|]. split; [vm_compute; reflexivity|]. split; [|split; [exact Hd|]].
  - refine (proj1 (close_drains sample_subscriber "orders" None sample_start (take 12 sample_labels) closing _ Hrun) Hc).
    vm_compute. reflexivity.
  - refine (proj2 (close_drains sample_subscriber "orders" None sample_start sample_labels sample_final _ _) Hd);
      vm_compute; reflexivity.
Defined.
