(* ===== verification/SubscriberTraces.v ===== *)
(** * What the actions of a subscription leave on its trace

    Which replies of Redis, acknowledgements and hand-overs each action of
    [Subscriber.step] records: what a system that composes subscriptions needs
    to know of one. *)

From S2P Require Import Prelude GoStrings GoErrors Config Runtime.
From S2P Require Import StreamReader Subscriber SubscriberProperties.
From stdpp Require Import options.

(** ** What one action adds to a trace *)

(** The answers from outside a trace records: replies of Redis, results of the
    undecodable hook, decisions of the router. *)
Definition is_reply (ev : sub_event) : bool :=
  match ev with
  | SRead _ | SListed _ | SClaimed _ _ | SHooked _ _ _ | SSettled _ _ _ => true
  | _ => false
  end.

Definition replied (t : list sub_event) : list sub_event := List.filter is_reply t.

(** Those an action records. *)
Definition emit_replies (p : emit_pc) (l : emit_label) : list sub_event :=
  match p, l with EHook e, EmHook r => [SHooked (ent_ID e) (Fields e) r] | _, _ => [] end.

Definition replies (s : sub_state) (l : label) : list sub_event :=
  match l with
  | LREmit el => match st_read s with REmit p => emit_replies p el | _ => [] end
  | LCEmit el => match st_claim s with CEmit p _ => emit_replies p el | _ => [] end
  | LHandle i ok => match st_flights s !! i with Some f => [SSettled (fl_ID f) (fl_msg f) ok] | None => [] end
  | LLate i ok => match st_left s !! i with Some f => [SSettled (fl_ID f) (fl_msg f) ok] | None => [] end
  | LRRead (Ok (e :: _)) => [SRead e]
  | LCScan (Ok ps) => [SListed ps]
  | LCClaim (Ok (e :: _)) => match st_claim s with CClaim p _ => [SClaimed p e] | _ => [] end
  | _ => []
  end.

(** The entry whose XACK an action completes. *)
Definition emit_acks (p : emit_pc) (l : emit_label) : option string :=
  match p, l with EHookAck e, EmHookAck _ => Some (ent_ID e) | _, _ => None end.

Definition acks (s : sub_state) (l : label) : option string :=
  match l with
  | LREmit el => match st_read s with REmit p => emit_acks p el | _ => None end
  | LCEmit el => match st_claim s with CEmit p _ => emit_acks p el | _ => None end
  | LFlightAck i _ => fl_ID <$> st_flights s !! i
  | _ => None
  end.

Section actions.
Context `{HUnm : !WmUnmarshaller}.
Implicit Types (s : sub_state).

Lemma replied_app t es : replied (t ++ es) = replied t ++ replied es.
Proof. apply List.filter_app. Qed.

Lemma elem_of_replied ev t : is_reply ev = true -> ev ∈ t <-> ev ∈ replied t.
Proof. intros H. unfold replied. rewrite !list_elem_of_In, List.filter_In. naive_solver. Qed.

Ltac sem_inv :=
  repeat match goal with
  | H : release _ = Some _ |- _ => apply release_inv in H as [-> ?]
  | H : acquire _ = Some _ |- _ => apply acquire_inv in H as [-> ?]
  end.

Ltac replied_tac :=
  repeat (simpl; rewrite ?replied_app; simpl; rewrite ?app_nil_r; try done; try (case_match; simplify_eq)).

Lemma emit_step_replied p l s r s' :
  emit_step p l s = Some (r, s') -> replied (st_trace s') = replied (st_trace s) ++ emit_replies p l.
Proof.
  intros H. destruct p, l; try done; simpl in H; repeat (case_match; try done); simplify_option_eq; sem_inv;
    replied_tac.
Qed.

Lemma emit_begin_replied e a s p s' :
  emit_begin e a s = (p, s') -> replied (st_trace s') = replied (st_trace s).
Proof. unfold emit_begin. case_match; intros [= <- <-]; replied_tac. Qed.

(** The replies of the steps inside an action. *)
Ltac steps_tac :=
  replied_tac;
  repeat match goal with
  | H : emit_begin _ _ _ = _ |- _ => apply emit_begin_replied in H as ->
  | H : emit_step _ _ _ = Some _ |- _ => apply emit_step_replied in H as ->
  end; replied_tac.

Lemma read_step_replied l s s' :
  read_step l s = Some s' -> replied (st_trace s') = replied (st_trace s) ++ replies s l.
Proof.
  intros H. unfold read_step in H. destruct (st_read s) eqn:Hpc, l; try done; simpl in *;
    repeat (case_match; simplify_eq/=; try done); simplify_option_eq; sem_inv; steps_tac.
Qed.

Lemma claim_step_replied l s s' :
  claim_step l s = Some s' -> replied (st_trace s') = replied (st_trace s) ++ replies s l.
Proof.
  intros H. unfold claim_step in H. destruct (st_claim s) eqn:Hpc, l; try done; simpl in *;
    repeat (case_match; simplify_eq/=; try done); simplify_option_eq; sem_inv; steps_tac.
Qed.

Lemma flight_step_replied l s s' :
  flight_step l s = Some s' -> replied (st_trace s') = replied (st_trace s) ++ replies s l.
Proof.
  intros H. unfold flight_step in H.
  destruct l as [| | | | | | | | | | | | | | | |i ok|i err|i|i ok]; try done; simpl;
    [destruct (st_flights s !! i) as [f|] eqn:Hf; try done..|destruct (st_left s !! i) as [f|] eqn:Hf; try done];
    simpl in H; repeat (case_match; simplify_eq/=; try done); simplify_option_eq; sem_inv; replied_tac.
Qed.

Lemma step_replied l s s' : step l s = Some s' -> replied (st_trace s') = replied (st_trace s) ++ replies s l.
Proof.
  destruct l; cbn [step]; eauto using read_step_replied, claim_step_replied, flight_step_replied;
    intros [= <-]; simpl; by rewrite app_nil_r.
Qed.

(** A reply on a trace was there before the action, or is the action's. *)
Lemma step_reply l s s' ev :
  step l s = Some s' -> is_reply ev = true -> ev ∈ st_trace s' -> ev ∈ st_trace s \/ ev ∈ replies s l.
Proof.
  intros H Hev Hin%elem_of_replied; [|done]. rewrite (step_replied _ _ _ H) in Hin.
  apply elem_of_app in Hin as [Hin|]; [left|by right]. by apply elem_of_replied.
Qed.

(** An action records at most one. *)
Lemma replies_one s l : replies s l = [] \/ exists ev, replies s l = [ev].
Proof.
  unfold replies, emit_replies. destruct l; repeat case_match; try (by left); right; by eexists.
Qed.

(** A claimed entry is the one the claim loop asked for. *)
Lemma replied_claim s l p e : SClaimed p e ∈ replies s l -> exists rest, st_claim s = CClaim p rest.
Proof.
  unfold replies, emit_replies. intros Hev.
  destruct l; simpl in Hev; repeat case_match; try (by apply elem_of_nil in Hev);
    apply list_elem_of_singleton in Hev; simplify_eq; eauto.
Qed.

(** Traces only grow. *)
Lemma flight_step_trace l s s' : flight_step l s = Some s' -> exists es, st_trace s' = st_trace s ++ es.
Proof.
  intros H. unfold flight_step in H.
  destruct l as [| | | | | | | | | | | | | | | |i ok|i err|i|i ok]; try done;
    [destruct (st_flights s !! i) as [f|]; try done..|destruct (st_left s !! i) as [f|]; try done];
    simpl in H; repeat (case_match; simplify_eq/=; try done); simplify_option_eq; sem_inv; simpl; eauto.
  exists []. by rewrite app_nil_r.
Qed.

Lemma step_trace l s s' : step l s = Some s' -> exists es, st_trace s' = st_trace s ++ es.
Proof.
  intros H. destruct l; cbn [step] in H; eauto using flight_step_trace;
    try (injection H as <-; exists []; by rewrite app_nil_r);
    first [apply read_step_grows in H|apply claim_step_grows in H]; destruct H as (es & _ & ? & _); eauto.
Qed.

Lemma run_trace ls s s' : run ls s = Some s' -> exists es, st_trace s' = st_trace s ++ es.
Proof.
  apply (run_steps_invariant step (fun s' => exists es, st_trace s' = st_trace s ++ es)).
  - intros l s1 s2 [es1 H1] [es2 H2]%step_trace. exists (es1 ++ es2). by rewrite H2, H1, (assoc_L (++)).
  - exists []. by rewrite app_nil_r.
Qed.

(** An XACK an action completes is on its trace. *)
Lemma emit_step_acks p l s r s' id :
  emit_step p l s = Some (r, s') -> emit_acks p l = Some id -> exists err, SAck id err ∈ st_trace s'.
Proof.
  intros H Ha. destruct p as [|e|], l as [| |err| |]; try done. simplify_eq/=. simplify_option_eq. sem_inv.
  exists err. apply in_app_r. left.
Qed.

Lemma step_acks l s s' id :
  step l s = Some s' -> acks s l = Some id -> exists err, SAck id err ∈ st_trace s'.
Proof.
  intros H Ha. destruct l as [| | | | | | |el| | | | | | | |el| |i err| |]; try done; cbn [step] in H; simpl in Ha.
  - unfold read_step in H. destruct (st_read s); try done.
    destruct (emit_step p el s) as [[r s1]|] eqn:He; simplify_option_eq. by eapply emit_step_acks in He.
  - unfold claim_step in H. destruct (st_claim s); try done.
    destruct (emit_step p el s) as [[r s1]|] eqn:He; simplify_option_eq. by eapply emit_step_acks in He.
  - simpl in H. destruct (st_flights s !! i) as [f|]; simplify_option_eq. sem_inv. simpl.
    exists err. apply in_app_r. left.
Qed.
(** ** Receiving and handing over *)

Fixpoint count (P : sub_event -> bool) (t : list sub_event) : nat :=
  match t with
  | [] => 0
  | ev :: t => (if P ev then 1 else 0) + count P t
  end.

(** A delivery of entry [id], its first delivery, and a hand-over of it. *)
Definition takes (id : string) (ev : sub_event) : bool :=
  match ev with SRead e | SClaimed _ e => bool_decide (ent_ID e = id) | _ => false end.
Definition first_takes (id : string) (ev : sub_event) : bool :=
  match ev with SRead e => bool_decide (ent_ID e = id) | _ => false end.
Definition sends (id : string) (ev : sub_event) : bool :=
  match ev with SSent id' _ => bool_decide (id' = id) | _ => false end.

Lemma count_app P t es : count P (t ++ es) = (count P t + count P es)%nat.
Proof. induction t as [|ev t IH]; simpl; lia. Qed.

Lemma count_replied P t : (forall ev, P ev = true -> is_reply ev = true) -> count P t = count P (replied t).
Proof.
  intros HP. induction t as [|ev t IH]; [done|]. unfold replied in *. simpl.
  destruct (P ev) eqn:He; [rewrite (HP _ He)|destruct (is_reply ev)]; simpl; rewrite ?He; lia.
Qed.

Lemma count_replies P l s s' :
  (forall ev, P ev = true -> is_reply ev = true) -> step l s = Some s' ->
  count P (st_trace s') = (count P (st_trace s) + count P (replies s l))%nat.
Proof.
  intros HP H. rewrite !(count_replied P (st_trace _)) by done. by rewrite <-count_app, (step_replied _ _ _ H).
Qed.

Lemma takes_reply id ev : takes id ev = true -> is_reply ev = true.
Proof. by destruct ev. Qed.
Lemma first_takes_reply id ev : first_takes id ev = true -> is_reply ev = true.
Proof. by destruct ev. Qed.

(** Messages a loop holds and has yet to hand over. *)
Definition emit_owes (id : string) (p : emit_pc) : nat :=
  match p with ESend e _ => if bool_decide (ent_ID e = id) then 1 else 0 | _ => 0 end.
Definition read_owes (id : string) (pc : read_pc) : nat :=
  match pc with REmit p => emit_owes id p | _ => 0 end.
Definition claim_owes (id : string) (pc : claim_pc) : nat :=
  match pc with CEmit p _ => emit_owes id p | _ => 0 end.

(** Every hand-over of an entry used up a delivery of it. *)
Definition handed (id : string) (s : sub_state) : Prop :=
  (count (sends id) (st_trace s) + read_owes id (st_read s) + claim_owes id (st_claim s) <= count (takes id) (st_trace s))%nat.

Lemma claim_next_owes id ps : claim_owes id (claim_next ps) = 0%nat.
Proof. by destruct ps. Qed.

Ltac count_tac :=
  repeat (simpl in *; rewrite ?count_app, ?claim_next_owes in *; try done; try lia; try (first [case_bool_decide|case_match]; simplify_eq/=)).

Lemma emit_step_sends id p l s r s' :
  emit_step p l s = Some (r, s') ->
  (count (sends id) (st_trace s') + match r with inl p' => emit_owes id p' | inr _ => 0 end
     <= count (sends id) (st_trace s) + emit_owes id p)%nat.
Proof.
  intros H. destruct p, l; try done; simpl in H; repeat (case_match; try done); simplify_option_eq; sem_inv;
    count_tac.
Qed.

Lemma emit_begin_sends id e a s p s' :
  emit_begin e a s = (p, s') ->
  count (sends id) (st_trace s') = count (sends id) (st_trace s) /\
  (emit_owes id p <= if bool_decide (ent_ID e = id) then 1 else 0)%nat.
Proof. unfold emit_begin. case_match; intros [= <- <-]; count_tac. Qed.

Ltac sends_tac :=
  count_tac;
  repeat match goal with
  | H : emit_begin _ _ _ = _ |- context [sends ?i] => apply (emit_begin_sends i) in H as [? ?]
  | H : emit_step _ _ _ = Some _ |- context [sends ?i] => apply (emit_step_sends i) in H
  end; count_tac.

Lemma read_step_sends id l s s' :
  read_step l s = Some s' ->
  (count (sends id) (st_trace s') + read_owes id (st_read s')
     <= count (sends id) (st_trace s) + read_owes id (st_read s) + count (takes id) (replies s l))%nat.
Proof.
  intros H. unfold read_step in H. destruct (st_read s) eqn:Hpc, l; try done; simpl in *;
    repeat (case_match; simplify_eq/=; try done); simplify_option_eq; sem_inv; sends_tac.
Qed.

Lemma claim_step_sends id l s s' :
  claim_step l s = Some s' ->
  (count (sends id) (st_trace s') + claim_owes id (st_claim s')
     <= count (sends id) (st_trace s) + claim_owes id (st_claim s) + count (takes id) (replies s l))%nat.
Proof.
  intros H. unfold claim_step in H. destruct (st_claim s) eqn:Hpc, l; try done; simpl in *;
    repeat (case_match; simplify_eq/=; try done); simplify_option_eq; sem_inv; sends_tac.
Qed.

(** One loop leaves the other where it is. *)
Ltac other_loop :=
  simpl in *; repeat (simplify_option_eq; try case_match; try done); simplify_option_eq; sem_inv; try done;
  repeat match goal with
  | H : emit_begin _ _ _ = _ |- _ => apply emit_begin_slots in H as (? & ? & ? & ? & ?)
  | H : emit_step _ _ _ = Some _ |- _ => apply emit_step_slots in H as (? & ? & ? & ?)
  end; repeat (try done; simpl; case_match).

Lemma read_step_claim l s s' : read_step l s = Some s' -> st_claim s' = st_claim s.
Proof. intros H. unfold read_step in H. destruct (st_read s), l; try done; other_loop. Qed.

Lemma claim_step_read l s s' : claim_step l s = Some s' -> st_read s' = st_read s.
Proof. intros H. unfold claim_step in H. destruct (st_claim s), l; try done; other_loop. Qed.

Lemma flight_step_sends id l s s' :
  flight_step l s = Some s' ->
  st_read s' = st_read s /\ st_claim s' = st_claim s /\
  count (sends id) (st_trace s') = count (sends id) (st_trace s) /\ count (takes id) (replies s l) = 0%nat.
Proof.
  intros H. unfold flight_step in H.
  destruct l as [| | | | | | | | | | | | | | | |i ok|i err|i|i ok]; try done; simpl;
    [destruct (st_flights s !! i) as [f|]; try done..|destruct (st_left s !! i) as [f|]; try done];
    simpl in H; repeat (case_match; simplify_eq/=; try done); simplify_option_eq; sem_inv; split_and!; count_tac.
Qed.

Lemma step_handed id l s s' : handed id s -> step l s = Some s' -> handed id s'.
Proof.
  unfold handed. intros Hh H. rewrite (count_replies _ _ _ _ (takes_reply id) H).
  destruct l; cbn [step] in H; try (injection H as <-; simpl in *; lia);
    first [pose proof (read_step_sends id _ _ _ H); apply read_step_claim in H as ->
          |pose proof (claim_step_sends id _ _ _ H); apply claim_step_read in H as ->
          |apply (flight_step_sends id) in H as (-> & -> & -> & ->)]; simpl count in *; lia.
Qed.
End actions.
