(* ===== verification/Router.v ===== *)
(** * The message router and its logger (internal/watermill/router.go, logger.go)

    What the library puts around Watermill's router: handlers that see plain
    payloads and metadata, a subscriber whose Close the router cannot reach, and
    an adapter that writes Watermill's log lines to the application's logger.
    Running and closing Watermill's own router are errors the environment
    chooses. *)

From S2P Require Import Prelude GoStrings GoErrors Config Runtime.
From S2P Require Import Telemetry Delivery Subscriber.
From stdpp Require Import sorting.
From stdpp Require Import options.

(** ** router.go *)

(** A handler reads and writes the state of one delivery, as [dispatch] does. *)
Definition MessageHandler (E : Type) : Type :=
  context E -> string -> metadata -> M (St E) (option error).

(** A consumer handler of Watermill's router: its name, its topic, the
    subscriber it was given, and the function called with each message.
    [message.Context()] is a separate argument. *)
Record route (E : Type) := mkRoute {
  rt_name : string;
  rt_stream : string;
  rt_handle : context E -> message -> M (St E) (option error);
}.
Arguments mkRoute {E}.
Arguments rt_name {E}.
Arguments rt_stream {E}.
Arguments rt_handle {E}.

Record Router (E : Type) := mkRouter {
  rtr_closeTimeout : Duration;
  rtr_logger : ref;
  rtr_routes : list (route E);
}.
Arguments mkRouter {E}.
Arguments rtr_closeTimeout {E}.
Arguments rtr_logger {E}.
Arguments rtr_routes {E}.

(** logger.go, [newLoggerAdapter]. *)
Definition newLoggerAdapter (p : Process) (log : option ref) : ref :=
  match log with Some l => l | None => slog_default p end.

(** [err] is the error message.NewRouter may return. *)
Definition NewRouter {E} (p : Process) (closeTimeout : Duration) (logger : option ref) (err : option error) :
    result error (Router E) :=
  match err with
  | Some e => Err (ErrFmt "creating router: %w" [inr e])
  | None => Ok (mkRouter closeTimeout (newLoggerAdapter p logger) [])
  end.

Definition AddHandler {E} (name stream : string) (h : MessageHandler E) (r : Router E) : Router E :=
  mkRouter (rtr_closeTimeout r) (rtr_logger r)
    (rtr_routes r ++ [mkRoute name stream (fun ctx msg => h ctx (msg_Payload msg) (msg_Metadata msg))]).

(** The Close the router is shown does nothing. *)
Definition sharedSubscriber_Close : option error := None.

(** [err] is what Watermill's Run returned. *)
Definition Router_Run (err : option error) : option error :=
  match err with Some e => Some (ErrFmt "running router: %w" [inr e]) | None => None end.

(** [err] is what the Close of Watermill's router returned. *)
Definition Router_Close (err : option error) : option error := err.

(** ** logger.go *)

Definition logPrefix : string := "watermill: ".

(** [LogFields] is a Go map: [order] is the order in which one iteration
    visited it. *)
Definition LogFields : Type := gmap string attr_val.

Definition logAttrs (fields : LogFields) (order : list string) : attrs :=
  omap (fun k => v ← fields !! k; Some (k, v)) (merge_sort String.le order).

Record slogAdapter := mkSlogAdapter {
  sa_log : ref;
  sa_with : attrs; (* what With added to the logger *)
}.

(** A line is written with the attributes of its logger before its own. *)
Definition adapter_Error (a : slogAdapter) (msg : string) (err : error) (fields : LogFields) (order : list string) :
    event :=
  ELog LevelError (logPrefix +:+ msg) (sa_with a ++ logAttrs fields order ++ [("error", AErr err)]).
Definition adapter_Info (a : slogAdapter) (msg : string) (fields : LogFields) (order : list string) : event :=
  ELog LevelInfo (logPrefix +:+ msg) (sa_with a ++ logAttrs fields order).
Definition adapter_Debug (a : slogAdapter) (msg : string) (fields : LogFields) (order : list string) : event :=
  ELog LevelDebug (logPrefix +:+ msg) (sa_with a ++ logAttrs fields order).
Definition adapter_Trace (a : slogAdapter) (msg : string) (fields : LogFields) (order : list string) : event :=
  ELog LevelDebug (logPrefix +:+ msg) (sa_with a ++ logAttrs fields order).
Definition adapter_With (a : slogAdapter) (fields : LogFields) (order : list string) : slogAdapter :=
  mkSlogAdapter (sa_log a) (sa_with a ++ logAttrs fields order).

(** ** Properties *)

(** An iteration of a Go map visits every key once. *)
Definition iterates (fields : LogFields) (order : list string) : Prop :=
  order ≡ₚ (map_to_list fields).*1.

Lemma logAttrs_keys fields order : iterates fields order -> (logAttrs fields order).*1 = merge_sort String.le order.
Proof.
  intros Hit. unfold logAttrs. assert (Forall (fun k => is_Some (fields !! k)) (merge_sort String.le order)) as H.
  { apply Forall_forall. intros k Hk. rewrite merge_sort_Permutation, Hit in Hk.
    apply list_elem_of_fmap in Hk as ([k' v] & -> & Hk). apply elem_of_map_to_list in Hk. by exists v. }
  induction H as [|k l [v Hv] _ IH]; [done|]. cbn. rewrite Hv. cbn. f_equal. exact IH.
Qed.

(** A log line of Watermill's is deterministic.  In whatever order an
    iteration visits the fields, every field becomes exactly one attribute and
    the attributes are the same, sorted by key. *)
Lemma logAttrs_deterministic fields order order' :
  iterates fields order -> iterates fields order' ->
  logAttrs fields order = logAttrs fields order' /\
  Sorted String.le (logAttrs fields order).*1 /\
  logAttrs fields order ≡ₚ map_to_list fields.
Proof.
  intros H H'. assert (merge_sort String.le order = merge_sort String.le order') as Heq.
  { apply (Sorted_unique String.le); [apply Sorted_merge_sort, _..|].
    by rewrite !merge_sort_Permutation, H, H'. }
  split; [unfold logAttrs; by rewrite Heq|]. split; [rewrite logAttrs_keys by done; apply Sorted_merge_sort, _|].
  apply NoDup_Permutation; [|apply NoDup_map_to_list|].
  - apply (NoDup_fmap_1 fst). rewrite logAttrs_keys, merge_sort_Permutation, H by done. apply NoDup_fst_map_to_list.
  - intros [k v]. transitivity (fields !! k = Some v); [|symmetry; apply (elem_of_map_to_list (M:=gmap string))].
    unfold logAttrs. rewrite list_elem_of_omap. split.
    + intros (k' & _ & Hv). destruct (fields !! k') eqn:Hk; simpl in Hv; [by simplify_eq|done].
    + intros Hv. exists k. rewrite Hv. split; [|done]. rewrite merge_sort_Permutation, H.
      apply list_elem_of_fmap. exists (k, v). split; [done|]. by apply (elem_of_map_to_list (M:=gmap string)).
Qed.

