(* ===== verification/Lifecycle.v ===== *)
(** * The consumer's lifecycle (consumer.go: construction, registration, Run, Close)

    The operations that share a [Consumer] under its mutex.  Each critical
    section is one function on the consumer; [step] interleaves them with the
    rest of [Run], whose progress is a [run_pc], for any number of goroutines
    that register handlers, call [Run] and call [Close].  Building the Redis
    publisher and the router, running the router, and closing a client return
    whatever error the environment chooses. *)

From S2P Require Import Prelude GoStrings GoErrors Validation Registry Config GoDuration Runtime.
From S2P Require Import Telemetry Delivery Publisher Subscriber Router.
From stdpp Require Import options.

(** handler.go, [TopicSelector]. *)
Record TopicSelector := mkTopicSelector { ts_Topic : string }.

(** ** Critical sections *)

Section operations.
Context {E : Type}.
Implicit Types c : Consumer E.

Definition with_registry (r : registry (dispatchFunc E)) c : Consumer E :=
  mkConsumer (c_cfg c) r (c_running c) (c_dlq c) (c_reader c) (c_inst c).
Definition with_running c : Consumer E :=
  mkConsumer (c_cfg c) (c_registry c) true (c_dlq c) (c_reader c) (c_inst c).
Definition with_reader (r : option ref) (dlq : option (deadLetterSink E)) c : Consumer E :=
  mkConsumer (c_cfg c) (c_registry c) (c_running c) dlq r (c_inst c).

Definition NewConsumer `{!MeterApi} (p : Process) (cfg : Config) : result error (Consumer E) * list event :=
  match validate_for_consumer p cfg with
  | Err e => (Err e, [])
  | Ok cfg =>
      match newInstruments (MeterProvider (Telemetry cfg)) (Logger (Telemetry cfg)) with
      | (Some inst, logs) => (Ok (mkConsumer cfg newRegistry false None None inst), logs)
      | (None, logs) => (Err (errorf "nil instruments"), logs)
      end
  end.

Definition registration_closed : error :=
  errorf "consumer: handlers cannot be registered after Run has started".

Definition register c (r : registry (dispatchFunc E) * option error) : Consumer E * option error :=
  if c_running c then (c, Some registration_closed) else (with_registry r.1 c, r.2).

Definition RegisterHandler {T} `{!Payloads T} c (def : EventDef) (h : Handler E T) :
    Consumer E * option error :=
  match validateEventDef def with
  | Some e => (c, Some e)
  | None =>
      match majorVersion (Version def) with
      | Err e => (c, Some (ErrFmt "event def: %w" [inr e]))
      | Ok major =>
          register c (addTyped (c_registry c) (Topic def) (Type_ def) major (typedDispatch h))
      end
  end.

Definition RegisterRawHandler c (sel : TopicSelector) (h : Handler E string) : Consumer E * option error :=
  if String.eqb (ts_Topic sel) "" then (c, Some (errorf "topic selector: Topic is required"))
  else register c (addRaw (c_registry c) (ts_Topic sel) h).

(** Only tests start a consumer this way. *)
Definition markRunning c : Consumer E * bool := if c_running c then (c, false) else (with_running c, true).

(** The critical section [Run] starts with. *)
Definition run_enter c : Consumer E * result error (list string) :=
  if isEmpty (c_registry c) then
    (c, Err (errorf "consumer: no handlers registered; register at least one before calling Run"))
  else if c_running c then (c, Err (errorf "consumer: Run has already been called"))
  else (with_running c, Ok (topicList (c_registry c))).

(** The client [Close] has to close, if any. *)
Definition Close c : Consumer E * option ref :=
  if c_running c then (c, None) else (with_reader None (c_dlq c) c, c_reader c).

Definition topicByStream c (topics : list string) : gmap string string :=
  foldl (fun m topic => <[streamName c topic := topic]> m) ∅ topics.

Definition subscriber_options c (reader : ref) (hook : ref) : SubscriberOptions :=
  mkSubscriberOptions (Some reader) (Concurrency (Consumer_ (c_cfg c)))
    (ClaimInterval (Consumer_ (c_cfg c))) (ClaimMinIdle (Consumer_ (c_cfg c))) 0
    (Logger (Telemetry (c_cfg c))) (Some hook).

(** The [AddHandler] calls: the topic names the handler.  A handler reads the
    consumer it was built over, which no step changes while [Run] serves. *)
Definition handlers `{!Env E, !GoFmt, !GoTime, !JsonCodec} c (topics : list string) (router : Router E) : Router E :=
  foldl (fun r topic =>
    AddHandler topic (streamName c topic) (fun ctx payload md => dispatch c ctx topic payload md) r) router topics.
End operations.

(** ** Run *)

(** Why [Run] is about to close its client. *)
Inductive run_end :=
| FailedWith (e : error)
| Ended (runErr closeErr subCloseErr : option error).

Definition wrap (f : string) (e : option error) : option error :=
  match e with Some e => Some (ErrFmt f [inr e]) | None => None end.

Definition run_result (why : run_end) (readerErr : option error) : option error :=
  match why with
  | FailedWith e => Some e
  | Ended runErr closeErr subCloseErr =>
      errors_Join [Router_Run runErr; wrap "closing router: %w" closeErr;
                   wrap "closing subscriber: %w" subCloseErr; wrap "closing redis client: %w" readerErr]
  end.

Inductive run_pc (E : Type) :=
| RunConnect (topics : list string)
| RunStore (topics : list string) (reader : ref)
| RunBuild (topics : list string) (reader : ref)
| RunServing (reader : ref) (sub : Subscriber) (router : Router E) (topics : gmap string string)
| RunCloseRouter (reader : ref) (runErr : option error)
| RunCloseSubscriber (reader : ref) (runErr closeErr : option error)
| RunCloseReader (reader : ref) (why : run_end)
| RunClear (why : run_end) (readerErr : option error)
| RunReturned (res : option error).
Arguments RunConnect {E}.
Arguments RunStore {E}.
Arguments RunBuild {E}.
Arguments RunServing {E}.
Arguments RunCloseRouter {E}.
Arguments RunCloseSubscriber {E}.
Arguments RunCloseReader {E}.
Arguments RunClear {E}.
Arguments RunReturned {E}.

(** ** Interleavings *)

Inductive life_event :=
| VRegistered (topic : string) (err : option error)
| VClient (r : ref)                                (* a Redis client was built *)
| VClientClosed (r : ref) (err : option error)
| VServed (err : option error)                     (* the router ran and stopped *)
| VRouterClosed (err : option error)
| VLog (l : level) (msg : string)
| VCloseReturned (err : option error).

Record life (E : Type) := mkLife {
  lf_c : Consumer E;
  lf_next : ref;              (* the next client *)
  lf_runs : list (run_pc E);  (* the calls of Run, in the order of their entry *)
  lf_trace : list life_event;
}.
Arguments mkLife {E}.
Arguments lf_c {E}.
Arguments lf_next {E}.
Arguments lf_runs {E}.
Arguments lf_trace {E}.

Inductive life_label (E : Type) :=
| LvRegister {T : Type} (HT : Payloads T) (def : EventDef) (h : Handler E T)
| LvRegisterRaw (topic : string) (h : Handler E string)
| LvRun
| LvClose (err : option error)
| LvConnect (i : nat) (err : option error)
| LvStore (i : nat)
| LvBuild (i : nat) (err : option error)
| LvServed (i : nat) (err : option error)
| LvRouterClosed (i : nat) (err : option error)
| LvSubscriberClosed (i : nat)
| LvReaderClosed (i : nat) (err : option error)
| LvCleared (i : nat).
Arguments LvRegister {E T}.
Arguments LvRegisterRaw {E}.
Arguments LvRun {E}.
Arguments LvClose {E}.
Arguments LvConnect {E}.
Arguments LvStore {E}.
Arguments LvBuild {E}.
Arguments LvServed {E}.
Arguments LvRouterClosed {E}.
Arguments LvSubscriberClosed {E}.
Arguments LvReaderClosed {E}.
Arguments LvCleared {E}.

Section machine.
Context {E : Type} `{HEnv : !Env E, HFmt : !GoFmt, HTime : !GoTime, HJson : !JsonCodec}.
Variables (proc : Process) (hook : ref).
Implicit Types s : life E.

Definition with_consumer (c : Consumer E) s : life E := mkLife c (lf_next s) (lf_runs s) (lf_trace s).
Definition with_runs (rs : list (run_pc E)) s : life E := mkLife (lf_c s) (lf_next s) rs (lf_trace s).
Definition tell_life (es : list life_event) s : life E :=
  mkLife (lf_c s) (lf_next s) (lf_runs s) (lf_trace s ++ es).

(** What the [i]-th call of [Run] does next, given where it is. *)
Definition run_step (l : life_label E) (i : nat) (pc : run_pc E) s : option (run_pc E * life E) :=
  match pc, l with
  | RunConnect topics, LvConnect _ err =>
      let r := lf_next s in
      let s := mkLife (lf_c s) (S r) (lf_runs s) (lf_trace s ++ [VClient r]) in
      match wm_NewPublisher (NewClient (redisClientOptions (Redis (c_cfg (lf_c s))))) err with
      | Err e => Some (RunCloseReader r (FailedWith (ErrFmt "creating dead letter publisher: %w" [inr e])), s)
      | Ok _ => Some (RunStore topics r, s)
      end
  | RunStore topics r, LvStore _ =>
      Some (RunBuild topics r, with_consumer (with_reader (Some r) (Some redisDeadLetterSink) (lf_c s)) s)
  | RunBuild topics r, LvBuild _ err =>
      match NewSubscriber proc (subscriber_options (lf_c s) r hook) with
      | Err e => Some (RunCloseReader r (FailedWith (ErrFmt "creating subscriber: %w" [inr e])), s)
      | Ok sub =>
          match NewRouter proc (ShutdownTimeout (Consumer_ (c_cfg (lf_c s)))) (Logger (Telemetry (c_cfg (lf_c s)))) err with
          | Err e => Some (RunCloseReader r (FailedWith (ErrFmt "creating router: %w" [inr e])), s)
          | Ok router =>
              Some (RunServing r sub (handlers (lf_c s) topics router) (topicByStream (lf_c s) topics), s)
          end
      end
  | RunServing r _ _ _, LvServed _ err => Some (RunCloseRouter r err, tell_life [VServed err] s)
  | RunCloseRouter r runErr, LvRouterClosed _ err =>
      Some (RunCloseSubscriber r runErr err,
            tell_life (VRouterClosed err ::
              match err with
              | Some _ => [VLog LevelError "messaging: router did not shut down cleanly"]
              | None => []
              end) s)
  | RunCloseSubscriber r runErr closeErr, LvSubscriberClosed _ =>
      Some (RunCloseReader r (Ended runErr closeErr None), s)
  | RunCloseReader r why, LvReaderClosed _ err => Some (RunClear why err, tell_life [VClientClosed r err] s)
  | RunClear why err, LvCleared _ =>
      Some (RunReturned (run_result why err), with_consumer (with_reader None None (lf_c s)) s)
  | _, _ => None
  end.

Definition advance (l : life_label E) (i : nat) s : option (life E) :=
  pc ← lf_runs s !! i;
  '(pc', s') ← run_step l i pc s;
  Some (with_runs (<[i := pc']> (lf_runs s')) s').

Definition life_step (l : life_label E) s : option (life E) :=
  match l with
  | LvRegister HT def h =>
      let '(c, err) := RegisterHandler (lf_c s) def h in
      Some (tell_life [VRegistered (Topic def) err] (with_consumer c s))
  | LvRegisterRaw topic h =>
      let '(c, err) := RegisterRawHandler (lf_c s) (mkTopicSelector topic) h in
      Some (tell_life [VRegistered topic err] (with_consumer c s))
  | LvRun =>
      let '(c, r) := run_enter (lf_c s) in
      Some (with_runs (lf_runs s ++ [match r with
                                     | Ok topics => RunConnect topics
                                     | Err e => RunReturned (Some e)
                                     end]) (with_consumer c s))
  | LvClose err =>
      let '(c, r) := Close (lf_c s) in
      Some (tell_life (match r with
                       | Some r => [VClientClosed r err; VCloseReturned err]
                       | None => [VCloseReturned None]
                       end) (with_consumer c s))
  | LvConnect i _ | LvStore i | LvBuild i _ | LvServed i _ | LvRouterClosed i _
  | LvSubscriberClosed i | LvReaderClosed i _ | LvCleared i => advance l i s
  end.

Definition started (c : Consumer E) : life E := mkLife c 0%nat [] [].
End machine.
