(* ===== verification/LifecycleProperties.v ===== *)
(** * Properties of the consumer's lifecycle

    Whatever goroutines register, run and close concurrently: one [Run] at
    most, one client per [Run], closed exactly once; every handler registered
    in time is subscribed; and what [Run] returns is what happened. *)

From S2P Require Import Prelude GoStrings GoErrors Validation Registry Config Runtime Sample.
From S2P Require Import Telemetry Delivery SampleDelivery Publisher Subscriber Router Lifecycle.
From stdpp Require Import options.

#[local] Arguments NewSubscriber : simpl never.

(** ** What a trace says *)

Definition clients (t : list life_event) : list ref :=
  omap (fun e => match e with VClient r => Some r | _ => None end) t.
Definition closed (t : list life_event) : list ref :=
  omap (fun e => match e with VClientClosed r _ => Some r | _ => None end) t.

(** The results of serving and of the teardown steps, in order. *)
Definition outcomes (t : list life_event) : list (option error) :=
  omap (fun e => match e with
                 | VServed err | VRouterClosed err | VClientClosed _ err => Some err
                 | _ => None
                 end) t.

Definition in_progress {E} (pc : run_pc E) : Prop := match pc with RunReturned _ => False | _ => True end.
Definition refused {E} (pc : run_pc E) : Prop := exists e, pc = RunReturned (Some e).

Definition end_outcomes (why : run_end) : list (option error) :=
  match why with FailedWith _ => [] | Ended runErr closeErr _ => [runErr; closeErr] end.
Definition end_ok (why : run_end) : Prop :=
  match why with FailedWith _ => True | Ended _ _ subCloseErr => subCloseErr = None end.

(** Some [Run] returned [res] after doing what [t] says. *)
Definition returned (res : option error) (t : list life_event) : Prop :=
  exists why err, res = run_result why err /\ end_ok why /\ outcomes t = end_outcomes why ++ [err].

Section invariants.
Context {E : Type} `{HEnv : !Env E, HFmt : !GoFmt, HTime : !GoTime, HJson : !JsonCodec}.
Variables (proc : Process) (hook : ref).
Implicit Types (s : life E) (c : Consumer E).

(** The client of a run and where the consumer keeps it. *)
Record holds_client s (stored shut : bool) : Prop := {
  hc_next : lf_next s = 1%nat;
  hc_clients : clients (lf_trace s) = [0%nat];
  hc_closed : closed (lf_trace s) = if shut then [0%nat] else [];
  hc_reader : stored = true -> c_reader (lf_c s) = Some 0%nat /\ c_dlq (lf_c s) = Some redisDeadLetterSink;
}.

(** The router [Run] serves. *)
Definition serving_router c : Router E :=
  handlers c (topicList (c_registry c))
    (mkRouter (ShutdownTimeout (Consumer_ (c_cfg c))) (newLoggerAdapter proc (Logger (Telemetry (c_cfg c)))) []).

(** What is true of the run that entered, by its position. *)
Definition pc_ok s (pc : run_pc E) : Prop :=
  match pc with
  | RunConnect ts =>
      lf_next s = 0%nat /\ clients (lf_trace s) = [] /\ closed (lf_trace s) = [] /\
      outcomes (lf_trace s) = [] /\ ts = topicList (c_registry (lf_c s))
  | RunStore ts r =>
      holds_client s false false /\ r = 0%nat /\ outcomes (lf_trace s) = [] /\
      ts = topicList (c_registry (lf_c s))
  | RunBuild ts r =>
      holds_client s true false /\ r = 0%nat /\ outcomes (lf_trace s) = [] /\
      ts = topicList (c_registry (lf_c s))
  | RunServing r sub router tps =>
      holds_client s true false /\ r = 0%nat /\ outcomes (lf_trace s) = [] /\
      router = serving_router (lf_c s) /\
      tps = topicByStream (lf_c s) (topicList (c_registry (lf_c s))) /\
      NewSubscriber proc (subscriber_options (lf_c s) 0%nat hook) = Ok sub
  | RunCloseRouter r runErr =>
      holds_client s false false /\ r = 0%nat /\ outcomes (lf_trace s) = [runErr]
  | RunCloseSubscriber r runErr closeErr =>
      holds_client s false false /\ r = 0%nat /\ outcomes (lf_trace s) = [runErr; closeErr]
  | RunCloseReader r why =>
      holds_client s false false /\ r = 0%nat /\ end_ok why /\ outcomes (lf_trace s) = end_outcomes why
  | RunClear why err =>
      holds_client s false true /\ end_ok why /\ outcomes (lf_trace s) = end_outcomes why ++ [err]
  | RunReturned res =>
      holds_client s false true /\ returned res (lf_trace s) /\
      c_reader (lf_c s) = None /\ c_dlq (lf_c s) = None
  end.

Inductive life_ok s : Prop :=
| life_fresh :
    c_running (lf_c s) = false -> c_reader (lf_c s) = None -> c_dlq (lf_c s) = None ->
    lf_next s = 0%nat -> clients (lf_trace s) = [] -> closed (lf_trace s) = [] ->
    outcomes (lf_trace s) = [] -> Forall refused (lf_runs s) -> life_ok s
| life_entered k pc :
    c_running (lf_c s) = true -> lf_runs s !! k = Some pc -> pc_ok s pc ->
    (forall j pc', lf_runs s !! j = Some pc' -> j <> k -> refused pc') -> life_ok s.

(** A registration that succeeded is still there, and [Close] never fails. *)
Record life_kept s : Prop := {
  lk_topics topic : VRegistered topic None ∈ lf_trace s -> topic ∈ topics (c_registry (lf_c s));
  lk_close err : VCloseReturned err ∈ lf_trace s -> err = None;
}.

Lemma register_running c r : c_running c = true -> (register c r).1 = c.
Proof. intros H. unfold register. by rewrite H. Qed.

(** A registration replaces the registry, and not while a run has entered. *)
Lemma registered_shape c c' err topic
    (reg : c' = c /\ err <> None \/
           exists r, register c r = (c', err) /\
             ((exists e, r.2 = Some e /\ r.1 = c_registry c) \/
              r.2 = None /\ topics r.1 = {[topic]} ∪ topics (c_registry c))) :
  exists rg, c' = with_registry rg c /\ (c_running c = true -> rg = c_registry c) /\
    topics (c_registry c) ⊆ topics rg /\ (err = None -> topic ∈ topics rg).
Proof.
  destruct reg as [[-> Herr]|(r & Hr & Ht)].
  - exists (c_registry c). split_and!; try done. by destruct c.
  - unfold register in Hr. destruct (c_running c) eqn:Hrun; injection Hr as <- <-.
    + exists (c_registry c). split_and!; try done. destruct c; simpl in *. by subst.
    + exists r.1. split_and!; [done..| |].
      * destruct Ht as [(e & _ & ->)|[_ ->]]; set_solver.
      * intros He. destruct Ht as [(e & He' & _)|[_ ->]]; [congruence|set_solver].
Qed.

Lemma addTyped_topics (r : registry (dispatchFunc E)) t ty m f :
  (exists e, (addTyped r t ty m f).2 = Some e /\ (addTyped r t ty m f).1 = r) \/
  (addTyped r t ty m f).2 = None /\ topics (addTyped r t ty m f).1 = {[t]} ∪ topics r.
Proof. unfold addTyped. repeat case_match; eauto. Qed.

Lemma addRaw_topics (r : registry (dispatchFunc E)) t f :
  (exists e, (addRaw r t f).2 = Some e /\ (addRaw r t f).1 = r) \/
  (addRaw r t f).2 = None /\ topics (addRaw r t f).1 = {[t]} ∪ topics r.
Proof. unfold addRaw. repeat case_match; eauto. Qed.

Lemma RegisterHandler_shape {T} `{!Payloads T} c def (h : Handler E T) c' err :
  RegisterHandler c def h = (c', err) ->
  exists rg, c' = with_registry rg c /\ (c_running c = true -> rg = c_registry c) /\
    topics (c_registry c) ⊆ topics rg /\ (err = None -> Topic def ∈ topics rg).
Proof.
  intros H. apply registered_shape. unfold RegisterHandler in H.
  destruct (validateEventDef def); [injection H as <- <-; by left|].
  destruct (majorVersion _) as [m|]; [|injection H as <- <-; by left].
  right. eexists. split; [exact H|]. apply addTyped_topics.
Qed.

Lemma RegisterRawHandler_shape c topic (h : Handler E string) c' err :
  RegisterRawHandler c (mkTopicSelector topic) h = (c', err) ->
  exists rg, c' = with_registry rg c /\ (c_running c = true -> rg = c_registry c) /\
    topics (c_registry c) ⊆ topics rg /\ (err = None -> topic ∈ topics rg).
Proof.
  intros H. apply registered_shape. unfold RegisterRawHandler in H. cbn [ts_Topic] in H.
  destruct (String.eqb topic ""); [injection H as <- <-; by left|].
  right. eexists. split; [exact H|]. apply addRaw_topics.
Qed.

(** Only the consumer and these four views of the state matter. *)
Definition same_view s s' : Prop :=
  lf_c s' = lf_c s /\ lf_next s' = lf_next s /\ clients (lf_trace s') = clients (lf_trace s) /\
  closed (lf_trace s') = closed (lf_trace s) /\ outcomes (lf_trace s') = outcomes (lf_trace s).

Lemma pc_ok_view s s' pc : same_view s s' -> pc_ok s pc -> pc_ok s' pc.
Proof.
  intros (Hc & Hn & Hcl & Hd & Ho).
  assert (forall a b, holds_client s a b -> holds_client s' a b) as Hh
    by (intros a b []; split; by rewrite ?Hc, ?Hn, ?Hcl, ?Hd).
  destruct pc; simpl; unfold returned; rewrite ?Hc, ?Hn, ?Hcl, ?Hd, ?Ho; intuition auto.
Qed.

Lemma clients_app t t' : clients (t ++ t') = clients t ++ clients t'.
Proof. apply omap_app. Qed.
Lemma closed_app t t' : closed (t ++ t') = closed t ++ closed t'.
Proof. apply omap_app. Qed.
Lemma outcomes_app t t' : outcomes (t ++ t') = outcomes t ++ outcomes t'.
Proof. apply omap_app. Qed.

(** Take the facts about the client apart, and put them together again. *)
Local Ltac holds_tac :=
  repeat match goal with H : holds_client _ _ _ |- _ => destruct H end;
  split_and?; try (constructor; simpl); rewrite ?clients_app, ?closed_app, ?outcomes_app; simpl;
  repeat match goal with H : _ (lf_trace _) = _ |- _ => rewrite H; clear H end;
  repeat match goal with H : lf_next _ = _ |- _ => rewrite H; clear H end; simpl; auto with congruence.

Lemma run_step_ok l i pc s pc' s1 :
  c_running (lf_c s) = true -> pc_ok s pc -> run_step proc hook l i pc s = Some (pc', s1) ->
  pc_ok s1 pc' /\ c_running (lf_c s1) = true /\ lf_runs s1 = lf_runs s.
Proof.
  intros Hrun Hpc H. unfold run_step in H.
  unfold NewRouter, wm_NewPublisher in H.
  destruct pc, l; try done; simpl in Hpc; destruct_and?; simplify_eq;
    repeat (case_match; simplify_eq); (split; [|done]); simpl; holds_tac; try congruence.
  by exists why, readerErr.
Qed.

(** Registering and closing leave a run that entered alone. *)
Lemma life_ok_register rg c topic err s :
  lf_c s = c -> (c_running c = true -> rg = c_registry c) -> life_ok s ->
  life_ok (tell_life [VRegistered topic err] (with_consumer (with_registry rg c) s)).
Proof.
  intros <- Hreg [Hrun ? ? ? Hcl Hd Ho ?|k pc Hrun Hk Hpc Hothers].
  - apply life_fresh; simpl; rewrite ?clients_app, ?closed_app, ?outcomes_app, ?Hcl, ?Hd, ?Ho; done.
  - apply (life_entered _ k pc); simpl; try done. eapply pc_ok_view; [|exact Hpc].
    rewrite Hreg by done. unfold same_view. simpl.
    rewrite clients_app, closed_app, outcomes_app. simpl. rewrite !app_nil_r. split_and!; try done.
    by destruct (lf_c s).
Qed.

Lemma advance_ok l i s s' : life_ok s -> advance proc hook l i s = Some s' -> life_ok s'.
Proof.
  unfold advance. intros Hok H. destruct (lf_runs s !! i) as [pc|] eqn:Hi; [|done]. simpl in H.
  destruct (run_step proc hook l i pc s) as [[pc' s1]|] eqn:Hs; [|done]. injection H as <-.
  destruct Hok as [Hrun ? ? ? Hcl Hd Ho Hf|k pc0 Hrun Hk Hpc Hothers].
  { rewrite Forall_lookup in Hf. destruct (Hf _ _ Hi) as [e ->]. done. }
  destruct (decide (i = k)) as [->|Hne]; [|destruct (Hothers _ _ Hi Hne) as [e ->]; done].
  simplify_eq. apply run_step_ok in Hs as (Hpc' & Hrun' & Hruns); [|done..].
  apply (life_entered _ k pc'); simpl; [done| | |].
  - rewrite Hruns. apply list_lookup_insert_eq. by eapply lookup_lt_Some.
  - eapply pc_ok_view; [|exact Hpc']. done.
  - intros j pc2 Hj Hne. rewrite Hruns, list_lookup_insert_ne in Hj by done. eauto.
Qed.

Lemma run_entry_ok s s' : life_ok s -> life_step proc hook LvRun s = Some s' -> life_ok s'.
Proof.
  simpl. intros Hok H. unfold run_enter in H.
  assert (forall e s, life_ok s -> life_ok (with_runs (lf_runs s ++ [RunReturned (Some e)]) (with_consumer (lf_c s) s)))
    as Hrefuse.
  { clear. intros e s [Hrun ? ? ? Hcl Hd Ho Hf|k pc Hrun Hk Hpc Hothers].
    - apply life_fresh; simpl; try done. apply Forall_app. split; [done|].
      apply Forall_singleton. by exists e.
    - apply (life_entered _ k pc); simpl; [done| | |].
      + by apply lookup_app_l_Some.
      + eapply pc_ok_view; [|exact Hpc]. done.
      + intros j pc2 Hj Hne. apply lookup_app_Some in Hj as [Hj|[_ Hj]]; [eauto|].
        apply list_lookup_singleton_Some in Hj as [_ <-]. by exists e. }
  destruct (isEmpty _); [injection H as <-; auto|].
  destruct (c_running (lf_c s)) eqn:Hrun; [injection H as <-; auto|]. injection H as <-.
  destruct Hok as [_ ? ? ? Hcl Hd Ho Hf|k pc Hrun' _ _ _]; [|congruence].
  apply (life_entered _ (length (lf_runs s)) (RunConnect (topicList (c_registry (lf_c s))))); simpl.
  - done.
  - by rewrite lookup_app_r, Nat.sub_diag by done.
  - done.
  - intros j pc2 Hj Hne. apply lookup_app_Some in Hj as [Hj|[Hle Hj]].
    + by eapply Forall_lookup_1 in Hj.
    + apply list_lookup_singleton_Some in Hj as [? _]. lia.
Qed.

Lemma life_step_ok l s s' : life_ok s -> life_step proc hook l s = Some s' -> life_ok s'.
Proof.
  intros Hok H. destruct l; try (by eapply advance_ok); [| |by eapply run_entry_ok|]; simpl in H.
  - destruct (RegisterHandler _ _ _) as [c err] eqn:Hr. injection H as <-.
    apply RegisterHandler_shape in Hr as (rg & -> & ? & _). by apply life_ok_register.
  - destruct (RegisterRawHandler _ _ _) as [c err] eqn:Hr. injection H as <-.
    apply RegisterRawHandler_shape in Hr as (rg & -> & ? & _). by apply life_ok_register.
  - unfold Close in H. destruct Hok as [Hrun Hrd Hdl ? Hcl Hd Ho Hf|k pc Hrun Hk Hpc Hothers].
    + rewrite Hrun, Hrd in H. injection H as <-.
      apply life_fresh; simpl; rewrite ?clients_app, ?closed_app, ?outcomes_app, ?Hcl, ?Hd, ?Ho; done.
    + rewrite Hrun in H. injection H as <-.
      apply (life_entered _ k pc); simpl; try done. eapply pc_ok_view; [|exact Hpc].
      unfold same_view. simpl. rewrite clients_app, closed_app, outcomes_app. simpl. by rewrite !app_nil_r.
Qed.

(** The run that serves is the one that entered. *)
Lemma serving s i r sub router tps :
  life_ok s -> lf_runs s !! i = Some (RunServing r sub router tps) ->
  c_running (lf_c s) = true /\ pc_ok s (RunServing r sub router tps).
Proof.
  intros [_ _ _ _ _ _ _ Hf|k pc Hrun Hk Hpc Hothers] Hi.
  { by destruct (Forall_lookup_1 _ _ _ _ Hf Hi) as [e ?]. }
  destruct (decide (i = k)) as [->|Hne]; [by simplify_eq|]. by destruct (Hothers _ _ Hi Hne) as [e ?].
Qed.

(** ** What never changes *)

(** Construction settles the configuration and the instruments. *)
Definition fixed c : Config * instruments := (c_cfg c, c_inst c).

(** The rest of [Run] neither registers nor reports for [Close]. *)
Definition own_event (e : life_event) : Prop :=
  match e with VRegistered _ _ | VCloseReturned _ => False | _ => True end.

Lemma run_step_frame l i pc s pc' s1 :
  run_step proc hook l i pc s = Some (pc', s1) ->
  c_registry (lf_c s1) = c_registry (lf_c s) /\ fixed (lf_c s1) = fixed (lf_c s) /\
  c_running (lf_c s1) = c_running (lf_c s) /\
  exists es, lf_trace s1 = lf_trace s ++ es /\ Forall own_event es.
Proof.
  intros H. unfold run_step in H.
  destruct pc, l; try done; simplify_eq; repeat (case_match; simplify_eq); simpl; do 3 (split; [done|]);
    first [by (exists []; rewrite app_nil_r; split; [|constructor])|eexists; split; [done|by repeat constructor]].
Qed.

Lemma advance_frame l i s s' :
  advance proc hook l i s = Some s' ->
  c_registry (lf_c s') = c_registry (lf_c s) /\ fixed (lf_c s') = fixed (lf_c s) /\
  c_running (lf_c s') = c_running (lf_c s) /\
  exists es, lf_trace s' = lf_trace s ++ es /\ Forall own_event es.
Proof.
  unfold advance. intros H. destruct (lf_runs s !! i) as [pc|]; [|done]. simpl in H.
  destruct (run_step proc hook l i pc s) as [[pc' s1]|] eqn:Hs; [|done]. injection H as <-.
  by apply run_step_frame in Hs.
Qed.

Lemma life_step_fixed l s s' : life_step proc hook l s = Some s' -> fixed (lf_c s') = fixed (lf_c s).
Proof.
  intros H. destruct l; try (apply advance_frame in H; tauto); simpl in H.
  - destruct (RegisterHandler _ _ _) as [c err] eqn:Hr. injection H as <-.
    by apply RegisterHandler_shape in Hr as (rg & -> & _).
  - destruct (RegisterRawHandler _ _ _) as [c err] eqn:Hr. injection H as <-.
    by apply RegisterRawHandler_shape in Hr as (rg & -> & _).
  - unfold run_enter in H. repeat case_match; by simplify_eq.
  - unfold Close in H. repeat case_match; by simplify_eq.
Qed.

(** Once a run has entered, the registry is final. *)
Lemma life_step_registry l s s' :
  c_running (lf_c s) = true -> life_step proc hook l s = Some s' ->
  c_running (lf_c s') = true /\ c_registry (lf_c s') = c_registry (lf_c s).
Proof.
  intros Hrun H.
  destruct l; try (apply advance_frame in H as (-> & _ & -> & _); done); simpl in H.
  - destruct (RegisterHandler _ _ _) as [c err] eqn:Hr. injection H as <-.
    apply RegisterHandler_shape in Hr as (rg & -> & Hreg & _). simpl. by rewrite Hreg.
  - destruct (RegisterRawHandler _ _ _) as [c err] eqn:Hr. injection H as <-.
    apply RegisterRawHandler_shape in Hr as (rg & -> & Hreg & _). simpl. by rewrite Hreg.
  - unfold run_enter in H. rewrite Hrun in H. by repeat case_match; simplify_eq.
  - unfold Close in H. rewrite Hrun in H. by simplify_eq.
Qed.

Lemma kept_app s c n rs es :
  life_kept s -> topics (c_registry (lf_c s)) ⊆ topics (c_registry c) ->
  (forall topic, VRegistered topic None ∈ es -> topic ∈ topics (c_registry c)) ->
  (forall err, VCloseReturned err ∈ es -> err = None) ->
  life_kept (mkLife c n rs (lf_trace s ++ es)).
Proof.
  intros [Ht Hc] Hsub Hes Hcl. split; simpl; intros ? [H|H]%elem_of_app; eauto.
Qed.

Lemma kept_registered s rg topic err :
  life_kept s -> topics (c_registry (lf_c s)) ⊆ topics rg -> (err = None -> topic ∈ topics rg) ->
  life_kept (tell_life [VRegistered topic err] (with_consumer (with_registry rg (lf_c s)) s)).
Proof.
  intros Hk Hsub Hin. apply (kept_app s); [done|done| |].
  - intros ? [= -> <-]%list_elem_of_singleton. by apply Hin.
  - by intros ? [=]%list_elem_of_singleton.
Qed.

Lemma life_step_kept l s s' :
  life_ok s -> life_kept s -> life_step proc hook l s = Some s' -> life_kept s'.
Proof.
  intros Hok Hk H. destruct l; try (apply advance_frame in H as (Hreg & _ & _ & es & Ht & Hes);
    destruct s' as [c' n' rs' t']; simpl in *; subst t'; rewrite Forall_forall in Hes;
    apply (kept_app s); [done|by rewrite Hreg|intros ? ?%Hes; done..]); simpl in H.
  - destruct (RegisterHandler _ _ _) as [c err] eqn:Hr. injection H as <-.
    apply RegisterHandler_shape in Hr as (rg & -> & _ & Hsub & Hin). by apply kept_registered.
  - destruct (RegisterRawHandler _ _ _) as [c err] eqn:Hr. injection H as <-.
    apply RegisterRawHandler_shape in Hr as (rg & -> & _ & Hsub & Hin). by apply kept_registered.
  - unfold run_enter in H. destruct Hk as [Ht Hc]. by repeat case_match; simplify_eq; split.
  - unfold Close in H. destruct Hok as [Hrun Hrd|k pc Hrun _ _ _]; rewrite Hrun, ?Hrd in H; injection H as <-;
      apply (kept_app s); simpl; try done; by (intros ? [=]%list_elem_of_singleton; simplify_eq).
Qed.

Lemma started_ok `{HMeter : !MeterApi} cfg c logs :
  NewConsumer proc cfg = (Ok c, logs) -> life_ok (started c) /\ life_kept (started c).
Proof.
  unfold NewConsumer. intros H. repeat case_match; simplify_eq. split.
  - by apply life_fresh.
  - split; simpl; by intros ? ?%elem_of_nil.
Qed.

Lemma run_life_ok `{HMeter : !MeterApi} cfg c logs ls s :
  NewConsumer proc cfg = (Ok c, logs) -> run_steps (life_step proc hook) ls (started c) = Some s ->
  life_ok s /\ life_kept s /\ fixed (lf_c s) = fixed c.
Proof.
  intros Hc. apply (run_steps_invariant _ (fun s => life_ok s /\ life_kept s /\ fixed (lf_c s) = fixed c)).
  - intros l s1 s2 (? & ? & <-) Hs. split_and!; eauto using life_step_ok, life_step_kept, life_step_fixed.
  - apply started_ok in Hc as []. done.
Qed.

Lemma run_registry_final ls s s' :
  c_running (lf_c s) = true -> run_steps (life_step proc hook) ls s = Some s' ->
  c_registry (lf_c s') = c_registry (lf_c s).
Proof.
  intros Hrun H. eapply (run_steps_invariant (life_step proc hook) (fun s2 =>
    c_running (lf_c s2) = true /\ c_registry (lf_c s2) = c_registry (lf_c s))); [|by split|exact H].
  intros l s1 s2 [? <-] Hs. by eapply life_step_registry.
Qed.

(** ** Topics and streams *)

Lemma streamName_inj c t1 t2 : streamName c t1 = streamName c t2 -> t1 = t2.
Proof. unfold streamName. intros H. by do 2 apply string_app_inj in H. Qed.

Lemma topicByStream_lookup c ts stream topic :
  topicByStream c ts !! stream = Some topic <-> topic ∈ ts /\ stream = streamName c topic.
Proof.
  unfold topicByStream. assert (forall m : gmap string string,
    (forall st t, m !! st = Some t -> st = streamName c t) ->
    foldl (fun m t => <[streamName c t := t]> m) m ts !! stream = Some topic <->
      (topic ∈ ts /\ stream = streamName c topic) \/ m !! stream = Some topic) as Hgen.
  { induction ts as [|t ts IH]; simpl; intros m Hm; [rewrite elem_of_nil; tauto|].
    rewrite IH, elem_of_cons, lookup_insert_Some.
    - split; [|destruct (decide (t = topic)) as [->|]].
      + intros [[? ?]|[[<- <-]|[_ ?]]]; auto.
      + intros [[_ ->]|H]; [auto|]. pose proof (Hm _ _ H) as ->. auto.
      + intros [[[->|?] ->]|H]; [done|auto|]. right. right. split; [|done].
        intros Heq. pose proof (Hm _ _ H) as ->. by apply streamName_inj in Heq.
    - intros st t' [[<- <-]|[_ ?]]%lookup_insert_Some; auto. }
  rewrite Hgen by (intros ? ? H; by rewrite lookup_empty in H). rewrite lookup_empty. naive_solver.
Qed.

(** What [AddHandler] adds for a topic. *)
Definition topic_route c topic : route E :=
  mkRoute topic (streamName c topic) (fun ctx msg => dispatch c ctx topic (msg_Payload msg) (msg_Metadata msg)).

Lemma handlers_routes c ts router :
  handlers c ts router =
    mkRouter (rtr_closeTimeout router) (rtr_logger router) (rtr_routes router ++ map (topic_route c) ts).
Proof.
  unfold handlers. revert router. induction ts as [|t ts IH]; intros router; simpl.
  - rewrite app_nil_r. by destruct router.
  - rewrite IH. simpl. by rewrite <-app_assoc.
Qed.

Lemma serving_routes c : rtr_routes (serving_router c) = map (topic_route c) (topicList (c_registry c)).
Proof. unfold serving_router. by rewrite handlers_routes. Qed.

Lemma serving_routes_elem c rt :
  rt ∈ rtr_routes (serving_router c) <-> exists topic, topic ∈ topics (c_registry c) /\ rt = topic_route c topic.
Proof.
  rewrite serving_routes, list_elem_of_fmap. unfold topicList. setoid_rewrite elem_of_elements. naive_solver.
Qed.

Lemma serving_routes_NoDup c :
  NoDup (map rt_name (rtr_routes (serving_router c))) /\ NoDup (map rt_stream (rtr_routes (serving_router c))).
Proof.
  rewrite serving_routes, !map_map. simpl. rewrite map_id. pose proof (NoDup_elements (topics (c_registry c))).
  split; [done|]. assert (Inj (=) (=) (streamName c)) by (intros ? ?; apply streamName_inj).
  by apply (NoDup_fmap_2 (streamName c)).
Qed.

(** ** errors.Join *)

Lemma errors_Is_Join es target :
  errors_Is (errors_Join es) target = existsb (fun e => errors_Is e target) es.
Proof.
  assert (existsb (fun e => errors_Is e target) es = existsb (fun e => errors_Is (Some e) target) (omap id es)) as ->.
  { induction es as [|[e|] es IH]; [done| |done]. cbn [existsb omap list_omap id]. by rewrite IH. }
  unfold errors_Join. destruct (omap id es) as [|e es']; [done|].
  unfold errors_Is. generalize (e :: es'). intros l. cbn [error_tree existsb orb].
  induction l as [|x l IH]; [done|]. cbn [flat_map existsb]. by rewrite existsb_app, IH.
Qed.

Lemma errors_Join_None es : errors_Join es = None <-> Forall (fun e => e = None) es.
Proof.
  unfold errors_Join. rewrite Forall_forall. split.
  - intros H [e|] Hin; [|done].
    assert (e ∈ omap id es) as Hin' by (apply list_elem_of_omap; by exists (Some e)).
    destruct (omap id es); [by apply elem_of_nil in Hin'|done].
  - intros H. destruct (omap id es) as [|e es'] eqn:Ho; [done|].
    assert (e ∈ omap id es) as ([e'|] & Hin & [= ->])%list_elem_of_omap by (rewrite Ho; apply elem_of_cons; auto).
    by apply H in Hin.
Qed.

Lemma errors_Is_wrapped f e target : errors_Is (wrap f e) target = errors_Is e target.
Proof. destruct e as [e|]; [|done]. apply (errors_Is_wrap f [] e). Qed.

Lemma wrap_None f e : wrap f e = None <-> e = None.
Proof. by destruct e. Qed.

Lemma run_result_Ended e1 e2 e3 e4 :
  (run_result (Ended e1 e2 e3) e4 = None <-> e1 = None /\ e2 = None /\ e3 = None /\ e4 = None) /\
  forall target, errors_Is (run_result (Ended e1 e2 e3) e4) target =
    errors_Is e1 target || (errors_Is e2 target || (errors_Is e3 target || (errors_Is e4 target || false))).
Proof.
  simpl. change (Router_Run e1) with (wrap "running router: %w" e1). split.
  - rewrite errors_Join_None, !Forall_cons, Forall_nil, !wrap_None. tauto.
  - intros target. rewrite errors_Is_Join. simpl. by rewrite !errors_Is_wrapped.
Qed.

(** ** Claims *)

Section claims.
Context `{HMeter : !MeterApi}.
Variables (cfg : Config) (c : Consumer E) (logs : list event) (ls : list (life_label E)) (s : life E).
Hypothesis built : NewConsumer proc cfg = (Ok c, logs).
Hypothesis reached : run_steps (life_step proc hook) ls (started c) = Some s.

(** C28: a consumer runs once, and its Redis client is closed once.  However
    registrations, calls of Run and calls of Close interleave, at most one Run
    gets past its entry check, it builds at most one client, nothing closes a
    client twice or one that was not built, Close never fails; and when no Run
    is in progress every client built has been closed and the consumer holds
    neither client nor dead-letter sink. *)
Theorem one_run_one_client :
  (forall i j pc pc', lf_runs s !! i = Some pc -> lf_runs s !! j = Some pc' ->
     in_progress pc -> in_progress pc' -> i = j) /\
  (length (clients (lf_trace s)) <= 1)%nat /\
  (closed (lf_trace s) = [] \/ closed (lf_trace s) = clients (lf_trace s)) /\
  (forall err, VCloseReturned err ∈ lf_trace s -> err = None) /\
  ((forall pc, pc ∈ lf_runs s -> ~ in_progress pc) ->
     closed (lf_trace s) = clients (lf_trace s) /\ c_reader (lf_c s) = None /\ c_dlq (lf_c s) = None).
Proof using built reached.
  destruct (run_life_ok _ _ _ _ _ built reached) as (Hok & Hk & _).
  destruct Hok as [Hrun Hr Hd Hn Hcl Hcd Ho Hf|k pc Hrun Hi Hpc Hothers].
  - rewrite Hcl, Hcd. split_and!; eauto using lk_close.
    intros i j pc pc' Hi _ Hp _. by destruct (Forall_lookup_1 _ _ _ _ Hf Hi) as [e ->].
  - assert (forall i pc', lf_runs s !! i = Some pc' -> in_progress pc' -> i = k) as Hk'.
    { intros i pc' Hi' Hp. destruct (decide (i = k)) as [|Hne]; [done|].
      by destruct (Hothers _ _ Hi' Hne) as [e ->]. }
    split; [intros i j p p' Hi1 Hj1 Hp1 Hp2; by rewrite (Hk' _ _ Hi1 Hp1), (Hk' _ _ Hj1 Hp2)|].
    assert ((length (clients (lf_trace s)) <= 1)%nat /\
      (closed (lf_trace s) = [] \/ closed (lf_trace s) = clients (lf_trace s))) as [? ?].
    { destruct pc; simpl in Hpc; destruct_and?;
        repeat match goal with H : holds_client _ _ _ |- _ => destruct H end;
        repeat match goal with H : _ (lf_trace s) = _ |- _ => rewrite H; clear H end; simpl; auto with lia. }
    split_and!; eauto using lk_close. intros Hall.
    assert (~ in_progress pc) as Hpcp by (apply Hall; by eapply list_elem_of_lookup_2).
    destruct pc; try (by destruct Hpcp). destruct Hpc as ([_ -> -> _] & _ & ? & ?). done.
Qed.

(** C29: no registration is lost.  While Run serves, the router has one handler
    per topic of the registry, under distinct names and on distinct streams;
    every registration that ever returned success is among them; the map given
    to the undecodable hook inverts the streams; the dead-letter sink is set;
    and nothing registered later changes the registry. *)
Theorem no_registration_lost i r sub router tps :
  lf_runs s !! i = Some (RunServing r sub router tps) ->
  NoDup (map rt_name (rtr_routes router)) /\ NoDup (map rt_stream (rtr_routes router)) /\
  (forall rt, rt ∈ rtr_routes router <->
     exists topic, topic ∈ topics (c_registry (lf_c s)) /\ rt = topic_route (lf_c s) topic) /\
  (forall topic stream, tps !! stream = Some topic <->
     topic ∈ topics (c_registry (lf_c s)) /\ stream = streamName (lf_c s) topic) /\
  (forall topic, VRegistered topic None ∈ lf_trace s -> topic_route (lf_c s) topic ∈ rtr_routes router) /\
  c_reader (lf_c s) = Some r /\ c_dlq (lf_c s) = Some redisDeadLetterSink /\
  (forall ls' s', run_steps (life_step proc hook) ls' s = Some s' -> c_registry (lf_c s') = c_registry (lf_c s)).
Proof using built reached.
  intros Hi. destruct (run_life_ok _ _ _ _ _ built reached) as (Hok & Hk & _).
  destruct (serving _ _ _ _ _ _ Hok Hi) as (Hrun & [_ _ _ Hrd] & -> & _ & -> & -> & _). destruct Hrd as [-> ->]; [done|].
  destruct (serving_routes_NoDup (lf_c s)). split; [done|]. split; [done|]. split; [apply serving_routes_elem|].
  split; [|split; [|split; [done|split; [done|]]]].
  - intros topic stream. rewrite topicByStream_lookup. unfold topicList. by rewrite elem_of_elements.
  - intros topic Hreg. apply serving_routes_elem. exists topic. split; [by apply (lk_topics _ Hk)|done].
  - intros ls' s' Hr. by eapply run_registry_final.
Qed.

(** The subscriber runs as configured.  While Run serves a consumer whose
    configuration was accepted, its subscriber has the configured positive
    concurrency, reclaims entries (its interval is positive) only when idle for
    longer than the worst-case backoff of a delivery, and has the hook for
    undecodable entries. *)
Lemma served_as_configured i r sub router tps :
  0 < gomaxprocs proc < 2 ^ 32 ->
  lf_runs s !! i = Some (RunServing r sub router tps) ->
  sb_concurrency sub = Concurrency (Consumer_ (c_cfg c)) /\ 0 < sb_concurrency sub /\
  0 < sb_claimInterval sub <= sb_claimMinIdle sub /\
  worstCaseBackoff (Retry (c_cfg c)) < sb_claimMinIdle sub /\
  sb_onUndecodable sub = Some hook /\ sb_reader sub = r /\ 0 < sb_blockTime sub.
Proof using built reached.
  intros Hg Hi. destruct (run_life_ok _ _ _ _ _ built reached) as (Hok & Hk & Hcfg).
  destruct (serving _ _ _ _ _ _ Hok Hi) as (_ & _ & -> & _ & _ & _ & Hsub).
  assert (consumer_ready (c_cfg c)) as Hready.
  { clear -built Hg. unfold NewConsumer in built.
    destruct (validate_for_consumer proc cfg) as [cfg'|] eqn:Hv; [|done].
    apply validate_for_consumer_ok in Hv as [Ha Hv].
    repeat case_match; simplify_eq. by eapply validated_ready. }
  injection Hcfg as Hcfg _. unfold NewSubscriber in Hsub. simpl in Hsub. rewrite Hcfg in Hsub.
  pose proof (cr_concurrency _ Hready). pose proof (cr_claim _ Hready). pose proof (cr_backoff _ Hready).
  destruct (Concurrency (Consumer_ (c_cfg c)) <? 1) eqn:?; to_prop; [lia|].
  injection Hsub as <-. simpl. unfold defaultBlockTime, Second. split_and!; try done; lia.
Qed.

(** C30: Run reports what happened.  When the Run that entered has returned, it
    returned nil only if the router ran and stopped, closed in time, and the
    client closed, all without error; and once it had served, every such
    failure is found in the error it returned. *)
Theorem run_reports_failures :
  (forall pc, pc ∈ lf_runs s -> ~ in_progress pc) ->
  (RunReturned None ∈ lf_runs s -> outcomes (lf_trace s) = [None; None; None]) /\
  (forall e target, length (outcomes (lf_trace s)) = 3%nat -> Some e ∈ outcomes (lf_trace s) ->
     errors_Is (Some e) target = true ->
     exists err, RunReturned (Some err) ∈ lf_runs s /\ errors_Is (Some err) target = true).
Proof using built reached.
  intros Hall. destruct (run_life_ok _ _ _ _ _ built reached) as (Hok & Hk & _).
  destruct Hok as [_ _ _ _ _ _ Ho Hf|k pc Hrun Hi Hpc Hothers].
  { rewrite Ho. split; [|done]. intros Hin. rewrite Forall_forall in Hf. by apply Hf in Hin as [e [=]]. }
  assert (pc ∈ lf_runs s) as Hin by (by eapply list_elem_of_lookup_2).
  pose proof (Hall _ Hin) as Hp. destruct pc as [| | | | | | | |res]; try (by destruct Hp). clear Hp.
  destruct Hpc as (_ & (why & err & -> & Hend & Hout) & _ & _). rewrite Hout.
  destruct why as [e|e1 e2 e3]; simpl in Hend, Hout; [|subst e3;
    destruct (run_result_Ended e1 e2 None err) as [Hnone His]]; split.
  - intros [j Hj]%list_elem_of_lookup. destruct (decide (j = k)) as [->|Hne]; [simpl in Hi; congruence|].
    by destruct (Hothers _ _ Hj Hne).
  - done.
  - intros [j Hj]%list_elem_of_lookup. destruct (decide (j = k)) as [->|Hne]; [|by destruct (Hothers _ _ Hj Hne)].
    rewrite Hi in Hj. injection Hj as Hj. apply Hnone in Hj as (-> & -> & _ & ->). done.
  - intros e target _ Hine Ht. specialize (His target).
    assert (errors_Is (run_result (Ended e1 e2 None) err) target = true) as Hres.
    { rewrite His. simpl in Hine. rewrite !elem_of_cons, elem_of_nil in Hine.
      destruct Hine as [<-|[<-|[<-|[]]]]; rewrite Ht; by rewrite ?orb_true_r. }
    destruct (run_result (Ended e1 e2 None) err) as [e'|]; [|done]. by exists e'.
Qed.
End claims.
End invariants.

(** ** Witnesses *)

(** One raw handler; a second Run is refused, and so is a late registration;
    the router fails while it runs. *)
Definition life_serving : list (life_label world) :=
  [LvClose None; LvRegisterRaw "orders" scripted; LvRun; LvConnect 0 None; LvRun; LvStore 0;
   LvRegisterRaw "late" scripted; LvBuild 0 None].
Definition life_ended : list (life_label world) :=
  life_serving ++
  [LvServed 0 (Some ErrNoReader); LvRouterClosed 0 None; LvClose None; LvSubscriberClosed 0;
   LvReaderClosed 0 None; LvCleared 0; LvClose None].

Definition new_consumer : Consumer world :=
  mkConsumer minimal_validated newRegistry false None None (instruments_of (MeterProvider (Telemetry minimal_validated))).

Definition run_life (ls : list (life_label world)) : life world :=
  default (started new_consumer) (run_steps (life_step sample_process 7%nat) ls (started new_consumer)).

Example a_lifecycle :
  map (fun pc => match pc with RunReturned r => Some r | _ => None end) (lf_runs (run_life life_ended)) =
    [Some (Some (ErrJoin [ErrFmt "running router: %w" [inr ErrNoReader]]));
     Some (Some (errorf "consumer: Run has already been called"))] /\
  lf_trace (run_life life_ended) =
    [VCloseReturned None; VRegistered "orders" None; VClient 0%nat; VRegistered "late" (Some registration_closed);
     VServed (Some ErrNoReader); VRouterClosed None; VCloseReturned None; VClientClosed 0%nat None;
     VCloseReturned None].
Proof. vm_compute. split; reflexivity. Qed.

Definition sample_sub : Subscriber :=
  mkSubscriber 0%nat 1 (30 * Second) (60 * Second) Second 4%nat (Some 7%nat).

Definition serving_orders : Router world := serving_router sample_process (lf_c (run_life life_serving)).

Lemma life_serving_reached :
  run_steps (life_step sample_process 7%nat) life_serving (started new_consumer) = Some (run_life life_serving).
Proof.
  assert (bool_decide (is_Some (run_steps (life_step sample_process 7%nat) life_serving (started new_consumer))) = true)
    as H by (vm_compute; reflexivity).
  apply bool_decide_eq_true in H as [s Hs]. unfold run_life. by rewrite Hs.
Qed.

(** The router is a function of the consumer: the rest of the position is data. *)
Definition serving_data (pc : option (run_pc world)) : option (ref * Subscriber * gmap string string) :=
  match pc with Some (RunServing r sub _ tps) => Some (r, sub, tps) | _ => None end.

Lemma run_serves : lf_runs (run_life life_serving) !! 0%nat =
  Some (RunServing 0%nat sample_sub serving_orders {[ "foi:orders" := "orders" ]}).
Proof.
  assert (serving_data (lf_runs (run_life life_serving) !! 0%nat) =
    Some (0%nat, sample_sub, {[ "foi:orders" := "orders" ]})) as H by (vm_compute; reflexivity).
  destruct (lf_runs (run_life life_serving) !! 0%nat) as [[]|] eqn:Hi; try discriminate H.
  injection H as -> -> ->. f_equal. f_equal.
  assert (NewConsumer sample_process minimal_config = (Ok new_consumer, [])) as Hc by (vm_compute; reflexivity).
  destruct (run_life_ok sample_process 7%nat _ _ _ _ _ Hc life_serving_reached) as (Hok & _).
  by destruct (serving _ _ _ _ _ _ _ _ Hok Hi) as (_ & _ & _ & _ & -> & _).
Qed.

Lemma one_run_one_client_witness :
  closed (lf_trace (run_life life_ended)) = [0%nat] /\ clients (lf_trace (run_life life_ended)) = [0%nat] /\
  (length (clients (lf_trace (run_life life_ended))) <= 1)%nat.
Proof.
  split; [vm_compute; reflexivity|]. split; [vm_compute; reflexivity|].
  refine (proj1 (proj2 (one_run_one_client sample_process 7%nat minimal_config new_consumer [] life_ended
    (run_life life_ended) _ _))); vm_compute; reflexivity.
Defined.

Lemma no_registration_lost_witness :
  VRegistered "orders" None ∈ lf_trace (run_life life_serving) /\
  topic_route (lf_c (run_life life_serving)) "orders" ∈ rtr_routes serving_orders.
Proof.
  assert (VRegistered "orders" None ∈ lf_trace (run_life life_serving)) as Hin
    by (vm_compute; apply elem_of_cons; right; apply elem_of_cons; by left).
  split; [exact Hin|].
  refine (proj1 (proj2 (proj2 (proj2 (proj2 (no_registration_lost sample_process 7%nat minimal_config
    new_consumer [] life_serving (run_life life_serving) _ life_serving_reached 0 0%nat sample_sub serving_orders
    {[ "foi:orders" := "orders" ]} run_serves))))) "orders" Hin). vm_compute; reflexivity.
Defined.

Lemma run_reports_failures_witness :
  outcomes (lf_trace (run_life life_ended)) = [Some ErrNoReader; None; None] /\
  exists err, RunReturned (Some err) ∈ lf_runs (run_life life_ended) /\
    errors_Is (Some err) "ErrNoReader" = true.
Proof.
  split; [vm_compute; reflexivity|].
  refine (proj2 (run_reports_failures sample_process 7%nat minimal_config new_consumer [] life_ended
    (run_life life_ended) _ _ _) ErrNoReader "ErrNoReader" _ _ _); try (vm_compute; reflexivity).
  - intros pc Hin. vm_compute in Hin.
    repeat (apply elem_of_cons in Hin as [->|Hin]; [by vm_compute|]). by apply elem_of_nil in Hin.
  - vm_compute. apply elem_of_cons. by left.
Defined.
