(* ===== verification/EndToEnd.v ===== *)
(** * From a registration to an acknowledgement

    The lifecycle, one subscription and [dispatch] put together.  A consumer
    built by [NewConsumer] is in [Run], its router serves; one of the routes is
    subscribed.  Of Watermill only its documented contract is assumed: a message
    is acked when the handler it was given returned nil for it. *)

From S2P Require Import Prelude GoStrings GoErrors Validation Registry Config Runtime Sample.
From S2P Require Import Telemetry Delivery SampleDelivery DeliverySpec DeliveryProperties.
From S2P Require Import StreamReader Subscriber SubscriberProperties Router Lifecycle LifecycleProperties.
From stdpp Require Import options.

Section serving.
Context {E : Type} `{HEnv : !Env E, HFmt : !GoFmt, HTime : !GoTime, HJson : !JsonCodec}.
Context `{HMeter : !MeterApi, HUnm : !WmUnmarshaller}.
Variables (proc : Process) (hook : ref) (cfg : Config) (c : Consumer E) (logs : list event).
Variables (ls : list (life_label E)) (s : life E) (i : nat) (r : ref) (sub : Subscriber).
Variables (router : Router E) (tps : gmap string string).
Hypothesis built : NewConsumer proc cfg = (Ok c, logs).
Hypothesis reached : run_steps (life_step proc hook) ls (started c) = Some s.
Hypothesis serves : lf_runs s !! i = Some (RunServing r sub router tps).

Lemma built_instruments : exists mp, c_inst c = instruments_of mp.
Proof using built.
  clear reached serves. unfold NewConsumer in built. destruct (validate_for_consumer proc cfg) as [cfg'|]; [|done].
  destruct (newInstruments_total (MeterProvider (Telemetry cfg')) (Logger (Telemetry cfg'))) as (l & Hn & _).
  rewrite Hn in built. injection built as <- _. simpl. eauto.
Qed.

(** The messages of route [rt] that Watermill acked were handled without error. *)
Definition acks_on_nil (rt : route E) (t : list sub_event) : Prop :=
  forall id msg, SSettled id msg true ∈ t -> exists ctx w w' es, rt_handle rt ctx msg w = (Ret None, w', es).

(** The hook [Run] installs is [handleUndecodable]. *)
Definition hooked_by_run (rt : route E) (t : list sub_event) : Prop :=
  forall id f, SHooked id f None ∈ t ->
    exists ctx w w' es, handleUndecodable (lf_c s) ctx tps (rt_stream rt) id f w = (Ret None, w', es).

(** No event is lost.  While Run serves, take any route of its router and
    any interleaving of the subscription Run opens on it.  Every entry acked in
    Redis was settled first: its handler was called and it was handled or
    discarded, or it had no handler, or one successful write preserved it as a
    dead letter, undecodable entries included. *)
Lemma served_entries_are_settled rt ensure s0 ls' st pre id err post :
  rt ∈ rtr_routes router ->
  Subscribe sub (rt_stream rt) ensure = Ok s0 -> run ls' s0 = Some st ->
  acks_on_nil rt (st_trace st) -> hooked_by_run rt (st_trace st) ->
  st_trace st = pre ++ SAck id err :: post ->
  rt_name rt ∈ topics (c_registry (lf_c s)) /\
  ((exists msg ctx w w' es mp, SSent id msg ∈ pre /\ rt_handle rt ctx msg w = (Ret None, w', es) /\
      settled (lf_c s) mp (rt_name rt) (msg_Payload msg) (msg_Metadata msg) es) \/
   (exists f ctx w w' es raw tm cause body, SHooked id f None ∈ pre /\
      handleUndecodable (lf_c s) ctx tps (rt_stream rt) id f w = (Ret None, w', es) /\
      marshal_fields f = Ok raw /\
      marshal_deadletter
        (letter (lf_c s) tm (rt_name rt) ReasonDeserializationFailed cause 1 (None, Some raw)) = Ok body /\
      writes es = [(dlqStream (lf_c s) (rt_name rt), body, None)])).
Proof using built reached serves.
  intros Hrt Hsub Hrun Hacks Hhook Ht.
  destruct (run_life_ok _ _ _ _ _ _ _ built reached) as (Hok & _ & Hfix).
  destruct (serving _ _ _ _ _ _ _ _ Hok serves) as (_ & _ & _ & _ & -> & Htps & _).
  apply serving_routes_elem in Hrt as (topic & Htopic & ->). split; [done|].
  destruct built_instruments as [mp Hmp]. injection Hfix as _ Hinst.
  destruct (acked_entries_are_settled (lf_c s) mp topic (topicByStream (lf_c s) (topicList (c_registry (lf_c s))))
    sub (streamName (lf_c s) topic) ensure s0 ls' st pre id err post) as [Hl|Hd]; try done.
  - by rewrite Hinst.
  - apply topicByStream_lookup. split; [|done]. by apply elem_of_elements.
  - rewrite <-Htps. exact Hhook.
  - left. destruct Hl as (msg & ctx & w & w' & t & ? & ? & ?). by exists msg, ctx, w, w', t, mp.
  - right. by rewrite Htps.
Qed.
End serving.

(** ** A witness *)

Lemma sample_acked id msg : SSettled id msg true ∈ st_trace sample_final -> id = "1-0" /\ msg = sample_message "2".
Proof.
  intros Hin. vm_compute in Hin.
  repeat (apply elem_of_cons in Hin as [Hin|Hin]; [try discriminate Hin|]); [|by apply elem_of_nil in Hin].
  by injection Hin as -> ->.
Qed.

Lemma sample_unhooked id f : ~ SHooked id f None ∈ st_trace sample_final.
Proof.
  intros Hin. vm_compute in Hin.
  repeat (apply elem_of_cons in Hin as [Hin|Hin]; [discriminate Hin|]). by apply elem_of_nil in Hin.
Qed.

(** The redelivered order, handled on its second delivery. *)
Lemma served_entries_are_settled_witness :
  let c := lf_c (run_life life_serving) in
  let pre := take 7 (st_trace sample_final) in
  st_trace sample_final = pre ++ SAck "1-0" None :: [] /\ "orders" ∈ topics (c_registry c).
Proof.
  intros c pre. assert (st_trace sample_final = pre ++ SAck "1-0" None :: []) as Ht
    by (vm_compute; reflexivity).
  split; [exact Ht|].
  refine (proj1 (served_entries_are_settled sample_process 7%nat minimal_config new_consumer [] life_serving
    (run_life life_serving) 0 0%nat sample_sub serving_orders {[ "foi:orders" := "orders" ]}
    _ life_serving_reached run_serves (topic_route c "orders") None sample_start sample_labels sample_final
    pre "1-0" None [] _ _ _ _ _ Ht)); [vm_compute; reflexivity| |vm_compute; reflexivity..| |].
  - apply serving_routes_elem. exists "orders". split; [vm_compute; reflexivity|reflexivity].
  - intros id msg [-> ->]%sample_acked. exists background, (sample_state (mkWorld 10 [None] None false)).
    eexists _, _. vm_compute. reflexivity.
  - intros id f Hin. by apply sample_unhooked in Hin.
Defined.
