(* ===== verification/TestHarness.v ===== *)
(** * The test harness applications use (testing/: package messagingtest)

    [Dispatch] runs the real consume path on an event and reports its verdict
    without Redis: a probe on the context takes the dead letters, collapses the
    backoff and reads the recorder's outcome.  The letters are collected in a
    variable captured by the probe's sink; [Capture] is that variable, which the
    environment owns and nothing else touches. *)

From S2P Require Import Prelude GoStrings GoErrors Validation Registry Config GoDuration Runtime.
From S2P Require Import Telemetry Delivery.
From stdpp Require Import options.

(** ** event.go *)

Definition defaultSource : string := "messagingtest".
Definition defaultStreamPrefix : string := "foi".

(** [messagingtest.Config] *)
Definition test_Config : Config :=
  mkConfig defaultSource defaultStreamPrefix (mkRedisConfig "127.0.0.1:6379" "" "" None 0 0)
    (mkConsumerConfig defaultSource "" 0 0 0 0 0) (mkRetryConfig 0 0 0)
    (mkTelemetryConfig None None None None false).

(** The value as passed is [None] for an event decoded from bytes. *)
Record test_Event (V : Type) := mkTestEvent {
  ev_Topic : string;
  ev_Envelope : Envelope string;
  ev_Payload : option V;
}.
Arguments mkTestEvent {V}.
Arguments ev_Topic {V}.
Arguments ev_Envelope {V}.
Arguments ev_Payload {V}.

Record eventOptions := mkEventOptions {
  eo_eventID : string;
  eo_correlationID : string;
  eo_source : string;
  eo_timestamp : Time;
}.

Definition EventOption : Type := eventOptions -> eventOptions.
Definition WithEventID (id : string) : EventOption :=
  fun o => mkEventOptions id (eo_correlationID o) (eo_source o) (eo_timestamp o).
Definition test_WithCorrelationID (id : string) : EventOption :=
  fun o => mkEventOptions (eo_eventID o) id (eo_source o) (eo_timestamp o).
Definition WithSource (source : string) : EventOption :=
  fun o => mkEventOptions (eo_eventID o) (eo_correlationID o) source (eo_timestamp o).
Definition WithTimestamp (t : Time) : EventOption :=
  fun o => mkEventOptions (eo_eventID o) (eo_correlationID o) (eo_source o) t.

(** [PayloadAs] *)
Definition PayloadAs {T V} `{!Payloads T} (e : test_Event V) : result error T :=
  if String.eqb (Payload (ev_Envelope e)) "" then Ok payload_zero
  else match payload_unmarshal (Payload (ev_Envelope e)) with
       | Err err => Err (ErrFmt "messagingtest: decoding payload of event type %q: %w"
                           [inl (FQuoted (EventType (ev_Envelope e))); inr err])
       | Ok payload => Ok payload
       end.

(** [json.Marshal] of an application payload. *)
Class PayloadMarshaler (T : Type) := { payload_marshal : T -> result error string }.

Definition NewEvent {E T} `{!Env E, !PayloadMarshaler T} (def : EventDef) (payload : T)
    (opts : list EventOption) : M E (result error (test_Event T)) :=
  eventID <- new_uuid ;;
  match eventID with
  | Err e => ret (Err (ErrFmt "messagingtest: generating event id: %w" [inr e]))
  | Ok eventID =>
      correlationID <- new_uuid ;;
      match correlationID with
      | Err e => ret (Err (ErrFmt "messagingtest: generating correlation id: %w" [inr e]))
      | Ok correlationID =>
          t <- now ;;
          let o := foldl (fun o opt => opt o) (mkEventOptions eventID correlationID defaultSource t) opts in
          match payload_marshal payload with
          | Err e => ret (Err (ErrFmt "messagingtest: marshalling payload for event type %q: %w"
                                 [inl (FQuoted (Type_ def)); inr e]))
          | Ok raw =>
              ret (Ok (mkTestEvent (Topic def)
                         (mkEnvelope (eo_eventID o) (Type_ def) (eo_timestamp o) (Version def)
                            (eo_correlationID o) (eo_source o) raw) (Some payload)))
          end
      end
  end.

(** ** deliver.go *)

(** [Deliver]: one handler call, without the consume path. *)
Definition Deliver {E T} (ctx : context E) (h : Handler E T) (env : Envelope T) (w : E) : handled * E :=
  h (if String.eqb (CorrelationID env) "" then ctx else contextWithCorrelationID ctx (CorrelationID env)) env w.

(** ** dispatch.go *)

Inductive Outcome := OutcomeProcessed | OutcomeSkipped | OutcomeDeadLettered | OutcomeNacked.

#[global] Instance Outcome_eq_dec : EqDecision Outcome.
Proof. solve_decision. Defined.

Definition Outcome_String (o : Outcome) : string :=
  match o with
  | OutcomeProcessed => "processed"
  | OutcomeSkipped => "skipped"
  | OutcomeDeadLettered => "dead_lettered"
  | OutcomeNacked => "nacked"
  end.

Record Result := mkResult {
  res_Outcome : Outcome;
  res_Reason : string;
  res_Category : string;
  res_Err : option error;
  res_DeadLetters : list DeadLetter;
}.

Record dispatchOptions := mkDispatchOptions {
  do_attempt : Z;
  do_metadata : metadata;
  do_realBackoff : bool;
  do_dlqErr : option error;
}.

Definition DispatchOption : Type := dispatchOptions -> dispatchOptions.
Definition WithDeliveryAttempt (n : Z) : DispatchOption :=
  fun o => mkDispatchOptions n (do_metadata o) (do_realBackoff o) (do_dlqErr o).
Definition WithMetadata (md : metadata) : DispatchOption :=
  fun o => mkDispatchOptions (do_attempt o) md (do_realBackoff o) (do_dlqErr o).
Definition WithRealBackoff : DispatchOption :=
  fun o => mkDispatchOptions (do_attempt o) (do_metadata o) true (do_dlqErr o).
Definition WithFailingDLQ (err : option error) : DispatchOption :=
  fun o => mkDispatchOptions (do_attempt o) (do_metadata o) (do_realBackoff o) err.

(** The options of a call, applied in order to the defaults. *)
Definition dispatch_options (opts : list DispatchOption) : dispatchOptions :=
  foldl (fun o (opt : DispatchOption) => opt o) (mkDispatchOptions 1 ∅ false None) opts.

(** The variable [letters] that the sink of a probe appends to. *)
Class Capture (E : Type) := {
  letters : E -> list DeadLetter;
  capture : DeadLetter -> E -> E;
}.

Section dispatch.
Context {E : Type} `{HEnv : !Env E, HFmt : !GoFmt, HTime : !GoTime, HJson : !JsonCodec, HCap : !Capture E}.

(** The probe's [Sink]. *)
Definition test_sink (dlqErr : option error) (stream body : string) (w : E) : option error * E :=
  match dlqErr with
  | Some e => (Some e, w)
  | None =>
      match unmarshal_deadletter body with
      | Err e => (Some (ErrFmt "messagingtest: decoding dead letter: %w" [inr e]), w)
      | Ok dl => (None, capture dl w)
      end
  end.

Definition test_probe (o : dispatchOptions) : Probe E :=
  mkProbe (negb (do_realBackoff o)) (Some (test_sink (do_dlqErr o))).

(** The verdict, from the letters of this call, the probe and dispatch's error. *)
Definition test_result (ls : list DeadLetter) (v : option Verdict) (deliveryErr : option error) : Result :=
  let kind := match v with Some v => v_Kind v | None => "" end in
  mkResult
    (match ls with
     | _ :: _ => OutcomeDeadLettered
     | [] => if String.eqb kind KindFailed then OutcomeNacked
             else if String.eqb kind KindSkipped then OutcomeSkipped
             else OutcomeProcessed
     end)
    (match v with Some v => v_Reason v | None => "" end)
    (match v with Some v => v_Category v | None => "" end)
    (match deliveryErr with
     | Some _ => deliveryErr
     | None => match v with Some v => v_Err v | None => None end
     end)
    ls.

Definition test_metadata (o : dispatchOptions) : metadata :=
  <[MetadataDeliveryAttempt := FormatInt (do_attempt o)]> (do_metadata o).

(** testhooks.go, the hook [Dispatch]: [consumer] is any Go value, a
    [*Consumer] or one of another type, which is named. *)
Definition testseam_Dispatch (ctx : context E) (consumer : Consumer E + string) (topic body : string)
    (md : metadata) (p : Probe E) : M (St E) (option error) :=
  match consumer with
  | inr ty => ret (Some (ErrFmt "messaging: testseam.Dispatch wants a *messaging.Consumer, got %T" [inl (FStr ty)]))
  | inl c => dispatch c (testseam_NewContext ctx p) topic body md
  end.

(** [letters] starts empty: this call's are those appended to the variable. *)
Definition test_Dispatch {V} (ctx : context E) (c : option (Consumer E)) (e : test_Event V)
    (opts : list DispatchOption) : M (St E) (result error Result) :=
  match c with
  | None => ret (Err (errorf "messagingtest: Dispatch needs a consumer, got nil"))
  | Some c =>
      let o := dispatch_options opts in
      match marshal_envelope (ev_Envelope e) with
      | Err err => ret (Err (ErrFmt "messagingtest: marshalling event: %w" [inr err]))
      | Ok body =>
          s0 <- get ;;
          modify (fun s => mkSt (st_env s) (st_rec s) None) ;;
          deliveryErr <- testseam_Dispatch ctx (inl c) (ev_Topic e) body (test_metadata o) (test_probe o) ;;
          s1 <- get ;;
          ret (Ok (test_result (drop (length (letters (st_env s0))) (letters (st_env s1)))
                     (st_verdict s1) deliveryErr))
      end
  end.
End dispatch.
