(* ===== verification/TestHarnessProperties.v ===== *)
(** * The test harness reports what the consume path did

    [test_Dispatch] never disagrees with [dispatch]: its outcome, its error and
    its dead letters are those of the delivery it ran. *)

From S2P Require Import Prelude GoStrings GoErrors Validation Registry Config GoDuration Runtime Sample.
From S2P Require Import Telemetry Delivery SampleDelivery DeliverySpec TestHarness.
From stdpp Require Import options.

#[local] Set Default Proof Using "Type*".

Section harness.
Context {E : Type} `{HEnv : !Env E, HFmt : !GoFmt, HTime : !GoTime, HJson : !JsonCodec, HCap : !Capture E}.
Variables (c : Consumer E) (topic : string).

(** The variable belongs to the sink: neither the environment nor the
    consumer's handlers touch it. *)
Record private : Prop := {
  pv_capture d w : letters (capture d w) = letters w ++ [d];
  pv_now w : letters (env_now w).2 = letters w;
  pv_uuid w : letters (env_uuid w).2 = letters w;
  pv_rand n w : letters (env_rand n w).2 = letters w;
  pv_timer ctx d w : letters (env_timer_first ctx d w).2 = letters w;
  pv_span ctx w : letters (env_start_span ctx w).2 = letters w;
  pv_handler eventType major h m ctx env w :
    lookup_route (c_registry c) topic eventType major = (Some h, m) -> letters (h ctx env w).2 = letters w;
}.
Hypothesis Hprivate : private.

(** The dead letters that were accepted. *)
Definition recorded (ws : list (string * string * option error)) : list DeadLetter :=
  omap (fun w => match w.2 with
                 | Some _ => None
                 | None => match unmarshal_deadletter w.1.2 with Ok dl => Some dl | Err _ => None end
                 end) ws.

Definition captures (s s' : St E) (t : list event) : Prop :=
  letters (st_env s') = letters (st_env s) ++ recorded (writes t) /\
  Forall (fun w => w.2 = None -> is_ok (unmarshal_deadletter w.1.2) = true) (writes t).

#[local] Instance captures_trail : Trail captures.
Proof.
  split; unfold captures; [intros s; split; [by rewrite app_nil_r|constructor]|].
  intros s1 s2 s3 t1 t2 [-> H1] [-> H2].
  rewrite writes_app. unfold recorded. rewrite omap_app, (assoc_L (++)). split; [done|by apply Forall_app].
Qed.

Definition ok {A} (m : M (St E) A) : Prop := respects captures m.

(** A step that writes nothing and leaves the variable alone. *)
Lemma captures_quiet s s' t : letters (st_env s') = letters (st_env s) -> writes t = [] -> captures s s' t.
Proof. unfold captures. intros -> ->. simpl. split; [by rewrite app_nil_r|constructor]. Qed.

Lemma ok_bind {A B} (m : M (St E) A) (k : A -> M (St E) B) : ok m -> (forall a, ok (k a)) -> ok (bind m k).
Proof. apply (respects_bind captures). Qed.

Lemma ok_emit e : writes [e] = [] -> ok (emit e).
Proof. intros H s. by apply captures_quiet. Qed.

Lemma ok_modify_rec f : ok (modify_rec f).
Proof. intros s. by apply captures_quiet. Qed.

Lemma ok_get_rec : ok get_rec.
Proof. intros s. by apply captures_quiet. Qed.

Lemma ok_set_verdict v : ok (set_verdict v).
Proof. intros s. by apply captures_quiet. Qed.

Lemma ok_add i a : ok (add i a).
Proof. unfold add. destruct (i_provider i); [by apply ok_emit|apply (respects_ret captures)]. Qed.

Lemma ok_record i ns a : ok (record i ns a).
Proof. unfold record. destruct (i_provider i); [by apply ok_emit|apply (respects_ret captures)]. Qed.

Lemma ok_log l msg base extra : ok (log l msg base extra).
Proof. by apply ok_emit. Qed.

Lemma ok_lift {A} (m : M E A) :
  (forall w, letters (m w).1.2 = letters w /\ writes (m w).2 = []) -> ok (lift m).
Proof.
  intros Hm [w r v]. unfold lift. simpl. destruct (Hm w) as [? ?].
  destruct (m w) as [[o w'] t]. by apply captures_quiet.
Qed.

Lemma ok_now : ok (lift now).
Proof. apply ok_lift. intros w. unfold now. pose proof (pv_now Hprivate w). by destruct (env_now w). Qed.

Lemma ok_start_span ctx name a : ok (lift (start_span ctx name a)).
Proof.
  apply ok_lift. intros w. unfold start_span. pose proof (pv_span Hprivate ctx w).
  by destruct (env_start_span ctx w).
Qed.

Lemma ok_ret {A} (a : A) : ok (ret a).
Proof. apply (respects_ret captures). Qed.

Lemma ok_panic {A} v : ok (panic (A := A) v).
Proof. intros s; by apply captures_quiet. Qed.

Lemma ok_out_of_fuel {A} : ok (out_of_fuel (A := A)).
Proof. intros s; by apply captures_quiet. Qed.

Lemma ok_if {A} (b : bool) (m1 m2 : M (St E) A) : ok m1 -> ok m2 -> ok (if b then m1 else m2).
Proof. by destruct b. Qed.

Hint Resolve ok_bind ok_emit ok_modify_rec ok_get_rec ok_set_verdict ok_add ok_record ok_log ok_now ok_ret
  ok_if : respects.

(** Take a program apart at its binds and branches. *)
Local Ltac walk :=
  repeat first [progress intros|solve [auto with respects]|apply ok_bind|apply ok_if|case_match].

Lemma ok_newDeadLetter reason cause attempt : ok (newDeadLetter c topic reason cause attempt).
Proof. unfold newDeadLetter. walk. Qed.

Lemma ok_retry attempt err : ok (retry attempt err).
Proof. unfold retry. walk. Qed.

Lemma ok_recordFailure base : ok (recordFailure base).
Proof. unfold recordFailure. walk. Qed.

Hint Resolve ok_newDeadLetter ok_retry ok_recordFailure : respects.

Lemma ok_end : ok end_.
Proof. unfold end_. walk. Qed.

Lemma ok_queue_latency md : ok (queue_latency c topic md).
Proof. unfold queue_latency. walk. Qed.

Lemma ok_sleep ctx upper : ok (sleepWithJitter ctx upper).
Proof.
  unfold sleepWithJitter. apply ok_if; apply ok_lift; intros w; [done|].
  pose proof (pv_rand Hprivate upper w). destruct (env_rand upper w) as [d w1].
  pose proof (pv_timer Hprivate ctx d w1). destruct (env_timer_first ctx d w1) as [b w2]. simpl in *.
  split; [by etrans|done].
Qed.

Hint Resolve ok_end ok_queue_latency ok_sleep : respects.

(** ** Under a probe *)

Variable o : dispatchOptions.

(** A context the harness's probe is on. *)
Definition probed (ctx : context E) : Prop := ctx_probe ctx = Some (test_probe o).

Lemma ok_sink stream body : ok (lift (fun w => let '(err, w') := test_sink (do_dlqErr o) stream body w in
  (Ret err, w', [EWrite stream body err]))).
Proof.
  intros [w r v]. unfold lift, captures, test_sink. simpl.
  destruct (do_dlqErr o); simpl; [split; [by rewrite app_nil_r|by repeat constructor]|].
  destruct (unmarshal_deadletter body) eqn:Hu; simpl; rewrite ?Hu; split;
    first [apply (pv_capture Hprivate)|by rewrite app_nil_r|apply Forall_singleton; simpl; by rewrite Hu].
Qed.

Lemma ok_deadLetter ctx dl : probed ctx -> ok (deadLetter c ctx topic dl).
Proof.
  intros Hp. unfold deadLetter, deadLetter_sink, testseam_FromContext. rewrite Hp. simpl.
  walk. apply ok_sink.
Qed.

Lemma ok_call_handler eventType major h m ctx env :
  lookup_route (c_registry c) topic eventType major = (Some h, m) -> ok (call_handler h ctx env).
Proof.
  intros Hl. unfold call_handler. walk. apply ok_lift. intros w.
  pose proof (pv_handler Hprivate _ _ _ _ ctx env w Hl). by destruct (h ctx env w) as [[] w'].
Qed.

Hint Resolve ok_deadLetter : respects.

Lemma ok_retry_loop ctx payload attempt eventType major h m env lg fuel i :
  probed ctx -> lookup_route (c_registry c) topic eventType major = (Some h, m) ->
  ok (retry_loop c ctx topic payload attempt h env lg fuel i).
Proof.
  intros Hp Hl. revert i. induction fuel as [|fuel IH]; intros i; [apply ok_out_of_fuel|].
  cbn [retry_loop]. apply ok_bind; [by eapply ok_call_handler|]. walk.
Qed.

Lemma ok_route_and_run ctx payload attempt env major lg :
  probed ctx -> ok (route_and_run c ctx topic payload attempt env major lg).
Proof.
  intros Hp. unfold route_and_run. destruct (lookup_route _ _ _ _) as [h m] eqn:Hl.
  apply ok_if; [walk|]. apply ok_bind; [walk|intros _].
  destruct h; [|apply ok_panic]. unfold runWithRetry. by eapply ok_retry_loop.
Qed.

Hint Resolve ok_route_and_run : respects.

Lemma ok_dispatch_body ctx span payload md : probed ctx -> ok (dispatch_body c ctx span topic payload md).
Proof. intros Hp. unfold dispatch_body, decode_and_run, reject. walk. Qed.

Lemma ok_dispatch ctx payload md : ctx_probe ctx = Some (test_probe o) -> ok (dispatch c ctx topic payload md).
Proof.
  intros Hp. unfold dispatch.
  apply ok_bind; [|intros span].
  { apply (ok_start_span). }
  apply ok_bind; [apply ok_now|intros t]. apply ok_bind; [apply ok_modify_rec|intros _].
  apply (respects_with_defer captures); [|apply ok_end].
  apply ok_dispatch_body. unfold probed. by destruct (env_extract md).
Qed.

(** ** Agreement *)

(** The result says what a delivery with this trace and error did. *)
Definition agrees (t : list event) (err : option error) (res : Result) : Prop :=
  res_DeadLetters res = recorded (writes t) /\
  match res_Outcome res with
  | OutcomeProcessed => err = None /\ writes t = [] /\ last (returns t) = Some None
  | OutcomeSkipped =>
      err = None /\ writes t = [] /\
      (calls t = [] /\ res_Reason res = reasonNoHandler \/
       exists e, last (returns t) = Some (Some e) /\ IsDiscard (Some e) = true /\ res_Reason res = reasonDiscard)
  | OutcomeDeadLettered =>
      err = None /\
      exists body dl, writes t = [(dlqStream c topic, body, None)] /\
        unmarshal_deadletter body = Ok dl /\ res_DeadLetters res = [dl]
  | OutcomeNacked =>
      err <> None /\ res_Err res = err /\ Forall (fun w => w.2 <> None) (writes t)
  end.

Lemma agrees_dead_letter mp sink t dl err ms final :
  dlq_result mp sink (dlqStream c topic) dl err (writes t) ms ->
  Forall (fun w => w.2 = None -> is_ok (unmarshal_deadletter w.1.2) = true) (writes t) ->
  rec_kind final = outcomeFailed ->
  agrees t err (test_result (recorded (writes t)) (Some (verdict_of final)) err).
Proof.
  intros Hd Hacc Hk. unfold agrees, test_result, verdict_of. rewrite Hk.
  remember (writes t) as ws eqn:Hw.
  destruct Hd as [body _ Hm| | | |]; simpl; try (split_and!; repeat constructor; done).
  inversion Hacc as [|? ? Hok _]; subst. simpl in Hok. specialize (Hok eq_refl).
  destruct (unmarshal_deadletter body) as [d|] eqn:Hu; [|done].
  simpl. split_and!; try done. by exists body, d.
Qed.

Lemma agrees_no_write t err r final :
  writes t = [] -> err = r ->
  (rec_kind final = outcomeProcessed -> err = None /\ last (returns t) = Some None) ->
  (rec_kind final = outcomeSkipped -> err = None /\
     (calls t = [] /\ rec_reason final = reasonNoHandler \/
      exists e, last (returns t) = Some (Some e) /\ IsDiscard (Some e) = true /\ rec_reason final = reasonDiscard)) ->
  (rec_kind final = outcomeFailed -> err <> None) -> rec_kind final <> outcomeUnset ->
  agrees t err (test_result (recorded (writes t)) (Some (verdict_of final)) r).
Proof.
  intros Hw <- Hp Hs Hf Hu. unfold agrees, test_result, verdict_of. rewrite Hw. simpl.
  destruct (rec_kind final); simpl;
    first [by destruct Hu|destruct (Hp eq_refl); by split_and!|destruct (Hs eq_refl); by split_and!|idtac].
  specialize (Hf eq_refl). by destruct err.
Qed.

Lemma last_app_one {A} (l : list A) x : last (l ++ [x]) = Some x.
Proof. by rewrite last_snoc. Qed.

Lemma delivery_agrees mp ctx payload md span start final s s' err body t :
  delivery c mp ctx topic payload md span start final s (Ret err) s' body t ->
  Forall (fun w => w.2 = None -> is_ok (unmarshal_deadletter w.1.2) = true) (writes t) ->
  agrees t err (test_result (recorded (writes t)) (Some (verdict_of final)) err).
Proof.
  intros [(w1 & w2 & _ & Hd & _) _ Hw Hc Hr _ _ _ _ _ _ _] Hacc.
  inversion Hd as [? ? _ _ _ _ _ [tm Hdl] _|? ? ? ? _ _ _ _ _ _ [tm Hdl] _|? ? ? ? _ _ _ _ Hc0 _ _ Hw0 _ _|
    env major h m o' r' ? _ _ _ _ _ Hrun _]; subst.
  - rewrite <-Hw in Hdl. by eapply agrees_dead_letter.
  - rewrite <-Hw in Hdl. by eapply agrees_dead_letter.
  - apply agrees_no_write; try done; [by rewrite Hw|]. intros _. split; [done|left]. by rewrite Hc.
  - inversion Hrun as [retried la ? ? ws ms _ _ Hret _ _ Hcon Hws _|]; subst.
    assert (last (returns t) = Some la) as Hlast by (rewrite Hr, Hret; apply last_app_one).
    inversion Hcon as [|e Hdis|e ? ? ? Hperm [tm Hdl]|e Hret'|e Hret']; subst;
      try (apply agrees_no_write; [congruence|done|..]; simpl; try done; eauto 10; fail).
    rewrite <-Hw in Hdl. by eapply agrees_dead_letter.
Qed.
End harness.

(** The attempt number an option asks for is the one the consume path reads. *)
Lemma test_attempt o :
  1 <= do_attempt o -> in_int64 (do_attempt o) -> deliveryAttempt (test_metadata o) = do_attempt o.
Proof.
  intros H1 Hr. apply deliveryAttempt_stamp; [apply md_get_insert|done..].
Qed.

(** C31: the test harness cannot report what the library would not do.  If
    nothing but the probe's sink touches the variable it appends to, a result of
    [messagingtest.Dispatch] comes from one run of the real dispatch on the
    event's encoding, with the attempt number asked for, and states it
    faithfully: processed, skipped (with its reason) and dead-lettered mean
    that dispatch returned nil after a success, without a handler or on a
    discard, or after one accepted dead letter, the one reported; nacked means
    that it returned the reported error and wrote nothing that was accepted. *)
Theorem harness_agrees {E : Type} `{HEnv : !Env E, HFmt : !GoFmt, HTime : !GoTime, HJson : !JsonCodec,
    HCap : !Capture E} {V : Type} (c : Consumer E) mp ctx (e : test_Event V) opts (s s' : St E) res t :
  c_inst c = instruments_of mp -> private c (ev_Topic e) ->
  test_Dispatch ctx (Some c) e opts s = (Ret (Ok res), s', t) ->
  exists body err, let o := dispatch_options opts in
    marshal_envelope (ev_Envelope e) = Ok body /\
    dispatch c (testseam_NewContext ctx (test_probe o)) (ev_Topic e) body (test_metadata o)
      (mkSt (st_env s) (st_rec s) None) = (Ret err, s', t) /\
    (1 <= do_attempt o -> in_int64 (do_attempt o) -> deliveryAttempt (test_metadata o) = do_attempt o) /\
    agrees c (ev_Topic e) t err res.
Proof.
  intros Hi Hp H. unfold test_Dispatch in H. set (o := dispatch_options opts) in *.
  destruct (marshal_envelope (ev_Envelope e)) as [body|]; [|done].
  exists body. unfold bind, get, modify in H. simpl in H.
  set (ctx' := testseam_NewContext ctx (test_probe o)) in *. set (s0 := mkSt (st_env s) (st_rec s) None) in *.
  destruct (dispatch_run c mp Hi ctx' (ev_Topic e) body (test_metadata o) s0)
    as (out & s1 & t1 & span & start & final & inner & Hrun & Hd).
  pose proof (ok_dispatch c (ev_Topic e) Hp o ctx' body (test_metadata o) eq_refl s0) as [Hl Hacc].
  rewrite Hrun in *. destruct out as [err|v|]; [|done..]. simpl in *. injection H as <- <- <-.
  rewrite app_nil_r in *. exists err. fold o. split_and!; try done; [apply test_attempt|].
  rewrite (dv_verdict _ _ _ _ _ _ _ _ _ _ _ _ _ _ Hd) by (by eexists).
  rewrite Hl, drop_app_length. by eapply delivery_agrees.
Qed.

(** The harness's default events are valid.  An event that NewEvent builds
    without options for a definition a handler can be registered for passes the
    validation of the consume path, whatever its payload, and goes to the
    definition's topic with the payload's encoding; it fails only when
    identifiers or the payload's encoding do. *)
Lemma new_event_valid {E T : Type} `{HEnv : !Env E, HMar : !PayloadMarshaler T} def (payload : T) (w w' : E) r t :
  validateEventDef def = None ->
  (env_uuid w).1 <> Ok "" -> (env_uuid (env_uuid w).2).1 <> Ok "" ->
  (env_now (env_uuid (env_uuid w).2).2).1 <> 0 ->
  NewEvent def payload [] w = (Ret r, w', t) ->
  t = [] /\
  match r with
  | Ok e =>
      validateEnvelope (ev_Envelope e) = None /\ ev_Topic e = Topic def /\ ev_Payload e = Some payload /\
      payload_marshal payload = Ok (Payload (ev_Envelope e)) /\ EventType (ev_Envelope e) = Type_ def /\
      SchemaVersion (ev_Envelope e) = Version def
  | Err _ =>
      is_ok (env_uuid w).1 = false \/ is_ok (env_uuid (env_uuid w).2).1 = false \/
      is_ok (payload_marshal payload) = false
  end.
Proof.
  intros Hdef Hid1 Hid2 Htm H. unfold NewEvent, bind, new_uuid, now, ret in H.
  destruct (env_uuid w) as [[id|e] w1]; simpl in *; [|simplify_eq; auto].
  destruct (env_uuid w1) as [[corr|e] w2]; simpl in *; [|simplify_eq; auto].
  destruct (env_now w2) as [tm w3]; simpl in *.
  destruct (payload_marshal payload) as [raw|e]; simplify_eq/=; [|auto]. split; [done|].
  split_and!; try done. unfold validateEventDef in Hdef. unfold validateEnvelope, IsZero. simpl.
  repeat (case_match; simplify_eq; to_prop; try congruence).
Qed.

(** ** A concrete run *)

Definition capturing : Type := world * list DeadLetter.

#[local] Instance capturing_env : Env capturing := {
  env_now w := ((env_now w.1).1, ((env_now w.1).2, w.2));
  env_uuid w := ((env_uuid w.1).1, ((env_uuid w.1).2, w.2));
  env_rand n w := ((env_rand n w.1).1, ((env_rand n w.1).2, w.2));
  env_ctx_done _ w := w_cancelled w.1;
  env_timer_first _ _ w := (negb (w_cancelled w.1), w);
  env_xadd _ _ _ _ _ w := (w_down w.1, w);
  env_start_span _ w := (Z.to_nat (w_clock w.1), (tick w.1, w.2));
  env_span_ids n := ("trace", "span");
  env_extract md := md !! "traceparent";
  env_inject _ md := md;
}.

#[local] Instance capturing_letters : Capture capturing := {
  letters w := w.2;
  capture d w := (w.1, w.2 ++ [d]);
}.

(** [plain_codec], which also reads dead letters back: their first word. *)
Definition letter_codec : JsonCodec := {|
  json_Valid := json_Valid;
  unmarshal_envelope := unmarshal_envelope;
  marshal_envelope := marshal_envelope;
  marshal_deadletter := marshal_deadletter;
  unmarshal_deadletter s := Ok (mkDeadLetter 0 (Cut s ":").1.1 "" 0 "" "" "" None None);
  marshal_fields := marshal_fields;
|}.

Definition capturing_handler : dispatchFunc capturing :=
  fun ctx env w => let '(r, w') := scripted background env w.1 in (r, (w', w.2)).

Definition capturing_consumer : Consumer capturing :=
  mkConsumer minimal_validated (addTyped newRegistry "orders" "order.created" 1 capturing_handler).1
    false None None (instruments_of (Some 1%nat)).

Definition sample_test_event : test_Event unit := mkTestEvent "orders" sample_envelope None.

Definition sample_test (script : list (option error)) (opts : list DispatchOption) :=
  test_Dispatch (HJson := letter_codec) background (Some capturing_consumer) sample_test_event opts
    (mkSt (mkWorld 10 script None false, []) (newDeliveryRecorder (instruments_of None) 0 "" "" None false 0) None).

Lemma capturing_private : private capturing_consumer "orders".
Proof.
  split; try done. intros eventType major h m ctx env w H.
  assert (h = capturing_handler) as ->.
  { unfold lookup_route in H.
    change (raw (c_registry capturing_consumer)) with (∅ : gmap string (dispatchFunc capturing)) in H.
    change (typed (c_registry capturing_consumer))
      with (<[mkRouteKey "orders" "order.created" 1 := capturing_handler]> (∅ : gmap routeKey (dispatchFunc capturing))) in H.
    rewrite lookup_empty in H.
    destruct (<[_ := _]> _ !! _) as [h'|] eqn:Hl; [|done]. injection H as <- _.
    apply lookup_insert_Some in Hl as [[_ <-]|[_ Hl]]; [done|by rewrite lookup_empty in Hl]. }
  unfold capturing_handler. simpl. by destruct (scripted background env w.1).
Qed.

Definition outcome_of (x : outcome (result error Result) * St capturing * list event) : option (Outcome * string) :=
  match x.1.1 with Ret (Ok r) => Some (res_Outcome r, res_Reason r) | _ => None end.

Example harness_outcomes :
  outcome_of (sample_test [None] []) = Some (OutcomeProcessed, "") /\
  outcome_of (sample_test [AsDiscard (Some boom)] []) = Some (OutcomeSkipped, "discard") /\
  outcome_of (sample_test [AsPermanent (Some boom)] []) = Some (OutcomeDeadLettered, "") /\
  outcome_of (sample_test [AsPermanent (Some boom)] [WithFailingDLQ (Some boom)]) = Some (OutcomeNacked, "") /\
  outcome_of (sample_test [] [WithDeliveryAttempt 6]) = Some (OutcomeDeadLettered, "").
Proof. vm_compute. split_and!; reflexivity. Qed.

(** A permanent failure, dead-lettered. *)
Lemma harness_agrees_witness :
  let run := sample_test [AsPermanent (Some boom)] [] in
  exists res body err, let o := dispatch_options [] in
    run.1.1 = Ret (Ok res) /\ res_Outcome res = OutcomeDeadLettered /\
    dispatch (HJson := letter_codec) capturing_consumer (testseam_NewContext background (test_probe (HJson := letter_codec) o))
      "orders" body (test_metadata o)
      (mkSt (mkWorld 10 [AsPermanent (Some boom)] None false, [])
         (newDeliveryRecorder (instruments_of None) 0 "" "" None false 0) None) = (Ret err, run.1.2, run.2) /\
    agrees (HJson := letter_codec) capturing_consumer "orders" run.2 err res.
Proof.
  intros run. destruct run.1.1 as [[res|]| |] eqn:Hrun; try (vm_compute in Hrun; discriminate Hrun).
  exists res.
  destruct (harness_agrees (HJson := letter_codec) capturing_consumer (Some 1%nat) background sample_test_event []
    (mkSt (mkWorld 10 [AsPermanent (Some boom)] None false, [])
       (newDeliveryRecorder (instruments_of None) 0 "" "" None false 0) None) run.1.2 res run.2)
    as (body & err & _ & Hd & _ & Ha).
  - vm_compute. reflexivity.
  - exact capturing_private.
  - change (run = (Ret (Ok res), run.1.2, run.2)). rewrite <-Hrun. by destruct run as [[? ?] ?].
  - exists body, err. split; [done|]. split; [|split; [exact Hd|exact Ha]].
    vm_compute in Hrun. by injection Hrun as <-.
Defined.

(** An order event of the sample world. *)
#[local] Instance string_payload : PayloadMarshaler string := { payload_marshal s := Ok s }.

