(* ===== verification/TestPublisher.v ===== *)
(** * The recording publisher (testing/publisher.go, testhooks.go)

    A publisher for application tests: the real [Publish] with its transport
    replaced by [record], which decodes the body again and appends it to a list.
    The fake's mutable fields, guarded by its mutex, are a [recorder]; they are
    the first component of the environment, and only [record] and the fake's
    other methods touch them. *)

From S2P Require Import Prelude GoStrings GoErrors Validation Registry Config GoDuration Runtime.
From S2P Require Import Sample Telemetry Delivery SampleDelivery Publisher TestHarness.
From stdpp Require Import options.

(** ** The fake *)

(** A payload as the caller passed it is a Go value, opaque here. *)
Record recorder := mkRecorder {
  rc_events : list (test_Event ref);
  rc_failErr : option error;
}.

(** What third parties see of a context: its values under the library's own
    keys are out of their reach. *)
Definition foreign_view {E W} (ctx : context E) : context W :=
  mkContext None None (ctx_span ctx) (ctx_remote ctx) (ctx_detached ctx) None.

#[export] Instance recording_env {W} `{!Env W} : Env (recorder * W) := {
  env_now w := let '(t, w') := env_now w.2 in (t, (w.1, w'));
  env_uuid w := let '(r, w') := env_uuid w.2 in (r, (w.1, w'));
  env_rand n w := let '(r, w') := env_rand n w.2 in (r, (w.1, w'));
  env_ctx_done ctx w := env_ctx_done (foreign_view ctx) w.2;
  env_timer_first ctx d w := let '(b, w') := env_timer_first (foreign_view ctx) d w.2 in (b, (w.1, w'));
  env_xadd ctx stream id body md w :=
    let '(err, w') := env_xadd (foreign_view ctx) stream id body md w.2 in (err, (w.1, w'));
  env_start_span ctx w := let '(n, w') := env_start_span (foreign_view ctx) w.2 in (n, (w.1, w'));
  env_span_ids := env_span_ids;
  env_extract := env_extract;
  env_inject ctx md := env_inject (foreign_view ctx) md;
}.

Record publisherOptions := mkPublisherOptions { po_source : string }.

Definition PublisherOption : Type := publisherOptions -> publisherOptions.
Definition WithPublisherSource (source : string) : PublisherOption := fun _ => mkPublisherOptions source.

Section fake.
Context {W : Type} `{HEnv : !Env W, HTime : !GoTime, HMeter : !MeterApi, HJson : !JsonCodec}.

(** The [Publisher] of messagingtest; its mutable fields are the [recorder]. *)
Record test_Publisher := mkTestPublisher {
  tp_real : Publisher (recorder * W);
  tp_prefix : string;
}.

(** [json.Unmarshal] into an envelope, then the append. *)
Definition record (prefix : string) : publishFunc (recorder * W) :=
  fun ctx stream _ body _ w =>
    match rc_failErr w.1 with
    | Some e => (Ret (Some e), w, [])
    | None =>
        match unmarshal_envelope body with
        | Err e => (Ret (Some (ErrFmt "messagingtest: decoding recorded envelope: %w" [inr e])), w, [])
        | Ok env =>
            let ev := mkTestEvent (TrimPrefix stream (prefix +:+ ":")) env (ctx_payload ctx) in
            (Ret None, (mkRecorder (rc_events w.1 ++ [ev]) None, w.2), [])
        end
    end.

(** testhooks.go, the hook [NewRecordingPublisher]. *)
Definition NewRecordingPublisher (proc : Process) (source streamPrefix : string) (fn : publishFunc (recorder * W))
    (err : option error) : result error (Publisher (recorder * W)) * list event :=
  let cfg := mkConfig source streamPrefix (mkRedisConfig "127.0.0.1:6379" "" "" None 0 0)
    (mkConsumerConfig "" "" 0 0 0 0 0) (mkRetryConfig 0 0 0) (mkTelemetryConfig None None None None false) in
  match NewPublisher proc cfg err with
  | (Err e, logs) => (Err (ErrFmt "building recording publisher: %w" [inr e]), logs)
  | (Ok p, logs) => (Ok (mkPublisher (p_cfg p) (p_wm p) (p_inst p) fn), logs)
  end.

(** The seam's result is a [*messaging.Publisher], as its type here says. *)
Definition test_NewPublisher (proc : Process) (opts : list PublisherOption) (err : option error) :
    result error test_Publisher * list event :=
  let o := foldl (fun o opt => opt o) (mkPublisherOptions defaultSource) opts in
  match NewRecordingPublisher proc (po_source o) defaultStreamPrefix (record defaultStreamPrefix) err with
  | (Err e, logs) => (Err (ErrFmt "messagingtest: building recording publisher: %w" [inr e]), logs)
  | (Ok real, logs) => (Ok (mkTestPublisher real defaultStreamPrefix), logs)
  end.

(** [payload] as an interface value is [box payload]. *)
Definition test_Publish {P} `{HMar : !Marshaler P} (box : P -> ref) (p : test_Publisher) (ctx : context (recorder * W))
    (def : EventDef) (payload : P) (opts : list PublishOption) : M (recorder * W) (result error PublishResult) :=
  Publish (tp_real p) (ctx_with_payload ctx (box payload)) def payload opts.

Definition Published (r : recorder) : list (test_Event ref) := rc_events r.
Definition Reset (r : recorder) : recorder := mkRecorder [] (rc_failErr r).
Definition FailWith (err : option error) (r : recorder) : recorder := mkRecorder (rc_events r) err.

(** The real publisher's client is closed; the recorder stays. *)
Definition test_Close (pub_Close : goredis_Options -> option error) (p : test_Publisher) : option error :=
  Publisher_Close pub_Close (tp_real p).
End fake.
Arguments test_Publisher : clear implicits.

(** ** What a publish leaves in the recorder *)

(** However [m] ends, its outcome and the recorder before and after satisfy [Q]. *)
Definition leaves {W A} (m : M (recorder * W) A) (Q : outcome A -> recorder -> recorder -> Prop) : Prop :=
  forall w, let '(o, w', _) := m w in Q o w.1 w'.1.

(** [m] returns and leaves the recorder alone. *)
Definition untouched {A} (o : outcome A) (r r' : recorder) : Prop := (exists a, o = Ret a) /\ r' = r.

Create HintDb leaves.

Section leaves.
Context {W : Type} `{HEnv : !Env W}.

Lemma leaves_bind {A B} (m : M (recorder * W) A) (k : A -> M (recorder * W) B) Q :
  leaves m untouched -> (forall a, leaves (k a) Q) -> leaves (bind m k) Q.
Proof.
  intros Hm Hk w. unfold bind. specialize (Hm w). destruct (m w) as [[o w1] t1].
  destruct Hm as [[a ->] Hw]. specialize (Hk a w1). destruct (k a w1) as [[o2 w2] t2]. by rewrite Hw in Hk.
Qed.

(** The same with what is known of the value [m] returns. *)
Lemma leaves_bind_with {A B} (R : A -> Prop) (m : M (recorder * W) A) (k : A -> M (recorder * W) B) Q :
  leaves m untouched -> (forall w, exists a w' t, m w = (Ret a, w', t) /\ R a) ->
  (forall a, R a -> leaves (k a) Q) -> leaves (bind m k) Q.
Proof.
  intros Hm HR Hk w. unfold bind. specialize (Hm w). destruct (HR w) as (a & w1 & t1 & Hrun & Ha).
  rewrite Hrun in *. destruct Hm as [_ Hw]. specialize (Hk a Ha w1). destruct (k a w1) as [[o2 w2] t2].
  by rewrite Hw in Hk.
Qed.

Lemma leaves_impl {A} (m : M (recorder * W) A) (Q Q' : outcome A -> recorder -> recorder -> Prop) :
  leaves m Q -> (forall o r r', Q o r r' -> Q' o r r') -> leaves m Q'.
Proof. intros Hm HQ w. specialize (Hm w). destruct (m w) as [[o w1] t]. auto. Qed.

Lemma leaves_ret {A} (a : A) : leaves (ret (S := recorder * W) a) untouched.
Proof. intros w. simpl. split; eauto. Qed.
Lemma leaves_emit e : leaves (emit (S := recorder * W) e) untouched.
Proof. intros w. simpl. split; eauto. Qed.
Lemma leaves_emits es : leaves (emits (S := recorder * W) es) untouched.
Proof. intros w. simpl. split; eauto. Qed.
Lemma leaves_now : leaves (now (E := recorder * W)) untouched.
Proof. intros w. unfold now. simpl. destruct (env_now w.2). split; eauto. Qed.
Lemma leaves_uuid : leaves (new_uuid (E := recorder * W)) untouched.
Proof. intros w. unfold new_uuid. simpl. destruct (env_uuid w.2). split; eauto. Qed.
Lemma leaves_span ctx name a : leaves (start_span (E := recorder * W) ctx name a) untouched.
Proof. intros w. unfold start_span. simpl. destruct (env_start_span _ w.2). split; eauto. Qed.
Lemma leaves_if {A} (b : bool) (m1 m2 : M (recorder * W) A) Q :
  leaves m1 Q -> leaves m2 Q -> leaves (if b then m1 else m2) Q.
Proof. by destruct b. Qed.
Lemma leaves_defer {A} (m : M (recorder * W) A) e Q : leaves m Q -> leaves (with_defer m (emit e)) Q.
Proof. intros Hm w. unfold with_defer. specialize (Hm w). by destruct (m w) as [[o w1] t1]. Qed.
End leaves.
#[export] Hint Resolve leaves_ret leaves_emit leaves_emits leaves_now leaves_uuid leaves_span leaves_if : leaves.

Section publish.
Context {W P : Type} `{HEnv : !Env W, HTime : !GoTime, HJson : !JsonCodec, HMar : !Marshaler P}.
Variables (p : Publisher (recorder * W)) (ctx : context (recorder * W)) (def : EventDef) (payload : P)
  (opts : list PublishOption).

(** A publish that returns a result has recorded one event, the decoding of
    the body it would have written; one that fails has recorded none. *)
Definition recorded_once (o : outcome (result error PublishResult)) (r r' : recorder) : Prop :=
  match o with
  | Ret (Ok res) => exists env body raw,
      publishable p ctx def payload (options_of opts) env /\ marshal_event env = Ok body /\
      unmarshal_envelope body = Ok raw /\ res = mkPublishResult (EventID env) (Timestamp env) /\
      rc_failErr r = None /\
      r' = mkRecorder (rc_events r ++ [mkTestEvent (Topic def) raw (ctx_payload ctx)]) None
  | Ret (Err _) => r' = r
  | _ => False
  end.

Lemma leaves_add i a : leaves (add (S := recorder * W) i a) untouched.
Proof. unfold add. destruct (i_provider i); eauto with leaves. Qed.
#[local] Hint Resolve leaves_add : leaves.

Lemma leaves_fail span stage e : leaves (fail p span def stage e) recorded_once.
Proof.
  unfold fail. repeat (apply leaves_bind; [eauto with leaves|intros _]). by intros w.
Qed.

Lemma resolve_untouched ctx' o : leaves (resolveCorrelationID (E := recorder * W) ctx' o) untouched.
Proof.
  unfold resolveCorrelationID. apply leaves_if; [eauto with leaves|].
  assert (leaves (W := W) (id <- new_uuid ;;
    match id with
    | Err e => ret (Err (ErrFmt "generating correlation id: %w" [inr e]))
    | Ok s => ret (Ok s)
    end) untouched) by (apply leaves_bind; [eauto with leaves|intros []; eauto with leaves]).
  destruct (correlationIDFromContext ctx'); eauto with leaves.
Qed.

Lemma newEnvelope_untouched source corr : leaves (newEnvelope (E := recorder * W) def source corr payload) untouched.
Proof.
  unfold newEnvelope. apply leaves_bind; [eauto with leaves|]. intros [id|]; [|eauto with leaves].
  apply leaves_bind; eauto with leaves.
Qed.

Lemma body_records prefix span ctx' :
  p_publishFn p = record prefix -> StreamPrefix (p_cfg p) = prefix ->
  ctx_correlation ctx' = ctx_correlation ctx -> ctx_payload ctx' = ctx_payload ctx ->
  leaves (publish_body p ctx' span (publish_stream p def) def payload (options_of opts)) recorded_once.
Proof.
  intros Hfn Hpre Hc Hv. unfold publish_body.
  eapply leaves_bind_with; [apply resolve_untouched|intros w; destruct (resolve_run ctx' (options_of opts) w)
    as (r & w' & H & HR); exists r, w', []; split; [exact H|exact HR]|].
  intros [corr|e] Hcorr; [|apply leaves_fail].
  eapply leaves_bind_with; [apply newEnvelope_untouched|intros w; destruct (newEnvelope_run def
    (cfg_Source (p_cfg p)) corr payload w) as (r & w' & H & HR); exists r, w', []; split; [exact H|exact HR]|].
  intros [env|e] Henv; [|apply leaves_fail].
  destruct (validateEnvelope env) as [e|] eqn:Hval; [apply leaves_fail|].
  apply leaves_bind; [eauto with leaves|intros _].
  destruct (marshal_event env) as [body|e] eqn:Hb; [|apply leaves_fail].
  apply leaves_bind; [eauto with leaves|intros t]. rewrite Hfn. intros w. unfold bind at 1, record.
  destruct (rc_failErr w.1) as [e|] eqn:Hfail.
  { specialize (leaves_fail span stageTransport (ErrFmt "publishing to stream %q: %w"
      [inl (FQuoted (publish_stream p def)); inr e]) w). by destruct (fail _ _ _ _ _ w) as [[o w'] ts]. }
  destruct (unmarshal_envelope body) as [raw|e] eqn:Hraw.
  2:{ match goal with |- context [fail p span def stageTransport ?e w] =>
        specialize (leaves_fail span stageTransport e w) end. by destruct (fail _ _ _ _ _ w) as [[o w'] ts]. }
  assert (publishable p ctx def payload (options_of opts) env) as Hp.
  { destruct Henv as (id & tm & ->). split_and!; try done. unfold correlation_choice in *. by rewrite <-Hc. }
  unfold bind, add. unfold publish_stream. rewrite Hpre, Hv, <-(string_app_assoc prefix ":"), TrimPrefix_app.
  destruct (i_provider (published (p_inst p))); simpl; exists env, body, raw; done.
Qed.
End publish.

(** ** Construction *)

(** The source the options leave. *)
Definition chosen_source (opts : list PublisherOption) : string :=
  po_source (foldl (fun o (opt : PublisherOption) => opt o) (mkPublisherOptions defaultSource) opts).

Section construction.
Context {W : Type} `{HEnv : !Env W, HTime : !GoTime, HMeter : !MeterApi, HJson : !JsonCodec}.

Lemma test_NewPublisher_ok proc opts :
  chosen_source opts <> "" -> exists tp logs,
    test_NewPublisher (W := W) proc opts None = (Ok tp, logs) /\
    (exists mp, p_inst (tp_real tp) = instruments_of mp) /\
    p_publishFn (tp_real tp) = record defaultStreamPrefix /\
    StreamPrefix (p_cfg (tp_real tp)) = defaultStreamPrefix /\
    cfg_Source (p_cfg (tp_real tp)) = chosen_source opts.
Proof.
  intros Hs. unfold test_NewPublisher, NewRecordingPublisher, NewPublisher.
  unfold chosen_source in *. set (src := po_source _) in *. unfold Validate. cbn [cfg_Source Redis Address].
  apply String.eqb_neq in Hs. rewrite Hs. cbn -[newInstruments].
  match goal with |- context [newInstruments ?m ?l] =>
    destruct (newInstruments_total m l) as (logs & -> & _) end.
  eexists _, _. split; [reflexivity|]. simpl. eauto.
Qed.

Lemma test_NewPublisher_err proc opts err :
  chosen_source opts = "" \/ err <> None -> is_ok (test_NewPublisher (W := W) proc opts err).1 = false.
Proof.
  intros H. unfold test_NewPublisher, NewRecordingPublisher, NewPublisher.
  unfold chosen_source in *. set (src := po_source _) in *. unfold Validate. cbn [cfg_Source Redis Address].
  destruct (String.eqb_spec src ""); [done|]. cbn -[newInstruments]. destruct err; [done|]. by destruct H.
Qed.

(** When the fake cannot be built.  As long as redisstream accepts its
    configuration, messagingtest.NewPublisher fails exactly when the options
    leave an empty source. *)
Lemma recording_publisher_built_iff proc opts :
  is_ok (test_NewPublisher (W := W) proc opts None).1 = true <-> chosen_source opts <> "".
Proof.
  split.
  - intros H Hs. by rewrite test_NewPublisher_err in H by auto.
  - intros Hs. by destruct (test_NewPublisher_ok proc opts Hs) as (tp & logs & -> & _).
Qed.
End construction.

(** ** What the fake records *)

Section fake_claims.
Context {W P : Type} `{HEnv : !Env W, HTime : !GoTime, HMeter : !MeterApi, HJson : !JsonCodec, HMar : !Marshaler P}.

Lemma record_plain prefix : plain_transport (record (W := W) prefix).
Proof.
  split. intros ctx stream id body md w. unfold record.
  destruct (rc_failErr w.1); [by eexists _, _, _|]. destruct (unmarshal_envelope body); by eexists _, _, _.
Qed.

Lemma record_silent prefix ctx stream id body md w o w' t :
  record (W := W) prefix ctx stream id body md w = (o, w', t) -> writes t = [].
Proof. unfold record. intros H. by repeat case_match; simplify_eq. Qed.

(** C40: the fake records what would have been published.  A publish on it never
    writes to a stream.  When it returns a result, exactly one event was
    appended: under the topic, with the caller's payload value, and with the
    envelope a consumer would decode from the body of a valid, correctly
    addressed publish, whose ID and timestamp are the ones returned.  When it
    returns an error, as it does while FailWith is set, nothing was recorded. *)
Theorem recording_publisher_records proc popts tp logs (box : P -> ref) ctx def payload opts w o w' t :
  test_NewPublisher (W := W) proc popts None = (Ok tp, logs) ->
  test_Publish box tp ctx def payload opts w = (o, w', t) ->
  writes t = [] /\
  match o with
  | Ret (Ok res) => exists env body raw,
      publishable (tp_real tp) ctx def payload (options_of opts) env /\ Source env = chosen_source popts /\
      marshal_event env = Ok body /\ unmarshal_envelope body = Ok raw /\
      res = mkPublishResult (EventID env) (Timestamp env) /\ rc_failErr w.1 = None /\
      Published w'.1 = Published w.1 ++ [mkTestEvent (Topic def) raw (Some (box payload))]
  | Ret (Err _) => w'.1 = w.1
  | _ => False
  end.
Proof.
  intros Hnew Hrun. assert (chosen_source popts <> "") as Hs.
  { intros Hs. pose proof (test_NewPublisher_err (W := W) proc popts None (or_introl Hs)) as He. by rewrite Hnew in He. }
  destruct (test_NewPublisher_ok (W := W) proc popts Hs) as (tp' & logs' & Hok & (mp & Hi) & Hf & Hpre & Hsrc).
  rewrite Hnew in Hok. injection Hok as <- <-. unfold test_Publish in Hrun.
  destruct (String.eqb_spec (Topic def) "") as [Ht|Ht].
  { unfold Publish in Hrun. rewrite Ht in Hrun. simpl in Hrun. by injection Hrun as <- <- <-. }
  split.
  - edestruct (publish_run (P := P) (tp_real tp) mp (ctx_with_payload ctx (box payload)) def payload opts w)
      as (r & w2 & t2 & tw & ms & sts & span & Hrun2 & He & _ & Hw & _);
      [exact Hi|rewrite Hf; apply record_plain|done|].
    rewrite Hrun in Hrun2. simplify_eq. rewrite Hw.
    destruct He as [env ? _ Hsent|e stage|env e ? _ Hsent]; [|done|];
      destruct Hsent as (body & tm & w1 & w3 & _ & Hrec); rewrite Hf in Hrec; by apply record_silent in Hrec.
  - unfold Publish in Hrun. destruct (String.eqb_spec (Topic def) "") as [|_]; [done|].
    assert (leaves (W := W) (bind (start_span (ctx_with_payload ctx (box payload)) ("publish " +:+ Topic def)
       [("messaging.system", AStr "redis"); ("messaging.operation.name", AStr "publish");
        ("messaging.destination.name", AStr (publish_stream (tp_real tp) def));
        ("messaging.foi.event_type", AStr (Type_ def)); ("messaging.foi.schema_version", AStr (Version def))])
      (fun span => with_defer (publish_body (tp_real tp) (ctx_with_span (ctx_with_payload ctx (box payload)) span)
        span (publish_stream (tp_real tp) def) def payload (options_of opts)) (emit (ESpanEnd span))))
      (recorded_once (tp_real tp) (ctx_with_payload ctx (box payload)) def payload opts)) as Hl.
    { apply leaves_bind; [eauto with leaves|intros span]. apply leaves_defer. by eapply body_records. }
    specialize (Hl w). unfold options_of in Hl. rewrite Hrun in Hl.
    destruct o as [[res|e]| |]; try done.
    destruct Hl as (env & body & raw & Hp & Hb & Hraw & Hres & Hfail & ->). exists env, body, raw.
    assert (Source env = chosen_source popts) by (rewrite <-Hsrc; apply Hp). by split_and!.
Qed.
End fake_claims.

(** ** Witnesses *)

(** A fake under the source the publisher's sample envelope has. *)
Definition sample_new : result error (test_Publisher world) * list event :=
  test_NewPublisher (HJson := one_codec) sample_process [WithPublisherSource "billing.service"] None.

Definition sample_fake : test_Publisher world :=
  match sample_new.1 with
  | Ok tp => tp
  | Err _ => mkTestPublisher (mkPublisher minimal_validated (mkWmPublisher (NewClient
               (redisClientOptions (Redis minimal_validated)))) (instruments_of None) wm_Publish) ""
  end.

Lemma sample_fake_built : sample_new = (Ok sample_fake, []).
Proof.
  assert (is_ok sample_new.1 = true) as H1 by (vm_compute; reflexivity).
  assert (sample_new.2 = []) as H2 by (vm_compute; reflexivity).
  unfold sample_fake. by destruct sample_new as [[tp|e] logs]; simplify_eq/=.
Qed.

Definition fake_publish (down : option error) :=
  test_Publish (HMar := one_marshaler) (fun _ => 5%nat) sample_fake background sample_def "{}"
    [WithCorrelationID "c-7"] (mkRecorder [] down, mkWorld 10 [] None false).

Lemma recording_publisher_records_witness :
  (fake_publish None).1.1 = Ret (Ok (mkPublishResult "id-11" 12)) /\
  Published (fake_publish None).1.2.1 = [mkTestEvent "orders" the_envelope (Some 5%nat)] /\
  writes (fake_publish None).2 = [].
Proof.
  split; [vm_compute; reflexivity|]. split; [vm_compute; reflexivity|].
  refine (proj1 (recording_publisher_records (HJson := one_codec) (HMar := one_marshaler) sample_process
    [WithPublisherSource "billing.service"] sample_fake [] (fun _ => 5%nat) background sample_def "{}"
    [WithCorrelationID "c-7"] (mkRecorder [] None, mkWorld 10 [] None false)
    (fake_publish None).1.1 (fake_publish None).1.2 (fake_publish None).2 sample_fake_built _)).
  unfold fake_publish. by destruct (test_Publish _ _ _ _ _ _ _) as [[o w'] t].
Defined.
