(* ===== verification/Json.v ===== *)
(** * JSON texts (package encoding/json: scanner.go, indent.go)

    What the decoder and the encoder agree a JSON text is.  [value d s] is the
    grammar: [s] is a JSON value whose arrays and objects nest at most [d] deep,
    without space around it.  [scan_value] is the decoder's checker, executable,
    which the grammar is proved to describe exactly; [compact] is what the
    encoder does to a value that comes ready-made.  Texts are lists of bytes. *)

From S2P Require Import Prelude.
From stdpp Require Import options.

Definition bytes : Type := list ascii.

Definition code (c : ascii) : N := N_of_ascii c.
Definition byte_in (lo hi : N) (c : ascii) : bool := (lo <=? code c)%N && (code c <=? hi)%N.

(** The quotation mark and the backslash. *)
Abbreviation dq := (Ascii false true false false false true false false).
Abbreviation bs := (Ascii false false true true true false true false).

(** ** Lexical classes *)

Local Open Scope char_scope.

Definition is_ws (c : ascii) : bool :=
  Ascii.eqb c " " || Ascii.eqb c "009" || Ascii.eqb c "010" || Ascii.eqb c "013".

Definition is_dig (c : ascii) : bool := byte_in 48 57 c.
Definition is_hex (c : ascii) : bool := byte_in 48 57 c || byte_in 65 70 c || byte_in 97 102 c.

(** A byte that stands for itself in a string literal. *)
Definition is_plain (c : ascii) : bool :=
  (32 <=? code c)%N && negb (Ascii.eqb c dq) && negb (Ascii.eqb c bs).

(** What may follow a backslash, other than u. *)
Definition is_simple (c : ascii) : bool :=
  Ascii.eqb c dq || Ascii.eqb c bs || Ascii.eqb c "/" || Ascii.eqb c "b" || Ascii.eqb c "f" ||
  Ascii.eqb c "n" || Ascii.eqb c "r" || Ascii.eqb c "t".

(** ** Grammar *)

Definition all_ws (w : bytes) : Prop := Forall (fun c => is_ws c = true) w.
Definition digits (s : bytes) : Prop := Forall (fun c => is_dig c = true) s.

(** The inside of a string literal. *)
Inductive str_body : bytes -> Prop :=
| sb_nil : str_body []
| sb_plain c s : is_plain c = true -> str_body s -> str_body (c :: s)
| sb_simple c s : is_simple c = true -> str_body s -> str_body (bs :: c :: s)
| sb_unicode a b c d s : forallb is_hex [a; b; c; d] = true -> str_body s ->
    str_body (bs :: "u" :: a :: b :: c :: d :: s).

Inductive num_int : bytes -> Prop :=
| ni_zero : num_int ["0"]
| ni_pos c s : byte_in 49 57 c = true -> digits s -> num_int (c :: s).
Inductive num_frac : bytes -> Prop :=
| nf_none : num_frac []
| nf_some c s : is_dig c = true -> digits s -> num_frac ("." :: c :: s).
Inductive num_exp : bytes -> Prop :=
| ne_none : num_exp []
| ne_some e sg c s : e = "e" \/ e = "E" -> sg = [] \/ sg = ["+"] \/ sg = ["-"] ->
    is_dig c = true -> digits s -> num_exp (e :: sg ++ c :: s).
Inductive number : bytes -> Prop :=
| number_intro sg i f e : sg = [] \/ sg = ["-"] -> num_int i -> num_frac f -> num_exp e ->
    number (sg ++ i ++ f ++ e).

Definition literals : list bytes :=
  [["n"; "u"; "l"; "l"]; ["t"; "r"; "u"; "e"]; ["f"; "a"; "l"; "s"; "e"]].

(** Arrays and objects differ in their brackets and in what precedes the value
    of an item: nothing, or a key. *)
Inductive kind := Arr | Obj.

Definition opening (k : kind) : ascii := match k with Arr => "[" | Obj => "{" end.
Definition closing (k : kind) : ascii := match k with Arr => "]" | Obj => "}" end.

Inductive prefix_of : kind -> bytes -> Prop :=
| po_arr w : all_ws w -> prefix_of Arr w
| po_obj w1 key w2 w3 : all_ws w1 -> str_body key -> all_ws w2 -> all_ws w3 ->
    prefix_of Obj (w1 ++ dq :: key ++ dq :: w2 ++ ":" :: w3).

Inductive value : nat -> bytes -> Prop :=
| val_lit d s : s ∈ literals -> value d s
| val_num d s : number s -> value d s
| val_str d s : str_body s -> value d (dq :: s ++ [dq])
| val_empty k d w : all_ws w -> value (S d) (opening k :: w ++ [closing k])
| val_items k d s : items k d s -> value (S d) (opening k :: s ++ [closing k])
with items : kind -> nat -> bytes -> Prop :=
| items_one k d p v w : prefix_of k p -> value d v -> all_ws w -> items k d (p ++ v ++ w)
| items_more k d p v w s : prefix_of k p -> value d v -> all_ws w -> items k d s ->
    items k d (p ++ v ++ w ++ "," :: s).

Scheme value_mut := Minimality for value Sort Prop
with items_mut := Minimality for items Sort Prop.
Combined Scheme value_items_ind from value_mut, items_mut.

(** ** The checker *)

Fixpoint skip (p : ascii -> bool) (s : bytes) : bytes :=
  match s with c :: t => if p c then skip p t else s | [] => [] end.
Abbreviation skip_ws := (skip is_ws).

(** After the opening quotation mark. *)
Fixpoint scan_string (s : bytes) : option bytes :=
  match s with
  | [] => None
  | c :: t =>
      if Ascii.eqb c dq then Some t
      else if Ascii.eqb c bs then
        match t with
        | [] => None
        | e :: t =>
            if Ascii.eqb e "u" then
              match t with
              | h1 :: h2 :: h3 :: h4 :: t =>
                  if forallb is_hex [h1; h2; h3; h4] then scan_string t else None
              | _ => None
              end
            else if is_simple e then scan_string t else None
        end
      else if is_plain c then scan_string t else None
  end.

Definition scan_digits (s : bytes) : option bytes :=
  match s with c :: t => if is_dig c then Some (skip is_dig t) else None | [] => None end.

Definition scan_int (s : bytes) : option bytes :=
  match s with
  | c :: t => if Ascii.eqb c "0" then Some t else scan_digits s
  | [] => None
  end.
Definition scan_frac (s : bytes) : option bytes :=
  match s with
  | c :: t => if Ascii.eqb c "." then scan_digits t else Some s
  | [] => Some s
  end.
Definition skip_sign (s : bytes) : bytes :=
  match s with c :: t => if Ascii.eqb c "+" || Ascii.eqb c "-" then t else s | [] => [] end.
Definition scan_exp (s : bytes) : option bytes :=
  match s with
  | c :: t => if Ascii.eqb c "e" || Ascii.eqb c "E" then scan_digits (skip_sign t) else Some s
  | [] => Some s
  end.
Definition skip_minus (s : bytes) : bytes :=
  match s with c :: t => if Ascii.eqb c "-" then t else s | [] => [] end.
Definition scan_number (s : bytes) : option bytes :=
  s ← scan_int (skip_minus s); s ← scan_frac s; scan_exp s.

Fixpoint strip (p s : bytes) : option bytes :=
  match p, s with
  | [], _ => Some s
  | a :: p, c :: s => if Ascii.eqb a c then strip p s else None
  | _ :: _, [] => None
  end.

Fixpoint strip_any (ps : list bytes) (s : bytes) : option bytes :=
  match ps with
  | [] => None
  | p :: ps => match strip p s with Some r => Some r | None => strip_any ps s end
  end.

Definition opened (c : ascii) : option kind :=
  if Ascii.eqb c "[" then Some Arr else if Ascii.eqb c "{" then Some Obj else None.

(** What precedes the value of an item. *)
Definition scan_prefix (k : kind) (s : bytes) : option bytes :=
  match k with
  | Arr => Some (skip_ws s)
  | Obj =>
      match skip_ws s with
      | c :: t =>
          if Ascii.eqb c dq then
            t ← scan_string t;
            match skip_ws t with
            | c :: t => if Ascii.eqb c ":" then Some (skip_ws t) else None
            | [] => None
            end
          else None
      | [] => None
      end
  end.

(** [n] is fuel, [d] the nesting still allowed; what is left of [s] after one
    value, or after the items and bracket that end an array or object. *)
Fixpoint scan_value (n d : nat) (s : bytes) : option bytes :=
  match n, s with
  | S n, c :: t =>
      if Ascii.eqb c dq then scan_string t
      else match opened c with
           | Some k =>
               match d with
               | O => None
               | S d =>
                   match skip_ws t with
                   | c' :: r => if Ascii.eqb c' (closing k) then Some r else scan_items n k d t
                   | [] => None
                   end
               end
           | None =>
               if Ascii.eqb c "-" || is_dig c then scan_number s else strip_any literals s
           end
  | _, _ => None
  end
with scan_items (n : nat) (k : kind) (d : nat) (s : bytes) : option bytes :=
  match n with
  | O => None
  | S n =>
      s ← scan_prefix k s;
      s ← scan_value n d s;
      match skip_ws s with
      | c :: t =>
          if Ascii.eqb c "," then scan_items n k d t
          else if Ascii.eqb c (closing k) then Some t else None
      | [] => None
      end
  end.

(** scanner.go, [maxNestingDepth]. *)
Definition max_depth : nat := N.to_nat 10000.

Definition Valid (s : bytes) : bool :=
  let s := skip_ws s in
  match scan_value (length s) max_depth s with
  | Some r => match skip_ws r with [] => true | _ => false end
  | None => false
  end.

(** ** The checker accepts the grammar's texts and no others *)

#[local] Arguments Ascii.eqb : simpl never.

Ltac all_bytes c := destruct c as [[|] [|] [|] [|] [|] [|] [|] [|]].

Definition hd_not (p : ascii -> bool) (s : bytes) : Prop :=
  match s with c :: _ => p c = false | [] => True end.

Lemma skip_split p s :
  exists w, s = w ++ skip p s /\ Forall (fun c => p c = true) w /\ hd_not p (skip p s).
Proof.
  induction s as [|c s (w & Hs & Hw & Hh)]; simpl; [by exists []|]. destruct (p c) eqn:Hc.
  - exists (c :: w). simpl. split; [by f_equal|]. by repeat constructor.
  - exists []. by repeat constructor.
Qed.

Lemma skip_app p w s : Forall (fun c => p c = true) w -> hd_not p s -> skip p (w ++ s) = s.
Proof.
  intros Hw Hs. induction Hw as [|c w Hc _ IH]; simpl; [|by rewrite Hc].
  destruct s as [|c s]; [done|]. simpl in *. by rewrite Hs.
Qed.

Lemma hd_not_app p w s : Forall (fun c => p c = false) w -> hd_not p s -> hd_not p (w ++ s).
Proof. by destruct 1. Qed.

Lemma eqb_true a c : Ascii.eqb a c = true -> a = c.
Proof. by intros H%Ascii.eqb_eq. Qed.

(** Decide the byte tests of a scanner in the context. *)
Ltac bytes_tac :=
  repeat match goal with
  | H : Ascii.eqb _ _ = true |- _ => apply eqb_true in H; subst
  | H : _ && _ = true |- _ => apply andb_true_iff in H as [??]
  | H : Some _ = Some _ |- _ => injection H as H; subst
  | H : None = Some _ |- _ => discriminate H
  | H : (match ?x with _ => _ end) = Some _ |- _ => destruct x eqn:?
  end.

Lemma scan_string_sound s r : scan_string s = Some r -> exists b, str_body b /\ s = b ++ dq :: r.
Proof.
  remember (length s) as n eqn:Hn. revert s Hn.
  induction n as [n IH] using lt_wf_ind. intros [|c s] Hn H; [done|]. simpl in H.
  assert (forall t, (length t < n)%nat -> scan_string t = Some r -> exists b, str_body b /\ t = b ++ dq :: r) as IH'
    by (intros t Ht; by apply (IH _ Ht)).
  clear IH. simpl in Hn. bytes_tac; simpl in *.
  - exists []. by repeat constructor.
  - apply IH' in H as (b & Hb & ->); [|simpl; lia].
    eexists (bs :: "u" :: _ :: _ :: _ :: _ :: b). split; [|done].
    apply sb_unicode; [|done]. simpl. by repeat (apply andb_true_intro; split).
  - apply IH' in H as (b & Hb & ->); [|simpl; lia]. exists (bs :: a :: b). by repeat constructor.
  - apply IH' in H as (b & Hb & ->); [|simpl; lia]. exists (c :: b). by repeat constructor.
Qed.

Lemma plain_special c : is_plain c = true -> Ascii.eqb c dq = false /\ Ascii.eqb c bs = false.
Proof. unfold is_plain. rewrite !andb_true_iff, !negb_true_iff. tauto. Qed.

Lemma scan_string_complete b r : str_body b -> scan_string (b ++ dq :: r) = Some r.
Proof.
  induction 1 as [|c s Hc _ IH|c s Hc _ IH|h1 h2 h3 h4 s Hh _ IH]; [done|..]; cbn [app scan_string].
  - apply plain_special in Hc as Hc'. destruct Hc' as [-> ->]. by rewrite Hc.
  - assert (Ascii.eqb c "u" = false) as Hu by (destruct (Ascii.eqb_spec c "u") as [->|]; [discriminate Hc|done]).
    rewrite Hu, Hc. done.
  - by rewrite Hh.
Qed.

Lemma scan_digits_sound s r :
  scan_digits s = Some r -> exists c ds, is_dig c = true /\ digits ds /\ s = c :: ds ++ r.
Proof.
  destruct s as [|c s]; [done|]. simpl. destruct (is_dig c) eqn:Hc; [|done]. intros [= <-].
  destruct (skip_split is_dig s) as (w & Hs & Hw & _). exists c, w. by rewrite <-Hs.
Qed.

Lemma scan_digits_complete c ds r :
  is_dig c = true -> digits ds -> hd_not is_dig r -> scan_digits (c :: ds ++ r) = Some r.
Proof. intros Hc Hd Hr. simpl. rewrite Hc. by rewrite skip_app. Qed.

(** The bytes a number may go on with. *)
Definition in_number (c : ascii) : bool :=
  is_dig c || Ascii.eqb c "." || Ascii.eqb c "e" || Ascii.eqb c "E".

Lemma hd_not_impl (p q : ascii -> bool) s :
  (forall c, q c = true -> p c = true) -> hd_not p s -> hd_not q s.
Proof. destruct s as [|c s]; simpl; [done|]. intros Hpq Hp. destruct (q c) eqn:E; [|done]. by rewrite Hpq in Hp. Qed.

Lemma scan_int_sound s r : scan_int s = Some r -> exists i, num_int i /\ s = i ++ r.
Proof.
  destruct s as [|c s]; [done|]. unfold scan_int. destruct (Ascii.eqb_spec c "0") as [->|Hc].
  - intros [= <-]. exists ["0"]. by repeat constructor.
  - intros (c' & ds & Hd & Hds & [= -> ->])%scan_digits_sound. exists (c' :: ds). split; [|done].
    constructor; [|done]. clear -Hd Hc. all_bytes c'; first [done|discriminate Hd|by destruct Hc].
Qed.

Lemma scan_int_complete i r : num_int i -> hd_not is_dig r -> scan_int (i ++ r) = Some r.
Proof.
  intros [|c ds Hc Hds] Hr; [done|]. cbn [app scan_int].
  assert (Ascii.eqb c "0" = false /\ is_dig c = true) as [-> Hd] by (clear -Hc; all_bytes c; first [done|discriminate Hc]).
  by apply scan_digits_complete.
Qed.

Lemma scan_frac_sound s r : scan_frac s = Some r -> exists f, num_frac f /\ s = f ++ r.
Proof.
  destruct s as [|c s]; simpl; [intros [= <-]; exists []; by repeat constructor|].
  destruct (Ascii.eqb_spec c ".") as [->|_].
  - intros (c' & ds & ? & ? & ->)%scan_digits_sound. exists ("." :: c' :: ds). by repeat constructor.
  - intros [= <-]. exists []. by repeat constructor.
Qed.

Lemma scan_frac_complete f r : num_frac f -> hd_not is_dig r -> hd_not (Ascii.eqb ".") r -> scan_frac (f ++ r) = Some r.
Proof.
  intros [|c ds Hc Hds] Hr Hdot; [|by apply scan_digits_complete].
  destruct r as [|c r]; [done|]. simpl in *. by rewrite Ascii.eqb_sym, Hdot.
Qed.

Lemma scan_exp_sound s r : scan_exp s = Some r -> exists e, num_exp e /\ s = e ++ r.
Proof.
  destruct s as [|c s]; simpl; [intros [= <-]; exists []; by repeat constructor|].
  destruct (Ascii.eqb c "e" || Ascii.eqb c "E") eqn:Hc; [|intros [= <-]; exists []; by repeat constructor].
  intros (c' & ds & ? & ? & Hs)%scan_digits_sound.
  assert (exists sg, s = sg ++ c' :: ds ++ r /\ (sg = [] \/ sg = ["+"] \/ sg = ["-"])) as (sg & -> & Hsg).
  { clear -Hs. destruct s as [|a s]; [done|]. simpl in Hs.
    destruct (Ascii.eqb_spec a "+") as [->|_]; [exists ["+"]; simpl in *; by split; [f_equal|auto]|].
    destruct (Ascii.eqb_spec a "-") as [->|_]; [exists ["-"]; simpl in *; by split; [f_equal|auto]|].
    exists []. auto. }
  exists (c :: sg ++ c' :: ds). split; [|simpl; by rewrite <-app_assoc].
  constructor; [|done..]. apply orb_true_iff in Hc as [->%eqb_true| ->%eqb_true]; auto.
Qed.

Lemma scan_exp_complete e r : num_exp e -> hd_not in_number r -> scan_exp (e ++ r) = Some r.
Proof.
  intros [|c sg c' ds Hc Hsg Hd Hds] Hr.
  - destruct r as [|c r]; [done|]. simpl in *. unfold in_number in Hr. rewrite !orb_false_iff in Hr.
    by destruct Hr as [[_ ->] ->].
  - assert (Ascii.eqb c "e" || Ascii.eqb c "E" = true) as Hc' by (by destruct Hc as [->| ->]).
    cbn [app scan_exp]. rewrite Hc'. replace (skip_sign ((sg ++ c' :: ds) ++ r)) with (c' :: ds ++ r).
    { apply scan_digits_complete; [done..|]. revert Hr. apply hd_not_impl. unfold in_number. by intros ? ->. }
    rewrite <-app_assoc. destruct Hsg as [->|[->| ->]]; [|done..]. simpl.
    destruct (Ascii.eqb_spec c' "+") as [->|_]; [discriminate Hd|].
    by destruct (Ascii.eqb_spec c' "-") as [->|_]; [discriminate Hd|].
Qed.

Lemma scan_number_sound s r : scan_number s = Some r -> exists v, number v /\ s = v ++ r.
Proof.
  unfold scan_number. intros H. destruct (scan_int (skip_minus s)) as [s1|] eqn:Hi; [|done]. simpl in H.
  destruct (scan_frac s1) as [s2|] eqn:Hf; [|done]. simpl in H.
  apply scan_int_sound in Hi as (i & Hi & Hs). apply scan_frac_sound in Hf as (f & Hf & ->).
  apply scan_exp_sound in H as (e & He & ->).
  assert (exists sg, s = sg ++ skip_minus s /\ (sg = [] \/ sg = ["-"])) as (sg & Heq & Hsg).
  { clear. destruct s as [|c s]; [exists []; auto|]. simpl.
    destruct (Ascii.eqb_spec c "-") as [->|_]; [exists ["-"]|exists []]; auto. }
  exists (sg ++ i ++ f ++ e). split; [by constructor|]. rewrite Heq, Hs. by rewrite <-!app_assoc.
Qed.

Lemma scan_number_complete v r : number v -> hd_not in_number r -> scan_number (v ++ r) = Some r.
Proof.
  intros [sg i f e Hsg Hi Hf He] Hr. unfold scan_number. rewrite <-!app_assoc.
  assert (hd_not is_dig (e ++ r) /\ hd_not (Ascii.eqb ".") (e ++ r)) as [He1 He2].
  { destruct He as [|c ? ? ? [->| ->]]; [|done..].
    split; (revert Hr; apply hd_not_impl; unfold in_number); intros c Hc; [by rewrite Hc|].
    rewrite Ascii.eqb_sym in Hc. rewrite Hc. by rewrite orb_true_r. }
  assert (hd_not is_dig (f ++ e ++ r)) as Hf1 by (by destruct Hf).
  replace (skip_minus (sg ++ i ++ f ++ e ++ r)) with (i ++ f ++ e ++ r).
  { rewrite (scan_int_complete i) by done. simpl. rewrite (scan_frac_complete f) by done. by apply scan_exp_complete. }
  destruct Hsg as [->| ->]; [|done]. destruct Hi as [|c ds Hc]; [done|]. simpl.
  by destruct (Ascii.eqb_spec c "-") as [->|_]; [discriminate Hc|].
Qed.

(** ** Values *)

(** The bytes a value may begin with. *)
Definition starts_value (c : ascii) : bool :=
  Ascii.eqb c dq || Ascii.eqb c "[" || Ascii.eqb c "{" || Ascii.eqb c "-" || is_dig c ||
  Ascii.eqb c "n" || Ascii.eqb c "t" || Ascii.eqb c "f".

Lemma value_start d v : value d v -> exists c t, v = c :: t /\ starts_value c = true.
Proof.
  destruct 1 as [d s Hs|d s [sg i f e Hsg Hi]|d s|k d w|k d s].
  - unfold literals in Hs. repeat (apply elem_of_cons in Hs as [->|Hs]; [by eexists _, _|]).
    by apply elem_of_nil in Hs.
  - destruct Hsg as [->| ->]; [|by eexists _, _]. destruct Hi as [|c ds Hc]; eexists _, _; (split; [reflexivity|]); [done|].
    clear -Hc. all_bytes c; first [done|discriminate Hc].
  - by eexists _, _.
  - eexists _, _. split; [reflexivity|]. by destruct k.
  - eexists _, _. split; [reflexivity|]. by destruct k.
Qed.

Lemma starts_value_ws c : starts_value c = true -> is_ws c = false.
Proof. intros Hc. all_bytes c; first [done|discriminate Hc]. Qed.

Lemma starts_value_bracket c : starts_value c = true -> Ascii.eqb c "]" = false.
Proof. intros Hc. all_bytes c; first [done|discriminate Hc]. Qed.

Lemma value_no_ws d v r : value d v -> hd_not is_ws (v ++ r).
Proof. intros (c & t & -> & Hc)%value_start. by apply starts_value_ws. Qed.

Lemma strip_sound p s r : strip p s = Some r -> s = p ++ r.
Proof.
  revert s. induction p as [|a p IH]; intros s; simpl; [by intros [= ->]|]. destruct s as [|c s]; [done|].
  destruct (Ascii.eqb_spec a c) as [->|]; [|done]. by intros ->%IH.
Qed.

Lemma strip_any_sound ps s r : strip_any ps s = Some r -> exists p, p ∈ ps /\ s = p ++ r.
Proof.
  induction ps as [|p ps IH]; simpl; [done|]. destruct (strip p s) as [t|] eqn:Hs.
  - intros [= <-]. exists p. split; [apply elem_of_cons; auto|by apply strip_sound].
  - intros (p' & ? & ?)%IH. exists p'. split; [apply elem_of_cons; auto|done].
Qed.

Lemma scan_literal_complete s r : s ∈ literals -> strip_any literals (s ++ r) = Some r.
Proof.
  unfold literals. intros Hs. repeat (apply elem_of_cons in Hs as [->|Hs]; [done|]). by apply elem_of_nil in Hs.
Qed.

Lemma all_ws_skip s : exists w, all_ws w /\ s = w ++ skip_ws s /\ hd_not is_ws (skip_ws s).
Proof. destruct (skip_split is_ws s) as (w & ? & ? & ?). by exists w. Qed.

Lemma scan_prefix_sound k s r :
  scan_prefix k s = Some r -> (exists p, prefix_of k p /\ s = p ++ r) /\ hd_not is_ws r.
Proof.
  destruct k; simpl.
  - intros [= <-]. destruct (all_ws_skip s) as (w & Hw & Hs & Hh). split; [|done]. exists w. by split; [constructor|].
  - destruct (all_ws_skip s) as (w & Hw & Hs & _). destruct (skip_ws s) as [|c t]; [done|].
    destruct (Ascii.eqb_spec c dq) as [->|]; [|done]. destruct (scan_string t) as [t1|] eqn:Hk; [|done]. simpl.
    apply scan_string_sound in Hk as (key & Hkey & ->).
    destruct (all_ws_skip t1) as (w2 & Hw2 & Ht1 & _). destruct (skip_ws t1) as [|c t2]; [done|].
    destruct (Ascii.eqb_spec c ":") as [->|]; [|done]. intros [= <-].
    destruct (all_ws_skip t2) as (w3 & Hw3 & Ht2 & Hh). split; [|done].
    exists (w ++ dq :: key ++ dq :: w2 ++ ":" :: w3). split; [by constructor|].
    rewrite Hs, Ht1, Ht2 at 1. by repeat (rewrite <-?app_assoc, <-?app_comm_cons; simpl).
Qed.

Lemma scan_prefix_complete k p r : prefix_of k p -> hd_not is_ws r -> scan_prefix k (p ++ r) = Some r.
Proof.
  intros [w Hw|w1 key w2 w3 Hw1 Hkey Hw2 Hw3] Hr; simpl; [by rewrite skip_app|].
  repeat (rewrite <-?app_assoc, <-?app_comm_cons; simpl).
  rewrite skip_app by done. cbn. rewrite scan_string_complete by done. simpl.
  rewrite skip_app by done. cbn. by rewrite skip_app.
Qed.

Lemma opened_opening c k : opened c = Some k <-> c = opening k.
Proof.
  unfold opened. destruct (Ascii.eqb_spec c "[") as [->|H1]; [by destruct k; split|].
  destruct (Ascii.eqb_spec c "{") as [->|H2]; [by destruct k; split|]. split; [done|]. by destruct k; intros ->.
Qed.

Lemma scan_sound n :
  (forall d s r, scan_value n d s = Some r -> exists v, value d v /\ s = v ++ r) /\
  (forall k d s r, scan_items n k d s = Some r -> exists t, items k d t /\ s = t ++ closing k :: r).
Proof.
  induction n as [|n [IHv IHi]]; [done|]. split.
  - intros d s r H. destruct s as [|c t]; [done|]. cbn [scan_value] in H.
    destruct (Ascii.eqb_spec c dq) as [->|_].
    { apply scan_string_sound in H as (b & Hb & ->). exists (dq :: b ++ [dq]). split; [by constructor|].
      simpl. by rewrite <-app_assoc. }
    destruct (opened c) as [k|] eqn:Hc.
    + apply opened_opening in Hc as ->. destruct d as [|d]; [done|].
      destruct (all_ws_skip t) as (w & Hw & Ht & _). destruct (skip_ws t) as [|c' r'] eqn:Hskip; [done|].
      destruct (Ascii.eqb_spec c' (closing k)) as [->|_].
      * injection H as <-. exists (opening k :: w ++ [closing k]). split; [by constructor|]. rewrite Ht at 1.
        simpl. by rewrite <-app_assoc.
      * apply IHi in H as (i & Hi & ->). exists (opening k :: i ++ [closing k]). split; [by constructor|].
        simpl. by rewrite <-app_assoc.
    + destruct (Ascii.eqb c "-" || is_dig c).
      * apply scan_number_sound in H as (v & Hv & ->). exists v. by split; [constructor|].
      * apply strip_any_sound in H as (p & Hp & ->). exists p. by split; [constructor|].
  - intros k d s r H. cbn [scan_items] in H. destruct (scan_prefix k s) as [s1|] eqn:Hp; [|done]. simpl in H.
    apply scan_prefix_sound in Hp as [(p & Hp & ->) _]. destruct (scan_value n d s1) as [s2|] eqn:Hv; [|done]. simpl in H.
    apply IHv in Hv as (v & Hv & ->). destruct (all_ws_skip s2) as (w & Hw & Hs & _).
    destruct (skip_ws s2) as [|c t]; [done|]. destruct (Ascii.eqb_spec c ",") as [->|_].
    + apply IHi in H as (i & Hi & ->). exists (p ++ v ++ w ++ "," :: i). split; [by constructor|]. rewrite Hs at 1.
      by repeat (rewrite <-?app_assoc; simpl).
    + destruct (Ascii.eqb_spec c (closing k)) as [->|_]; [|done]. injection H as <-.
      exists (p ++ v ++ w). split; [by constructor|]. rewrite Hs at 1. by rewrite <-!app_assoc.
Qed.

Lemma in_number_break c : is_ws c = true \/ c ∈ [","; "]"; "}"] -> in_number c = false.
Proof.
  intros [Hc|Hc]; [all_bytes c; first [done|discriminate Hc]|].
  repeat (apply elem_of_cons in Hc as [->|Hc]; [done|]). by apply elem_of_nil in Hc.
Qed.

Lemma ws_break w c r : all_ws w -> c ∈ [","; "]"; "}"] -> hd_not in_number (w ++ c :: r).
Proof. intros [|a w' Ha _] Hc; simpl; apply in_number_break; auto. Qed.

Lemma closing_break k : closing k ∈ [","; "]"; "}"].
Proof. destruct k; simpl; rewrite !elem_of_cons; auto. Qed.

Lemma break_no_ws c r : c ∈ [","; "]"; "}"] -> hd_not is_ws (c :: r).
Proof. intros Hc. repeat (apply elem_of_cons in Hc as [->|Hc]; [done|]). by apply elem_of_nil in Hc. Qed.

(** What stands after an opening bracket does not look like the empty case. *)
Lemma items_not_closed k d s r : items k d s -> exists c t, skip_ws (s ++ r) = c :: t /\ Ascii.eqb c (closing k) = false.
Proof.
  intros Hs. assert (exists p v r', prefix_of k p /\ value d v /\ s ++ r = p ++ v ++ r') as (p & v & r' & Hp & Hv & ->).
  { destruct Hs as [k d p v w Hp Hv Hw|k d p v w s Hp Hv Hw Hs]; exists p, v; eexists; (split; [done|split; [done|]]);
      by rewrite <-!app_assoc. }
  destruct (value_start _ _ Hv) as (c & t & -> & Hc). destruct Hp as [w Hw|w1 key w2 w3 Hw1].
  - rewrite skip_app by (done || by apply starts_value_ws). eexists _, _. split; [done|]. by apply starts_value_bracket.
  - rewrite <-!app_assoc, skip_app by done. by eexists _, _.
Qed.

Lemma scan_coll n k d t :
  (forall c r, skip_ws t = c :: r -> Ascii.eqb c (closing k) = false) -> skip_ws t <> [] ->
  scan_value (S n) (S d) (opening k :: t) = scan_items n k d t.
Proof.
  intros Hc Hne. cbn [scan_value]. rewrite (proj2 (opened_opening _ k) eq_refl).
  destruct (skip_ws t) as [|c r]; [done|]. rewrite (Hc c r) by done. by destruct k.
Qed.

Lemma scan_complete :
  (forall d v, value d v -> forall n r, (length v <= n)%nat -> hd_not in_number r -> scan_value n d (v ++ r) = Some r) /\
  (forall k d s, items k d s -> forall n r, (length s < n)%nat -> scan_items n k d (s ++ closing k :: r) = Some r).
Proof.
  apply value_items_ind.
  - intros d s Hs [|n] r Hn Hr; [by apply Nat.le_0_r, nil_length_inv in Hn as ->; vm_compute in Hs; set_solver|].
    transitivity (strip_any literals (s ++ r)); [|by apply scan_literal_complete]. unfold literals in Hs.
    repeat (apply elem_of_cons in Hs as [->|Hs]; [done|]). by apply elem_of_nil in Hs.
  - intros d s Hs [|n] r Hn Hr.
    { destruct Hs as [sg i f e _ [] _ _]; rewrite !length_app in Hn; simpl in Hn; lia. }
    transitivity (scan_number (s ++ r)); [|by apply scan_number_complete]. destruct Hs as [sg i f e Hsg Hi Hf He].
    destruct Hsg as [->| ->]; [|done]. destruct Hi as [|c ds Hc]; [done|]. clear -Hc. simpl.
    all_bytes c; first [done|discriminate Hc].
  - intros d s Hs [|n] r Hn Hr; [simpl in Hn; lia|]. rewrite <-app_comm_cons, <-app_assoc. cbn [scan_value].
    by apply scan_string_complete.
  - intros k d w Hw [|n] r Hn Hr; [simpl in Hn; lia|]. rewrite <-app_comm_cons, <-app_assoc. cbn [scan_value].
    rewrite (proj2 (opened_opening _ k) eq_refl). rewrite skip_app by (done || by apply break_no_ws, closing_break).
    simpl. rewrite Ascii.eqb_refl. by destruct k.
  - intros k d s Hs IH [|n] r Hn Hr; [simpl in Hn; lia|]. rewrite <-app_comm_cons, <-app_assoc. simpl app.
    destruct (items_not_closed k d s (closing k :: r) Hs) as (c & t & Ht & Hc).
    rewrite scan_coll by (rewrite Ht; (done || by intros ? ? [= -> ->])). apply IH.
    simpl in Hn. rewrite length_app in Hn. simpl in Hn. lia.
  - intros k d p v w Hp Hv IHv Hw [|n] r Hn; [lia|]. rewrite !length_app in Hn. rewrite <-!app_assoc. cbn [scan_items].
    rewrite (scan_prefix_complete k p) by (done || by eapply value_no_ws). simpl.
    rewrite IHv by (lia || by apply ws_break, closing_break). simpl.
    rewrite skip_app by (done || apply break_no_ws, closing_break).
    rewrite Ascii.eqb_refl. by destruct k.
  - intros k d p v w s Hp Hv IHv Hw Hs IHs [|n] r Hn; [lia|]. rewrite !length_app in Hn. simpl in Hn.
    repeat (rewrite <-?app_assoc; simpl app). cbn [scan_items].
    rewrite (scan_prefix_complete k p) by (done || by eapply value_no_ws). simpl.
    rewrite IHv by (lia || (apply ws_break; [done|apply elem_of_cons; auto])). simpl.
    rewrite skip_app by done. apply IHs. lia.
Qed.

Lemma scan_value_complete d v n r :
  value d v -> (length v <= n)%nat -> hd_not in_number r -> scan_value n d (v ++ r) = Some r.
Proof. intros Hv. by apply scan_complete. Qed.

(** A JSON text: a value with space around it. *)
Definition json_text (d : nat) (s : bytes) : Prop :=
  exists w v w', all_ws w /\ value d v /\ all_ws w' /\ s = w ++ v ++ w'.

Lemma Valid_spec s : Valid s = true <-> json_text max_depth s.
Proof.
  unfold Valid. split.
  - destruct (all_ws_skip s) as (w & Hw & Hs & _). destruct (scan_value _ _ _) as [r|] eqn:Hv; [|done].
    apply scan_sound in Hv as (v & Hv & Hs'). destruct (all_ws_skip r) as (w' & Hw' & Hr & _).
    destruct (skip_ws r); [|done]. intros _. rewrite app_nil_r in Hr. exists w, v, w'.
    split_and!; [done..|]. by rewrite Hs, Hs', Hr.
  - intros (w & v & w' & Hw & Hv & Hw' & ->).
    rewrite (skip_app is_ws w) by (done || by eapply value_no_ws).
    rewrite (scan_value_complete _ v); [| done|rewrite length_app; lia|].
    + rewrite <-(app_nil_r w'), skip_app; done.
    + rewrite <-(app_nil_r w'). destruct Hw' as [|c w' Hc _]; simpl; [done|]. apply in_number_break. auto.
Qed.

(** ** Compaction (indent.go, [appendCompact] with HTML escaping) *)

Inductive lex := Outside | Inside | Escaped.

Definition hex_digit (n : N) : ascii := ascii_of_N (if (n <? 10)%N then 48 + n else 87 + n)%N.

(** The escape of a byte below 256, and of U+2028 and U+2029. *)
Definition u00 (c : ascii) : bytes :=
  [bs; "u"; "0"; "0"; hex_digit (code c / 16); hex_digit (code c mod 16)].
Definition u202 (c : ascii) : bytes := [bs; "u"; "2"; "0"; "2"; hex_digit (code c mod 16)].

Definition is_html (c : ascii) : bool := Ascii.eqb c "<" || Ascii.eqb c ">" || Ascii.eqb c "&".

(** The UTF-8 encodings of U+2028 and U+2029. *)
Definition is_separator (a b c : ascii) : bool :=
  (code a =? 226)%N && (code b =? 128)%N && ((code c =? 168)%N || (code c =? 169)%N).

Fixpoint compact_from (st : lex) (s : bytes) : bytes :=
  match s with
  | [] => []
  | c :: t =>
      match st with
      | Outside =>
          if is_ws c then compact_from Outside t
          else c :: compact_from (if Ascii.eqb c dq then Inside else Outside) t
      | Escaped => c :: compact_from Inside t
      | Inside =>
          if Ascii.eqb c bs then c :: compact_from Escaped t
          else if Ascii.eqb c dq then c :: compact_from Outside t
          else if is_html c then u00 c ++ compact_from Inside t
          else match t with
               | c1 :: c2 :: t' =>
                   if is_separator c c1 c2 then u202 c2 ++ compact_from Inside t'
                   else c :: compact_from Inside t
               | _ => c :: compact_from Inside t
               end
      end
  end.

Definition compact (s : bytes) : option bytes := if Valid s then Some (compact_from Outside s) else None.

Lemma hex_digit_hex n : (n < 16)%N -> is_hex (hex_digit n) = true.
Proof.
  intros Hn. assert (forallb (fun k => is_hex (hex_digit (N.of_nat k))) (seq 0 16) = true) as H by (vm_compute; reflexivity).
  rewrite forallb_forall in H. rewrite <-(N2Nat.id n). apply H. apply in_seq. lia.
Qed.

Lemma code_bound c : (code c < 256)%N.
Proof. apply N_ascii_bounded. Qed.

Lemma u00_body c s : str_body s -> str_body (u00 c ++ s).
Proof.
  intros Hs. apply sb_unicode; [|done]. pose proof (code_bound c).
  cbn [forallb]. rewrite !hex_digit_hex; [done|by apply N.mod_lt|]. apply N.Div0.div_lt_upper_bound. lia.
Qed.

Lemma u202_body c s : str_body s -> str_body (u202 c ++ s).
Proof. intros Hs. apply sb_unicode; [|done]. cbn [forallb]. rewrite hex_digit_hex; [done|]. by apply N.mod_lt. Qed.

Lemma str_body_plain_inv c s : is_plain c = true -> str_body (c :: s) -> str_body s.
Proof. intros Hc Hs. inversion Hs; subst; done. Qed.

Lemma compact_hex c t : is_hex c = true -> compact_from Inside (c :: t) = c :: compact_from Inside t.
Proof.
  intros Hc. assert (Ascii.eqb c bs = false /\ Ascii.eqb c dq = false /\ is_html c = false /\ (code c =? 226)%N = false)
    as (Hb & Hq & Hh & Hs) by (all_bytes c; first [done|discriminate Hc]).
  unfold compact_from at 1. fold compact_from. rewrite Hb, Hq, Hh.
  destruct t as [|c1 [|c2 t]]; [done..|]. unfold is_separator. by rewrite Hs.
Qed.

(** What compaction makes of the inside of a literal. *)
Fixpoint escape_body (s : bytes) : bytes :=
  match s with
  | [] => []
  | c :: t =>
      if Ascii.eqb c bs then
        match t with e :: t' => c :: e :: escape_body t' | [] => [c] end
      else if is_html c then u00 c ++ escape_body t
      else match t with
           | c1 :: c2 :: t' =>
               if is_separator c c1 c2 then u202 c2 ++ escape_body t' else c :: escape_body t
           | _ => c :: escape_body t
           end
  end.

Lemma escape_hex c t : is_hex c = true -> escape_body (c :: t) = c :: escape_body t.
Proof.
  intros Hc. assert (Ascii.eqb c bs = false /\ is_html c = false /\ (code c =? 226)%N = false)
    as (Hb & Hh & Hs) by (all_bytes c; first [done|discriminate Hc]).
  unfold escape_body at 1. fold escape_body. rewrite Hb, Hh.
  destruct t as [|c1 [|c2 t]]; [done..|]. unfold is_separator. by rewrite Hs.
Qed.

Lemma escape_unicode h1 h2 h3 h4 s :
  forallb is_hex [h1; h2; h3; h4] = true ->
  escape_body (bs :: "u" :: h1 :: h2 :: h3 :: h4 :: s) = bs :: "u" :: h1 :: h2 :: h3 :: h4 :: escape_body s.
Proof.
  cbn [forallb]. rewrite !andb_true_iff. intros (? & ? & ? & ? & _).
  transitivity (bs :: "u" :: escape_body (h1 :: h2 :: h3 :: h4 :: s)); [done|]. by rewrite !escape_hex.
Qed.

Lemma separator_bytes c c1 c2 :
  is_separator c c1 c2 = true -> c = "226" /\ c1 = "128" /\ (c2 = "168" \/ c2 = "169").
Proof.
  unfold is_separator. rewrite !andb_true_iff, orb_true_iff, !N.eqb_eq. intros [[Hc Hc1] Hc2].
  rewrite <-(ascii_N_embedding c), <-(ascii_N_embedding c1), <-(ascii_N_embedding c2). unfold code in *.
  rewrite Hc, Hc1. destruct Hc2 as [->| ->]; auto.
Qed.

(** A plain byte of a literal: it starts a separator, or stands alone. *)
Lemma plain_cases c s :
  is_plain c = true ->
  (exists c1 c2 s', s = c1 :: c2 :: s' /\ is_separator c c1 c2 = true /\ escape_body (c :: s) = u202 c2 ++ escape_body s') \/
  (is_html c = true /\ escape_body (c :: s) = u00 c ++ escape_body s) \/
  (is_html c = false /\ escape_body (c :: s) = c :: escape_body s /\
   forall c1 c2 s', s = c1 :: c2 :: s' -> is_separator c c1 c2 = false).
Proof.
  intros [Hq Hb]%plain_special. unfold escape_body at 1 3 5. fold escape_body. rewrite Hb.
  destruct (is_html c) eqn:Hh.
  { right. left. done. }
  destruct s as [|c1 [|c2 s']]; [by right; right..|]. destruct (is_separator c c1 c2) eqn:Hs.
  - left. by exists c1, c2, s'.
  - right. right. split_and!; [done..|]. by intros ? ? ? [= <- <- <-].
Qed.

(** Compaction inside a literal. *)
Lemma compact_body b :
  str_body b -> str_body (escape_body b) /\
    forall r, compact_from Inside (b ++ dq :: r) = escape_body b ++ dq :: compact_from Outside r.
Proof.
  remember (length b) as n eqn:Hn. revert b Hn. induction n as [n IH] using lt_wf_ind. intros b -> Hb.
  assert (forall t, (length t < length b)%nat -> str_body t -> str_body (escape_body t) /\
    forall r, compact_from Inside (t ++ dq :: r) = escape_body t ++ dq :: compact_from Outside r) as IH'
    by (intros t Ht; by apply (IH _ Ht)). clear IH.
  destruct Hb as [|c s Hc Hs|c s Hc Hs|h1 h2 h3 h4 s Hh Hs].
  - by split; [constructor|].
  - destruct (IH' s) as (HB & Hr); [simpl; lia|done|]. destruct (plain_special c Hc) as [Hq Hb].
    destruct (plain_cases c s Hc) as [(c1 & c2 & s' & -> & Hsep & ->)|[(Hhtml & ->)|(Hhtml & -> & Hsep)]].
    + assert (str_body s') as Hs'.
      { destruct (separator_bytes _ _ _ Hsep) as (_ & -> & Hc2). apply str_body_plain_inv in Hs; [|done].
        by destruct Hc2 as [->| ->]; apply str_body_plain_inv in Hs. }
      destruct (IH' s') as (HB' & Hr'); [simpl; lia|done|]. split; [by apply u202_body|]. intros r. cbn [app].
      unfold compact_from at 1. fold compact_from.
      assert (is_html c = false) as -> by by destruct (separator_bytes _ _ _ Hsep) as (-> & _).
      rewrite Hb, Hq, Hsep, Hr'. by rewrite <-app_assoc.
    + split; [by apply u00_body|]. intros r. cbn [app compact_from]. rewrite Hb, Hq, Hhtml, Hr.
      by rewrite <-app_assoc.
    + split; [by constructor|]. intros r.
      assert (compact_from Inside ((c :: s) ++ dq :: r) = c :: compact_from Inside (s ++ dq :: r)) as ->; [|by rewrite Hr].
      destruct s as [|c1 [|c2 s']]; cbn [app]; unfold compact_from at 1; fold compact_from; rewrite Hb, Hq, Hhtml.
      * destruct r; [done|]. unfold is_separator. by rewrite andb_false_r.
      * unfold is_separator. by rewrite andb_false_r.
      * by rewrite (Hsep c1 c2 s').
  - destruct (IH' s) as (HB & Hr); [simpl; lia|done|]. change (escape_body (bs :: c :: s)) with (bs :: c :: escape_body s).
    split; [by constructor|]. intros r. cbn. by rewrite Hr.
  - destruct (IH' s) as (HB & Hr); [simpl; lia|done|]. rewrite (escape_unicode _ _ _ _ _ Hh).
    split; [by constructor|]. intros r. cbn [forallb] in Hh. rewrite !andb_true_iff in Hh.
    destruct Hh as (? & ? & ? & ? & _). cbn [app].
    transitivity (bs :: "u" :: compact_from Inside (h1 :: h2 :: h3 :: h4 :: s ++ dq :: r)); [done|].
    by rewrite !compact_hex, Hr.
Qed.

Lemma compact_ws w r : all_ws w -> compact_from Outside (w ++ r) = compact_from Outside r.
Proof. induction 1 as [|c w Hc _ IH]; [done|]. cbn [app compact_from]. by rewrite Hc. Qed.

(** Bytes outside literals that are kept. *)
Definition is_kept (c : ascii) : bool := negb (is_ws c) && negb (Ascii.eqb c dq).

Lemma compact_kept s r : forallb is_kept s = true -> compact_from Outside (s ++ r) = s ++ compact_from Outside r.
Proof.
  induction s as [|c s IH]; [done|]. cbn [forallb app compact_from]. unfold is_kept at 1.
  rewrite !andb_true_iff, !negb_true_iff. intros [[Hw Hq] Hs]. rewrite Hw, Hq. by rewrite IH.
Qed.

Lemma forallb_Forall (p q : ascii -> bool) s :
  (forall c, p c = true -> q c = true) -> Forall (fun c => p c = true) s -> forallb q s = true.
Proof. intros Hpq. induction 1 as [|c s Hc _ IH]; [done|]. simpl. by rewrite Hpq. Qed.

Lemma dig_kept c : is_dig c = true -> is_kept c = true.
Proof. intros Hc. all_bytes c; first [done|discriminate Hc]. Qed.

Lemma number_kept s : number s -> forallb is_kept s = true.
Proof.
  intros [sg i f e Hsg Hi Hf He]. rewrite !forallb_app. apply andb_true_intro. split; [by destruct Hsg as [->| ->]|].
  apply andb_true_intro. split; [|apply andb_true_intro; split].
  - destruct Hi as [|c ds Hc Hds]; [done|]. simpl. rewrite (forallb_Forall is_dig is_kept ds) by (apply dig_kept || done).
    clear -Hc. all_bytes c; first [done|discriminate Hc].
  - destruct Hf as [|c ds Hc Hds]; [done|]. simpl. rewrite (forallb_Forall is_dig is_kept ds) by (apply dig_kept || done).
    by rewrite dig_kept.
  - destruct He as [|c sg' c' ds Hc Hsg' Hd Hds]; [done|]. cbn [forallb]. rewrite forallb_app. cbn [forallb].
    rewrite (forallb_Forall is_dig is_kept ds) by (apply dig_kept || done). rewrite (dig_kept c') by done.
    destruct Hc as [->| ->], Hsg' as [->|[->| ->]]; done.
Qed.

Lemma literal_kept s : s ∈ literals -> forallb is_kept s = true.
Proof. unfold literals. intros Hs. repeat (apply elem_of_cons in Hs as [->|Hs]; [done|]). by apply elem_of_nil in Hs. Qed.

Lemma compact_string b :
  str_body b -> str_body (escape_body b) /\
    forall r, compact_from Outside (dq :: b ++ dq :: r) = dq :: escape_body b ++ dq :: compact_from Outside r.
Proof.
  intros (HB & Hr)%compact_body. split; [done|]. intros r. cbn [compact_from]. cbn. by rewrite Hr.
Qed.

Lemma compact_prefix k p :
  prefix_of k p -> exists p', prefix_of k p' /\ forall r, compact_from Outside (p ++ r) = p' ++ compact_from Outside r.
Proof.
  destruct 1 as [w Hw|w1 key w2 w3 Hw1 Hkey Hw2 Hw3].
  - exists []. split; [by repeat constructor|]. intros r. by apply compact_ws.
  - destruct (compact_string key Hkey) as (HB & Hr). exists (dq :: escape_body key ++ [dq; ":"]). split.
    + apply (po_obj [] (escape_body key) [] []); by repeat constructor.
    + intros r. repeat (rewrite <-?app_assoc; simpl app). rewrite compact_ws by done. rewrite Hr.
      rewrite (compact_ws w2) by done. change (":" :: w3 ++ r) with ([":"] ++ w3 ++ r).
      rewrite compact_kept by done. by rewrite (compact_ws w3).
Qed.

(** Compaction keeps a value a value, of the same nesting, and works piecewise. *)
Definition compacts (P : bytes -> Prop) (s : bytes) : Prop :=
  exists S, P S /\ forall r, compact_from Outside (s ++ r) = S ++ compact_from Outside r.

Lemma compact_bracket c r : c ∈ ["["; "{"; "]"; "}"; ","] -> compact_from Outside (c :: r) = c :: compact_from Outside r.
Proof. intros Hc. repeat (apply elem_of_cons in Hc as [->|Hc]; [done|]). by apply elem_of_nil in Hc. Qed.

Lemma opening_bracket k : opening k ∈ ["["; "{"; "]"; "}"; ","].
Proof. destruct k; simpl; rewrite !elem_of_cons; auto. Qed.
Lemma closing_bracket k : closing k ∈ ["["; "{"; "]"; "}"; ","].
Proof. destruct k; simpl; rewrite !elem_of_cons; auto 6. Qed.

Lemma compact_values :
  (forall d v, value d v -> compacts (value d) v) /\ (forall k d s, items k d s -> compacts (items k d) s).
Proof.
  apply value_items_ind.
  - intros d s Hs. exists s. split; [by constructor|]. intros r. by apply compact_kept, literal_kept.
  - intros d s Hs. exists s. split; [by constructor|]. intros r. by apply compact_kept, number_kept.
  - intros d s (HB & Hr)%compact_string. exists (dq :: escape_body s ++ [dq]). split; [by constructor|]. intros r.
    rewrite <-app_comm_cons, <-app_assoc. simpl app. rewrite Hr. by rewrite <-app_assoc.
  - intros k d w Hw. exists [opening k; closing k]. split; [by apply (val_empty k d []); constructor|]. intros r.
    rewrite <-app_comm_cons, <-app_assoc, compact_bracket by apply opening_bracket. rewrite compact_ws by done.
    simpl app. by rewrite compact_bracket by apply closing_bracket.
  - intros k d s _ (S & HS & Hr). exists (opening k :: S ++ [closing k]). split; [by constructor|]. intros r.
    rewrite <-app_comm_cons, <-app_assoc, compact_bracket by apply opening_bracket. rewrite Hr.
    change ([closing k] ++ r) with (closing k :: r). rewrite compact_bracket by apply closing_bracket.
    by rewrite <-app_comm_cons, <-app_assoc.
  - intros k d p v w Hp _ (V & HV & Hr) Hw. destruct (compact_prefix k p Hp) as (p' & Hp' & Hpr).
    exists (p' ++ V ++ []). split; [apply items_one; [done..|constructor]|]. intros r.
    rewrite <-!app_assoc, Hpr, Hr, compact_ws by done. done.
  - intros k d p v w s Hp _ (V & HV & Hr) Hw _ (S & HS & Hsr). destruct (compact_prefix k p Hp) as (p' & Hp' & Hpr).
    exists (p' ++ V ++ [] ++ "," :: S). split; [apply items_more; [done..|constructor|done]|]. intros r.
    repeat (rewrite <-?app_assoc; simpl app). rewrite Hpr, Hr, compact_ws by done.
    rewrite compact_bracket by (rewrite !elem_of_cons; auto 6). by rewrite Hsr.
Qed.

Lemma compact_value d v : value d v -> value d (compact_from Outside v).
Proof.
  intros Hv. destruct (proj1 compact_values d v Hv) as (V & HV & Hr). specialize (Hr []). rewrite !app_nil_r in Hr.
  by rewrite Hr.
Qed.

(** [compact] accepts the JSON texts, and what it makes of one is a value. *)
Lemma compact_some s : (exists V, compact s = Some V) <-> json_text max_depth s.
Proof. unfold compact. rewrite <-Valid_spec. destruct (Valid s); split; [done|eauto|by intros [? [=]]|done]. Qed.

Lemma compact_text d s V : json_text d s -> compact s = Some V -> value d V.
Proof.
  unfold compact. intros (w & v & w' & Hw & Hv & Hw' & ->). destruct (Valid _); [|done]. intros [= <-].
  rewrite compact_ws by done. destruct (proj1 compact_values _ v Hv) as (V & HV & ->).
  rewrite <-(app_nil_r w'), compact_ws by done. simpl. by rewrite app_nil_r.
Qed.

Lemma compact_sound s V : compact s = Some V -> value max_depth V.
Proof. intros H. eapply compact_text; [|exact H]. apply compact_some. eauto. Qed.

Definition of_string (s : string) : bytes := String.list_ascii_of_string s.

Example some_texts :
  map (fun s => Valid (of_string s))
    ["{}"; " [1, -2.5e+3, null] "; "01"; "[1,]"; "{1:2}"; "-"; "tru"; ""; "0.5E1"; "[]]"; "[[],{}]"]%string =
  [true; true; false; false; false; false; false; false; true; false; true].
Proof. vm_compute. reflexivity. Qed.
