(* ===== verification/JsonString.v ===== *)
(** * JSON strings (package encoding/json: encode.go, decode.go; unicode/utf8)

    How the encoder writes a Go string as a literal, with HTML escaping and
    invalid UTF-8 replaced, and how the decoder reads one, escapes and surrogate
    pairs included.  Reading back what was written gives the string again when it
    is valid UTF-8, and in general the string with every invalid byte replaced. *)

From S2P Require Import Prelude Json.
From stdpp Require Import options.

#[local] Open Scope char_scope.

(** ** UTF-8 *)

(** utf8.DecodeRune: a well-formed sequence, or one byte that starts none. *)
Inductive chunk :=
| Rune (b : bytes)
| Bad.

Definition cont : ascii -> bool := byte_in 128 191.

(** The second byte of a three- or four-byte sequence, after [a]. *)
Definition second3 (a b : ascii) : bool :=
  if (code a =? 224)%N then byte_in 160 191 b
  else if (code a =? 237)%N then byte_in 128 159 b
  else byte_in 225 239 a && cont b.
Definition second4 (a b : ascii) : bool :=
  if (code a =? 240)%N then byte_in 144 191 b
  else if (code a =? 244)%N then byte_in 128 143 b
  else byte_in 241 243 a && cont b.

Definition take_rune (a : ascii) (t : bytes) : chunk * bytes :=
  if (code a <? 128)%N then (Rune [a], t)
  else match t with
       | b :: t1 =>
           if byte_in 194 223 a && cont b then (Rune [a; b], t1)
           else match t1 with
                | c :: t2 =>
                    if second3 a b && cont c then (Rune [a; b; c], t2)
                    else match t2 with
                         | d :: t3 => if second4 a b && cont c && cont d then (Rune [a; b; c; d], t3) else (Bad, t)
                         | [] => (Bad, t)
                         end
                | [] => (Bad, t)
                end
       | [] => (Bad, t)
       end.

(** The chunks of a string; [n] is fuel. *)
Fixpoint chunks (n : nat) (s : bytes) : list chunk :=
  match n, s with
  | S n, a :: t => let '(k, t') := take_rune a t in k :: chunks n t'
  | _, _ => []
  end.

Definition valid_utf8 (s : bytes) : Prop := Forall (fun k => k <> Bad) (chunks (length s) s).

(** U+FFFD. *)
Definition replacement : bytes := ["239"; "191"; "189"].

Definition chunk_bytes (k : chunk) : bytes := match k with Rune b => b | Bad => replacement end.

(** strings.ToValidUTF8 with U+FFFD, byte by byte. *)
Definition sanitize (s : bytes) : bytes := concat (map chunk_bytes (chunks (length s) s)).

(** utf8.EncodeRune of a scalar value. *)
Definition utf8_encode (r : N) : bytes :=
  let b (n : N) := ascii_of_N n in
  (if r <? 128 then [b r]
   else if r <? 2048 then [b (192 + r / 64); b (128 + r mod 64)]
   else if r <? 65536 then [b (224 + r / 4096); b (128 + r / 64 mod 64); b (128 + r mod 64)]
   else [b (240 + r / 262144); b (128 + r / 4096 mod 64); b (128 + r / 64 mod 64); b (128 + r mod 64)])%N.

(** ** Writing (encode.go, [appendString] with HTML escaping) *)

Definition quote_byte (a : ascii) : bytes :=
  if Ascii.eqb a dq || Ascii.eqb a bs then [bs; a]
  else if Ascii.eqb a "008" then [bs; "b"]
  else if Ascii.eqb a "012" then [bs; "f"]
  else if Ascii.eqb a "010" then [bs; "n"]
  else if Ascii.eqb a "013" then [bs; "r"]
  else if Ascii.eqb a "009" then [bs; "t"]
  else if is_html a || (code a <? 32)%N then u00 a
  else [a].

Definition quote_chunk (k : chunk) : bytes :=
  match k with
  | Bad => [bs; "u"; "f"; "f"; "f"; "d"]
  | Rune [a] => quote_byte a
  | Rune [a; b; c] => if is_separator a b c then u202 c else [a; b; c]
  | Rune b => b
  end.

Definition quote_body (s : bytes) : bytes := concat (map quote_chunk (chunks (length s) s)).
Definition quote (s : bytes) : bytes := dq :: quote_body s ++ [dq].

(** ** Reading (decode.go, [unquoteBytes]) *)

Definition hex_value (c : ascii) : N :=
  if byte_in 48 57 c then (code c - 48)%N
  else if byte_in 97 102 c then (code c - 87)%N
  else (code c - 55)%N.

Definition hex4 (a b c d : ascii) : N :=
  (hex_value a * 4096 + hex_value b * 256 + hex_value c * 16 + hex_value d)%N.

Definition surrogate (r : N) : bool := (55296 <=? r)%N && (r <? 57344)%N.

(** utf16.DecodeRune *)
Definition pair_rune (hi lo : N) : option N :=
  if (55296 <=? hi)%N && (hi <? 56320)%N && (56320 <=? lo)%N && (lo <? 57344)%N
  then Some ((hi - 55296) * 1024 + (lo - 56320) + 65536)%N else None.

Definition simple_escape (e : ascii) : ascii :=
  if Ascii.eqb e "b" then "008" else if Ascii.eqb e "f" then "012" else if Ascii.eqb e "n" then "010"
  else if Ascii.eqb e "r" then "013" else if Ascii.eqb e "t" then "009" else e.

(** getu4: the value of a \u escape at the head of [s], and what follows it. *)
Definition getu4 (s : bytes) : option (N * bytes) :=
  match s with
  | x :: u :: t =>
      if Ascii.eqb x bs && Ascii.eqb u "u" then
        match t with
        | a :: b :: c :: d :: t => if forallb is_hex [a; b; c; d] then Some (hex4 a b c d, t) else None
        | _ => None
        end
      else None
  | _ => None
  end.

(** The body of a literal the checker has accepted; [n] is fuel. *)
Fixpoint unquote_body (n : nat) (s : bytes) : bytes :=
  match n, s with
  | S n, a :: t =>
      if Ascii.eqb a bs then
        match getu4 s with
        | Some (r, t) =>
            if surrogate r then
              match getu4 t with
              | Some (r', t') =>
                  match pair_rune r r' with
                  | Some c => utf8_encode c ++ unquote_body n t'
                  | None => replacement ++ unquote_body n t
                  end
              | None => replacement ++ unquote_body n t
              end
            else utf8_encode r ++ unquote_body n t
        | None => match t with e :: t => simple_escape e :: unquote_body n t | [] => [] end
        end
      else let '(k, t') := take_rune a t in chunk_bytes k ++ unquote_body n t'
  | _, _ => []
  end.

Definition unquote (body : bytes) : bytes := unquote_body (length body) body.

(** ** Chunks *)

Inductive rune : bytes -> Prop :=
| rune1 a : (code a <? 128)%N = true -> rune [a]
| rune2 a b : (code a <? 128)%N = false -> byte_in 194 223 a && cont b = true -> rune [a; b]
| rune3 a b c : (code a <? 128)%N = false -> byte_in 194 223 a && cont b = false ->
    second3 a b && cont c = true -> rune [a; b; c]
| rune4 a b c d : (code a <? 128)%N = false -> byte_in 194 223 a && cont b = false ->
    second3 a b && cont c = false -> second4 a b && cont c && cont d = true -> rune [a; b; c; d].

Definition good (k : chunk) : Prop := match k with Rune b => rune b | Bad => True end.

Lemma take_rune_spec a t k t' :
  take_rune a t = (k, t') -> good k /\ match k with Rune b => a :: t = b ++ t' | Bad => t' = t end.
Proof.
  unfold take_rune. intros H. repeat (case_match; simplify_eq); split; try done; simpl; by econstructor.
Qed.

Lemma rune_take b r : rune b -> exists a t, b = a :: t /\ take_rune a (t ++ r) = (Rune b, r).
Proof.
  intros [a H1|a b' H1 H2|a b' c H1 H2 H3|a b' c d H1 H2 H3 H4]; eexists _, _; (split; [reflexivity|]);
    unfold take_rune; simpl app; rewrite H1, ?H2, ?H3, ?H4; done.
Qed.

Lemma take_rune_shorter a t k t' : take_rune a t = (k, t') -> (length t' <= length t)%nat.
Proof.
  intros [Hk H]%take_rune_spec. destruct k as [b|]; [|by subst].
  assert (length (a :: t) = length (b ++ t')) as Hl by (by rewrite H). rewrite length_app in Hl. simpl in Hl.
  destruct Hk; simpl in Hl; lia.
Qed.

Lemma chunks_fuel n s : (length s <= n)%nat -> chunks n s = chunks (length s) s.
Proof.
  enough (forall m, (length s <= n)%nat -> (length s <= m)%nat -> chunks n s = chunks m s) as H by auto.
  revert s. induction n as [|n IH]; intros [|a t] [|m]; simpl; try lia; [done..|]. intros Hn Hm.
  destruct (take_rune a t) as [k t'] eqn:Ht. apply take_rune_shorter in Ht. f_equal. apply IH; lia.
Qed.

Lemma chunks_cons a t k t' : take_rune a t = (k, t') -> chunks (length (a :: t)) (a :: t) = k :: chunks (length t') t'.
Proof.
  intros Ht. simpl. rewrite Ht. f_equal. apply chunks_fuel. by eapply take_rune_shorter.
Qed.

(** Induction along the chunks of a string. *)
Lemma chunks_ind (P : bytes -> list chunk -> Prop) :
  P [] [] ->
  (forall a t k t', take_rune a t = (k, t') -> P t' (chunks (length t') t') -> P (a :: t) (k :: chunks (length t') t')) ->
  forall s, P s (chunks (length s) s).
Proof.
  intros H0 H1 s. remember (length s) as n eqn:Hn. revert s Hn. induction n as [n IH] using lt_wf_ind.
  intros [|a t] ->; [done|]. destruct (take_rune a t) as [k t'] eqn:Ht. rewrite (chunks_cons _ _ _ _ Ht).
  apply H1; [done|]. apply (IH (length t')); [|done]. apply take_rune_shorter in Ht. simpl. lia.
Qed.

Lemma chunks_good s : Forall good (chunks (length s) s).
Proof.
  apply (chunks_ind (fun _ ks => Forall good ks)); [constructor|]. intros a t k t' [Hk _]%take_rune_spec IH.
  by constructor.
Qed.

Lemma sanitize_valid s : valid_utf8 s -> sanitize s = s.
Proof.
  unfold valid_utf8, sanitize.
  apply (chunks_ind (fun s ks => Forall (fun k => k <> Bad) ks -> concat (map chunk_bytes ks) = s)); [done|].
  intros a t k t' [_ Ht]%take_rune_spec IH [Hk Hks]%Forall_cons. destruct k as [b|]; [|done]. simpl.
  by rewrite IH, Ht.
Qed.

Lemma sanitize_nil s : sanitize s = [] <-> s = [].
Proof.
  split; [|by intros ->]. destruct s as [|a t]; [done|]. unfold sanitize.
  destruct (take_rune a t) as [k t'] eqn:Ht. rewrite (chunks_cons _ _ _ _ Ht). apply take_rune_spec in Ht as [Hk _].
  destruct k as [b|]; [|done]. by destruct Hk.
Qed.

Definition is_ascii (c : ascii) : bool := (code c <? 128)%N.

Lemma ascii_valid s : Forall (fun c => is_ascii c = true) s -> valid_utf8 s.
Proof.
  unfold valid_utf8. induction 1 as [|c s Hc Hs IH]; [constructor|].
  assert (take_rune c s = (Rune [c], s)) as Ht by (unfold take_rune; unfold is_ascii in Hc; by rewrite Hc).
  rewrite (chunks_cons _ _ _ _ Ht). by constructor.
Qed.

(** ** Reading what was written *)

Lemma unquote_rune n b r a t : rune b -> b = a :: t -> Ascii.eqb a bs = false ->
  unquote_body (S n) (b ++ r) = b ++ unquote_body n r.
Proof.
  intros Hb -> Ha. destruct (rune_take _ r Hb) as (a' & t' & [= <- <-] & Ht).
  rewrite <-app_comm_cons. cbn [unquote_body]. by rewrite Ha, Ht.
Qed.

Lemma unquote_byte n a r :
  (code a <? 128)%N = true -> unquote_body (S n) (quote_byte a ++ r) = a :: unquote_body n r.
Proof. intros Ha. all_bytes a; first [discriminate Ha|reflexivity]. Qed.

Lemma not_ascii_not_bs a : (code a <? 128)%N = false -> Ascii.eqb a bs = false.
Proof. intros Ha. by destruct (Ascii.eqb_spec a bs) as [->|]. Qed.

Lemma unquote_chunk n k r :
  good k -> unquote_body (S n) (quote_chunk k ++ r) = chunk_bytes k ++ unquote_body n r.
Proof.
  destruct k as [b|]; [|reflexivity]. intros Hb. assert (rune b) as Hb' by done. revert Hb.
  destruct Hb' as [a Ha|a b' Ha _|a b' c Ha _ _|a b' c d Ha _ _ _]; intros Hb; cbn [quote_chunk chunk_bytes].
  - by apply unquote_byte.
  - by apply (unquote_rune n _ r a [b'] Hb), not_ascii_not_bs.
  - destruct (is_separator a b' c) eqn:Hs; [|by apply (unquote_rune n _ r a [b'; c] Hb), not_ascii_not_bs].
    apply separator_bytes in Hs as (-> & -> & [->| ->]); reflexivity.
  - by apply (unquote_rune n _ r a [b'; c; d] Hb), not_ascii_not_bs.
Qed.

Lemma quote_chunk_nonempty k : good k -> (0 < length (quote_chunk k))%nat.
Proof.
  destruct k as [b|]; [|simpl; lia]. intros [a _| | |]; simpl; try lia; [|case_match; simpl; lia].
  unfold quote_byte. repeat case_match; simpl; lia.
Qed.

(** Decoding an encoded string gives it back, its invalid bytes replaced. *)
Lemma unquote_quote s : unquote (quote_body s) = sanitize s.
Proof.
  unfold unquote, quote_body, sanitize. pose proof (chunks_good s) as Hg.
  assert (forall ks n, Forall good ks -> (length (concat (map quote_chunk ks)) <= n)%nat ->
    unquote_body n (concat (map quote_chunk ks)) = concat (map chunk_bytes ks)) as H; [|by apply H].
  clear. induction ks as [|k ks IH]; intros n Hg Hn; [by destruct n|].
  apply Forall_cons in Hg as [Hk Hks]. simpl in *. rewrite length_app in Hn.
  pose proof (quote_chunk_nonempty k Hk). destruct n as [|n]; [lia|].
  rewrite unquote_chunk by done. f_equal. apply IH; [done|lia].
Qed.

(** ** What is written is a literal *)

Lemma high_plain a : (code a <? 128)%N = false -> is_plain a = true.
Proof. intros Ha. all_bytes a; first [done|discriminate Ha]. Qed.

Lemma cont_plain b : cont b = true -> is_plain b = true.
Proof. intros Hb. all_bytes b; first [done|discriminate Hb]. Qed.

Lemma second_cont a b : second3 a b = true \/ second4 a b = true -> cont b = true.
Proof.
  unfold second3, second4, cont, byte_in. intros [H|H]; repeat case_match; rewrite !andb_true_iff, ?N.leb_le in *; lia.
Qed.

Lemma rune_high b : rune b -> (1 < length b)%nat -> Forall (fun c => is_plain c = true) b.
Proof.
  intros [a Ha|a b' Ha Hb|a b' c Ha _ Hb|a b' c d Ha _ _ Hb] Hl; simpl in Hl; [lia|..]; rewrite ?andb_true_iff in Hb;
    destruct_and?; repeat (apply Forall_cons; split); try apply Forall_nil;
    eauto 6 using high_plain, cont_plain, second_cont.
Qed.

Lemma str_body_plains b s : Forall (fun c => is_plain c = true) b -> str_body s -> str_body (b ++ s).
Proof. induction 1; [done|]. intros Hs. constructor; auto. Qed.

Lemma quote_byte_body a s : (code a <? 128)%N = true -> str_body s -> str_body (quote_byte a ++ s).
Proof.
  intros Ha Hs. unfold quote_byte.
  destruct (Ascii.eqb a dq || Ascii.eqb a bs) eqn:Hq.
  { apply orb_true_iff in Hq as [->%eqb_true| ->%eqb_true]; by constructor. }
  repeat (case_match; [by first [apply u00_body|constructor]|]).
  apply orb_false_iff in Hq as [Hq Hb]. constructor; [|done]. unfold is_plain. rewrite Hq, Hb.
  destruct (is_html a); [done|]. simpl in *. by rewrite N.leb_antisym, H4.
Qed.

Lemma quote_chunk_body k s : good k -> str_body s -> str_body (quote_chunk k ++ s).
Proof.
  destruct k as [b|]; [|by constructor]. intros Hb Hs. assert (rune b) as Hb' by done. revert Hb.
  destruct Hb' as [a Ha|a b' Ha _|a b' c Ha _ _|a b' c d Ha _ _ _]; intros Hb; cbn [quote_chunk].
  - by apply quote_byte_body.
  - apply str_body_plains; [|done]. by apply rune_high; [|simpl; lia].
  - destruct (is_separator a b' c); [by apply u202_body|]. apply str_body_plains; [|done]. by apply rune_high; [|simpl; lia].
  - apply str_body_plains; [|done]. by apply rune_high; [|simpl; lia].
Qed.

Lemma quote_body_str s : str_body (quote_body s).
Proof.
  unfold quote_body. pose proof (chunks_good s) as Hg. induction Hg as [|k ks Hk _ IH]; [constructor|].
  simpl. by apply quote_chunk_body.
Qed.

Lemma quote_value d s : value d (quote s).
Proof. apply val_str, quote_body_str. Qed.
