(* ===== verification/Rfc3339.v ===== *)
(** * RFC 3339 timestamps (package time: format.go, format_rfc3339.go)

    A [Time] is an instant, in nanoseconds since the first of January of year 1,
    UTC, Go's zero time.  [format_rfc3339] is its text in the layout RFC3339Nano
    and in JSON, [parse_rfc3339] the parser of either, which is lenient where
    Go's is: an hour of one digit, a comma before the fraction, any number of
    fraction digits, of which nine count, and offsets up to 24:60. *)

From S2P Require Import Prelude GoStrings Validation Json.
From stdpp Require Import options.

(** ** The calendar *)

Definition leap (y : Z) : bool := (y mod 4 =? 0) && (negb (y mod 100 =? 0) || (y mod 400 =? 0)).

Definition days_in (m y : Z) : Z :=
  if m =? 2 then (if leap y then 29 else 28)
  else if (m =? 4) || (m =? 6) || (m =? 9) || (m =? 11) then 30 else 31.

(** Years begin in March and come in eras of 400, of four centuries, of cycles
    of four years: the year of a day of an era and the day of that year, and the
    month and day of the month of a day of the year. *)
Definition era_days : Z := 146097.

Definition year_of_era (doe : Z) : Z * Z :=
  let c := Z.min (doe / 36524) 3 in
  let r := doe - c * 36524 in
  let q := r / 1461 in
  let r := r - q * 1461 in
  let y := Z.min (r / 365) 3 in
  (100 * c + 4 * q + y, r - 365 * y).

Definition month_of_year (doy : Z) : Z * Z :=
  let mp := (5 * doy + 2) / 153 in
  (if mp <? 10 then mp + 3 else mp - 9, doy - (153 * mp + 2) / 5 + 1).

Definition civil_of_era (doe : Z) : Z * Z * Z :=
  let '(yoe, doy) := year_of_era doe in let '(m, d) := month_of_year doy in (yoe, m, d).

Definition era_of_civil (yoe m d : Z) : Z :=
  365 * yoe + yoe / 4 - yoe / 100 + (153 * (if m <=? 2 then m + 9 else m - 3) + 2) / 5 + d - 1.

(** Days since the first of January of year 1, and the date. *)
Definition civil (days : Z) : Z * Z * Z :=
  let z := days + 306 in
  let '(yoe, m, d) := civil_of_era (z mod era_days) in
  (z / era_days * 400 + yoe + (if m <=? 2 then 1 else 0), m, d).

Definition days_of (y m d : Z) : Z :=
  let y := if m <=? 2 then y - 1 else y in
  y / 400 * era_days + era_of_civil (y mod 400) m d - 306.

Lemma year_of_era_ok doe yoe doy :
  0 <= doe < era_days -> year_of_era doe = (yoe, doy) ->
  0 <= yoe < 400 /\ 365 * yoe + yoe / 4 - yoe / 100 + doy = doe /\
  (0 <= doy < 365 \/ doy = 365 /\ leap (yoe + 1) = true).
Proof.
  unfold year_of_era, era_days. intros Hd [= <- <-].
  set (c := Z.min (doe / 36524) 3). set (r := doe - c * 36524). set (q := r / 1461). set (r2 := r - q * 1461).
  set (y := Z.min (r2 / 365) 3).
  assert (0 <= c <= 3 /\ 0 <= r < 36524 + (if c =? 3 then 1 else 0)) as [Hc Hr].
  { pose proof (Z.div_mod doe 36524 ltac:(lia)). pose proof (Z.mod_pos_bound doe 36524 ltac:(lia)).
    subst r c. destruct (_ =? 3) eqn:E; to_prop; lia. }
  assert (0 <= q <= 24 /\ 0 <= r2 < 1461 /\ r = 1461 * q + r2) as (Hq & Hr2 & Hqr).
  { pose proof (Z.div_mod r 1461 ltac:(lia)). pose proof (Z.mod_pos_bound r 1461 ltac:(lia)). subst q r2.
    destruct (c =? 3); lia. }
  assert (0 <= y <= 3 /\ 0 <= r2 - 365 * y <= 365 /\ (r2 - 365 * y = 365 -> y = 3)) as (Hy & Hdoy & Hlast).
  { pose proof (Z.div_mod r2 365 ltac:(lia)). pose proof (Z.mod_pos_bound r2 365 ltac:(lia)). subst y. lia. }
  assert ((100 * c + 4 * q + y) / 4 = 25 * c + q /\ (100 * c + 4 * q + y) / 100 = c) as [E1 E2].
  { split; symmetry; [apply (Z.div_unique _ 4 _ y)|apply (Z.div_unique _ 100 _ (4 * q + y))]; lia. }
  rewrite E1, E2. split; [lia|]. split; [unfold r2, r; lia|].
  destruct (decide (r2 - 365 * y = 365)) as [E|E]; [right|left; lia]. split; [done|].
  pose proof (Hlast E). unfold leap. replace (100 * c + 4 * q + y + 1) with ((25 * c + q + 1) * 4) by lia.
  rewrite Z_mod_mult. simpl. apply orb_true_iff. destruct (decide (q = 24)) as [Hq24|Hq24].
  - right. assert (c = 3) as -> by (destruct (c =? 3) eqn:E3; to_prop; lia). by rewrite Hq24.
  - left. apply negb_true_iff, Z.eqb_neq. intros H0.
    pose proof (Z.div_mod ((25 * c + q + 1) * 4) 100 ltac:(lia)). lia.
Qed.

(** Every day of a year has a month, and its length only matters on the last. *)
Definition day_ok (doy : Z) : bool :=
  let '(m, d) := month_of_year doy in
  (1 <=? m) && (m <=? 12) && (1 <=? d) &&
  (d <=? (if m =? 2 then if doy =? 365 then 29 else 28 else days_in m 1)) &&
  ((153 * (if m <=? 2 then m + 9 else m - 3) + 2) / 5 + d - 1 =? doy) && (negb (doy =? 365) || (m =? 2)).

Lemma every_day_ok doy : 0 <= doy <= 365 -> day_ok doy = true.
Proof.
  intros Hd. assert (forallb (fun k => day_ok (Z.of_nat k)) (seq 0 366) = true) as H by (vm_compute; reflexivity).
  rewrite forallb_forall in H. rewrite <-(Z2Nat.id doy) by lia. apply H, in_seq. lia.
Qed.

Lemma days_in_400 m y k : days_in m (k * 400 + y) = days_in m y.
Proof.
  unfold days_in, leap. destruct (m =? 2); [|done].
  replace ((k * 400 + y) mod 4) with (y mod 4) by (replace (k * 400) with (k * 100 * 4) by lia; by rewrite Z.add_comm, Z_mod_plus_full).
  replace ((k * 400 + y) mod 100) with (y mod 100) by (replace (k * 400) with (k * 4 * 100) by lia; by rewrite Z.add_comm, Z_mod_plus_full).
  by rewrite (Z.add_comm (k * 400)), Z_mod_plus_full.
Qed.

Lemma civil_of_era_ok doe yoe m d :
  0 <= doe < era_days -> civil_of_era doe = (yoe, m, d) ->
  0 <= yoe < 400 /\ 1 <= m <= 12 /\ 1 <= d <= days_in m (yoe + (if m <=? 2 then 1 else 0)) /\
  era_of_civil yoe m d = doe.
Proof.
  intros Hd. unfold civil_of_era. destruct (year_of_era doe) as [yoe' doy] eqn:Hy.
  destruct (year_of_era_ok _ _ _ Hd Hy) as (Hyoe & Hdoe & Hdoy). pose proof (every_day_ok doy ltac:(lia)) as Hok.
  unfold day_ok in Hok. destruct (month_of_year doy) as [m' d']. intros [= <- <- <-].
  rewrite !andb_true_iff, orb_true_iff, negb_true_iff, !Z.leb_le, !Z.eqb_eq, Z.eqb_neq in Hok.
  destruct Hok as [[[[[? ?] ?] Hlen] Hday] Hlast]. unfold era_of_civil.
  split; [done|]. split; [lia|]. split; [|lia]. split; [done|]. etransitivity; [exact Hlen|].
  unfold days_in. destruct (m' =? 2) eqn:E2; [|done]. to_prop. subst m'. change (2 <=? 2) with true; cbv iota.
  destruct (doy =? 365) eqn:E; to_prop; [|destruct (leap _); lia]. destruct Hdoy as [?|[_ ->]]; [lia|done].
Qed.

(** The date of a day exists, and is the day's. *)
Lemma civil_ok days y m d :
  civil days = (y, m, d) -> days_of y m d = days /\ 1 <= m <= 12 /\ 1 <= d <= days_in m y.
Proof.
  unfold civil. set (z := days + 306). pose proof (Z.mod_pos_bound z era_days ltac:(done)) as Hb.
  destruct (civil_of_era (z mod era_days)) as [[yoe m'] d'] eqn:Hciv.
  destruct (civil_of_era_ok _ _ _ _ Hb Hciv) as (Hyoe & Hm & Hday & Hdoe). intros [= <- <- <-].
  split; [|split; [lia|]].
  - unfold days_of. set (k := z / era_days) in *. pose proof (Z.div_mod z era_days ltac:(done)) as Hz. fold k in Hz.
    replace (if m' <=? 2 then k * 400 + yoe + (if m' <=? 2 then 1 else 0) - 1
             else k * 400 + yoe + (if m' <=? 2 then 1 else 0)) with (k * 400 + yoe) by (destruct (m' <=? 2); lia).
    rewrite (Z.add_comm (k * 400)), Z.div_add, Z.div_small by lia. rewrite Z_mod_plus_full, Z.mod_small by lia. lia.
  - rewrite <-Z.add_assoc, days_in_400. lia.
Qed.

(** ** Formatting *)

#[local] Open Scope char_scope.
#[local] Open Scope Z_scope.

Definition pad2 (n : Z) : bytes := [digit_char (n / 10); digit_char (n mod 10)].
Definition pad4 (n : Z) : bytes := pad2 (n / 100) ++ pad2 (n mod 100).

(** [appendInt(b, year, 4)] *)
Definition year_text (y : Z) : bytes :=
  (if y <? 0 then ["-"] else []) ++
  (if Z.abs y <? 10000 then pad4 (Z.abs y) else of_string (FormatInt (Z.abs y))).

(** The digits of a fraction of [n] places, and without its trailing zeros. *)
Fixpoint places (n : nat) (x : Z) : bytes :=
  match n with O => [] | S n => places n (x / 10) ++ [digit_char (x mod 10)] end.

Fixpoint trim_zeros (s : bytes) : bytes :=
  match s with
  | [] => []
  | c :: t => match trim_zeros t with
              | [] => if Ascii.eqb c "0" then [] else [c]
              | t' => c :: t'
              end
  end.

Definition fraction (ns : Z) : bytes := match trim_zeros (places 9 ns) with [] => [] | s => "." :: s end.

Definition Second_ns : Z := 1000000000.
Definition Day_s : Z := 86400.

Definition format_rfc3339 (t : Time) : bytes :=
  let s := t / Second_ns in
  let '(y, m, d) := civil (s / Day_s) in
  let sod := s mod Day_s in
  year_text y ++ "-" :: pad2 m ++ "-" :: pad2 d ++
  "T" :: pad2 (sod / 3600) ++ ":" :: pad2 (sod / 60 mod 60) ++ ":" :: pad2 (sod mod 60) ++
  fraction (t mod Second_ns) ++ ["Z"].

Definition year_of (t : Time) : Z := let '(y, _, _) := civil (t / Second_ns / Day_s) in y.

(** ** Parsing *)

Definition digit2 (s : bytes) : option (Z * bytes) :=
  match s with
  | a :: b :: t => x ← digit_val a; y ← digit_val b; Some (10 * x + y, t)
  | _ => None
  end.

(** [getnum] when one digit is enough. *)
Definition digit12 (s : bytes) : option (Z * bytes) :=
  match s with
  | a :: t => x ← digit_val a;
      match t with
      | b :: t' => match digit_val b with Some y => Some (10 * x + y, t') | None => Some (x, t) end
      | [] => Some (x, t)
      end
  | [] => None
  end.

Definition digit4 (s : bytes) : option (Z * bytes) :=
  '(a, s) ← digit2 s; '(b, s) ← digit2 s; Some (100 * a + b, s).

Definition expect (c : ascii) (s : bytes) : option bytes :=
  match s with a :: t => if Ascii.eqb a c then Some t else None | [] => None end.

Definition within (lo hi x : Z) : option unit := if (lo <=? x) && (x <=? hi) then Some tt else None.

(** The value of up to [n] digits, as [n] places. *)
Fixpoint places_value (n : nat) (s : bytes) : Z :=
  match n with
  | O => 0
  | S n => match s with
           | c :: t =>
               match digit_val c with
               | Some x => x * 10 ^ Z.of_nat n + places_value n t
               | None => 0
               end
           | [] => 0
           end
  end.

Definition parse_fraction (s : bytes) : Z * bytes :=
  match s with
  | p :: c :: t =>
      if (Ascii.eqb p "." || Ascii.eqb p ",") && is_dig c then (places_value 9 (c :: t), skip is_dig t) else (0, s)
  | _ => (0, s)
  end.

(** The offset from UTC, in seconds. *)
Definition parse_zone (s : bytes) : option (Z * bytes) :=
  match s with
  | z :: t =>
      if Ascii.eqb z "Z" then Some (0, t)
      else
        sign ← (if Ascii.eqb z "+" then Some 1 else if Ascii.eqb z "-" then Some (-1) else None);
        '(h, t) ← digit2 t; t ← expect ":" t; '(m, t) ← digit2 t;
        _ ← within 0 24 h; _ ← within 0 60 m;
        Some (sign * (h * 3600 + m * 60), t)
  | [] => None
  end.

Definition parse_rfc3339 (s : bytes) : option Time :=
  '(y, s) ← digit4 s; s ← expect "-" s;
  '(m, s) ← digit2 s; _ ← within 1 12 m; s ← expect "-" s;
  '(d, s) ← digit2 s; s ← expect "T" s;
  '(hh, s) ← digit12 s; _ ← within 0 23 hh; s ← expect ":" s;
  '(mm, s) ← digit2 s; _ ← within 0 59 mm; s ← expect ":" s;
  '(ss, s) ← digit2 s; _ ← within 0 59 ss;
  let '(ns, s) := parse_fraction s in
  '(off, s) ← parse_zone s;
  match s with
  | [] => _ ← within 1 (days_in m y) d;
          Some ((days_of y m d * Day_s + hh * 3600 + mm * 60 + ss - off) * Second_ns + ns)
  | _ :: _ => None
  end.

(** ** Reading what was written *)

Lemma pad2_parse n s : 0 <= n < 100 -> digit2 (pad2 n ++ s) = Some (n, s).
Proof.
  intros Hn. pose proof (Z.div_mod n 10 ltac:(lia)). pose proof (Z.mod_pos_bound n 10 ltac:(lia)).
  unfold pad2. simpl. rewrite !digit_val_char by lia. simpl. f_equal. f_equal. lia.
Qed.

Lemma pad2_parse12 n s : 0 <= n < 100 -> digit12 (pad2 n ++ s) = Some (n, s).
Proof.
  intros Hn. pose proof (Z.div_mod n 10 ltac:(lia)). pose proof (Z.mod_pos_bound n 10 ltac:(lia)).
  unfold pad2. simpl. rewrite !digit_val_char by lia. simpl. f_equal. f_equal. lia.
Qed.

#[local] Arguments pad2 : simpl never.
#[local] Arguments digit2 : simpl never.
#[local] Arguments digit12 : simpl never.

Lemma year_parse y s : 0 <= y < 10000 -> digit4 (year_text y ++ s) = Some (y, s).
Proof.
  intros Hy. unfold year_text. replace (y <? 0) with false by (symmetry; apply Z.ltb_ge; lia).
  rewrite Z.abs_eq by lia. replace (y <? 10000) with true by (symmetry; apply Z.ltb_lt; lia).
  unfold digit4, pad4. rewrite app_nil_l, <-app_assoc.
  pose proof (Z.div_mod y 100 ltac:(lia)). pose proof (Z.mod_pos_bound y 100 ltac:(lia)).
  rewrite pad2_parse by lia. cbn [mbind option_bind]. rewrite pad2_parse by lia. simpl. f_equal. f_equal. lia.
Qed.

Lemma dig_digit x : 0 <= x < 10 -> is_dig (digit_char x) = true.
Proof.
  intros H. assert (x ∈ [0;1;2;3;4;5;6;7;8;9]) as Hx by (rewrite !elem_of_cons; lia).
  repeat (apply elem_of_cons in Hx as [->|Hx]; [done|]). by apply elem_of_nil in Hx.
Qed.

Lemma places_digits n x : digits (places n x) /\ length (places n x) = n.
Proof.
  revert x. induction n as [|n IH]; intros x; simpl; [by split; [constructor|]|]. destruct (IH (x / 10)) as [Hd Hl].
  split; [apply Forall_app; split; [done|]; constructor; [|constructor]; apply dig_digit, Z.mod_pos_bound; lia|].
  rewrite length_app, Hl. simpl. lia.
Qed.

Lemma is_dig_val c : is_dig c = true -> exists x, digit_val c = Some x.
Proof.
  intros Hc. destruct (digit_val c) as [x|] eqn:E; [eauto|]. exfalso.
  all_bytes c; first [discriminate Hc|discriminate E].
Qed.

Lemma places_value_app n m s t :
  digits s -> length s = n -> places_value (n + m) (s ++ t) = places_value n s * 10 ^ Z.of_nat m + places_value m t.
Proof.
  intros Hs. revert n. induction Hs as [|c s Hc _ IH]; intros [|n] Hl; simplify_eq/=; [lia|].
  destruct (is_dig_val c Hc) as [x ->]. rewrite (IH (length s)) by done. rewrite Nat2Z.inj_add, Z.pow_add_r by lia. lia.
Qed.

Lemma places_round n x : 0 <= x < 10 ^ Z.of_nat n -> places_value n (places n x) = x.
Proof.
  revert x. induction n as [|n IH]; intros x Hx; [simpl in *; lia|]. cbn [places].
  destruct (places_digits n (x / 10)) as [Hd Hl]. rewrite <-Nat.add_1_r, places_value_app by done.
  pose proof (Z.div_mod x 10 ltac:(lia)). pose proof (Z.mod_pos_bound x 10 ltac:(lia)).
  rewrite IH. { simpl. rewrite digit_val_char by lia. simpl. lia. }
  rewrite Nat2Z.inj_succ, Z.pow_succ_r in Hx by lia. lia.
Qed.

Lemma trim_value n s : digits s -> places_value n (trim_zeros s) = places_value n s.
Proof.
  intros Hs. revert n. induction Hs as [|c s Hc Hs IH]; intros n; [done|]. destruct n as [|n]; [by destruct (trim_zeros _)|].
  destruct (is_dig_val c Hc) as [x Hx]. cbn [trim_zeros places_value]. rewrite Hx, <-IH.
  destruct (trim_zeros s) as [|c' t]; [|by cbn [places_value]; rewrite Hx].
  destruct (Ascii.eqb_spec c "0") as [->|_]; [|by cbn [places_value]; rewrite Hx].
  injection Hx as <-. by destruct n.
Qed.

Lemma trim_digits s : digits s -> digits (trim_zeros s).
Proof.
  induction 1 as [|c s Hc _ IH]; [constructor|]. simpl. destruct (trim_zeros s) as [|c' t]; [|by constructor].
  case_match; by repeat constructor.
Qed.

Lemma places_value_stop n s t : digits s -> hd_not is_dig t -> places_value n (s ++ t) = places_value n s.
Proof.
  intros Hs Ht. revert n. induction Hs as [|c s Hc Hs IH]; intros [|n]; try done; simpl.
  - destruct t as [|c t]; [done|]. simpl in Ht. destruct (digit_val c) eqn:Hd; [|done]. exfalso.
    clear -Hd Ht. all_bytes c; first [discriminate Ht|discriminate Hd].
  - by rewrite IH.
Qed.

Lemma fraction_parse ns s : 0 <= ns < Second_ns -> parse_fraction (fraction ns ++ "Z" :: s) = (ns, "Z" :: s).
Proof.
  intros Hns. pose proof (places_round 9 ns Hns) as Hv. destruct (places_digits 9 ns) as [Hd _].
  rewrite <-trim_value in Hv by done. apply trim_digits in Hd. unfold fraction.
  destruct (trim_zeros (places 9 ns)) as [|c t]; [by rewrite <-Hv; destruct s|].
  apply Forall_cons in Hd as [Hc Ht]. unfold parse_fraction. rewrite <-!app_comm_cons. rewrite Hc. simpl andb. cbv iota.
  rewrite skip_app by done. f_equal. rewrite app_comm_cons, places_value_stop; [done|by constructor|done].
Qed.

Lemma expect_eq c s : expect c (c :: s) = Some s.
Proof. unfold expect. by rewrite Ascii.eqb_refl. Qed.

(** A time of the years 0 to 9999 is read back exactly. *)
Lemma parse_format t : 0 <= year_of t < 10000 -> parse_rfc3339 (format_rfc3339 t) = Some t.
Proof.
  unfold year_of, format_rfc3339. intros Hy.
  destruct (civil (t / Second_ns / Day_s)) as [[y m] d] eqn:Hciv.
  apply civil_ok in Hciv as (Hday & Hm & Hd). assert (days_in m y <= 31) as Hd31 by (unfold days_in; repeat case_match; lia).
  set (s := t / Second_ns) in *. pose proof (Z.mod_pos_bound s Day_s ltac:(done)) as Hsod.
  pose proof (Z.div_mod s Day_s ltac:(done)) as Hs. set (sod := s mod Day_s) in *.
  pose proof (Z.mod_pos_bound t Second_ns ltac:(done)) as Hns. pose proof (Z.div_mod t Second_ns ltac:(done)) as Ht.
  unfold Day_s in Hsod.
  assert (0 <= sod / 3600 < 24) by (split; [apply Z.div_pos|apply Z.div_lt_upper_bound]; lia).
  pose proof (Z.mod_pos_bound (sod / 60) 60 ltac:(lia)). pose proof (Z.mod_pos_bound sod 60 ltac:(lia)).
  assert (sod = sod / 3600 * 3600 + sod / 60 mod 60 * 60 + sod mod 60) as Hsplit.
  { pose proof (Z.div_mod sod 60 ltac:(lia)). pose proof (Z.div_mod (sod / 60) 60 ltac:(lia)).
    rewrite Z.div_div in * by lia. change (60 * 60) with 3600 in *. lia. }
  assert (forall lo hi x, lo <= x <= hi -> within lo hi x = Some tt) as Hin.
  { intros lo hi x Hx. unfold within. destruct (lo <=? x) eqn:?, (x <=? hi) eqn:?; to_prop; try done; lia. }
  unfold parse_rfc3339. rewrite year_parse by done. cbn [mbind option_bind].
  repeat first [rewrite expect_eq|rewrite pad2_parse by lia|rewrite pad2_parse12 by lia|rewrite Hin by lia
               |rewrite fraction_parse by done|progress cbn [mbind option_bind]].
  change (parse_zone ["Z"]) with (Some (0, @nil ascii)). cbn [mbind option_bind]. f_equal.
  rewrite Hday. fold s in Ht. rewrite (Z.mul_comm Day_s) in Hs.
  replace (_ - 0) with s by lia. by rewrite (Z.mul_comm s).
Qed.

Example some_times :
  map (fun s => parse_rfc3339 (of_string s))
    ["0001-01-01T00:00:00Z"; "0001-01-01T0:00:01,5Z"; "0001-01-02T01:00:00.25+01:00"; "0001-02-29T00:00:00Z";
     "0004-02-29T00:00:00Z"; "0001-01-01T24:00:00Z"; "0001-01-01t00:00:00Z"; "0001-01-01T00:00:00"]%string =
  [Some 0; Some 1500000000; Some 86400250000000; None; Some 99705600000000000; None; None; None].
Proof. vm_compute. reflexivity. Qed.

Example a_formatted_time :
  format_rfc3339 63900000000123456000 = of_string "2025-11-29T08:00:00.123456Z".
Proof. vm_compute. reflexivity. Qed.
