(* ===== verification/Wire.v ===== *)
(** * The documents on the wire (envelope.go, dlq.go, with encoding/json)

    How json.Marshal writes, and json.Unmarshal reads, the two structs whose
    tags are in the source and the fields of an undecodable entry.  They are the
    [JsonCodec] and [GoTime] the rest of the development is stated over.  The
    texts of encoding/json's errors are a parameter; that there is an error is
    not.  An application payload is encoded by a parameter, too. *)

From S2P Require Import Prelude GoStrings GoErrors Validation Registry Config Runtime.
From S2P Require Import Telemetry Delivery TestHarness Json JsonString Rfc3339.
From stdpp Require Import sorting.
From stdpp Require Import options.

Definition to_string (s : bytes) : string := String.string_of_list_ascii s.

(** ** Base64, standard encoding with padding *)

#[local] Open Scope char_scope.

Definition b64_digit (n : N) : ascii :=
  ascii_of_N (if n <? 26 then 65 + n else if n <? 52 then 71 + n else if n <? 62 then n - 4
              else if n =? 62 then 43 else 47)%N.

Definition b64_value (c : ascii) : option N :=
  if byte_in 65 90 c then Some (code c - 65)%N
  else if byte_in 97 122 c then Some (code c - 71)%N
  else if byte_in 48 57 c then Some (code c + 4)%N
  else if Ascii.eqb c "+" then Some 62%N
  else if Ascii.eqb c "/" then Some 63%N
  else None.

Fixpoint b64_encode (s : bytes) : bytes :=
  match s with
  | a :: b :: c :: t =>
      b64_digit (code a / 4) :: b64_digit (code a mod 4 * 16 + code b / 16) ::
      b64_digit (code b mod 16 * 4 + code c / 64) :: b64_digit (code c mod 64) :: b64_encode t
  | [a; b] =>
      [b64_digit (code a / 4); b64_digit (code a mod 4 * 16 + code b / 16); b64_digit (code b mod 16 * 4); "="]
  | [a] => [b64_digit (code a / 4); b64_digit (code a mod 4 * 16); "="; "="]
  | [] => []
  end%N.

(** Line breaks are ignored; the unused bits of the last digit may be set. *)
Fixpoint b64_groups (s : bytes) : option bytes :=
  match s with
  | [] => Some []
  | a :: b :: c :: d :: t =>
      x ← b64_value a; y ← b64_value b;
      let b1 := ascii_of_N (x * 4 + y / 16) in
      if Ascii.eqb d "=" then
        match t with
        | [] => if Ascii.eqb c "=" then Some [b1]
                else z ← b64_value c; Some [b1; ascii_of_N (y mod 16 * 16 + z / 4)]
        | _ => None
        end
      else
        z ← b64_value c; w ← b64_value d; r ← b64_groups t;
        Some (b1 :: ascii_of_N (y mod 16 * 16 + z / 4) :: ascii_of_N (z mod 4 * 64 + w) :: r)
  | _ => None
  end%N.

Definition b64_decode (s : bytes) : option bytes :=
  b64_groups (filter (fun c => negb (Ascii.eqb c "010" || Ascii.eqb c "013") = true) s).

(** ** Objects *)

(** The members of an object, keys quoted, in the given order. *)
Fixpoint members_text (kvs : list (string * bytes)) : bytes :=
  match kvs with
  | [] => []
  | [(k, v)] => quote (of_string k) ++ ":" :: v
  | (k, v) :: kvs => quote (of_string k) ++ ":" :: v ++ "," :: members_text kvs
  end.

Definition object_text (kvs : list (string * bytes)) : bytes := "{" :: members_text kvs ++ ["}"].

(** The members of an object the checker has accepted, after its brace: the
    keys decoded, the values as they stand; [n] is fuel. *)
Fixpoint read_members (n : nat) (s : bytes) : list (bytes * bytes) :=
  match n, skip_ws s with
  | S n, c :: t =>
      match scan_string t with
      | Some t1 =>
          let key := take (pred (length t - length t1)) t in
          match skip_ws t1 with
          | _ :: t2 =>
              let v := skip_ws t2 in
              match scan_value (length v) max_depth v with
              | Some r =>
                  (unquote key, take (length v - length r) v) ::
                  match skip_ws r with
                  | c :: r => if Ascii.eqb c "," then read_members n r else []
                  | [] => []
                  end
              | None => []
              end
          | [] => []
          end
      | None => []
      end
  | _, _ => []
  end.

(** What the decoder makes of a text at the top. *)
Inductive document :=
| DNull
| DObject (members : list (bytes * bytes))
| DOther.

Definition read_document (s : bytes) : option document :=
  if Valid s then
    Some match skip_ws s with
         | c :: t =>
             if Ascii.eqb c "{" then
               DObject (match skip_ws t with
                        | c :: _ => if Ascii.eqb c "}" then [] else read_members (length t) t
                        | [] => []
                        end)
             else if Ascii.eqb c "n" then DNull else DOther
         | [] => DOther
         end
  else None.

(** Field names match exactly, else up to case, as the long s and the Kelvin
    sign fold to ASCII. *)
Fixpoint fold_name (s : bytes) : bytes :=
  match s with
  | [] => []
  | a :: t =>
      if byte_in 97 122 a then ascii_of_N (code a - 32) :: fold_name t
      else match t with
           | b :: t1 =>
               if (code a =? 197)%N && (code b =? 191)%N then "S" :: fold_name t1
               else match t1 with
                    | c :: t2 =>
                        if (code a =? 226)%N && (code b =? 132)%N && (code c =? 170)%N then "K" :: fold_name t2
                        else a :: fold_name t
                    | [] => a :: fold_name t
                    end
           | [] => [a]
           end
  end.

Definition field_of (names : list string) (key : bytes) : option string :=
  match find (fun n => bool_decide (of_string n = key)) names with
  | Some n => Some n
  | None => find (fun n => bool_decide (fold_name (of_string n) = fold_name key)) names
  end.

(** ** Fields *)

Definition string_text (s : string) : bytes := quote (of_string s).

(** Time.MarshalJSON refuses years that do not have four digits. *)
Definition time_text (t : Time) : option bytes :=
  if (0 <=? year_of t)%Z && (year_of t <? 10000)%Z then Some (dq :: format_rfc3339 t ++ [dq]) else None.

(** A json.RawMessage; the nil one is written as null. *)
Definition raw_text (s : string) : option bytes :=
  match of_string s with [] => Some (of_string "null") | b => compact b end.

Definition null_or {A} (old : A) (raw : bytes) (read : bytes -> option A) : option A :=
  match raw with
  | c :: t => if Ascii.eqb c "n" then Some old else read raw
  | [] => None
  end.

(** The body of a value that is a string literal. *)
Definition literal_body (raw : bytes) : option bytes :=
  match raw with c :: t => if Ascii.eqb c dq then Some (removelast t) else None | [] => None end.

Definition read_string (old : string) (raw : bytes) : option string :=
  null_or old raw (fun raw => b ← literal_body raw; Some (to_string (unquote b))).

Definition read_time (old : Time) (raw : bytes) : option Time :=
  null_or old raw (fun raw => b ← literal_body raw; parse_rfc3339 b).

Definition read_int (old : Z) (raw : bytes) : option Z :=
  null_or old raw (fun raw => match ParseInt (to_string raw) with Ok n => Some n | Err _ => None end).

Definition read_bytes (raw : bytes) : option (option string) :=
  null_or None raw (fun raw => b ← literal_body raw; r ← b64_decode (unquote b); Some (Some (to_string r))).

(** Each member in turn sets the field its key names, if any. *)
Definition read_struct {A} (names : list string) (set : A -> string -> bytes -> option A) (zero : A) (s : bytes) :
    option A :=
  d ← read_document s;
  match d with
  | DNull => Some zero
  | DObject members =>
      foldl (fun a m => a ← a;
        match field_of names m.1 with Some n => set a n m.2 | None => Some a end) (Some zero) members
  | DOther => None
  end.

(** ** Envelopes and dead letters *)

#[local] Open Scope string_scope.

(** The json tags of the struct [Envelope]. *)
Definition envelope_fields : list string :=
  ["event_id"; "event_type"; "timestamp"; "schema_version"; "correlation_id"; "source"; "payload"].

(** The struct's fields in their order, each under its tag. *)
Definition envelope_text {T} (env : Envelope T) (time payload : bytes) : bytes :=
  object_text
    [("event_id", string_text (EventID env)); ("event_type", string_text (EventType env)); ("timestamp", time);
     ("schema_version", string_text (SchemaVersion env)); ("correlation_id", string_text (CorrelationID env));
     ("source", string_text (Source env)); ("payload", payload)].

(** A member sets the field whose tag it names; the payload stays as it is. *)
Definition set_envelope (env : Envelope string) (name : string) (raw : bytes) : option (Envelope string) :=
  let '(mkEnvelope id ty ts ver corr src pl) := env in
  if String.eqb name "event_id" then s ← read_string id raw; Some (mkEnvelope s ty ts ver corr src pl)
  else if String.eqb name "event_type" then s ← read_string ty raw; Some (mkEnvelope id s ts ver corr src pl)
  else if String.eqb name "timestamp" then t ← read_time ts raw; Some (mkEnvelope id ty t ver corr src pl)
  else if String.eqb name "schema_version" then s ← read_string ver raw; Some (mkEnvelope id ty ts s corr src pl)
  else if String.eqb name "correlation_id" then s ← read_string corr raw; Some (mkEnvelope id ty ts ver s src pl)
  else if String.eqb name "source" then s ← read_string src raw; Some (mkEnvelope id ty ts ver corr s pl)
  else Some (mkEnvelope id ty ts ver corr src (to_string raw)).

Definition zero_envelope : Envelope string := mkEnvelope "" "" 0%Z "" "" "" "".

(** The json tags of the struct [DeadLetter]; the last two have omitempty. *)
Definition deadletter_fields : list string :=
  ["dead_lettered_at"; "reason"; "error"; "delivery_attempts"; "consumer_group"; "consumer_name"; "original_topic";
   "event"; "event_raw"].

Definition omitempty (name : string) (v : option string) (text : string -> option bytes) :
    option (list (string * bytes)) :=
  match v with
  | None | Some "" => Some []
  | Some s => b ← text s; Some [(name, b)]
  end.

(** The struct's fields in their order; the last two are left out when empty. *)
Definition deadletter_text (dl : DeadLetter) : option bytes :=
  t ← time_text (DeadLetteredAt dl);
  event ← omitempty "event" (Event dl) raw_text;
  event_raw ← omitempty "event_raw" (EventRaw dl) (fun s => Some (dq :: b64_encode (of_string s) ++ [dq]));
  Some (object_text
    ([("dead_lettered_at", t); ("reason", string_text (Reason dl)); ("error", string_text (dl_Error dl));
      ("delivery_attempts", of_string (FormatInt (DeliveryAttempts dl)));
      ("consumer_group", string_text (ConsumerGroup dl)); ("consumer_name", string_text (dl_ConsumerName dl));
      ("original_topic", string_text (OriginalTopic dl))] ++ event ++ event_raw)).

(** A member sets the field whose tag it names. *)
Definition set_deadletter (dl : DeadLetter) (name : string) (raw : bytes) : option DeadLetter :=
  let '(mkDeadLetter at_ rsn err n grp nm top ev er) := dl in
  if String.eqb name "dead_lettered_at" then t ← read_time at_ raw; Some (mkDeadLetter t rsn err n grp nm top ev er)
  else if String.eqb name "reason" then s ← read_string rsn raw; Some (mkDeadLetter at_ s err n grp nm top ev er)
  else if String.eqb name "error" then s ← read_string err raw; Some (mkDeadLetter at_ rsn s n grp nm top ev er)
  else if String.eqb name "delivery_attempts" then k ← read_int n raw; Some (mkDeadLetter at_ rsn err k grp nm top ev er)
  else if String.eqb name "consumer_group" then s ← read_string grp raw; Some (mkDeadLetter at_ rsn err n s nm top ev er)
  else if String.eqb name "consumer_name" then s ← read_string nm raw; Some (mkDeadLetter at_ rsn err n grp s top ev er)
  else if String.eqb name "original_topic" then s ← read_string top raw; Some (mkDeadLetter at_ rsn err n grp nm s ev er)
  else if String.eqb name "event" then Some (mkDeadLetter at_ rsn err n grp nm top (Some (to_string raw)) er)
  else b ← read_bytes raw; Some (mkDeadLetter at_ rsn err n grp nm top ev b).

Definition zero_deadletter : DeadLetter := mkDeadLetter 0%Z "" "" 0%Z "" "" "" None None.

(** A map of strings: sorted by key. *)
Definition fields_text (f : gmap string string) : bytes :=
  object_text (omap (fun k => v ← f !! k; Some (k, string_text v)) (merge_sort String.le (elements (dom f)))).

(** ** The interfaces of the rest of the development *)

(** What encoding/json says is wrong: with a text for a type, or with a value. *)
Class JsonErrors := {
  decode_error : string -> string -> error;
  encode_error : string -> error;
}.

Definition or_error {A} (e : error) (o : option A) : result error A :=
  match o with Some a => Ok a | None => Err e end.

#[export] Instance go_time : GoTime := {
  format_time t := to_string (format_rfc3339 t);
  parse_time s := parse_rfc3339 (of_string s);
}.

#[export] Instance go_json `{!JsonErrors} : JsonCodec := {
  json_Valid s := Valid (of_string s);
  unmarshal_envelope s :=
    or_error (decode_error "Envelope" s)
      (read_struct envelope_fields set_envelope zero_envelope (of_string s));
  marshal_envelope env :=
    or_error (encode_error "Envelope")
      (t ← time_text (Timestamp env); p ← raw_text (Payload env); Some (to_string (envelope_text env t p)));
  marshal_deadletter dl := or_error (encode_error "DeadLetter") (b ← deadletter_text dl; Some (to_string b));
  unmarshal_deadletter s :=
    or_error (decode_error "DeadLetter" s)
      (read_struct deadletter_fields set_deadletter zero_deadletter (of_string s));
  marshal_fields f := Ok (to_string (fields_text f));
}.

(** A published event: the payload is encoded by its own type. *)
#[export] Instance go_marshaler {P} `{!JsonErrors, !PayloadMarshaler P} : Marshaler P := {
  marshal_event env :=
    match time_text (Timestamp env) with
    | None => Err (encode_error "Envelope")
    | Some t => let? p := payload_marshal (Payload env) in Ok (to_string (envelope_text env t (of_string p)))
    end;
}.
