(* ===== verification/WireProperties.v ===== *)
(** * Properties of the documents on the wire

    What is written is JSON, and reading it back gives what was written, strings
    up to the replacement of invalid UTF-8.  With these the properties of the
    publisher and of dead-lettering are stated over actual bytes. *)

From S2P Require Import Prelude GoStrings GoErrors Validation Registry Config Runtime.
From S2P Require Import Telemetry Delivery TestHarness Json JsonString Rfc3339 Wire.
From stdpp Require Import sorting.
From stdpp Require Import options.

#[local] Open Scope char_scope.
#[local] Open Scope nat_scope.

Lemma to_of_string s : to_string (of_string s) = s.
Proof. apply String.string_of_list_ascii_of_string. Qed.

Lemma of_to_string b : of_string (to_string b) = b.
Proof. apply String.list_ascii_of_string_of_list_ascii. Qed.

(** What a string is after a trip through JSON. *)
Definition clean (s : string) : string := to_string (sanitize (of_string s)).

Lemma clean_valid s : valid_utf8 (of_string s) -> clean s = s.
Proof. intros H. unfold clean. by rewrite sanitize_valid, to_of_string. Qed.

Lemma clean_empty s : clean s = ""%string <-> s = ""%string.
Proof.
  unfold clean. split; [|by intros ->]. intros H. assert (sanitize (of_string s) = []) as Hn.
  { destruct (sanitize (of_string s)); [done|discriminate H]. }
  rewrite sanitize_nil in Hn. by destruct s.
Qed.

(** ** Objects *)

Lemma values_mono :
  (forall d v, value d v -> forall d', (d <= d')%nat -> value d' v) /\
  (forall k d s, items k d s -> forall d', (d <= d')%nat -> items k d' s).
Proof.
  apply value_items_ind; intros; try match goal with H : (S _ <= ?d')%nat |- _ => destruct d' as [|d']; [lia|] end;
    first [solve [constructor; auto with lia]|apply items_more; auto with lia].
Qed.

(** The members of an object: keys as they stand between their quotation
    marks, and values. *)
Inductive members (d : nat) : list (bytes * bytes) -> bytes -> Prop :=
| members_one w1 key w2 w3 v w :
    all_ws w1 -> str_body key -> all_ws w2 -> all_ws w3 -> value d v -> all_ws w ->
    members d [(key, v)] (w1 ++ dq :: key ++ dq :: w2 ++ ":" :: w3 ++ v ++ w)
| members_more w1 key w2 w3 v w kvs s :
    all_ws w1 -> str_body key -> all_ws w2 -> all_ws w3 -> value d v -> all_ws w -> members d kvs s ->
    members d ((key, v) :: kvs) (w1 ++ dq :: key ++ dq :: w2 ++ ":" :: w3 ++ v ++ w ++ "," :: s).

Lemma member_assoc (w1 key w2 w3 t : bytes) :
  (w1 ++ dq :: key ++ dq :: w2 ++ ":" :: w3) ++ t = w1 ++ dq :: key ++ dq :: w2 ++ ":" :: w3 ++ t.
Proof. by repeat (rewrite <-?app_assoc, <-?app_comm_cons). Qed.

Lemma members_items d s : items Obj d s <-> exists kvs, members d kvs s.
Proof.
  split.
  - remember Obj as k eqn:Hk. induction 1 as [k d p v w Hp Hv Hw|k d p v w s Hp Hv Hw _ IH]; subst; inversion Hp; subst;
      rewrite member_assoc; [|destruct IH as [kvs IH]; [done|]]; eexists; by constructor.
  - intros [kvs H]. induction H; rewrite <-member_assoc; constructor; first [assumption|by constructor].
Qed.

Lemma value_mono d d' v : value d v -> (d <= d')%nat -> value d' v.
Proof. intros Hv. by apply (proj1 values_mono _ _ Hv). Qed.

Lemma members_mono d d' kvs s : members d kvs s -> (d <= d')%nat -> members d' kvs s.
Proof. intros H Hd. induction H; constructor; eauto using value_mono. Qed.

Lemma take_length_sub (a b : bytes) : take (length (a ++ b) - length b) (a ++ b) = a.
Proof. rewrite length_app. replace (_ - _)%nat with (length a) by lia. apply take_app_length. Qed.

Lemma read_member n w1 key w2 w3 v w c r :
  all_ws w1 -> str_body key -> all_ws w2 -> all_ws w3 -> value max_depth v -> all_ws w -> c ∈ [","; "}"] ->
  read_members (S n) (w1 ++ dq :: key ++ dq :: w2 ++ ":" :: w3 ++ v ++ w ++ c :: r) =
    (unquote key, v) :: if Ascii.eqb c "," then read_members n r else [].
Proof.
  intros Hw1 Hkey Hw2 Hw3 Hv Hw Hc. cbn [read_members]. rewrite skip_app by done.
  rewrite scan_string_complete by done.
  replace (pred _) with (length key) by (rewrite length_app; simpl; lia).
  rewrite take_app_length, skip_app by done. cbv iota zeta.
  assert (c ∈ [","; "]"; "}"]) as Hc' by (revert Hc; rewrite !elem_of_cons; tauto).
  rewrite skip_app by (done || by eapply value_no_ws).
  rewrite scan_value_complete; [|done|rewrite length_app; lia|by apply ws_break].
  rewrite take_length_sub, skip_app by (done || by apply break_no_ws). done.
Qed.

Lemma read_members_spec d n kvs s r :
  members d kvs s -> (d <= max_depth)%nat -> (length kvs <= n)%nat ->
  read_members n (s ++ "}" :: r) = map (fun kv => (unquote kv.1, kv.2)) kvs.
Proof.
  intros H Hd%(members_mono _ _ _ _ H). clear H. revert n. induction Hd as [w1 key w2 w3 v w|w1 key w2 w3 v w kvs s];
    intros [|n] Hn; simpl in Hn; try lia; repeat (rewrite <-?app_assoc, <-?app_comm_cons);
    rewrite read_member by (done || rewrite !elem_of_cons; auto); [done|].
  cbn [map]. f_equal. change (Ascii.eqb "," ",") with true. cbv iota. auto with lia.
Qed.

Lemma members_length d kvs s : members d kvs s -> (length kvs <= length s)%nat.
Proof. induction 1; repeat (rewrite ?length_app; cbn [length] in *); lia. Qed.

Lemma members_head d kvs s r : members d kvs s -> exists t, skip_ws (s ++ r) = dq :: t.
Proof. by destruct 1; rewrite <-app_assoc, skip_app by done; eexists. Qed.

(** What the decoder sees of an object. *)
Lemma read_document_members d kvs s w w' :
  members d kvs s -> (S d <= max_depth)%nat -> all_ws w -> all_ws w' ->
  read_document (w ++ "{" :: s ++ "}" :: w') = Some (DObject (map (fun kv => (unquote kv.1, kv.2)) kvs)).
Proof.
  intros Hm Hd Hw Hw'. unfold read_document.
  assert (Valid (w ++ "{" :: s ++ "}" :: w') = true) as ->.
  { apply Valid_spec. exists w, ("{" :: s ++ ["}"]), w'.
    split_and!; [done| |done|by rewrite <-app_comm_cons, <-app_assoc].
    eapply value_mono; [|exact Hd]. apply (val_items Obj), members_items. eauto. }
  rewrite skip_app by done. cbv iota. change (Ascii.eqb "{" "{") with true. cbv iota. f_equal. f_equal.
  destruct (members_head _ _ _ ("}" :: w') Hm) as [t ->]. change (Ascii.eqb dq "}") with false. cbv iota.
  apply (read_members_spec d); [done|lia|]. rewrite length_app. pose proof (members_length _ _ _ Hm). lia.
Qed.

Lemma read_document_empty w0 w w' :
  all_ws w0 -> all_ws w -> all_ws w' -> read_document (w ++ "{" :: w0 ++ "}" :: w') = Some (DObject []).
Proof.
  intros Hw0 Hw Hw'. unfold read_document.
  assert (Valid (w ++ "{" :: w0 ++ "}" :: w') = true) as ->.
  { apply Valid_spec. exists w, ("{" :: w0 ++ ["}"]), w'.
    split_and!; [done| |done|by rewrite <-app_comm_cons, <-app_assoc].
    eapply (value_mono 1); [by apply (val_empty Obj)|]. unfold max_depth. lia. }
  rewrite skip_app by done. cbv iota. change (Ascii.eqb "{" "{") with true. cbv iota. by rewrite skip_app.
Qed.

(** *** The objects the encoder writes *)

Definition quoted_members (kvs : list (string * bytes)) : list (bytes * bytes) :=
  map (fun kv => (quote_body (of_string kv.1), kv.2)) kvs.

Lemma members_text_members d kvs :
  kvs <> [] -> Forall (fun kv => value d kv.2) kvs -> members d (quoted_members kvs) (members_text kvs).
Proof.
  intros Hne Hkvs. induction Hkvs as [|[k v] kvs Hv Hkvs IH]; [done|]. simpl in Hv.
  pose proof (quote_body_str (of_string k)) as Hk. destruct kvs as [|kv kvs].
  - replace (members_text _) with ([] ++ dq :: quote_body (of_string k) ++ dq :: [] ++ ":" :: [] ++ v ++ [])
      by (simpl; rewrite app_nil_r; unfold quote; simpl; by rewrite <-app_assoc).
    apply members_one; first [assumption|constructor].
  - replace (members_text _) with
      ([] ++ dq :: quote_body (of_string k) ++ dq :: [] ++ ":" :: [] ++ v ++ [] ++ "," :: members_text (kv :: kvs))
      by (cbn [members_text app]; unfold quote; simpl; by rewrite <-app_assoc).
    apply members_more; first [assumption|by apply IH|constructor].
Qed.

Lemma object_value d kvs : Forall (fun kv => value d kv.2) kvs -> value (S d) (object_text kvs).
Proof.
  intros Hkvs. unfold object_text. destruct kvs as [|kv kvs]; [apply (val_empty Obj d []); constructor|].
  apply (val_items Obj), members_items. eexists. by apply members_text_members.
Qed.

(** The decoder sees the members the encoder wrote. *)
Lemma read_object d kvs :
  (S d <= max_depth)%nat -> Forall (fun kv => value d kv.2) kvs ->
  read_document (object_text kvs) = Some (DObject (map (fun kv => (sanitize (of_string kv.1), kv.2)) kvs)).
Proof.
  intros Hd Hkvs. destruct kvs as [|kv kvs]; [apply (read_document_empty [] [] []); constructor|].
  pose proof (members_text_members d (kv :: kvs) ltac:(done) Hkvs) as Hm.
  pose proof (read_document_members d _ _ [] [] Hm Hd ltac:(constructor) ltac:(constructor)) as H.
  transitivity (Some (DObject (map (fun kv => (unquote kv.1, kv.2)) (quoted_members (kv :: kvs))))); [exact H|]. f_equal. f_equal. unfold quoted_members. rewrite map_map.
  apply map_ext. intros [k v]. simpl. by rewrite unquote_quote.
Qed.

(** ** Fields *)

Lemma literal_body_lit b : literal_body (dq :: b ++ [dq]) = Some b.
Proof. unfold literal_body. change (Ascii.eqb dq dq) with true. cbv iota. f_equal. apply removelast_last. Qed.

Lemma null_or_lit {A} (old : A) b read : null_or old (dq :: b) read = read (dq :: b).
Proof. done. Qed.

Lemma read_string_text old s : read_string old (string_text s) = Some (clean s).
Proof.
  unfold read_string, string_text, quote. rewrite null_or_lit, literal_body_lit. simpl. by rewrite unquote_quote.
Qed.

Lemma read_time_text old t b : time_text t = Some b -> read_time old b = Some t.
Proof.
  unfold time_text. destruct (_ && _)%bool eqn:Hy; [|done]. intros [= <-].
  unfold read_time. rewrite null_or_lit, literal_body_lit. simpl. apply parse_format. to_prop. done.
Qed.

Lemma string_value d s : value d (string_text s).
Proof. apply quote_value. Qed.

(** Time texts hold digits and punctuation only. *)
Definition is_stamp (c : ascii) : bool :=
  is_dig c || Ascii.eqb c "-" || Ascii.eqb c ":" || Ascii.eqb c "T" || Ascii.eqb c "." || Ascii.eqb c "Z".

Lemma stamp_plain c : is_stamp c = true -> is_plain c = true.
Proof. intros Hc. all_bytes c; first [done|discriminate Hc]. Qed.

Lemma pad2_stamp n : (0 <= n < 100)%Z -> Forall (fun c => is_stamp c = true) (pad2 n).
Proof.
  intros Hn. pose proof (Z.mod_pos_bound n 10 ltac:(lia)).
  assert (0 <= n / 10 < 10)%Z by (split; [apply Z.div_pos|apply Z.div_lt_upper_bound]; lia).
  unfold pad2, is_stamp. repeat constructor; by rewrite dig_digit.
Qed.

Lemma digits_stamp s : digits s -> Forall (fun c => is_stamp c = true) s.
Proof. intros Hs. eapply Forall_impl; [exact Hs|]. intros c Hc. simpl in *. unfold is_stamp. by rewrite Hc. Qed.

Lemma format_stamp t : (0 <= year_of t < 10000)%Z -> Forall (fun c => is_stamp c = true) (format_rfc3339 t).
Proof.
  unfold year_of, format_rfc3339. intros Hy.
  destruct (civil _) as [[y m] d] eqn:Hciv. apply civil_ok in Hciv as (_ & Hm & Hd).
  assert (days_in m y <= 31)%Z as Hd31 by (unfold days_in; repeat case_match; lia).
  pose proof (Z.mod_pos_bound (t / Second_ns) Day_s ltac:(done)) as Hsod. set (sod := (_ mod Day_s)%Z) in *.
  unfold Day_s in Hsod.
  assert (0 <= sod / 3600 < 24)%Z by (split; [apply Z.div_pos|apply Z.div_lt_upper_bound]; lia).
  pose proof (Z.mod_pos_bound (sod / 60) 60 ltac:(lia)). pose proof (Z.mod_pos_bound sod 60 ltac:(lia)).
  assert (Forall (fun c => is_stamp c = true) (year_text y)) as Hyear.
  { unfold year_text. replace (y <? 0)%Z with false by (symmetry; apply Z.ltb_ge; lia).
    rewrite Z.abs_eq by lia. replace (y <? 10000)%Z with true by (symmetry; apply Z.ltb_lt; lia).
    pose proof (Z.mod_pos_bound y 100 ltac:(lia)). pose proof (Z.div_lt_upper_bound y 100 100 ltac:(lia) ltac:(lia)).
    pose proof (Z.div_pos y 100 ltac:(lia) ltac:(lia)).
    apply Forall_app; split; [done|]. apply Forall_app. split; apply pad2_stamp; lia. }
  assert (Forall (fun c => is_stamp c = true) (fraction (t mod Second_ns))) as Hfrac.
  { unfold fraction. destruct (places_digits 9 (t mod Second_ns)) as [Hds%trim_digits%digits_stamp _].
    destruct (trim_zeros _); [done|by constructor]. }
  apply Forall_app. split; [exact Hyear|].
  repeat first [exact Hfrac|apply Forall_app; split|apply Forall_cons; split; [done|]|apply Forall_nil; done|done
               |apply pad2_stamp; lia].
Qed.

Lemma time_value d t b : time_text t = Some b -> value d b.
Proof.
  unfold time_text. destruct (_ && _)%bool eqn:Hy; [|done]. intros [= <-]. apply val_str.
  rewrite <-(app_nil_r (format_rfc3339 t)). apply str_body_plains; [|constructor]. to_prop.
  eapply Forall_impl; [by apply format_stamp|]. intros c. apply stamp_plain.
Qed.

Lemma digit_bytes fuel n acc :
  (0 <= n)%Z -> Forall (fun c => is_dig c = true) (of_string acc) ->
  Forall (fun c => is_dig c = true) (of_string (format_digits fuel n acc)).
Proof.
  revert n acc. induction fuel as [|fuel IH]; intros n acc Hn Hacc; [done|]. simpl.
  destruct (n <? 10)%Z eqn:E; to_prop.
  - constructor; [apply dig_digit; lia|done].
  - pose proof (Z.mod_pos_bound n 10 ltac:(lia)). apply IH; [by apply Z.div_pos|]. constructor; [by apply dig_digit|done].
Qed.

(** The first digit of a number of several digits is not zero. *)
Lemma format_digits_first fuel n acc :
  (0 < n < 10 ^ Z.of_nat fuel)%Z -> exists c s, of_string (format_digits fuel n acc) = c :: s /\ byte_in 49 57 c = true.
Proof.
  revert n acc. induction fuel as [|fuel IH]; intros n acc Hn; [simpl in Hn; lia|]. simpl.
  destruct (n <? 10)%Z eqn:E; to_prop.
  - exists (digit_char n), (of_string acc). split; [done|].
    assert (n ∈ [1;2;3;4;5;6;7;8;9]%Z) as Hx by (rewrite !elem_of_cons; lia). clear -Hx.
    repeat (apply elem_of_cons in Hx as [->|Hx]; [done|]). by apply elem_of_nil in Hx.
  - apply IH. rewrite Nat2Z.inj_succ, Z.pow_succ_r in Hn by lia. split.
    + apply Z.div_str_pos. lia.
    + apply Z.div_lt_upper_bound; lia.
Qed.

Lemma number_text n : in_int64 n -> number (of_string (FormatInt n)).
Proof.
  unfold_int64. intros Hn.
  assert (forall m, (0 <= m < 10 ^ 20)%Z -> num_int (of_string (format_digits 20 m ""))) as Hint.
  { intros m Hm. destruct (decide (m = 0%Z)) as [->|Hne]; [constructor|].
    destruct (format_digits_first 20 m ""%string) as (c & s & Hs & Hc); [change (Z.of_nat 20) with 20%Z; lia|].
    pose proof (digit_bytes 20 m ""%string ltac:(lia) ltac:(constructor)) as Hd. rewrite Hs in *.
    apply Forall_cons in Hd as [_ Hd]. by constructor. }
  unfold FormatInt. destruct (n <? 0)%Z eqn:E; to_prop.
  - change (of_string (String "-" ?s)) with (["-"] ++ of_string s).
    rewrite <-(app_nil_r (of_string _)). apply (number_intro ["-"] _ [] []); [auto| |constructor..]. apply Hint. lia.
  - rewrite <-(app_nil_r (of_string _)). apply (number_intro [] _ [] []); [auto| |constructor..]. apply Hint. lia.
Qed.

Lemma read_int_text old n : in_int64 n -> read_int old (of_string (FormatInt n)) = Some n.
Proof.
  intros Hn. unfold read_int, null_or. destruct (value_start 0 (of_string (FormatInt n))) as (c & t & Ht & _).
  { by apply val_num, number_text. }
  assert (Ascii.eqb c "n" = false) as Hc.
  { destruct (number_text n Hn) as [sg i f e [->| ->] Hi _ _]; [|by injection Ht as <-].
    destruct Hi as [|x ds Hx]; [by injection Ht as <-|]. injection Ht as <- _. clear -Hx.
    all_bytes x; first [done|discriminate Hx]. }
  rewrite Ht, Hc, <-Ht. rewrite to_of_string. by rewrite ParseInt_FormatInt.
Qed.

(** ** Base64 *)

Lemma b64_digit_ok n :
  (n < 64)%N -> b64_value (b64_digit n) = Some n /\ Ascii.eqb (b64_digit n) "=" = false /\
    is_dig (b64_digit n) || byte_in 65 90 (b64_digit n) || byte_in 97 122 (b64_digit n) ||
    Ascii.eqb (b64_digit n) "+" || Ascii.eqb (b64_digit n) "/" = true.
Proof.
  intros Hn. assert (forallb (fun k => let n := N.of_nat k in
    bool_decide (b64_value (b64_digit n) = Some n) && negb (Ascii.eqb (b64_digit n) "=") &&
    (is_dig (b64_digit n) || byte_in 65 90 (b64_digit n) || byte_in 97 122 (b64_digit n) ||
     Ascii.eqb (b64_digit n) "+" || Ascii.eqb (b64_digit n) "/"))%bool (seq 0 64) = true) as H
    by (vm_compute; reflexivity).
  rewrite forallb_forall in H. specialize (H (N.to_nat n)). rewrite N2Nat.id in H.
  rewrite !andb_true_iff, negb_true_iff, bool_decide_eq_true in H.
  assert (In (N.to_nat n) (seq 0 64)) as Hin by (apply in_seq; lia). by destruct (H Hin) as [[? ?] ?].
Qed.

(** Bytes of base64 text. *)
Definition is_b64 (c : ascii) : bool :=
  is_dig c || byte_in 65 90 c || byte_in 97 122 c || Ascii.eqb c "+" || Ascii.eqb c "/" || Ascii.eqb c "=".

Ltac n_arith := repeat match goal with a : ascii |- _ => lazymatch goal with H : (code a < 256)%N |- _ => fail | _ =>
    pose proof (code_bound a) end end; zify; Z.to_euclidean_division_equations; lia.

Lemma byte_again a n : n = code a -> ascii_of_N n = a.
Proof. intros ->. apply ascii_N_embedding. Qed.

(** Induction by groups of three bytes. *)
Lemma triples_ind (P : bytes -> Prop) :
  P [] -> (forall a, P [a]) -> (forall a b, P [a; b]) -> (forall a b c t, P t -> P (a :: b :: c :: t)) -> forall s, P s.
Proof.
  intros H0 H1 H2 H3 s. remember (length s) as n eqn:Hn. revert s Hn.
  induction n as [n IH] using lt_wf_ind. intros [|a [|b [|c t]]] ->; auto.
  apply H3, (IH (length t)); simpl; [lia|done].
Qed.

Lemma b64_round s : b64_groups (b64_encode s) = Some s.
Proof.
  induction s as [|a|a b|a b c t IH] using triples_ind; [done|..]; cbn [b64_encode b64_groups].
  - destruct (b64_digit_ok (code a / 4)) as (-> & _ & _); [n_arith|].
    destruct (b64_digit_ok (code a mod 4 * 16)) as (-> & _ & _); [n_arith|]. simpl.
    f_equal. f_equal. apply byte_again. n_arith.
  - destruct (b64_digit_ok (code a / 4)) as (-> & _ & _); [n_arith|].
    destruct (b64_digit_ok (code a mod 4 * 16 + code b / 16)) as (-> & _ & _); [n_arith|]. simpl.
    destruct (b64_digit_ok (code b mod 16 * 4)) as (-> & -> & _); [n_arith|]. simpl.
    f_equal. repeat f_equal; apply byte_again; n_arith.
  - destruct (b64_digit_ok (code a / 4)) as (-> & _ & _); [n_arith|].
    destruct (b64_digit_ok (code a mod 4 * 16 + code b / 16)) as (-> & _ & _); [n_arith|].
    destruct (b64_digit_ok (code b mod 16 * 4 + code c / 64)) as (-> & _ & _); [n_arith|].
    destruct (b64_digit_ok (code c mod 64)) as (-> & -> & _); [n_arith|]. simpl. rewrite IH. simpl.
    f_equal. f_equal; [|f_equal; [|f_equal]]; apply byte_again; n_arith.
Qed.

Lemma b64_text s : Forall (fun c => is_b64 c = true) (b64_encode s).
Proof.
  assert (forall n, (n < 64)%N -> is_b64 (b64_digit n) = true) as Hd.
  { intros n (_ & _ & H)%b64_digit_ok. unfold is_b64. by rewrite H. }
  induction s as [|a|a b|a b c t IH] using triples_ind; cbn [b64_encode]; repeat constructor; try done;
    apply Hd; n_arith.
Qed.

Lemma unquote_b64 b : Forall (fun c => is_b64 c = true) b -> unquote b = b.
Proof.
  intros Hb. unfold unquote. induction Hb as [|c b Hc _ IH]; [done|]. cbn [length unquote_body].
  assert (Ascii.eqb c bs = false /\ (code c <? 128)%N = true) as [-> Ha] by (all_bytes c; first [done|discriminate Hc]).
  unfold take_rune. rewrite Ha. simpl. by rewrite IH.
Qed.

Lemma b64_plain c : is_b64 c = true -> is_plain c = true.
Proof. intros Hc. all_bytes c; first [done|discriminate Hc]. Qed.

Definition bytes_text (s : string) : bytes := dq :: b64_encode (of_string s) ++ [dq].

Lemma bytes_value d s : value d (bytes_text s).
Proof.
  apply val_str. rewrite <-(app_nil_r (b64_encode _)). apply str_body_plains; [|constructor].
  eapply Forall_impl; [apply b64_text|]. intros c. apply b64_plain.
Qed.

Lemma filter_all {A} (P : A -> Prop) `{!forall x, Decision (P x)} (l : list A) : Forall P l -> filter P l = l.
Proof. induction 1 as [|x l Hx _ IH]; [done|]. rewrite filter_cons_True by done. by rewrite IH. Qed.

Lemma b64_decode_encode s : b64_decode (b64_encode s) = Some s.
Proof.
  unfold b64_decode. rewrite <-(b64_round s). f_equal. apply (filter_all (A := ascii)).
  eapply Forall_impl; [apply b64_text|]. intros c Hc. all_bytes c; first [done|discriminate Hc].
Qed.

Lemma read_bytes_text s : read_bytes (bytes_text s) = Some (Some s).
Proof.
  unfold read_bytes, bytes_text. rewrite null_or_lit, literal_body_lit. cbn [mbind option_bind].
  rewrite unquote_b64 by apply b64_text.
  rewrite b64_decode_encode. simpl. by rewrite to_of_string.
Qed.

#[local] Arguments read_string : simpl never.
#[local] Arguments read_time : simpl never.
#[local] Arguments read_int : simpl never.
#[local] Arguments read_bytes : simpl never.

(** ** Envelopes *)

(** What of an envelope crosses the wire: strings cleaned, the payload as sent. *)
Definition received_envelope {T} (env : Envelope T) (payload : bytes) : Envelope string :=
  mkEnvelope (clean (EventID env)) (clean (EventType env)) (Timestamp env) (clean (SchemaVersion env))
    (clean (CorrelationID env)) (clean (Source env)) (to_string payload).

Lemma names_clean : Forall (fun n => sanitize (of_string n) = of_string n) (envelope_fields ++ deadletter_fields).
Proof. repeat constructor; vm_compute; reflexivity. Qed.

Lemma envelope_members {T} (env : Envelope T) d t p :
  value d t -> value d p ->
  Forall (fun kv : string * bytes => value d kv.2)
    [("event_id", string_text (EventID env)); ("event_type", string_text (EventType env)); ("timestamp", t);
     ("schema_version", string_text (SchemaVersion env)); ("correlation_id", string_text (CorrelationID env));
     ("source", string_text (Source env)); ("payload", p)]%string.
Proof. intros Ht Hp. repeat (apply Forall_cons; split); try apply Forall_nil; cbn [snd]; auto using string_value. Qed.

Lemma envelope_value {T} (env : Envelope T) d t p :
  time_text (Timestamp env) = Some t -> value d p -> value (S d) (envelope_text env t p).
Proof. intros Ht Hp. apply object_value, envelope_members; [by eapply time_value|done]. Qed.

Lemma set_fields {A} names (set : A -> string -> bytes -> option A) (a a' : A) k raw kvs :
  sanitize (of_string k) = of_string k -> field_of names (of_string k) = Some k -> set a k raw = Some a' ->
  foldl (fun (a : option A) (m : bytes * bytes) => a ← a; match field_of names m.1 with Some n => set a n m.2 | None => Some a end)
    (Some a) (map (fun kv => (sanitize (of_string kv.1), kv.2)) ((k, raw) :: kvs)) =
  foldl (fun (a : option A) (m : bytes * bytes) => a ← a; match field_of names m.1 with Some n => set a n m.2 | None => Some a end)
    (Some a') (map (fun kv => (sanitize (of_string kv.1), kv.2)) kvs).
Proof. intros Hk Hf Hs. cbn [map foldl fst snd]. cbn. by rewrite Hk, Hf, Hs. Qed.

(** Decoding an encoded envelope. *)
Lemma read_envelope {T} (env : Envelope T) d t p :
  (S d <= max_depth)%nat -> time_text (Timestamp env) = Some t -> value d p ->
  read_struct envelope_fields set_envelope zero_envelope (envelope_text env t p) = Some (received_envelope env p).
Proof.
  intros Hd Ht Hp. unfold read_struct, envelope_text.
  rewrite (read_object d) by (done || by apply envelope_members; [eapply time_value|]). cbn [mbind option_bind].
  unfold zero_envelope. do 7 (erewrite set_fields; [|vm_compute; reflexivity|vm_compute; reflexivity|
    cbn; rewrite ?read_string_text, ?(read_time_text _ _ _ Ht); reflexivity]).
  done.
Qed.

(** ** Dead letters *)

(** What of a dead letter crosses the wire, [event] being its event's text. *)
Definition received_letter (dl : DeadLetter) (event : option bytes) : DeadLetter :=
  mkDeadLetter (DeadLetteredAt dl) (clean (Reason dl)) (clean (dl_Error dl)) (DeliveryAttempts dl)
    (clean (ConsumerGroup dl)) (clean (dl_ConsumerName dl)) (clean (OriginalTopic dl))
    (to_string <$> event) (match EventRaw dl with Some "" => None | r => r end)%string.

(** The event of a letter as it is written; none when nil or empty. *)
Definition event_text (dl : DeadLetter) : option (option bytes) :=
  match Event dl with None | Some ""%string => Some None | Some s => Some <$> raw_text s end.

Definition opt_member (name : string) (v : option bytes) : list (string * bytes) :=
  match v with Some b => [(name, b)] | None => [] end.

Definition raw_bytes (dl : DeadLetter) : option bytes :=
  match EventRaw dl with None | Some ""%string => None | Some s => Some (bytes_text s) end.

Definition letter_members (dl : DeadLetter) (t : bytes) (event : option bytes) : list (string * bytes) :=
  [("dead_lettered_at", t); ("reason", string_text (Reason dl)); ("error", string_text (dl_Error dl));
   ("delivery_attempts", of_string (FormatInt (DeliveryAttempts dl)));
   ("consumer_group", string_text (ConsumerGroup dl)); ("consumer_name", string_text (dl_ConsumerName dl));
   ("original_topic", string_text (OriginalTopic dl))]%string ++
  opt_member "event" event ++ opt_member "event_raw" (raw_bytes dl).

Lemma deadletter_text_eq dl b :
  deadletter_text dl = Some b <->
  exists t event, time_text (DeadLetteredAt dl) = Some t /\ event_text dl = Some event /\
    b = object_text (letter_members dl t event).
Proof.
  unfold deadletter_text, event_text, letter_members, raw_bytes, omitempty. split.
  - intros H. destruct (time_text _) as [t|]; [|done]. exists t. simpl in H.
    destruct (Event dl) as [[|a s]|], (EventRaw dl) as [[|a' s']|]; simpl in H;
      try (destruct (raw_text _) as [e|]; [|done]; simpl in H); injection H as <-; by eexists.
  - intros (t & event & -> & He & ->). simpl.
    destruct (Event dl) as [[|a s]|], (EventRaw dl) as [[|a' s']|]; simpl in *;
      try (destruct (raw_text _) as [e|]; [|done]; simpl in * ); by simplify_eq.
Qed.

Lemma letter_members_values dl d t event :
  in_int64 (DeliveryAttempts dl) -> value d t -> (forall e, event = Some e -> value d e) ->
  Forall (fun kv => value d kv.2) (letter_members dl t event).
Proof.
  intros Hn Ht He. unfold letter_members. apply Forall_app. split.
  - repeat (apply Forall_cons; split); try apply Forall_nil; cbn [snd]; auto using string_value, val_num, number_text.
  - apply Forall_app. split.
    + destruct event as [e|]; [|constructor]. apply Forall_singleton. auto.
    + unfold raw_bytes. destruct (EventRaw dl) as [[|a s]|]; try constructor; [|constructor]. apply bytes_value.
Qed.

Lemma event_text_value dl e : event_text dl = Some (Some e) -> value max_depth e.
Proof.
  unfold event_text. destruct (Event dl) as [[|a s]|]; [done| |done]. unfold raw_text.
  destruct (of_string _) eqn:Hs; [discriminate Hs|]. destruct (compact _) as [v|] eqn:Hc; [|done].
  intros [= <-]. by apply compact_sound in Hc.
Qed.

(** A dead letter is a JSON object. *)
Lemma deadletter_value dl b :
  in_int64 (DeliveryAttempts dl) -> deadletter_text dl = Some b -> value (S max_depth) b.
Proof.
  intros Hn (t & event & Ht & He & ->)%deadletter_text_eq. apply object_value, letter_members_values; [done| |].
  - by eapply time_value.
  - intros e ->. by eapply event_text_value.
Qed.

(** Decoding an encoded dead letter. *)
Lemma read_deadletter dl d t event :
  (S d <= max_depth)%nat -> in_int64 (DeliveryAttempts dl) -> time_text (DeadLetteredAt dl) = Some t ->
  (forall e, event = Some e -> value d e) ->
  read_struct deadletter_fields set_deadletter zero_deadletter (object_text (letter_members dl t event)) =
    Some (received_letter dl event).
Proof.
  intros Hd Hn Ht He. unfold read_struct.
  rewrite (read_object d) by first [done|apply letter_members_values; [done|by eapply time_value|done]].
  cbn [mbind option_bind]. unfold zero_deadletter, letter_members. cbn [app].
  do 7 (erewrite set_fields; [|vm_compute; reflexivity|vm_compute; reflexivity|
    cbn; rewrite ?read_string_text, ?(read_time_text _ _ _ Ht), ?(read_int_text _ _ Hn); reflexivity]).
  unfold raw_bytes, received_letter.
  destruct event as [e|]; cbn [opt_member app];
    [erewrite set_fields; [|vm_compute; reflexivity|vm_compute; reflexivity|cbn; reflexivity]|];
    (destruct (EventRaw dl) as [[|a s]|]; cbn [opt_member]; [done| |done];
     erewrite set_fields; [|vm_compute; reflexivity|vm_compute; reflexivity|cbn; rewrite read_bytes_text; reflexivity]; done).
Qed.
