(* ===== verification/Compaction.v ===== *)
(** * Compaction does not change what is decoded

    A value that comes ready-made, such as the event of a dead letter, is
    written compacted and HTML-escaped.  The decoder reads the same out of either
    text: the same members of an object, and under every key the same string,
    time, or compacted value. *)

From S2P Require Import Prelude GoStrings GoErrors Validation Registry Config Runtime.
From S2P Require Import Telemetry Delivery TestHarness Json JsonString Rfc3339 Wire WireProperties.
From stdpp Require Import options.

#[local] Open Scope char_scope.
#[local] Open Scope nat_scope.

(** ** Escaped strings *)

Lemma getu4_some s r t :
  getu4 s = Some (r, t) ->
  exists a b c d, forallb is_hex [a; b; c; d] = true /\ s = bs :: "u" :: a :: b :: c :: d :: t /\ r = hex4 a b c d.
Proof.
  unfold getu4. destruct s as [|x [|u s]]; [done..|].
  destruct (Ascii.eqb_spec x bs) as [->|]; [|done]. destruct (Ascii.eqb_spec u "u") as [->|]; [|done]. simpl andb. cbv iota.
  destruct s as [|a [|b [|c [|d s]]]]; try done. destruct (forallb _ _) eqn:Hh; [|done]. intros [= <- <-]. by exists a, b, c, d.
Qed.

Lemma unquote_fuel n s : length s <= n -> unquote_body n s = unquote s.
Proof.
  enough (forall m, length s <= n -> length s <= m -> unquote_body n s = unquote_body m s) as H.
  { intros Hs. by apply H. }
  revert s. induction n as [|n IH]; intros [|a t] [|m] Hn Hm; simpl in Hn, Hm; try lia; [done..|].
  cbn [unquote_body]. destruct (Ascii.eqb a bs).
  - destruct (getu4 (a :: t)) as [[r t1]|] eqn:H1.
    + apply getu4_some in H1 as (h1 & h2 & h3 & h4 & _ & [= _ ->] & _). simpl in Hn, Hm.
      destruct (surrogate r); [|f_equal; apply IH; lia].
      destruct (getu4 t1) as [[r' t2]|] eqn:H2; [|f_equal; apply IH; lia].
      destruct (pair_rune r r'); [|f_equal; apply IH; lia].
      apply getu4_some in H2 as (h1' & h2' & h3' & h4' & _ & -> & _). simpl in Hn, Hm. f_equal. apply IH; lia.
    + destruct t as [|e t]; [done|]. simpl in Hn, Hm. f_equal. apply IH; lia.
  - destruct (take_rune a t) as [k t1] eqn:Ht. apply take_rune_shorter in Ht. f_equal. apply IH; lia.
Qed.

(** The second half of a surrogate pair, if one follows. *)
Definition unquote_second (r : N) (t : bytes) : bytes :=
  match getu4 t with
  | Some (r', t') =>
      match pair_rune r r' with
      | Some c => utf8_encode c ++ unquote t'
      | None => replacement ++ unquote t
      end
  | None => replacement ++ unquote t
  end.

Lemma unquote_cons a t :
  unquote (a :: t) =
    if Ascii.eqb a bs then
      match getu4 (a :: t) with
      | Some (r, t) => if surrogate r then unquote_second r t else utf8_encode r ++ unquote t
      | None => match t with e :: t => simple_escape e :: unquote t | [] => [] end
      end
    else let '(k, t') := take_rune a t in chunk_bytes k ++ unquote t'.
Proof.
  unfold unquote at 1. simpl length. remember (length t) as n eqn:Hn. cbn [unquote_body]. unfold unquote_second.
  destruct (Ascii.eqb a bs).
  - destruct (getu4 (a :: t)) as [[r t1]|] eqn:H1.
    + apply getu4_some in H1 as (h1 & h2 & h3 & h4 & _ & [= _ ->] & _). simpl in Hn.
      destruct (surrogate r); [|f_equal; apply unquote_fuel; lia].
      destruct (getu4 t1) as [[r' t2]|] eqn:H2; [|f_equal; apply unquote_fuel; lia].
      destruct (pair_rune r r'); [|f_equal; apply unquote_fuel; lia].
      apply getu4_some in H2 as (h1' & h2' & h3' & h4' & _ & -> & _). simpl in Hn. f_equal. apply unquote_fuel; lia.
    + destruct t as [|e t]; [done|]. simpl in Hn. f_equal. apply unquote_fuel; lia.
  - destruct (take_rune a t) as [k t1] eqn:Ht. apply take_rune_shorter in Ht. f_equal. apply unquote_fuel; lia.
Qed.

Lemma unquote_simple c t : is_simple c = true -> unquote (bs :: c :: t) = simple_escape c :: unquote t.
Proof.
  intros Hc. rewrite unquote_cons. change (Ascii.eqb bs bs) with true. cbv iota.
  assert (Ascii.eqb c "u" = false) as Hu by (all_bytes c; first [done|discriminate Hc]).
  unfold getu4. by rewrite Hu, andb_false_r.
Qed.

Lemma getu4_unicode a b c d t :
  forallb is_hex [a; b; c; d] = true -> getu4 (bs :: "u" :: a :: b :: c :: d :: t) = Some (hex4 a b c d, t).
Proof. intros Hh. unfold getu4. by rewrite Hh. Qed.

Lemma unquote_unicode a b c d t :
  forallb is_hex [a; b; c; d] = true ->
  unquote (bs :: "u" :: a :: b :: c :: d :: t) =
    if surrogate (hex4 a b c d) then unquote_second (hex4 a b c d) t else utf8_encode (hex4 a b c d) ++ unquote t.
Proof. intros Hh. rewrite unquote_cons, (getu4_unicode _ _ _ _ _ Hh). done. Qed.

Lemma unquote_raw a t k t' :
  Ascii.eqb a bs = false -> take_rune a t = (k, t') -> unquote (a :: t) = chunk_bytes k ++ unquote t'.
Proof. intros Ha Ht. by rewrite unquote_cons, Ha, Ht. Qed.

(** *** Escaping keeps the runes *)

Lemma high_not_html c : (code c <? 128)%N = false -> is_html c = false /\ is_plain c = true.
Proof. intros Hc. all_bytes c; first [done|discriminate Hc]. Qed.

Lemma cont_kept c s : cont c = true -> escape_body (c :: s) = c :: escape_body s.
Proof.
  intros Hc. assert (is_plain c = true /\ is_html c = false /\ code c <> 226%N) as (Hp & Hh & Hn).
  { all_bytes c; first [split_and!; (done || vm_compute; discriminate)|discriminate Hc]. }
  destruct (plain_cases c s Hp) as [(c1 & c2 & s' & _ & Hs & _)|[(Hh' & _)|(_ & H & _)]]; [|congruence|done].
  unfold is_separator in Hs. rewrite !andb_true_iff, !N.eqb_eq in Hs. by destruct Hs as [[? _] _].
Qed.

(** What follows a byte, as far as it could continue a rune. *)
Lemma not_cont_kept s : 
  str_body s -> hd_not cont s -> hd_not cont (escape_body s).
Proof.
  intros Hs Hc. destruct Hs as [|c s Hp Hs|c s Hp Hs|]; [done| |done|done].
  destruct (plain_cases c s Hp) as [(c1 & c2 & s' & _ & _ & ->)|[(_ & ->)|(_ & -> & _)]]; done.
Qed.

(** Two texts agree up to the first byte that cannot continue a rune, or up to
    the [n]th. *)
Fixpoint follows (n : nat) (s s' : bytes) : Prop :=
  match n with
  | O => True
  | S n =>
      (hd_not cont s /\ hd_not cont s') \/
      exists b t t', s = b :: t /\ s' = b :: t' /\ cont b = true /\ follows n t t'
  end.

Lemma escape_follows n s : str_body s -> follows n s (escape_body s).
Proof.
  revert s. induction n as [|n IH]; intros s Hs; [done|]. destruct s as [|b t]; [by left|].
  destruct (cont b) eqn:Hb.
  - right. exists b, t, (escape_body t). rewrite cont_kept by done. split_and!; [done..|].
    apply IH. by apply (str_body_plain_inv b); [apply cont_plain|].
  - left. split; [done|]. by apply not_cont_kept.
Qed.

Lemma no_cont_bad a s : (code a <? 128)%N = false -> hd_not cont s -> take_rune a s = (Bad, s).
Proof.
  intros Ha Hs. unfold take_rune. rewrite Ha. destruct s as [|b t]; [done|]. simpl in Hs.
  assert (second3 a b = false /\ second4 a b = false) as [H3 H4].
  { pose proof (second_cont a b) as H. rewrite Hs in H. destruct (second3 a b), (second4 a b); auto; by discriminate H; auto. }
  rewrite Hs, H3, H4, andb_false_r. simpl. by repeat case_match.
Qed.

Lemma bad_follows a s s' :
  (code a <? 128)%N = false -> follows 3 s s' -> take_rune a s = (Bad, s) -> take_rune a s' = (Bad, s').
Proof.
  intros Ha [[_ Hs']|(b & t & t' & -> & -> & Hb & H2)]; [by intros _; apply no_cont_bad|].
  unfold take_rune. rewrite Ha. destruct (byte_in 194 223 a && cont b); [done|].
  destruct H2 as [[H1 H1']|(c & t2 & t2' & -> & -> & Hc & H3)].
  - intros _. destruct t' as [|c t2]; [done|]. simpl in H1'. rewrite H1', !andb_false_r. simpl. by destruct t2.
  - destruct (second3 a b && cont c); [done|]. destruct H3 as [[H1 H1']|(d & t3 & t3' & -> & -> & Hd & _)].
    + intros _. destruct t2' as [|d t3]; [done|]. simpl in H1'. by rewrite H1', andb_false_r.
    + by destruct (second4 a b && cont c && cont d).
Qed.

Lemma conts_kept b s : Forall (fun c => cont c = true) b -> escape_body (b ++ s) = b ++ escape_body s.
Proof. induction 1 as [|c b Hc _ IH]; [done|]. cbn [app]. by rewrite cont_kept, IH. Qed.

Lemma conts_body b s : Forall (fun c => cont c = true) b -> str_body (b ++ s) -> str_body s.
Proof.
  induction 1 as [|c b Hc _ IH]; [done|]. intros H%str_body_plain_inv; [by apply IH|by apply cont_plain].
Qed.

Lemma rune_conts a b : rune (a :: b) -> Forall (fun c => cont c = true) b.
Proof.
  intros H. inversion H as [|? ? ? H2|? ? ? ? _ H2|? ? ? ? ? _ _ H2]; subst;
    [constructor|rewrite ?andb_true_iff in H2; destruct_and?; repeat constructor; eauto using second_cont..].
Qed.

Lemma pair_rune_low r x : (x < 56320)%N -> pair_rune r x = None.
Proof. intros Hx. unfold pair_rune. apply N.leb_gt in Hx. by rewrite Hx, !andb_false_r. Qed.

Lemma getu4_not_bs a t : Ascii.eqb a bs = false -> getu4 (a :: t) = None.
Proof. intros Ha. unfold getu4. destruct t; [done|]. by rewrite Ha. Qed.

Lemma getu4_simple c t : is_simple c = true -> getu4 (bs :: c :: t) = None.
Proof.
  intros Hc. assert (Ascii.eqb c "u" = false) as Hu by (all_bytes c; first [done|discriminate Hc]).
  unfold getu4. by rewrite Hu, andb_false_r.
Qed.

Lemma html_bytes c : is_html c = true -> c ∈ ["<"; ">"; "&"].
Proof. intros Hc. rewrite !elem_of_cons. all_bytes c; first [discriminate Hc|auto]. Qed.

(** The escapes compaction writes stand for what they replace. *)
Lemma unquote_u00 c s : is_html c = true -> unquote (u00 c ++ s) = c :: unquote s.
Proof.
  intros Hc%html_bytes. repeat (apply elem_of_cons in Hc as [->|Hc];
    [change (u00 ?x ++ s) with (bs :: "u" :: "0" :: "0" :: hex_digit (code x / 16) :: hex_digit (code x mod 16) :: s);
     by rewrite unquote_unicode|]).
  by apply elem_of_nil in Hc.
Qed.

Lemma unquote_u202 a b c s : is_separator a b c = true -> unquote (u202 c ++ s) = a :: b :: c :: unquote s.
Proof.
  intros (-> & -> & [->| ->])%separator_bytes;
    change (u202 ?x ++ s) with (bs :: "u" :: "2" :: "0" :: "2" :: hex_digit (code x mod 16) :: s);
    by rewrite unquote_unicode.
Qed.

Lemma getu4_u00 c s : is_html c = true -> exists r, (r < 56320)%N /\ getu4 (u00 c ++ s) = Some (r, s).
Proof.
  intros Hc%html_bytes. repeat (apply elem_of_cons in Hc as [->|Hc]; [by eexists; split; [|reflexivity]|]).
  by apply elem_of_nil in Hc.
Qed.

Lemma getu4_u202 a b c s : is_separator a b c = true -> exists r, (r < 56320)%N /\ getu4 (u202 c ++ s) = Some (r, s).
Proof. intros (-> & -> & [->| ->])%separator_bytes; by eexists; split; [|reflexivity]. Qed.

Lemma plain_not_bs c : is_plain c = true -> Ascii.eqb c bs = false.
Proof. by intros [_ ?]%plain_special. Qed.

(** No escape compaction writes is half of a pair. *)
Lemma escape_second r t :
  str_body t -> (forall t', length t' <= length t -> str_body t' -> unquote (escape_body t') = unquote t') ->
  unquote_second r (escape_body t) = unquote_second r t.
Proof.
  intros Ht IH. unfold unquote_second. rewrite (IH t) by done. destruct Ht as [|c s Hc Hs|c s Hc Hs|a b c d s Hh Hs].
  - done.
  - rewrite (getu4_not_bs c s) by by apply plain_not_bs.
    destruct (plain_cases c s Hc) as [(c1 & c2 & s' & _ & Hsep & ->)|[(Hhtml & ->)|(_ & -> & _)]].
    + destruct (getu4_u202 _ _ _ (escape_body s') Hsep) as (x & Hx & ->). by rewrite pair_rune_low.
    + destruct (getu4_u00 _ (escape_body s) Hhtml) as (x & Hx & ->). by rewrite pair_rune_low.
    + by rewrite getu4_not_bs by by apply plain_not_bs.
  - change (escape_body (bs :: c :: s)) with (bs :: c :: escape_body s). by rewrite !getu4_simple.
  - rewrite escape_unicode, !getu4_unicode by done. rewrite (IH s); [done|simpl; lia|done].
Qed.

(** Escaping does not change the string a literal stands for. *)
Lemma unquote_escape b : str_body b -> unquote (escape_body b) = unquote b.
Proof.
  remember (length b) as n eqn:Hn. revert b Hn. induction n as [n IH] using lt_wf_ind. intros b -> Hb.
  assert (forall t, length t < length b -> str_body t -> unquote (escape_body t) = unquote t) as IH'
    by (intros t Ht; by apply (IH _ Ht)). clear IH.
  destruct Hb as [|c s Hc Hs|c s Hc Hs|h1 h2 h3 h4 s Hh Hs].
  - done.
  - pose proof (plain_not_bs c Hc) as Hb.
    destruct (plain_cases c s Hc) as [(c1 & c2 & s' & -> & Hsep & ->)|[(Hhtml & ->)|(Hhtml & -> & Hsep)]].
    + rewrite (unquote_u202 _ _ _ _ Hsep). destruct (separator_bytes _ _ _ Hsep) as (-> & -> & Hc2).
      rewrite IH'; [|simpl; lia|destruct Hc2 as [->| ->];
        [by apply (conts_body ["128"; "168"] s'); [repeat constructor|]
        |by apply (conts_body ["128"; "169"] s'); [repeat constructor|]]].
      assert (take_rune "226" ("128" :: c2 :: s') = (Rune ["226"; "128"; c2], s')) as Ht by by destruct Hc2 as [->| ->].
      by rewrite (unquote_raw "226" _ _ _ eq_refl Ht).
    + rewrite unquote_u00 by done. rewrite (unquote_raw c s (Rune [c]) s), IH'; [done|simpl; lia|done..|].
      apply html_bytes in Hhtml. repeat (apply elem_of_cons in Hhtml as [->|Hhtml]; [done|]). by apply elem_of_nil in Hhtml.
    + destruct (take_rune c s) as [k t'] eqn:Ht. rewrite (unquote_raw c s k t' Hb Ht).
      pose proof (take_rune_spec _ _ _ _ Ht) as [Hk Hsplit]. destruct k as [b|].
      * destruct b as [|c' b]; [by inversion Hk|]. injection Hsplit as <- ->. pose proof (rune_conts c b Hk) as Hconts.
        rewrite conts_kept by done. destruct (rune_take (c :: b) (escape_body t') Hk) as (? & ? & [= <- <-] & Hr).
        rewrite (unquote_raw c _ _ _ Hb Hr), IH'; [done|simpl; rewrite length_app; lia|by eapply conts_body].
      * subst t'. assert ((code c <? 128)%N = false) as Hhigh.
        { unfold take_rune in Ht. by destruct (code c <? 128)%N. }
        rewrite (unquote_raw c _ Bad (escape_body s) Hb), IH'; [done|simpl; lia|done|].
        eapply bad_follows; [done| |exact Ht]. by apply escape_follows.
  - change (escape_body (bs :: c :: s)) with (bs :: c :: escape_body s). rewrite !unquote_simple by done.
    rewrite IH'; [done|simpl; lia|done].
  - rewrite escape_unicode, !unquote_unicode by done. rewrite escape_second; [|done|].
    + rewrite IH'; [done|simpl; lia|done].
    + intros t' Ht. apply IH'. simpl. lia.
Qed.

(** ** Compacted values *)

Abbreviation compacted := (compact_from Outside).

Lemma compacted_app d v r : value d v -> compacted (v ++ r) = compacted v ++ compacted r.
Proof.
  intros Hv. destruct (proj1 compact_values _ _ Hv) as (V & _ & HV). rewrite HV. f_equal.
  specialize (HV []). by rewrite !app_nil_r in HV.
Qed.

Lemma compacted_string b : str_body b -> compacted (dq :: b ++ [dq]) = dq :: escape_body b ++ [dq].
Proof. intros [_ Hr]%compact_string. by rewrite Hr. Qed.

Lemma compacted_kept s : forallb is_kept s = true -> compacted s = s.
Proof. intros H. rewrite <-(app_nil_r s) at 1. rewrite compact_kept by done. apply app_nil_r. Qed.

Lemma compacted_head c t : is_ws c = false -> exists t', compacted (c :: t) = c :: t'.
Proof. intros Hc. simpl. rewrite Hc. by eexists. Qed.

Definition compacted_members (kvs : list (bytes * bytes)) : list (bytes * bytes) :=
  map (fun kv => (escape_body kv.1, compacted kv.2)) kvs.

Lemma compacted_member d w1 key w2 w3 v w r :
  all_ws w1 -> str_body key -> all_ws w2 -> all_ws w3 -> value d v -> all_ws w ->
  compacted (w1 ++ dq :: key ++ dq :: w2 ++ ":" :: w3 ++ v ++ w ++ r) =
    dq :: escape_body key ++ dq :: ":" :: compacted v ++ compacted r.
Proof.
  intros Hw1 Hkey Hw2 Hw3 Hv Hw. rewrite compact_ws by done. rewrite (proj2 (compact_string key Hkey)).
  rewrite compact_ws by done. cbn [compact_from]. change (is_ws ":") with false. change (Ascii.eqb ":" dq) with false.
  cbv iota. rewrite compact_ws by done. by rewrite (compacted_app d), compact_ws.
Qed.

Lemma members_compact d kvs s :
  members d kvs s ->
  members d (compacted_members kvs) (compacted s) /\ forall r, compacted (s ++ r) = compacted s ++ compacted r.
Proof.
  induction 1 as [w1 key w2 w3 v w ? Hkey ? ? Hv Hw|w1 key w2 w3 v w kvs s ? Hkey ? ? Hv Hw _ [IH IHr]].
  - assert (forall r, compacted ((w1 ++ dq :: key ++ dq :: w2 ++ ":" :: w3 ++ v ++ w) ++ r) =
      (dq :: escape_body key ++ dq :: ":" :: compacted v) ++ compacted r) as Hr.
    { intros r. repeat (rewrite <-?app_assoc, <-?app_comm_cons). by eapply compacted_member. }
    pose proof (Hr []) as Hn. rewrite !app_nil_r in Hn. rewrite Hn. split; [|done].
    replace (dq :: escape_body key ++ dq :: ":" :: compacted v) with
      ([] ++ dq :: escape_body key ++ dq :: [] ++ ":" :: [] ++ compacted v ++ []) by (simpl; by rewrite app_nil_r).
    apply members_one; try (by constructor); [by apply compact_body|by apply compact_value].
  - assert (forall r, compacted ((w1 ++ dq :: key ++ dq :: w2 ++ ":" :: w3 ++ v ++ w ++ "," :: s) ++ r) =
      (dq :: escape_body key ++ dq :: ":" :: compacted v ++ "," :: compacted s) ++ compacted r) as Hr.
    { intros r. repeat (rewrite <-?app_assoc, <-?app_comm_cons). rewrite (compacted_member d) by done.
      rewrite compact_bracket by (rewrite !elem_of_cons; auto 6). by rewrite IHr. }
    pose proof (Hr []) as Hn. rewrite !app_nil_r in Hn. rewrite Hn. split; [|done].
    replace (dq :: escape_body key ++ dq :: ":" :: compacted v ++ "," :: compacted s) with
      ([] ++ dq :: escape_body key ++ dq :: [] ++ ":" :: [] ++ compacted v ++ [] ++ "," :: compacted s) by done.
    apply members_more; try (by constructor); [by apply compact_body|by apply compact_value|done].
Qed.

(** The members the decoder finds, before and after. *)
Lemma compacted_keys d kvs s :
  members d kvs s ->
  map (fun kv => (unquote kv.1, kv.2)) (compacted_members kvs) =
  map (fun m => (m.1, compacted m.2)) (map (fun kv => (unquote kv.1, kv.2)) kvs).
Proof.
  intros H. unfold compacted_members. rewrite !map_map.
  induction H as [w1 key w2 w3 v w ? Hkey|w1 key w2 w3 v w kvs s ? Hkey ? ? Hv Hw _ IH]; cbn [map fst snd];
    rewrite unquote_escape by done; [done|by f_equal].
Qed.

Lemma members_values d kvs s : members d kvs s -> Forall (fun kv : bytes * bytes => value d kv.2) kvs.
Proof. induction 1; by constructor. Qed.

Lemma object_shape d v t :
  value d v -> v = "{" :: t ->
  (exists w, all_ws w /\ t = w ++ ["}"]) \/
  (exists d' kvs s, d = S d' /\ members d' kvs s /\ t = s ++ ["}"]).
Proof.
  intros Hv ->. inversion Hv as [? ? Hs|? ? Hs|? ? ? Hq|k ? w Hw Hk|k d' s Hs Hk]; subst.
  - exfalso. unfold literals in Hs. rewrite !elem_of_cons, elem_of_nil in Hs. by destruct Hs as [?|[?|[?|?]]].
  - inversion Hs as [sg i f e [->| ->] Hi Hf He Heq]. destruct Hi as [|c ds Hc]; [done|].
    injection Heq as -> _. discriminate Hc.
  - left. destruct k; [done|]. eauto.
  - right. destruct k; [done|]. apply members_items in Hs as [kvs Hs]. eauto 6.
Qed.

Lemma read_document_head s c t :
  Valid s = true -> skip_ws s = c :: t -> c <> "{" ->
  read_document s = Some (if Ascii.eqb c "n" then DNull else DOther).
Proof. intros Hv Hs Hc. unfold read_document. rewrite Hv, Hs. by destruct (Ascii.eqb_spec c "{"). Qed.

Lemma valid_value v : value max_depth v -> Valid v = true.
Proof.
  intros Hv. apply Valid_spec. exists [], v, []. rewrite app_nil_r. split_and!; [constructor|done|constructor|done].
Qed.

(** What the decoder makes of a document, before and after. *)
Lemma read_document_compact s S doc :
  compact s = Some S -> read_document s = Some doc ->
  match doc with
  | DObject ms => Forall (fun m => value max_depth m.2) ms /\
      read_document S = Some (DObject (map (fun m => (m.1, compacted m.2)) ms))
  | _ => read_document S = Some doc
  end.
Proof.
  intros Hc Hs. pose proof (compact_sound _ _ Hc) as HS. unfold compact in Hc.
  destruct (Valid s) eqn:Hval; [|done]. injection Hc as <-.
  apply Valid_spec in Hval as Hj. destruct Hj as (w & v & w' & Hw & Hv & Hw' & ->).
  assert (compacted (w ++ v ++ w') = compacted v) as Hcv.
  { rewrite compact_ws, (compacted_app _ _ _ Hv) by done. rewrite <-(app_nil_r w'), compact_ws by done.
    apply app_nil_r. }
  rewrite Hcv in *. pose proof (value_no_ws _ _ w' Hv) as Hws.
  assert (exists c t, v = c :: t) as (c & t & ->) by (apply value_start in Hv as (c & t & -> & _); eauto).
  simpl in Hws. destruct (compacted_head c t Hws) as [T HT].
  destruct (decide (c = "{")) as [->|Hne].
  - destruct (object_shape _ _ _ Hv eq_refl) as [(w0 & Hw0 & ->)|(d & kvs & s & Hd & Hm & ->)].
    + rewrite <-app_comm_cons, <-app_assoc in Hs. simpl app in Hs. rewrite read_document_empty in Hs by done.
      injection Hs as <-. split; [constructor|]. simpl. by rewrite compact_ws.
    + rewrite <-app_comm_cons, <-app_assoc in Hs. simpl app in Hs.
      assert (S d <= max_depth) as Hle by lia. rewrite (read_document_members d kvs s w w') in Hs by done.
      injection Hs as <-. split.
      * apply Forall_map. eapply Forall_impl; [by eapply members_values|]. intros kv Hkv. simpl.
        eapply value_mono; [exact Hkv|lia].
      * destruct (members_compact _ _ _ Hm) as [Hm' Hr].
        assert (compacted ("{" :: s ++ ["}"]) = [] ++ "{" :: compacted s ++ "}" :: []) as ->.
        { transitivity ("{" :: compacted (s ++ ["}"])); [done|]. by rewrite Hr. }
        rewrite (read_document_members d (compacted_members kvs)) by (done || constructor).
        by rewrite (compacted_keys d _ s).
  - rewrite (read_document_head _ c (t ++ w') Hval) in Hs; [|rewrite skip_app by done; done|done]. injection Hs as <-.
    rewrite (read_document_head (compacted (c :: t)) c T); [by destruct (Ascii.eqb c "n")|by apply valid_value| |done].
    rewrite HT. simpl. by rewrite Hws.
Qed.

(** ** Fields *)

Lemma compacted_flat d v :
  value d v ->
  compacted v = v \/ (exists b, v = dq :: b ++ [dq] /\ str_body b) \/ (exists k t, v = opening k :: t).
Proof.
  destruct 1 as [d s Hs|d s Hs|d s Hs|k d w Hw|k d s Hs]; [..|by right; right; eauto|by right; right; eauto].
  - left. by apply compacted_kept, literal_kept.
  - left. by apply compacted_kept, number_kept.
  - right. left. eauto.
Qed.

Lemma read_string_compact d old v s :
  value d v -> read_string old v = Some s -> read_string old (compacted v) = Some s.
Proof.
  intros [->|[(b & -> & Hb)|(k & t & ->)]]%compacted_flat; [done| |by destruct k].
  rewrite compacted_string by done. unfold read_string. rewrite !null_or_lit, !literal_body_lit.
  cbn [mbind option_bind]. by rewrite unquote_escape.
Qed.

(** The bytes of a time, which compaction leaves alone. *)
Definition is_time_byte (c : ascii) : bool := is_plain c && negb (is_html c) && (code c <? 128)%N.

Lemma time_bytes_kept b : Forall (fun c => is_time_byte c = true) b -> str_body b /\ escape_body b = b.
Proof.
  induction 1 as [|c b Hc _ [IHb IH]]; [by split; [constructor|]|]. unfold is_time_byte in Hc.
  rewrite !andb_true_iff, negb_true_iff in Hc. destruct Hc as [[Hp Hh] Ha]. split; [by constructor|].
  destruct (plain_cases c b Hp) as [(c1 & c2 & s' & _ & (-> & _)%separator_bytes & _)|[[? _]|(_ & -> & _)]];
    [done|congruence|by rewrite IH].
Qed.

Definition time_bytes (b : bytes) : Prop := Forall (fun c => is_time_byte c = true) b.

(** [s] is [p], of such bytes, and what is left. *)
Definition ate (s t : bytes) : Prop := exists p, s = p ++ t /\ time_bytes p.

Lemma ate_cons a s t : is_time_byte a = true -> ate s t -> ate (a :: s) t.
Proof. intros Ha (p & -> & Hp). exists (a :: p). split; [done|]. by constructor. Qed.

Lemma ate_nil s : ate s s.
Proof. exists []. by split; [|constructor]. Qed.

Lemma ate_trans s t u : ate s t -> ate t u -> ate s u.
Proof.
  intros (p & -> & Hp) (q & -> & Hq). exists (p ++ q). split; [by rewrite app_assoc|]. by apply Forall_app.
Qed.

Lemma digit_time a x : digit_val a = Some x -> is_time_byte a = true.
Proof. intros Ha. all_bytes a; first [done|discriminate Ha]. Qed.

#[local] Create HintDb eats.
#[local] Hint Resolve ate_nil ate_cons digit_time : eats.

Lemma ate_digit2 s x t : digit2 s = Some (x, t) -> ate s t.
Proof.
  unfold digit2. destruct s as [|a [|b s]]; [done..|]. intros (? & Ha & (? & Hb & [= <- <-])%bind_Some)%bind_Some.
  eauto with eats.
Qed.

Lemma ate_digit12 s x t : digit12 s = Some (x, t) -> ate s t.
Proof.
  unfold digit12. destruct s as [|a s]; [done|]. intros (? & Ha & H)%bind_Some.
  destruct s as [|b s]; [|destruct (digit_val b) eqn:Hb]; injection H as <- <-; eauto with eats.
Qed.

Lemma ate_digit4 s x t : digit4 s = Some (x, t) -> ate s t.
Proof.
  unfold digit4. intros ([a s1] & H1%ate_digit2 & ([b s2] & H2%ate_digit2 & [= <- <-])%bind_Some)%bind_Some.
  by eapply ate_trans.
Qed.

Lemma ate_expect c s t : is_time_byte c = true -> expect c s = Some t -> ate s t.
Proof.
  unfold expect. destruct s as [|a s]; [done|]. destruct (Ascii.eqb_spec a c) as [->|]; [|done]. intros Hc [= <-].
  eauto with eats.
Qed.

Lemma ate_fraction s x t : parse_fraction s = (x, t) -> ate s t.
Proof.
  unfold parse_fraction. destruct s as [|p [|c s]]; [by intros [= <- <-]; apply ate_nil..|].
  destruct (_ && _) eqn:Hp; intros [= <- <-]; [|apply ate_nil].
  apply andb_true_iff in Hp as [[->%eqb_true| ->%eqb_true]%orb_true_iff Hc]; (apply ate_cons; [done|]);
    (apply ate_cons; [all_bytes c; first [done|discriminate Hc]|]);
    destruct (skip_split is_dig s) as (w & Hs & Hw & _); exists w; (split; [done|]);
    (eapply Forall_impl; [exact Hw|]); intros a Ha; simpl in Ha; all_bytes a; first [done|discriminate Ha].
Qed.

Lemma ate_zone s x t : parse_zone s = Some (x, t) -> ate s t.
Proof.
  unfold parse_zone. destruct s as [|z s]; [done|]. destruct (Ascii.eqb_spec z "Z") as [->|_].
  { intros [= <- <-]. eauto with eats. }
  intros (sg & Hz & ([h s1] & H1%ate_digit2 & (s2 & H2%ate_expect & ([m s3] & H3%ate_digit2 & H)%bind_Some)%bind_Some)%bind_Some)%bind_Some;
    [|done].
  apply bind_Some in H as (_ & _ & (_ & _ & [= <- <-])%bind_Some). apply ate_cons.
  - destruct (Ascii.eqb_spec z "+") as [->|]; [done|]. by destruct (Ascii.eqb_spec z "-") as [->|].
  - eauto using ate_trans.
Qed.

(** A text that is a time holds only such bytes. *)
Lemma parsed_time_bytes b t : parse_rfc3339 b = Some t -> time_bytes b.
Proof.
  unfold parse_rfc3339. intros ([y s1] & H1%ate_digit4 & H)%bind_Some.
  apply bind_Some in H as (s2 & H2%ate_expect & H); [|done]. apply bind_Some in H as ([m s3] & H3%ate_digit2 & H).
  apply bind_Some in H as (_ & _ & H). apply bind_Some in H as (s4 & H4%ate_expect & H); [|done].
  apply bind_Some in H as ([d s5] & H5%ate_digit2 & H). apply bind_Some in H as (s6 & H6%ate_expect & H); [|done].
  apply bind_Some in H as ([hh s7] & H7%ate_digit12 & H). apply bind_Some in H as (_ & _ & H).
  apply bind_Some in H as (s8 & H8%ate_expect & H); [|done]. apply bind_Some in H as ([mm s9] & H9%ate_digit2 & H).
  apply bind_Some in H as (_ & _ & H). apply bind_Some in H as (s10 & H10%ate_expect & H); [|done].
  apply bind_Some in H as ([ss s11] & H11%ate_digit2 & H). apply bind_Some in H as (_ & _ & H).
  destruct (parse_fraction s11) as [ns s12] eqn:H12. apply ate_fraction in H12.
  apply bind_Some in H as ([off s13] & H13%ate_zone & H). destruct s13; [|done].
  assert (ate b []) as (p & -> & Hp) by eauto 20 using ate_trans. by rewrite app_nil_r.
Qed.

Lemma read_time_compact d old v t :
  value d v -> read_time old v = Some t -> read_time old (compacted v) = Some t.
Proof.
  intros [->|[(b & -> & Hb)|(k & t' & ->)]]%compacted_flat; [done| |by destruct k].
  rewrite compacted_string by done. unfold read_time. rewrite !null_or_lit, !literal_body_lit.
  cbn [mbind option_bind]. intros Ht. by rewrite (proj2 (time_bytes_kept b (parsed_time_bytes _ _ Ht))).
Qed.

(** ** Envelopes *)

(** An envelope whose payload has been compacted. *)
Definition compacted_envelope (env : Envelope string) : Envelope string :=
  mkEnvelope (EventID env) (EventType env) (Timestamp env) (SchemaVersion env) (CorrelationID env) (Source env)
    (to_string (compacted (of_string (Payload env)))).

Lemma set_envelope_compact d env name raw env' :
  value d raw -> set_envelope env name raw = Some env' ->
  set_envelope (compacted_envelope env) name (compacted raw) = Some (compacted_envelope env').
Proof.
  intros Hv. destruct env as [id ty ts ver corr src pl]. unfold set_envelope. cbn [compacted_envelope EventID EventType
    Timestamp SchemaVersion CorrelationID Source Payload].
  repeat match goal with |- context [if String.eqb name ?x then _ else _] => destruct (String.eqb name x) end;
    try (intros (s & Hs & [= <-])%bind_Some; first [rewrite (read_string_compact d _ _ _ Hv Hs)|rewrite (read_time_compact d _ _ _ Hv Hs)]; done).
  intros [= <-]. unfold compacted_envelope. simpl. by rewrite of_to_string.
Qed.

(** A fold that may fail, over elements mapped one by one. *)
Lemma foldl_map_some {A M} (f : option A -> M -> option A) (h : A -> A) (g : M -> M) ms :
  (forall m, f None m = None) ->
  Forall (fun m => forall a a', f (Some a) m = Some a' -> f (Some (h a)) (g m) = Some (h a')) ms ->
  forall a r, foldl f (Some a) ms = Some r -> foldl f (Some (h a)) (map g ms) = Some (h r).
Proof.
  intros HN. induction 1 as [|m ms Hm _ IH]; intros a r H; simpl in *; [by simplify_eq|].
  destruct (f (Some a) m) as [a'|] eqn:Ha; [rewrite (Hm _ _ Ha); by apply IH|].
  exfalso. clear -H HN. induction ms as [|m ms IH]; [done|]. simpl in H. rewrite HN in H. auto.
Qed.

(** The decoder reads the same envelope out of a document and its compaction. *)
Lemma read_envelope_compact s S env :
  compact s = Some S -> read_struct envelope_fields set_envelope zero_envelope s = Some env ->
  read_struct envelope_fields set_envelope zero_envelope S = Some (compacted_envelope env).
Proof.
  unfold read_struct. intros Hc (doc & Hdoc & H)%bind_Some. pose proof (read_document_compact _ _ _ Hc Hdoc) as HS.
  destruct doc as [|ms|]; [by rewrite HS; injection H as <-| |done]. destruct HS as [Hms ->]. cbn [mbind option_bind].
  change zero_envelope with (compacted_envelope zero_envelope) at 1.
  apply (foldl_map_some _ compacted_envelope); [done| |exact H].
  eapply Forall_impl; [exact Hms|]. intros [k v] Hv e e'. cbn [mbind option_bind fst snd].
  destruct (field_of envelope_fields k) as [n|]; [by apply (set_envelope_compact max_depth)|by intros [= <-]].
Qed.
