(* ===== verification/OnTheWire.v ===== *)
(** * What is published and dead-lettered, as bytes

    The properties of publishing and dead-lettering, over the documents encoding/json
    really writes and reads: the codec here is [go_json], the encoder of
    published events [go_marshaler], the clock's text form [go_time]. *)

From S2P Require Import Prelude GoStrings GoErrors Regex Validation Registry Config GoDuration Runtime.
From S2P Require Import Telemetry Delivery DeliveryFrame DeliverySpec DeliveryProperties Publisher Subscriber Router Lifecycle TestHarness.
From S2P Require Import Json JsonString Rfc3339 Wire WireProperties Compaction.
From S2P Require Sample SampleDelivery.
From stdpp Require Import options.

#[local] Set Default Proof Using "Type".

(** ** Matched strings survive JSON unchanged *)

Fixpoint ascii_regex (r : regex) : bool :=
  match r with
  | RNone | REps => true
  | RClass rs => forallb (fun x => is_ascii (snd x)) rs
  | RSeq r1 r2 | RAlt r1 r2 => ascii_regex r1 && ascii_regex r2
  | RStar r => ascii_regex r
  end.

Lemma in_range_ascii a b c : is_ascii b = true -> in_range a b c = true -> is_ascii c = true.
Proof.
  unfold is_ascii, in_range, code, nat_of_ascii. rewrite andb_true_iff, !Nat.leb_le, !N.ltb_lt. lia.
Qed.

Lemma ascii_lang r l : re_lang r l -> ascii_regex r = true -> Forall (fun c => is_ascii c = true) l.
Proof.
  induction 1 as [|rs c Hc|r1 r2 l1 l2 _ IH1 _ IH2|r1 r2 l _ IH|r1 r2 l _ IH|r|r c l1 l2 _ IH1 _ IH2]; simpl;
    intros Hr; try apply andb_true_iff in Hr as [Hr1 Hr2]; auto.
  - unfold class_mem in Hc. apply existsb_exists in Hc as ([a b] & Hin & Hc).
    rewrite forallb_forall in Hr. specialize (Hr _ Hin). apply Forall_singleton. by eapply in_range_ascii.
  - apply Forall_app. auto.
  - specialize (IH1 Hr). inversion IH1; subst. constructor; [done|]. apply Forall_app. auto.
Qed.

Lemma clean_matched r s : ascii_regex r = true -> MatchString r s = true -> clean s = s.
Proof.
  intros Hr H%MatchString_spec. apply clean_valid, ascii_valid. by eapply ascii_lang.
Qed.

Lemma validateEnvelope_spec {T} (env : Envelope T) :
  validateEnvelope env = None <->
  EventID env <> "" /\ MatchString eventTypePattern (EventType env) = true /\
  MatchString schemaVersionPattern (SchemaVersion env) = true /\ Source env <> "" /\ CorrelationID env <> "" /\
  Timestamp env <> 0.
Proof.
  unfold validateEnvelope, IsZero.
  destruct (String.eqb_spec (EventID env) ""); [naive_solver|].
  destruct (String.eqb_spec (EventType env) "") as [->|]; [split; [done|intros (_ & H & _); discriminate H]|].
  destruct (MatchString eventTypePattern _); [|naive_solver]. simpl.
  destruct (String.eqb_spec (SchemaVersion env) "") as [->|]; [split; [done|intros (_ & _ & H & _); discriminate H]|].
  destruct (MatchString schemaVersionPattern _); [|naive_solver]. simpl.
  destruct (String.eqb_spec (Source env) ""); [naive_solver|].
  destruct (String.eqb_spec (CorrelationID env) ""); [naive_solver|].
  destruct (Z.eqb_spec (Timestamp env) 0); naive_solver.
Qed.

Lemma clean_not_empty s : s <> "" -> clean s <> "".
Proof. by rewrite clean_empty. Qed.

(** Validation sees the same envelope on both sides of the wire. *)
Lemma validate_received {T} (env : Envelope T) p :
  validateEnvelope env = None ->
  validateEnvelope (received_envelope env p) = None /\
  clean (EventType env) = EventType env /\ clean (SchemaVersion env) = SchemaVersion env.
Proof.
  rewrite !validateEnvelope_spec. intros (Hid & Hty & Hver & Hsrc & Hcorr & Ht).
  assert (clean (EventType env) = EventType env) as Ety by by apply (clean_matched eventTypePattern).
  assert (clean (SchemaVersion env) = SchemaVersion env) as Ever by by apply (clean_matched schemaVersionPattern).
  simpl. rewrite Ety, Ever. auto 10 using clean_not_empty.
Qed.

(** ** Publishing *)

Section publishing.
Context {E P : Type} `{HEnv : !Env E, HFmt : !GoFmt, HErr : !JsonErrors, HPay : !PayloadMarshaler P}.

Lemma marshal_event_ok (env : Envelope P) body :
  marshal_event env = Ok body ->
  exists t raw, time_text (Timestamp env) = Some t /\ payload_marshal (Payload env) = Ok raw /\
    body = to_string (envelope_text env t (of_string raw)).
Proof.
  unfold marshal_event, go_marshaler. destruct (time_text (Timestamp env)) as [t|]; [|done].
  destruct (payload_marshal (Payload env)) as [raw|]; [|done]. intros H. exists t, raw. split_and!; [done..|].
  cbn [result_bind] in H. congruence.
Qed.

(** An encoded event reads back as the envelope that was encoded. *)
Lemma read_event (env : Envelope P) body raw d :
  payload_marshal (Payload env) = Ok raw -> value d (of_string raw) -> (S d <= max_depth)%nat ->
  marshal_event env = Ok body ->
  unmarshal_envelope body = Ok (received_envelope env (of_string raw)).
Proof.
  intros Hraw Hv Hd (t & raw' & Ht & Hraw' & ->)%marshal_event_ok. assert (raw' = raw) as -> by congruence.
  unfold unmarshal_envelope, go_json. rewrite of_to_string. by rewrite (read_envelope env d t).
Qed.

Lemma publish_wire (p : Publisher E) mp (c : Consumer E) ctx def (payload : P) opts w w' t res raw d :
  p_inst p = instruments_of mp -> p_publishFn p = wm_Publish ->
  StreamPrefix (c_cfg c) = StreamPrefix (p_cfg p) ->
  payload_marshal payload = Ok raw -> value d (of_string raw) -> (S d <= max_depth)%nat ->
  Publish p ctx def payload opts w = (Ret (Ok res), w', t) ->
  exists body corr,
    let env := mkEnvelope (clean (pr_EventID res)) (Type_ def) (pr_Timestamp res) (Version def)
                 (clean corr) (clean (cfg_Source (p_cfg p))) raw in
    writes t = [(streamName c (Topic def), body, None)] /\
    correlation_choice ctx (options_of opts) corr /\
    unmarshal_envelope body = Ok env /\ validateEnvelope env = None.
Proof.
  intros Hi Hf Hpre Hraw Hv Hd Hrun.
  edestruct (publish_run (P := P) p mp ctx def payload opts w) as
    (r & w2 & t2 & tw & ms & sts & span & Hrun2 & He & _ & Hw & _);
    [exact Hi|rewrite Hf; apply wm_Publish_plain| |].
  { intros Ht. unfold Publish in Hrun. by rewrite Ht in Hrun. }
  rewrite Hrun in Hrun2. simplify_eq. inversion He as [env ? Hp Hs| |]; subst.
  apply sent_writes in Hs as (body & err' & Hb & Hwr & Hiff); [|done].
  destruct Hp as (Hty & Hver & Hsrc & <- & Hcorr & Hval).
  pose proof (read_event env body raw d Hraw Hv Hd Hb) as Hread.
  destruct (validate_received env (of_string raw) Hval) as (Hval' & Ety & Ever).
  exists body, (CorrelationID env). cbv zeta. simpl. rewrite Hw, Hwr, (proj1 Hiff eq_refl).
  assert (received_envelope env (of_string raw) =
    mkEnvelope (clean (EventID env)) (Type_ def) (Timestamp env) (Version def) (clean (CorrelationID env))
      (clean (cfg_Source (p_cfg p))) raw) as Henv.
  { unfold received_envelope. by rewrite Ety, Ever, Hty, Hver, Hsrc, to_of_string. }
  rewrite <-Henv. unfold publish_stream, streamName. rewrite Hpre.
  by split_and!.
Qed.

(** C21: a consumer reads what a publisher writes.  [raw] is what encoding/json makes of
    the payload, nested less deep than the decoder's limit.  When [Publish]
    succeeds, the entry it wrote to the topic's stream decodes, on a consumer
    with the same prefix, to an envelope with the returned time, the type and
    version of the event definition, the payload's bytes, and the returned
    ID, the correlation ID and the source up to replaced invalid UTF-8; it
    passes validation and is routed by the definition's major version.  Only when
    that major version does not fit an int, which publishing does not check,
    does every consumer refuse it, as an unparseable schema version. *)
Theorem published_is_readable (p : Publisher E) mp (c : Consumer E) ctx def (payload : P) opts w w' t res raw d :
  p_inst p = instruments_of mp -> p_publishFn p = wm_Publish ->
  StreamPrefix (c_cfg c) = StreamPrefix (p_cfg p) ->
  payload_marshal payload = Ok raw -> value d (of_string raw) -> (S d <= max_depth)%nat ->
  Publish p ctx def payload opts w = (Ret (Ok res), w', t) ->
  exists body corr,
    let env := mkEnvelope (clean (pr_EventID res)) (Type_ def) (pr_Timestamp res) (Version def)
                 (clean corr) (clean (cfg_Source (p_cfg p))) raw in
    writes t = [(streamName c (Topic def), body, None)] /\
    correlation_choice ctx (options_of opts) corr /\
    unmarshal_envelope body = Ok env /\ validateEnvelope env = None /\
    match majorVersion (Version def) with
    | Ok major => readable body env major
    | Err e => exists cause, unreadable (Topic def) body e cause
    end.
Proof.
  intros Hi Hf Hpre Hraw Hv Hd Hrun.
  destruct (publish_wire p mp c ctx def payload opts w w' t res raw d Hi Hf Hpre Hraw Hv Hd Hrun)
    as (body & corr & Hw & Hcorr & Hread & Hval).
  exists body, corr. split_and!; try done.
  destruct (majorVersion (Version def)) as [major|e] eqn:Hm; [done|]. eexists. by eapply unreadable_version.
Qed.
End publishing.

(** ** From a publisher's payload to a handler *)

Section delivered.
Context {E T : Type} `{HEnv : !Env E, HFmt : !GoFmt, HErr : !JsonErrors, HPay : !PayloadMarshaler T, HDec : !Payloads T}.

(** What a publisher is given a handler gets.  [h] was registered for the event
    definition on the consumer, and the payload's own encoding [raw] is JSON, nested less deep
    than the decoder's limit, and decodes back to the payload.  Then any
    delivery within the attempt cap of the entry that [Publish] wrote calls the
    handler of that registration, at least once and with nothing else; and
    these calls are runs of [h], with the results on the trace, on the published
    payload, in an envelope with the definition's type and version and the
    returned time and, up to replaced invalid UTF-8, ID, under the publish's
    correlation ID. *)
Lemma published_event_is_handled (p : Publisher E) mp (c0 c1 c : Consumer E) mc ctx ctx' def (h : Handler E T) payload
    opts w w' t res raw d md (s s' : St E) o t' :
  p_inst p = instruments_of mp -> p_publishFn p = wm_Publish ->
  c_inst c = instruments_of mc -> StreamPrefix (c_cfg c) = StreamPrefix (p_cfg p) ->
  RegisterHandler c0 def h = (c1, None) -> c_registry c = c_registry c1 ->
  payload_marshal payload = Ok raw -> payload_unmarshal raw = Ok payload ->
  value d (of_string raw) -> (S d <= max_depth)%nat ->
  Publish p ctx def payload opts w = (Ret (Ok res), w', t) ->
  deliveryAttempt md <= MaxDeliveryAttempts (Consumer_ (c_cfg c)) ->
  exists body, writes t = [(streamName c (Topic def), body, None)] /\
  (dispatch c ctx' (Topic def) body md s = (o, s', t') ->
   exists corr n, correlation_choice ctx (options_of opts) corr /\
     let env {U} (pl : U) := mkEnvelope (clean (pr_EventID res)) (Type_ def) (pr_Timestamp res) (Version def)
                               (clean corr) (clean (cfg_Source (p_cfg p))) pl in
     calls t' = replicate (S n) (Some (clean corr), env raw) /\
     runs_handler c ctx' md (fun ctx => h (contextWithCorrelationID ctx (clean corr)) (env payload)) s t' s').
Proof.
  intros Hi Hf Hci Hpre Hreg Hcr Hraw Hdec Hv Hd Hrun Hcap.
  destruct (publish_wire p mp c ctx def payload opts w w' t res raw d Hi Hf Hpre Hraw Hv Hd Hrun)
    as (body & corr & Hw & Hcorr & Hread & Hval).
  exists body. split; [exact Hw|]. intros Hdisp. exists corr.
  unfold RegisterHandler in Hreg. destruct (validateEventDef def); [done|].
  destruct (majorVersion (Version def)) as [major|] eqn:Hm; [|done].
  unfold register in Hreg. destruct (c_running c0); [done|]. destruct (addTyped _ _ _ _ _) as [rg err] eqn:Hadd.
  injection Hreg as <- ->. apply lookup_registered in Hadd.
  assert (c_registry c = rg) as <- by done.
  destruct (dispatch_delivery _ _ _ _ _ _ _ _ _ _ Hci Hdisp) as (span & start & final & tb & Hdel).
  edestruct delivery_runs_handler as [[n Hcalls] [sp Hby]]; [exact Hdel|exact Hcap|by split_and!|exact Hadd|done|].
  exists n. split; [exact Hcorr|]. split; [exact Hcalls|]. exists sp. eapply handled_by_ext; [|exact Hby].
  intros w''. unfold typedDispatch. cbn [Payload]. destruct (String.eqb_spec raw "") as [->|]; [|by rewrite Hdec].
  by apply value_start in Hv as (? & ? & [=] & _).
Qed.
End delivered.

(** ** Dead-lettering *)

Section dead_letters.
Context {E : Type} `{HEnv : !Env E, HFmt : !GoFmt, HErr : !JsonErrors}.
Implicit Types (c : Consumer E) (s : St E).

Lemma marshal_deadletter_ok dl b :
  marshal_deadletter dl = Ok b -> exists text, deadletter_text dl = Some text /\ b = to_string text.
Proof.
  unfold marshal_deadletter, go_json. destruct (deadletter_text dl) as [text|]; [|done].
  intros H. exists text. split; [done|]. cbn in H. congruence.
Qed.

(** What a reader finds of the payload of a dead letter. *)
Definition holds_payload (dl : DeadLetter) (payload : string) : Prop :=
  if bool_decide (Reason dl = ReasonDeserializationFailed) || negb (Valid (of_string payload)) then
    Event dl = None /\ EventRaw dl = Some payload
  else
    EventRaw dl = None /\ exists v, compact (of_string payload) = Some v /\ Event dl = Some (to_string v).

Lemma letter_text c tm topic reason cause attempt payload text d :
  payload <> "" -> reason ∈ dead_letter_reasons -> in_int64 attempt -> (S d <= max_depth)%nat ->
  (Valid (of_string payload) = true -> json_text d (of_string payload)) ->
  deadletter_text (letter c tm topic reason cause attempt (letter_body reason payload)) = Some text ->
  exists dl, unmarshal_deadletter (to_string text) = Ok dl /\ holds_payload dl payload /\
    DeadLetteredAt dl = tm /\ Reason dl = reason /\ dl_Error dl = clean (Error cause) /\
    DeliveryAttempts dl = attempt /\ ConsumerGroup dl = clean (Group (Consumer_ (c_cfg c))) /\
    dl_ConsumerName dl = clean (ConsumerName (Consumer_ (c_cfg c))) /\ OriginalTopic dl = clean topic.
Proof.
  intros Hne Hreason Hn Hd Hp (t & event & Ht & Hev & ->)%deadletter_text_eq.
  set (dl := letter c tm topic reason cause attempt (letter_body reason payload)) in *.
  exists (received_letter dl event).
  assert (clean reason = reason) as Er.
  { clear -Hreason. unfold dead_letter_reasons in Hreason.
    repeat (apply elem_of_cons in Hreason as [->|Hreason]; [vm_compute; reflexivity|]). by apply elem_of_nil in Hreason. }
  assert ((forall e, event = Some e -> value d e) /\ holds_payload (received_letter dl event) payload) as [He Hh].
  { unfold holds_payload, received_letter. simpl Reason. change (Reason dl) with reason. rewrite Er.
    unfold event_text in Hev. subst dl. simpl in *. unfold letter_body, deadLetterBody in *.
    destruct (bool_decide _); simpl in *; [destruct payload; [done|]; by simplify_eq|].
    change (json_Valid payload) with (Valid (of_string payload)) in *.
    destruct (Valid (of_string payload)) eqn:Hv; simpl in *; [|destruct payload; [done|]; by simplify_eq].
    destruct payload as [|a payload]; [done|]. unfold raw_text in Hev.
    change (of_string (String a payload)) with (a :: of_string payload) in *.
    destruct (compact (a :: of_string payload)) as [v|] eqn:Hc; [|done]. simplify_eq/=.
    split; [|eauto]. intros e [= <-]. by eapply compact_text; eauto. }
  split; [|by split_and!].
  unfold unmarshal_deadletter, go_json. rewrite of_to_string. by rewrite (read_deadletter dl d t event).
Qed.

(** C23: a dead letter can be read back.  Whatever a delivery dead-letters decodes to
    a dead letter with the reason, the delivery attempt, and, up to replaced
    invalid UTF-8, the consumer's group and name and the topic; the payload is
    in EventRaw byte for byte when it did not decode or is not JSON, else in
    Event, as encoding/json compacts it.  The payload is not empty, and if it is
    JSON it is nested less deep than the decoder's limit. *)
Theorem dead_letter_readable c mp ctx topic payload md s o s' t stream b e d :
  c_inst c = instruments_of mp -> payload <> "" -> (S d <= max_depth)%nat ->
  (Valid (of_string payload) = true -> json_text d (of_string payload)) ->
  dispatch c ctx topic payload md s = (o, s', t) -> (stream, b, e) ∈ writes t ->
  stream = dlqStream c topic /\
  exists dl, unmarshal_deadletter b = Ok dl /\ holds_payload dl payload /\
    Reason dl ∈ dead_letter_reasons /\ DeliveryAttempts dl = deliveryAttempt md /\
    ConsumerGroup dl = clean (Group (Consumer_ (c_cfg c))) /\
    dl_ConsumerName dl = clean (ConsumerName (Consumer_ (c_cfg c))) /\ OriginalTopic dl = clean topic.
Proof.
  intros Hi Hne Hd Hp Hrun Hin.
  destruct (dispatch_letters c mp ctx topic payload md s o s' t stream b e Hi Hrun Hin)
    as (-> & tm & reason & cause & Hr & (text & Ht & ->)%marshal_deadletter_ok).
  split; [done|].
  destruct (letter_text c tm topic reason cause _ payload text d Hne Hr (deliveryAttempt_int64 md) Hd Hp Ht)
    as (dl & ? & ? & ? & Er & ? & ? & ? & ? & ?).
  exists dl. rewrite Er. by split_and!.
Qed.
(** C22: a dead letter can be replayed.  If the payload a delivery dead-lettered
    decodes to an envelope, and is nested less deep than the decoder's limit, the
    text its dead letter holds decodes to the same envelope, up to the layout
    and the HTML escapes of the event's own payload. *)
Theorem dead_letter_replays c mp ctx topic payload md s o s' t stream b e d env :
  c_inst c = instruments_of mp -> (S d <= max_depth)%nat -> json_text d (of_string payload) ->
  unmarshal_envelope payload = Ok env ->
  dispatch c ctx topic payload md s = (o, s', t) -> (stream, b, e) ∈ writes t ->
  exists dl replay env', unmarshal_deadletter b = Ok dl /\
    (Event dl = Some replay /\ EventRaw dl = None \/ Event dl = None /\ EventRaw dl = Some replay) /\
    unmarshal_envelope replay = Ok env' /\ (env' = env \/ env' = compacted_envelope env).
Proof.
  intros Hi Hd Hp Henv Hrun Hin.
  assert (payload <> "") as Hne.
  { intros ->. destruct Hp as (w & v & w' & _ & Hv & _ & H%eq_sym). apply app_nil in H as [_ [-> _]%app_nil].
    by apply value_start in Hv as (? & ? & [=] & _). }
  destruct (dispatch_letters c mp ctx topic payload md s o s' t stream b e Hi Hrun Hin)
    as (-> & tm & reason & cause & Hr & (text & Ht & ->)%marshal_deadletter_ok).
  destruct (letter_text c tm topic reason cause _ payload text d Hne Hr (deliveryAttempt_int64 md) Hd (fun _ => Hp) Ht)
    as (dl & Hdl & Hh & _). exists dl. unfold holds_payload in Hh.
  destruct (bool_decide _ || _); [exists payload, env; destruct Hh; by auto|].
  destruct Hh as (Hraw & v & Hc & Hev). exists (to_string v), (compacted_envelope env).
  split_and!; [done|by left| |by right]. revert Henv. unfold unmarshal_envelope, go_json. rewrite of_to_string.
  destruct (read_struct _ _ _ (of_string payload)) as [env0|] eqn:Hread; [|done]. intros [= <-].
  by rewrite (read_envelope_compact _ _ _ Hc Hread).
Qed.
End dead_letters.

(** ** Every body is JSON *)

Section bodies.
Context {E : Type} `{HEnv : !Env E, HFmt : !GoFmt, HErr : !JsonErrors}.

Definition json_object (b : string) : Prop :=
  value (S max_depth) (of_string b) /\ exists t, of_string b = "{"%char :: t.

(** The runs of the library that write to streams: a delivery, an undecodable
    entry, and a publish of a payload encoding/json encodes. *)
Inductive writing_run : list event -> Prop :=
| run_delivery (c : Consumer E) mp ctx topic payload md (s : St E) o s' t :
    c_inst c = instruments_of mp ->
    dispatch c ctx topic payload md s = (o, s', t) -> writing_run t
| run_undecodable (c : Consumer E) mp ctx topics stream entry fields (s : St E) o s' t :
    c_inst c = instruments_of mp ->
    handleUndecodable c ctx topics stream entry fields s = (o, s', t) -> writing_run t
| run_publish {P} `{!PayloadMarshaler P} (p : Publisher E) mp ctx def (payload : P) opts (w : E) o w' t :
    p_inst p = instruments_of mp -> p_publishFn p = wm_Publish ->
    (forall raw, payload_marshal payload = Ok raw -> value max_depth (of_string raw)) ->
    Publish p ctx def payload opts w = (o, w', t) -> writing_run t.

Lemma letter_object dl b : in_int64 (DeliveryAttempts dl) -> marshal_deadletter dl = Ok b -> json_object b.
Proof.
  intros Hn (text & Ht & ->)%marshal_deadletter_ok. split; rewrite of_to_string; [by eapply deadletter_value|].
  apply deadletter_text_eq in Ht as (? & ? & _ & _ & ->). by eexists.
Qed.

Lemma event_object {P} `{!PayloadMarshaler P} (env : Envelope P) b :
  (forall raw, payload_marshal (Payload env) = Ok raw -> value max_depth (of_string raw)) ->
  marshal_event env = Ok b -> json_object b.
Proof.
  intros Hraw (t & raw & Ht & Hr & ->)%marshal_event_ok. split; rewrite of_to_string; [|by eexists].
  eapply envelope_value; [done|]. by apply Hraw.
Qed.

Lemma publish_bodies {P} `{!PayloadMarshaler P} (p : Publisher E) mp ctx def (payload : P) opts (w : E) o w' t :
  p_inst p = instruments_of mp -> p_publishFn p = wm_Publish ->
  Publish p ctx def payload opts w = (o, w', t) ->
  Forall (fun x => exists env : Envelope P, Payload env = payload /\ marshal_event env = Ok x.1.2) (writes t).
Proof.
  intros Hi Hf Hrun. destruct (String.eqb_spec (Topic def) "") as [Ht|Ht].
  { unfold Publish in Hrun. rewrite Ht in Hrun. simpl in Hrun. injection Hrun as <- <- <-. constructor. }
  edestruct (publish_run (P := P) p mp ctx def payload opts w) as
    (r & w2 & t2 & tw & ms & sts & span & Hrun2 & He & _ & Hw & _); [exact Hi|rewrite Hf; apply wm_Publish_plain|exact Ht|].
  rewrite Hrun in Hrun2. injection Hrun2 as -> -> ->. rewrite Hw.
  destruct He as [env ? Hp Hs| |env e ? Hp Hs]; [|constructor|];
    apply sent_writes in Hs as (body & err' & Hb & -> & _); try done; destruct Hp as (_ & _ & _ & ? & _);
    apply Forall_singleton; by exists env.
Qed.

(** C24: everything the library writes to a stream is a JSON object: the envelope of
    a publish, whatever the strings in it, and the dead letter of a delivery
    or of an undecodable entry, whatever bytes it is about.  Nesting is one
    level more than the decoder's limit at most, which a payload at the limit
    makes. *)
Theorem writes_are_json t : writing_run t -> Forall (fun x => json_object x.1.2) (writes t).
Proof.
  intros [c mp ctx topic payload md s o s' t' Hi Hrun|c mp ctx topics stream entry fields s o s' t' Hi Hrun|
    P HP p mp ctx def payload opts w o w' t' Hi Hf Hraw Hrun].
  - apply Forall_forall. intros [[st b] e] Hin.
    destruct (dispatch_letters c mp ctx topic payload md s o s' t' st b e Hi Hrun Hin) as (_ & tm & reason & cause & _ & Hb).
    eapply letter_object; [|exact Hb]. apply deliveryAttempt_int64.
  - apply Forall_forall. intros [[st b] e] Hin.
    destruct (handleUndecodable_letters c mp ctx topics stream entry fields s o s' t' st b e Hi Hrun Hin)
      as (topic & raw & tm & cause & _ & _ & _ & Hb).
    eapply letter_object; [|exact Hb]. simpl. by unfold_int64.
  - eapply Forall_impl; [by eapply publish_bodies|]. intros x (env & <- & Hb). by eapply event_object.
Qed.

(** C37: queue latency is the time since publishing.  The publish time a publisher
    stamps on an entry, in any year of four digits, is the time the consumer
    reads, so the latency recorded is the float64 seconds of the consumer's clock
    less the publisher's: of zero where the publisher's is ahead, and of 2^63 - 1
    nanoseconds (292 years) where the difference is more than that. *)
Theorem queue_latency_elapsed (c : Consumer E) m topic (md : metadata) t (s : St E) :
  c_inst c = instruments_of (Some m) -> md !! metadataPublishedAt = Some (publishedAtNow t) ->
  0 <= year_of t < 10000 ->
  let '(now, w') := env_now (st_env s) in
  queue_latency c topic md s =
    (Ret tt, mkSt w' (st_rec s) (st_verdict s),
     [ERecord "messaging.queue.latency" (Seconds (Z.min int64_max (Z.max 0 (now - t)))) [(attrTopic, AStr topic)]]).
Proof.
  intros Hi Hmd Hy. unfold queue_latency, parsePublishedAt. rewrite Hmd.
  assert (parse_time (publishedAtNow t) = Some t) as ->.
  { unfold parse_time, publishedAtNow, format_time, go_time. rewrite of_to_string. by apply parse_format. }
  unfold bind, lift, now, record. rewrite Hi. destruct (env_now (st_env s)) as [tn w']. simpl.
  f_equal. f_equal. f_equal. rewrite Seconds_negative. unfold Since, saturate. unfold_int64.
  destruct (_ <? 0) eqn:Hlt; to_prop; [|f_equal; lia]. transitivity (Seconds 0); [by vm_compute|f_equal; lia].
Qed.
End bodies.

(** ** Witnesses *)

Section witnesses.
#[local] Existing Instance Sample.world_env.
#[local] Existing Instance Sample.plain_fmt.

Instance plain_errors : JsonErrors := {
  decode_error ty s := ErrFmt "json: cannot decode %q into %s" [inl (FQuoted s); inl (FStr ty)];
  encode_error ty := ErrFmt "json: cannot encode %s" [inl (FStr ty)];
}.

(** A payload that is JSON already. *)
Instance raw_payload : PayloadMarshaler string := { payload_marshal s := Ok s }.

Definition wire_consumer : Consumer Sample.world :=
  SampleDelivery.sample_consumer minimal_validated Sample.scripted.

Definition wire_world (script : list (option error)) : Sample.world := Sample.mkWorld 10 script None false.

Definition wire_state (script : list (option error)) : St Sample.world :=
  SampleDelivery.sample_state (wire_world script).

(** The body of the one entry a run wrote. *)
Definition the_body {A T} (x : outcome A * T * list event) : string :=
  match writes x.2 with [(_, b, _)] => b | _ => "" end.

Definition wire_publish :=
  Publish sample_publisher background sample_def "{}" [WithCorrelationID "c-7"] (wire_world []).

Lemma published_is_readable_witness :
  value 1 (of_string "{}") /\ wire_publish.1.1 = Ret (Ok (mkPublishResult "id-11" 12)) /\
  exists body corr,
    writes wire_publish.2 = [("foi:orders", body, None)] /\
    correlation_choice background (mkPublishOptions "c-7") corr /\
    let env := mkEnvelope (clean "id-11") "order.created" 12 "1.0.0" (clean corr)
                 (clean (cfg_Source minimal_validated)) "{}" in
    unmarshal_envelope body = Ok env /\ validateEnvelope env = None /\ readable body env 1.
Proof.
  assert (value 1 (of_string "{}")) as Hv by (apply (val_empty Obj 0 []); constructor).
  assert (wire_publish.1.1 = Ret (Ok (mkPublishResult "id-11" 12))) as Hr by (vm_compute; reflexivity).
  split; [exact Hv|]. split; [exact Hr|].
  destruct (published_is_readable sample_publisher (Some 1%nat) wire_consumer background sample_def "{}"
    [WithCorrelationID "c-7"] (wire_world []) wire_publish.1.2 wire_publish.2 (mkPublishResult "id-11" 12) "{}" 1)
    as (body & corr & ?); [reflexivity..|exact Hv|unfold max_depth; lia|vm_compute; reflexivity|].
  exists body, corr. assumption.
Defined.

Lemma run_eq {A T} (x : outcome A * T * list event) : x = (x.1.1, x.1.2, x.2).
Proof. by destruct x as [[]]. Qed.

(** A consumer with the scripted handler registered for the sample definition. *)
Instance string_payloads : Payloads string := { payload_zero := ""; payload_unmarshal s := Ok s }.

Definition fresh_consumer : Consumer Sample.world :=
  mkConsumer minimal_validated newRegistry false None None (instruments_of (Some 1%nat)).
Definition registered : Consumer Sample.world * option error :=
  RegisterHandler (T := string) fresh_consumer sample_def Sample.scripted.
Definition serving_consumer : Consumer Sample.world :=
  mkConsumer minimal_validated (c_registry registered.1) true (Some redisDeadLetterSink) (Some 9%nat)
    (instruments_of (Some 1%nat)).

Definition wire_delivery (body : string) :=
  dispatch serving_consumer background "orders" body {[ MetadataDeliveryAttempt := "2" ]} (wire_state [None]).

Lemma published_event_is_handled_witness :
  registered.2 = None /\ (wire_delivery (the_body wire_publish)).1.1 = Ret None /\
  exists corr n,
    let env {U} (pl : U) := mkEnvelope (clean "id-11") "order.created" 12 "1.0.0" (clean corr)
                              (clean (cfg_Source minimal_validated)) pl in
    correlation_choice background (mkPublishOptions "c-7") corr /\
    calls (wire_delivery (the_body wire_publish)).2 = replicate (S n) (Some (clean corr), env "{}") /\
    runs_handler serving_consumer background {[ MetadataDeliveryAttempt := "2" ]}
      (fun ctx => Sample.scripted (T := string) (contextWithCorrelationID ctx (clean corr)) (env "{}"))
      (wire_state [None]) (wire_delivery (the_body wire_publish)).2 (wire_delivery (the_body wire_publish)).1.2.
Proof.
  assert (registered.2 = None) as Hreg by (vm_compute; reflexivity).
  assert ((wire_delivery (the_body wire_publish)).1.1 = Ret None) as Ho by (vm_compute; reflexivity).
  assert (value 1 (of_string "{}")) as Hv by (apply (val_empty Obj 0 []); constructor).
  split; [exact Hreg|]. split; [exact Ho|].
  assert (registered = (registered.1, None)) as Hpair.
  { transitivity (registered.1, registered.2); [apply surjective_pairing|by rewrite Hreg]. }
  destruct (published_event_is_handled (T := string) sample_publisher (Some 1%nat) fresh_consumer registered.1
    serving_consumer (Some 1%nat) background background sample_def Sample.scripted "{}" [WithCorrelationID "c-7"]
    (wire_world []) wire_publish.1.2 wire_publish.2 (mkPublishResult "id-11" 12) "{}" 1
    {[ MetadataDeliveryAttempt := "2" ]} (wire_state [None]) (wire_delivery (the_body wire_publish)).1.2
    (wire_delivery (the_body wire_publish)).1.1 (wire_delivery (the_body wire_publish)).2)
    as (body & Hw & H);
    [reflexivity|reflexivity|reflexivity|reflexivity|exact Hpair|reflexivity|reflexivity|reflexivity|exact Hv|unfold max_depth; lia
    |vm_compute; reflexivity|vm_compute; discriminate|].
  assert (body = the_body wire_publish) as -> by (unfold the_body; by rewrite Hw).
  destruct H as (corr & n & Hcorr & Hcalls & Hby); [apply run_eq|].
  exists corr, n. split; [exact Hcorr|]. split; [exact Hcalls|exact Hby].
Defined.

(** One delivery of [payload]; the handler fails permanently if it is called. *)
Definition wire_dispatch (payload : string) :=
  dispatch wire_consumer background "orders" payload {[ MetadataDeliveryAttempt := "1" ]}
    (wire_state [AsPermanent (Some (errorf "boom"))]).

Lemma scanned_text d s :
  scan_value (length (of_string s)) d (of_string s) = Some [] -> json_text d (of_string s).
Proof.
  intros (v & Hv & Hs)%scan_sound. rewrite app_nil_r in Hs. exists [], v, [].
  split_and!; [constructor|done|constructor|by rewrite app_nil_r].
Qed.

Definition dead_letter_of (payload : string) : result error DeadLetter :=
  unmarshal_deadletter (the_body (wire_dispatch payload)).

Lemma dead_letter_readable_witness :
  Valid (of_string "not json") = false /\
  ("foi:orders.dlq", the_body (wire_dispatch "not json"), None) ∈ writes (wire_dispatch "not json").2 /\
  exists dl, dead_letter_of "not json" = Ok dl /\ Event dl = None /\ EventRaw dl = Some "not json" /\
    DeliveryAttempts dl = 1 /\ OriginalTopic dl = clean "orders".
Proof.
  assert (Valid (of_string "not json") = false) as Hv by (vm_compute; reflexivity).
  assert (("foi:orders.dlq", the_body (wire_dispatch "not json"), None) ∈ writes (wire_dispatch "not json").2) as Hin.
  { vm_compute. apply list_elem_of_here. }
  split; [exact Hv|]. split; [exact Hin|].
  destruct (dead_letter_readable wire_consumer (Some 1%nat) background "orders" "not json"
    {[ MetadataDeliveryAttempt := "1" ]} (wire_state [AsPermanent (Some (errorf "boom"))])
    (wire_dispatch "not json").1.1 (wire_dispatch "not json").1.2 (wire_dispatch "not json").2 "foi:orders.dlq"
    (the_body (wire_dispatch "not json")) None 0) as (_ & dl & Hdl & Hh & _ & Hn & _ & _ & Ht);
    [reflexivity|discriminate|unfold max_depth; lia|by rewrite Hv|apply run_eq|exact Hin|].
  exists dl. unfold holds_payload in Hh. rewrite Hv, orb_true_r in Hh. destruct Hh.
  split; [exact Hdl|]. by split_and!.
Defined.
(** The event of the sample publisher, delivered. *)
Definition wire_event : string := Eval vm_compute in the_body wire_publish.

Lemma dead_letter_replays_witness :
  json_text 2 (of_string wire_event) /\ is_ok (unmarshal_envelope wire_event) = true /\
  exists dl replay env env', dead_letter_of wire_event = Ok dl /\
    unmarshal_envelope wire_event = Ok env /\
    (Event dl = Some replay /\ EventRaw dl = None \/ Event dl = None /\ EventRaw dl = Some replay) /\
    unmarshal_envelope replay = Ok env' /\ (env' = env \/ env' = compacted_envelope env).
Proof.
  assert (json_text 2 (of_string wire_event)) as Hj by (apply scanned_text; vm_compute; reflexivity).
  assert (is_ok (unmarshal_envelope wire_event) = true) as Hok by (vm_compute; reflexivity).
  assert (("foi:orders.dlq", the_body (wire_dispatch wire_event), None) ∈ writes (wire_dispatch wire_event).2) as Hin.
  { vm_compute. apply list_elem_of_here. }
  split; [exact Hj|]. split; [exact Hok|].
  destruct (unmarshal_envelope wire_event) as [env|] eqn:Henv; [|discriminate Hok].
  destruct (dead_letter_replays wire_consumer (Some 1%nat) background "orders" wire_event
    {[ MetadataDeliveryAttempt := "1" ]} (wire_state [AsPermanent (Some (errorf "boom"))])
    (wire_dispatch wire_event).1.1 (wire_dispatch wire_event).1.2 (wire_dispatch wire_event).2 "foi:orders.dlq"
    (the_body (wire_dispatch wire_event)) None 2 env) as (dl & replay & env' & Hdl & Hf & Hr & He);
    [reflexivity|unfold max_depth; lia|exact Hj|exact Henv|apply run_eq|exact Hin|].
  exists dl, replay, env, env'. split; [exact Hdl|]. by split_and!.
Defined.

Lemma writes_are_json_witness :
  writing_run (wire_dispatch "not json").2 /\
  exists b, writes (wire_dispatch "not json").2 = [("foi:orders.dlq", b, None)] /\ json_object b.
Proof.
  assert (writing_run (wire_dispatch "not json").2) as Hrun.
  { eapply (run_delivery wire_consumer (Some 1%nat)); [reflexivity|]. apply run_eq. }
  split; [exact Hrun|]. pose proof (writes_are_json _ Hrun) as H.
  assert (writes (wire_dispatch "not json").2 = [("foi:orders.dlq", the_body (wire_dispatch "not json"), None)]) as Hw
    by (vm_compute; reflexivity).
  exists (the_body (wire_dispatch "not json")). split; [exact Hw|]. rewrite Hw in H. exact (Forall_inv H).
Defined.

Lemma queue_latency_elapsed_witness :
  (0 <= year_of 4 < 10000) /\
  queue_latency wire_consumer "orders" {[ metadataPublishedAt := publishedAtNow 4 ]} (wire_state []) =
    (Ret tt, SampleDelivery.sample_state (Sample.tick (wire_world [])),
     [ERecord "messaging.queue.latency" (Seconds 6) [(attrTopic, AStr "orders")]]).
Proof.
  assert (0 <= year_of 4 < 10000) as Hy by (vm_compute; split; [discriminate|reflexivity]).
  split; [exact Hy|].
  exact (queue_latency_elapsed wire_consumer 1%nat "orders" {[ metadataPublishedAt := publishedAtNow 4 ]} 4
    (wire_state []) eq_refl (lookup_singleton_eq _ _) Hy).
Defined.

(** ** What the documentation says otherwise *)

Definition spaced_text : string := wire_event +:+ " ".

(** A JSON event is not preserved byte for byte: the dead letter of an event
    with a space after it holds another text. *)
Lemma dead_letter_not_verbatim :
  exists payload dl, Valid (of_string payload) = true /\
    unmarshal_deadletter (the_body (wire_dispatch payload)) = Ok dl /\
    Event dl <> Some payload /\ Event dl <> None /\ EventRaw dl = None.
Proof.
  assert (match dead_letter_of spaced_text with
          | Ok dl => bool_decide (Valid (of_string spaced_text) = true /\ Event dl <> Some spaced_text /\
                                  Event dl <> None /\ EventRaw dl = None)
          | Err _ => false
          end = true) as H by (vm_compute; reflexivity).
  destruct (dead_letter_of spaced_text) as [dl|] eqn:Hdl; [|discriminate H]. exists spaced_text, dl.
  apply bool_decide_eq_true in H as (? & ? & ? & ?). by split_and!.
Qed.

(** The dead letter of an empty entry sets neither of the two fields. *)
Lemma empty_event_in_neither_field :
  exists dl, unmarshal_deadletter (the_body (wire_dispatch "")) = Ok dl /\ Event dl = None /\ EventRaw dl = None.
Proof.
  assert (match dead_letter_of "" with
          | Ok dl => bool_decide (Event dl = None /\ EventRaw dl = None)
          | Err _ => false
          end = true) as H by (vm_compute; reflexivity).
  destruct (dead_letter_of "") as [dl|] eqn:Hdl; [|discriminate H]. exists dl.
  apply bool_decide_eq_true in H as [? ?]. by split_and!.
Qed.
End witnesses.
