(* ===== verification/Fleet.v ===== *)
(** * A fleet of instances over one consumer group

    Several processes run the same service: each has its own [StreamReader]
    (one group, its own consumer name), its own [Subscriber] and its own
    subscription to the stream.  They meet only in Redis.  A step of the fleet
    is an action of one instance's goroutines, with the Redis command it issues
    answered by the server both share, or a step of the world around it.  An
    instance that crashes is one that takes no more steps. *)

From S2P Require Import Prelude GoStrings GoErrors Config Runtime.
From S2P Require Import StreamReader Subscriber.
From stdpp Require Import options.

(** ** What Redis promises of a consumer group *)

(** An entry of the stream, as the group sees it: never delivered, delivered
    [n] times and in the pending list, or acknowledged after [n] deliveries. *)
Inductive status := Waiting | Pending (n : Z) | Acked (n : Z).

(** The deliveries Redis has counted. *)
Definition deliveries (st : option status) : Z :=
  match st with Some (Pending n) | Some (Acked n) => n | _ => 0 end.

Definition is_acked (st : option status) : Prop := exists n, st = Some (Acked n).

(** Messages of a reply to XREADGROUP. *)
Definition reply_messages (streams : list (string * list (string * fields))) : list (string * fields) :=
  mjoin (map snd streams).

(** The documented behaviour of the group commands, whatever they reply: a
    command may have taken effect although its reply was lost.  XGROUP CREATE at
    "0" leaves every entry to be delivered, or the existing group as it is;
    XREADGROUP delivers waiting entries only; XPENDING reports what is pending,
    with its delivery count; XCLAIM redelivers only pending entries it was asked
    for; XACK removes only those it was given. *)
Class ConsumerGroups (E : Type) `{HRedis : !RedisClient E} := {
  status_of : E -> string -> string -> string -> option status; (* stream, group, id *)
  create_keeps ctx stream group w err w' id :
    xgroup_create_mkstream ctx stream group "0" w = (err, w') ->
    status_of w' stream group id = status_of w stream group id;
  read_delivers ctx stream group consumer count block w reply w' id :
    xreadgroup ctx group consumer stream count block w = (reply, w') ->
    status_of w' stream group id = status_of w stream group id \/
    (status_of w stream group id = Some Waiting /\ status_of w' stream group id = Some (Pending 1));
  read_returns ctx stream group consumer count block w streams w' m :
    xreadgroup ctx group consumer stream count block w = (Ok streams, w') -> m ∈ reply_messages streams ->
    status_of w stream group m.1 = Some Waiting /\ status_of w' stream group m.1 = Some (Pending 1);
  pending_keeps ctx stream group idle count w reply w' id :
    xpending_ext ctx stream group idle count w = (reply, w') ->
    status_of w' stream group id = status_of w stream group id;
  pending_returns ctx stream group idle count w l w' p :
    xpending_ext ctx stream group idle count w = (Ok l, w') -> p ∈ l ->
    status_of w stream group p.1.1 = Some (Pending p.1.2) /\ 1 <= p.1.2;
  claim_redelivers ctx stream group consumer idle ids w reply w' id :
    xclaim ctx stream group consumer idle ids w = (reply, w') ->
    status_of w' stream group id = status_of w stream group id \/
    (id ∈ ids /\ exists n n', status_of w stream group id = Some (Pending n) /\
       status_of w' stream group id = Some (Pending n') /\ n <= n');
  claim_returns ctx stream group consumer idle ids w l w' m :
    xclaim ctx stream group consumer idle ids w = (Ok l, w') -> m ∈ l ->
    m.1 ∈ ids /\ exists n n', status_of w stream group m.1 = Some (Pending n) /\
      status_of w' stream group m.1 = Some (Pending n') /\ n + 1 <= n';
  ack_removes ctx stream group ids w err w' id :
    xack ctx stream group ids w = (err, w') ->
    status_of w' stream group id = status_of w stream group id \/
    (id ∈ ids /\ exists n, status_of w stream group id = Some (Pending n) /\
       status_of w' stream group id = Some (Acked n));
}.

(** A server that answers: what the commands do while the group exists and Redis is
    reachable.  Entries are read in the order in which they wait, with the fields
    they were stored with. *)
Class AnsweringGroups (E : Type) `{HGroups : ConsumerGroups E} := {
  up : E -> string -> string -> Prop;                        (* stream, group *)
  idle_for : E -> string -> string -> string -> Duration;    (* stream, group, id *)
  waiting : E -> string -> string -> list string;            (* stream, group: oldest first *)
  stored : E -> string -> string -> option fields;           (* stream, id *)
  waiting_status stream group id w :
    up w stream group -> id ∈ waiting w stream group <-> status_of w stream group id = Some Waiting;
  read_answers ctx stream group consumer block id ids w :
    up w stream group -> waiting w stream group = id :: ids ->
    exists fs w', xreadgroup ctx group consumer stream 1 block w = (Ok [(stream, [(id, fs)])], w') /\
      up w' stream group /\ waiting w' stream group = ids /\
      stored w stream id = Some fs /\ (forall id', stored w' stream id' = stored w stream id');
  scan_answers ctx stream group idle count w :
    up w stream group ->
    exists l w', xpending_ext ctx stream group idle count w = (Ok l, w') /\ up w' stream group /\
      waiting w' stream group = waiting w stream group /\ (forall id', stored w' stream id' = stored w stream id') /\
      (forall id, idle_for w' stream group id = idle_for w stream group id) /\
      (Z.of_nat (length l) < count -> forall id n, status_of w stream group id = Some (Pending n) ->
         idle <= idle_for w stream group id -> exists p, p ∈ l /\ p.1.1 = id);
  claim_answers ctx stream group consumer idle id w :
    up w stream group ->
    exists l w', xclaim ctx stream group consumer idle [id] w = (Ok l, w') /\ up w' stream group /\
      waiting w' stream group = waiting w stream group /\ (forall id', stored w' stream id' = stored w stream id') /\
      (forall id', id' <> id -> idle_for w' stream group id' = idle_for w stream group id') /\
      (forall n, status_of w stream group id = Some (Pending n) -> idle <= idle_for w stream group id ->
         exists fs, l = [(id, fs)] /\ stored w stream id = Some fs);
  ack_answers ctx stream group id w :
    up w stream group ->
    exists w', xack ctx stream group [id] w = (None, w') /\ up w' stream group /\
      waiting w' stream group = waiting w stream group /\ (forall id', stored w' stream id' = stored w stream id') /\
      (forall id', id' <> id -> idle_for w' stream group id' = idle_for w stream group id') /\
      (forall n, status_of w stream group id = Some (Pending n) -> status_of w' stream group id = Some (Acked n));
}.

(** XADD, and what Watermill makes of a message and back: an entry that was
    added waits for the group, with fields that hold its body and metadata. *)
Class StreamWrites (E : Type) `{HEnv : !Env E, HRedis : !RedisClient E, HGroups : !ConsumerGroups E,
    HUp : !AnsweringGroups E, HUnm : !WmUnmarshaller} := {
  write_waits ctx stream group id body md (w w' : E) :
    up w stream group -> env_xadd ctx stream id body md w = (None, w') ->
    exists entry fs, status_of w' stream group entry = Some Waiting /\ stored w' stream entry = Some fs /\
      wm_unmarshal fs = Ok (mkMessage body md);
}.

(** ** Instances *)

(** A goroutine of an instance that talks to Redis. *)
Inductive goroutine :=
| GRead                  (* the read loop *)
| GClaim                 (* the claim loop *)
| GFlight (i : nat).     (* the goroutine of message i in flight *)

Record instance (E : Type) := mkInstance {
  in_reader : StreamReader;
  in_sub : Subscriber;
  in_ctx : context E;      (* the context given to Subscribe *)
  in_state : sub_state;
}.
Arguments mkInstance {E}.
Arguments in_reader {E}.
Arguments in_sub {E}.
Arguments in_ctx {E}.
Arguments in_state {E}.

Definition set_state {E} (s : sub_state) (m : instance E) : instance E :=
  mkInstance (in_reader m) (in_sub m) (in_ctx m) s.

Section commands.
Context {E : Type} `{HFmt : !GoFmt, HRedis : !RedisClient E}.
Variables (stream : string) (m : instance E) (w : E).

(** [ack]: the XACK of one entry, detached from the subscription's context.  That
    [ackTimeout] expired is one of the replies it may get. *)
Definition ack_command (id : string) : option error * E :=
  Ack (in_reader m) (ctx_without_cancel (in_ctx m)) stream [id] w.

Definition emit_command (p : emit_pc) : option (emit_label * E) :=
  match p with
  | EHookAck e => let '(err, w') := ack_command (ent_ID e) in Some (EmHookAck err, w')
  | EHook _ | ESend _ _ => None
  end.

(** The command the read loop issues where it stands, and its reply. *)
Definition read_command (pc : read_pc) : option (label * E) :=
  match pc with
  | RRead =>
      let '(res, w') := ReadNew (in_reader m) (in_ctx m) stream 1 (sb_blockTime (in_sub m)) w in
      Some (LRRead res, w')
  | RRecreate =>
      let '(err, w') := EnsureGroup (in_reader m) (in_ctx m) stream w in Some (LREnsure err, w')
  | REmit p => '(l, w') ← emit_command p; Some (LREmit l, w')
  | RAcquire | RPause | RDone => None
  end.

(** And the claim loop. *)
Definition claim_command (pc : claim_pc) : option (label * E) :=
  match pc with
  | CScan =>
      let '(res, w') :=
        PendingOverIdle (in_reader m) (in_ctx m) stream (sb_claimMinIdle (in_sub m)) claimBatchSize w in
      Some (LCScan res, w')
  | CClaim p _ =>
      let '(res, w') :=
        Claim (in_reader m) (in_ctx m) stream (sb_claimMinIdle (in_sub m)) [pe_ID p] w in
      Some (LCClaim res, w')
  | CRecreate | CRecreateClaim =>
      let '(err, w') := EnsureGroup (in_reader m) (in_ctx m) stream w in Some (LCEnsure err, w')
  | CEmit p _ => '(l, w') ← emit_command p; Some (LCEmit l, w')
  | CTick | CPause | CAcquire _ _ | CDone => None
  end.

Definition command (g : goroutine) : option (label * E) :=
  match g with
  | GRead => read_command (st_read (in_state m))
  | GClaim => claim_command (st_claim (in_state m))
  | GFlight i =>
      f ← st_flights (in_state m) !! i;
      let '(err, w') := ack_command (fl_ID f) in Some (LFlightAck i err, w')
  end.
End commands.

(** Actions that issue a command: an instance takes them only with its reply. *)
Definition issues_command (l : label) : bool :=
  match l with
  | LRRead _ | LREnsure _ | LCScan _ | LCEnsure _ | LCClaim _ | LFlightAck _ _
  | LREmit (EmHookAck _) | LCEmit (EmHookAck _) => true
  | _ => false
  end.

(** ** The fleet *)

Record fleet (E : Type) := mkFleet {
  fl_env : E;
  fl_instances : list (instance E);
}.
Arguments mkFleet {E}.
Arguments fl_env {E}.
Arguments fl_instances {E}.

Inductive fleet_label (E : Type) :=
| FJoin (consumer : string) (sub : Subscriber) (ctx : context E) (* an instance subscribes *)
| FLocal (i : nat) (l : label)                     (* an action of instance i without a command *)
| FCommand (i : nat) (g : goroutine)               (* a goroutine of instance i and its command *)
| FWorld (w : E)                                   (* publishers, other streams, time *)
| FLoseGroup (w : E).                              (* XGROUP DESTROY, a failover without the group *)
Arguments FJoin {E}.
Arguments FLocal {E}.
Arguments FCommand {E}.
Arguments FWorld {E}.
Arguments FLoseGroup {E}.

Section fleet.
Context {E : Type} `{HFmt : !GoFmt, HRedis : !RedisClient E, HUnm : !WmUnmarshaller}.
Variables (stream group : string).

(** [Subscribe] of a new instance: its group is ensured first. *)
Definition join (consumer : string) (sub : Subscriber) (ctx : context E) (f : fleet E) : fleet E :=
  let r := NewStreamReader group consumer in
  let '(err, w') := EnsureGroup r ctx stream (fl_env f) in
  mkFleet w' (fl_instances f ++
    match Subscribe sub stream err with
    | Ok s => [mkInstance r sub ctx s]
    | Err _ => []
    end).

Definition act (i : nat) (l : label) (w : E) (f : fleet E) : option (fleet E) :=
  m ← fl_instances f !! i;
  s ← step l (in_state m);
  Some (mkFleet w (<[i := set_state s m]> (fl_instances f))).

Definition fleet_step (l : fleet_label E) (f : fleet E) : option (fleet E) :=
  match l with
  | FJoin consumer sub ctx => Some (join consumer sub ctx f)
  | FLocal i l => if issues_command l then None else act i l (fl_env f) f
  | FCommand i g =>
      m ← fl_instances f !! i;
      '(l, w') ← command stream m (fl_env f) g;
      act i l w' f
  | FWorld w | FLoseGroup w => Some (mkFleet w (fl_instances f))
  end.

Definition fleet_run (ls : list (fleet_label E)) (f : fleet E) : option (fleet E) :=
  run_steps fleet_step ls f.

(** What the world around the fleet does to the stream: it adds entries.  When
    the group is lost, every entry still on the stream waits for the group that
    will be created at "0". *)
Context `{HGroups : !ConsumerGroups E}.

Definition world_moves (w w' : E) : Prop :=
  forall id, status_of w' stream group id = status_of w stream group id \/
    (status_of w stream group id = None /\ status_of w' stream group id = Some Waiting).

Definition group_lost (w w' : E) : Prop :=
  forall id, status_of w' stream group id = (fun _ => Waiting) <$> status_of w stream group id.

Definition allowed (lossy : bool) (l : fleet_label E) (f : fleet E) : Prop :=
  match l with
  | FWorld w' => world_moves (fl_env f) w'
  | FLoseGroup w' => lossy = true /\ group_lost (fl_env f) w'
  | _ => True
  end.

(** The states a fleet reaches from an empty one, with or without losses of the
    group on the way. *)
Inductive reachable (lossy : bool) (w0 : E) : fleet E -> Prop :=
| reachable_empty : reachable lossy w0 (mkFleet w0 [])
| reachable_step l f f' :
    reachable lossy w0 f -> allowed lossy l f -> fleet_step l f = Some f' -> reachable lossy w0 f'.
End fleet.
