(* ===== verification/SubscriberTurns.v ===== *)
(** * Turns of the loops

    One action after another, what a loop that is not shutting down does with an
    entry: it takes a slot, reads or claims the entry, hands it over or gives it
    to the hook, and goes on once the slot is free. *)

From S2P Require Import Prelude GoStrings GoErrors Config Runtime.
From S2P Require Import StreamReader Subscriber SubscriberProperties SubscriberTraces Fleet.
From stdpp Require Import options.

(** ** Either loop, with and without a slot *)

(** Where one of the loops is. *)
Inductive place := AtRead (pc : read_pc) | AtClaim (pc : claim_pc).

Definition at_place (pl : place) (s : sub_state) : Prop :=
  match pl with AtRead pc => st_read s = pc | AtClaim pc => st_claim s = pc end.

(** The loop inside [emit]: the read loop, or the claim loop with what is left of
    its sweep. *)
Inductive emitter := EmitRead | EmitClaim (rest : list PendingEntry).

Definition emitting (em : emitter) (p : emit_pc) : place :=
  match em with EmitRead => AtRead (REmit p) | EmitClaim rest => AtClaim (CEmit p rest) end.
Definition after_emit (em : emitter) : place :=
  match em with EmitRead => AtRead RAcquire | EmitClaim rest => AtClaim (claim_next rest) end.
Definition emit_of (em : emitter) (l : emit_label) : label :=
  match em with EmitRead => LREmit l | EmitClaim _ => LCEmit l end.
Definition loop_of (em : emitter) : goroutine :=
  match em with EmitRead => GRead | EmitClaim _ => GClaim end.

Section turns.
Context `{HUnm : !WmUnmarshaller}.
Implicit Types (s : sub_state).

(** Not shutting down, and with a free slot. *)
Definition live s : Prop := stopped s = false /\ (st_sem s < st_cap s)%nat.

(** A loop at [pl], and the subscription live; or not shutting down and the loop
    holding a slot. *)
Definition idling (pl : place) s : Prop := at_place pl s /\ live s.

Record holding (pl : place) s : Prop := {
  hd_at : at_place pl s;
  hd_open : stopped s = false;
  hd_sem : (0 < st_sem s <= st_cap s)%nat;
}.

Ltac turn :=
  match goal with
  | H : holding _ ?s |- _ =>
      let n := fresh "n" in
      destruct H as [Hpc Hopen Hsem]; destruct (st_sem s) as [|n] eqn:Hn; [lia|]; simpl in Hpc
  end.

(** What is left of a turn once its action is computed. *)
Ltac turn_done :=
  repeat split; simpl; unfold stopped in *; simpl;
  try match goal with Hn : st_sem _ = S _ |- _ => rewrite ?Hn end; try done; try lia.

Ltac told := first [apply in_app_r; left|apply in_app_l, in_app_r; left].

Ltac act := unfold read_step, claim_step, acquire, release; simpl.

Lemma acquire_claim_turn p rest s :
  idling (AtClaim (CAcquire p rest)) s -> exists s', step LCAcquire s = Some s' /\ holding (AtClaim (CClaim p rest)) s'.
Proof.
  intros [Hpc [Hst Hsem]]. simpl in Hpc. eexists. split.
  - simpl. act. rewrite Hpc. by apply Nat.ltb_lt in Hsem as ->.
  - split; [done..|simpl; lia].
Qed.

Lemma acquire_read_turn s :
  idling (AtRead RAcquire) s -> exists s', step LRAcquire s = Some s' /\ holding (AtRead RRead) s'.
Proof.
  intros [Hpc [Hst Hsem]]. simpl in Hpc. eexists. split.
  - simpl. act. rewrite Hpc. by apply Nat.ltb_lt in Hsem as ->.
  - split; [done..|simpl; lia].
Qed.

Lemma claimed_none_turn p rest s :
  holding (AtClaim (CClaim p rest)) s ->
  exists s', step (LCClaim (Ok [])) s = Some s' /\ idling (AtClaim (claim_next rest)) s'.
Proof.
  intros H. turn. eexists. split.
  - simpl. unfold claim_step, release. rewrite Hpc, Hn. simpl. reflexivity.
  - unfold stopped in *. simpl. rewrite Hopen. split; [done|]. split; [done|simpl; lia].
Qed.

(** What [emit] does with an entry. *)
Definition emit_start (e : Entry) (attempt : Z) : emit_pc :=
  match decodeEntry e attempt with Ok msg => ESend e msg | Err _ => EHook e end.

Lemma claimed_turn p rest e es s :
  holding (AtClaim (CClaim p rest)) s ->
  exists s', step (LCClaim (Ok (e :: es))) s = Some s' /\ SClaimed p e ∈ st_trace s' /\
    holding (emitting (EmitClaim rest) (emit_start e (wrap64 (RetryCount p + 1)))) s'.
Proof.
  intros H. turn. unfold emit_start. simpl. unfold claim_step. rewrite Hpc. unfold emit_begin.
  destruct (decodeEntry e _); eexists; (split; [reflexivity|]); (split; [told|turn_done]).
Qed.

Lemma read_turn e es s :
  holding (AtRead RRead) s ->
  exists s', step (LRRead (Ok (e :: es))) s = Some s' /\ SRead e ∈ st_trace s' /\
    holding (emitting EmitRead (emit_start e 1)) s'.
Proof.
  intros H. turn. unfold emit_start. simpl. unfold read_step. rewrite Hpc. unfold emit_begin.
  destruct (decodeEntry e _); eexists; (split; [reflexivity|]); (split; [told|turn_done]).
Qed.

(** The message in flight, at its position. *)
Lemma sent_turn em e msg s :
  holding (emitting em (ESend e msg)) s ->
  exists s' k, step (emit_of em EmSend) s = Some s' /\ holding (after_emit em) s' /\
    st_flights s' !! k = Some (mkFlight (ent_ID e) msg None) /\ SSent (ent_ID e) msg ∈ st_trace s'.
Proof.
  intros H. destruct em; turn; eexists _, (length (st_flights s)); (split; [simpl; act; rewrite Hpc; reflexivity|]);
    (split; [turn_done|split; [by apply list_lookup_middle|apply in_app_r; left]]).
Qed.

Lemma settled_turn pl k id msg ok s :
  holding pl s -> st_flights s !! k = Some (mkFlight id msg None) ->
  exists s', step (LHandle k ok) s = Some s' /\ holding pl s' /\ SSettled id msg ok ∈ st_trace s' /\
    st_flights s' !! k = Some (mkFlight id msg (Some ok)).
Proof.
  intros H Hk. destruct pl; turn; eexists; (split; [simpl; rewrite Hk; reflexivity|]);
    (split; [turn_done|split; [apply in_app_r; left|apply list_lookup_insert_eq; by eapply lookup_lt_Some]]).
Qed.

(** Its goroutine is done: acknowledged, or left pending. *)
Lemma finished_turn pl k id msg (ok : bool) s :
  holding pl s -> st_flights s !! k = Some (mkFlight id msg (Some ok)) ->
  exists s', step (if ok then LFlightAck k None else LFlightDone k) s = Some s' /\ idling pl s'.
Proof.
  intros H Hk. destruct pl, ok; turn; eexists;
    (split; [simpl; rewrite Hk; simpl; unfold release; simpl; rewrite Hn; reflexivity|turn_done]).
Qed.

Lemma hooked_turn em e r s :
  holding (emitting em (EHook e)) s -> st_hook s = true ->
  exists s', step (emit_of em (EmHook r)) s = Some s' /\ SHooked (ent_ID e) (Fields e) r ∈ st_trace s' /\
    match r with
    | None => holding (emitting em (EHookAck e)) s'
    | Some _ => idling (after_emit em) s'
    end.
Proof.
  intros H Hhook. destruct em, r; turn; simpl; act; rewrite Hpc; simpl; rewrite Hhook; unfold release; simpl;
    rewrite ?Hn; simpl; unfold stopped in *; simpl; rewrite ?Hopen; eexists; (split; [reflexivity|]);
    (split; [told|turn_done]).
Qed.

Lemma unhooked_turn em e s :
  holding (emitting em (EHook e)) s -> st_hook s = false ->
  exists s', step (emit_of em EmNoHook) s = Some s' /\ idling (after_emit em) s'.
Proof.
  intros H Hhook. destruct em; turn; simpl; act; rewrite Hpc; simpl; rewrite Hhook; unfold release; rewrite Hn; simpl;
    unfold stopped in *; simpl; rewrite Hopen; eexists; (split; [reflexivity|turn_done]).
Qed.

Lemma hook_acked_turn em e s :
  holding (emitting em (EHookAck e)) s ->
  exists s', step (emit_of em (EmHookAck None)) s = Some s' /\ idling (after_emit em) s'.
Proof.
  intros H. destruct em; turn; simpl; act; rewrite Hpc; simpl; unfold release; simpl; rewrite Hn; simpl;
    unfold stopped in *; simpl; rewrite Hopen; eexists; (split; [reflexivity|turn_done]).
Qed.

(** The hook is there or not from the start. *)
Lemma emit_step_hook p l s r s' : emit_step p l s = Some (r, s') -> st_hook s' = st_hook s.
Proof.
  intros H. destruct p, l; try done; simpl in H; repeat (case_match; try done); simplify_option_eq;
    repeat match goal with H : release _ = Some _ |- _ => apply release_inv in H as [-> ?] end; done.
Qed.

Lemma step_hook l s s' : step l s = Some s' -> st_hook s' = st_hook s.
Proof.
  intros H. destruct l; cbn [step] in H; unfold read_step, claim_step, flight_step, emit_begin in H;
    repeat (case_match; simplify_eq/=; try done); simplify_option_eq;
    repeat match goal with
    | H : release _ = Some _ |- _ => apply release_inv in H as [-> ?]
    | H : acquire _ = Some _ |- _ => apply acquire_inv in H as [-> ?]
    | H : emit_step _ _ _ = Some _ |- _ => apply emit_step_hook in H
    end; repeat (simpl in *; case_match; simplify_eq); try done.
  all: try match goal with H : release _ = Some _ |- _ => by apply release_inv in H as [-> _] end.
  all: simpl; by eapply emit_step_hook.
Qed.

Lemma run_hook ls s s' : run ls s = Some s' -> st_hook s' = st_hook s.
Proof.
  apply (run_steps_invariant step (fun s' => st_hook s' = st_hook s)); [|done].
  intros l s1 s2 <- Hs. by apply step_hook in Hs.
Qed.
End turns.
