(* ===== verification/SampleFleet.v ===== *)
(** * A concrete Redis for a fleet

    A server with one stream and one consumer group that keeps, per entry, what
    Redis keeps: fields, whether it was delivered, how often and when last, and
    whether it was acknowledged.  It satisfies the laws of [ConsumerGroups], and
    the fleets the witnesses run against it are here. *)

From S2P Require Import Prelude GoStrings GoErrors Validation Registry Config Runtime Sample.
From S2P Require Import Telemetry Delivery SampleDelivery.
From S2P Require Import StreamReader Subscriber Fleet.
From stdpp Require Import options.

Inductive slot_state := SWaiting | SPending (n : positive) | SAcked (n : positive).

Record slot := mkSlot {
  sl_fields : fields;
  sl_state : slot_state;
  sl_since : Z;              (* its last delivery *)
}.

Record server := mkServer {
  sv_clock : Z;
  sv_group : bool;           (* the group exists *)
  sv_order : list string;    (* the IDs on the stream, oldest first *)
  sv_slots : gmap string slot;
}.

Definition slot_status (sl : slot) : status :=
  match sl_state sl with
  | SWaiting => Waiting
  | SPending n => Pending (Zpos n)
  | SAcked n => Acked (Zpos n)
  end.

(** ** The commands *)

(** Apply [f] to the slots of [ids]. *)
Definition on_slots (f : slot -> slot) (ids : list string) (w : server) : server :=
  mkServer (sv_clock w) (sv_group w) (sv_order w)
    (map_imap (fun id sl => Some (if bool_decide (id ∈ ids) then f sl else sl)) (sv_slots w)).

Definition deliver (now : Z) (sl : slot) : slot :=
  match sl_state sl with
  | SWaiting => mkSlot (sl_fields sl) (SPending 1) now
  | SPending n => mkSlot (sl_fields sl) (SPending (n + 1)) now
  | SAcked _ => sl
  end.

Definition acknowledge (sl : slot) : slot :=
  match sl_state sl with
  | SPending n => mkSlot (sl_fields sl) (SAcked n) (sl_since sl)
  | _ => sl
  end.

Definition waits (w : server) (id : string) : bool :=
  match sl_state <$> sv_slots w !! id with Some SWaiting => true | _ => false end.

(** The delivery count and idle time of a pending entry. *)
Definition idle_of (w : server) (id : string) : option (positive * Z) :=
  sl ← sv_slots w !! id;
  match sl_state sl with
  | SPending n => Some (n, sv_clock w - sl_since sl)
  | _ => None
  end.

Definition idles (w : server) (idle : Duration) (id : string) : bool :=
  match idle_of w id with Some (_, d) => idle <=? d | None => false end.

Definition entry_of (w : server) (id : string) : string * fields :=
  (id, default ∅ (sl_fields <$> sv_slots w !! id)).

Definition no_such_group : error := errorf "NOGROUP No such consumer group".
Definition nothing : error := errorf "redis: nil".

#[export] Instance server_redis : RedisClient server := {
  xgroup_create_mkstream _ _ _ _ w :=
    if sv_group w then (Some (errorf "BUSYGROUP Consumer Group name already exists"), w)
    else (None, mkServer (sv_clock w) true (sv_order w) (sv_slots w));
  xreadgroup _ _ _ stream count _ w :=
    if sv_group w then
      match take (Z.to_nat count) (List.filter (waits w) (sv_order w)) with
      | [] => (Err nothing, w)
      | ids => (Ok [(stream, map (entry_of w) ids)], on_slots (deliver (sv_clock w)) ids w)
      end
    else (Err no_such_group, w);
  xpending_ext _ _ _ idle count w :=
    if sv_group w then
      (Ok (take (Z.to_nat count)
             (omap (fun id => '(n, d) ← idle_of w id; if idle <=? d then Some (id, Zpos n, d) else None)
                (sv_order w))), w)
    else (Err no_such_group, w);
  xclaim _ _ _ _ idle ids w :=
    if sv_group w then
      let ids := List.filter (idles w idle) ids in
      (Ok (map (entry_of w) ids), on_slots (deliver (sv_clock w)) ids w)
    else (Err no_such_group, w);
  xack _ _ _ ids w :=
    if sv_group w then (None, on_slots acknowledge ids w) else (None, w);
  redis_nil e := bool_decide (Error e = "redis: nil");
  redis_close w := (None, w);
}.

(** ** It behaves as documented *)

Definition server_status (w : server) (stream group id : string) : option status :=
  slot_status <$> sv_slots w !! id.

Lemma on_slots_status f ids w s g id :
  server_status (on_slots f ids w) s g id =
  (fun sl => slot_status (if bool_decide (id ∈ ids) then f sl else sl)) <$> sv_slots w !! id.
Proof. unfold server_status, on_slots. simpl. rewrite map_lookup_imap. by destruct (sv_slots w !! id). Qed.

Lemma on_slots_cases f ids w s g id :
  server_status (on_slots f ids w) s g id = server_status w s g id \/
  (id ∈ ids /\ exists sl, sv_slots w !! id = Some sl /\
     server_status (on_slots f ids w) s g id = Some (slot_status (f sl))).
Proof.
  rewrite on_slots_status. unfold server_status. destruct (sv_slots w !! id) as [sl|]; [|by left]. simpl.
  case_bool_decide; [right|by left]. eauto.
Qed.

Lemma on_slots_elem f ids w s g id :
  id ∈ ids -> server_status (on_slots f ids w) s g id = (slot_status ∘ f) <$> sv_slots w !! id.
Proof.
  intros Hid. rewrite on_slots_status. by rewrite bool_decide_true.
Qed.

Lemma waits_status w id : waits w id = true -> exists sl, sv_slots w !! id = Some sl /\ sl_state sl = SWaiting.
Proof.
  unfold waits. destruct (sv_slots w !! id) as [sl|]; [|done]. simpl. destruct (sl_state sl) eqn:?; eauto; done.
Qed.

Lemma idle_of_status w id n d :
  idle_of w id = Some (n, d) -> exists sl, sv_slots w !! id = Some sl /\ sl_state sl = SPending n.
Proof.
  unfold idle_of. destruct (sv_slots w !! id) as [sl|]; [|done]. simpl. destruct (sl_state sl) eqn:?; try done.
  intros [= <- <-]. eauto.
Qed.

Lemma idles_status w idle id :
  idles w idle id = true -> exists sl n, sv_slots w !! id = Some sl /\ sl_state sl = SPending n.
Proof.
  unfold idles. destruct (idle_of w id) as [[n d]|] eqn:Hi; [|done].
  apply idle_of_status in Hi as (sl & ? & ?). eauto.
Qed.

(** What XREADGROUP and XCLAIM select. *)
Lemma read_selects w count id :
  id ∈ take count (List.filter (waits w) (sv_order w)) -> waits w id = true.
Proof. intros Hin%elem_of_take. destruct Hin as (i & Hin & _). apply list_elem_of_lookup_2, list_elem_of_In, List.filter_In in Hin. tauto. Qed.

Lemma server_create_keeps ctx stream group w err w' id :
  xgroup_create_mkstream ctx stream group "0" w = (err, w') ->
  server_status w' stream group id = server_status w stream group id.
Proof. simpl. by destruct (sv_group w); intros [= <- <-]. Qed.

Lemma server_read_delivers ctx stream group consumer count block w reply w' id :
  xreadgroup ctx group consumer stream count block w = (reply, w') ->
  server_status w' stream group id = server_status w stream group id \/
  (server_status w stream group id = Some Waiting /\ server_status w' stream group id = Some (Pending 1)).
Proof.
  simpl. destruct (sv_group w); [|intros [= <- <-]; by left]. pose proof (read_selects w (Z.to_nat count)) as Hsel.
  destruct (take _ _) as [|i ids] eqn:Ht; intros [= <- <-]; [by left|].
  destruct (on_slots_cases (deliver (sv_clock w)) (i :: ids) w stream group id) as [->|(Hid & sl & Hsl & ->)];
    [by left|right].
  apply Hsel, waits_status in Hid as (sl' & Hsl' & Hst). rewrite Hsl in Hsl'. injection Hsl' as <-.
  unfold server_status, deliver, slot_status. rewrite Hsl. simpl. by rewrite Hst.
Qed.

Lemma server_read_returns ctx stream group consumer count block w streams w' m :
  xreadgroup ctx group consumer stream count block w = (Ok streams, w') -> m ∈ reply_messages streams ->
  server_status w stream group m.1 = Some Waiting /\ server_status w' stream group m.1 = Some (Pending 1).
Proof.
  simpl. destruct (sv_group w); [|done]. pose proof (read_selects w (Z.to_nat count)) as Hsel.
  destruct (take _ _) as [|i ids] eqn:Ht; intros [= <- <-] Hm.
  unfold reply_messages in Hm. simpl in Hm. rewrite app_nil_r in Hm.
  assert (m.1 ∈ i :: ids) as Hid.
  { apply elem_of_cons in Hm as [->|Hm]; [by left|right]. apply list_elem_of_fmap in Hm as (j & -> & Hj). done. }
  rewrite on_slots_elem by done. apply Hsel, waits_status in Hid as (sl & Hsl & Hst).
  unfold server_status, deliver, slot_status. rewrite Hsl. simpl. by rewrite Hst.
Qed.

Lemma server_pending_keeps ctx stream group idle count w reply w' id :
  xpending_ext ctx stream group idle count w = (reply, w') ->
  server_status w' stream group id = server_status w stream group id.
Proof. simpl. by destruct (sv_group w); intros [= <- <-]. Qed.

Lemma server_pending_returns ctx stream group idle count w l w' p :
  xpending_ext ctx stream group idle count w = (Ok l, w') -> p ∈ l ->
  server_status w stream group p.1.1 = Some (Pending p.1.2) /\ 1 <= p.1.2.
Proof.
  simpl. destruct (sv_group w); [|done]. intros [= <- <-] (i & Hp & _)%elem_of_take.
  apply list_elem_of_lookup_2, list_elem_of_omap in Hp as (id & _ & Hp).
  destruct (idle_of w id) as [[n d]|] eqn:Hi; [|done]. simpl in Hp. case_match; [|done]. injection Hp as <-.
  apply idle_of_status in Hi as (sl & Hsl & Hst). unfold server_status, slot_status. simpl. rewrite Hsl.
  simpl. rewrite Hst. split; [done|lia].
Qed.

(** What claiming does to an entry that can be claimed. *)
Lemma claimed_status w idle ids s g id :
  id ∈ List.filter (idles w idle) ids ->
  id ∈ ids /\ exists n n', server_status w s g id = Some (Pending n) /\
    server_status (on_slots (deliver (sv_clock w)) (List.filter (idles w idle) ids) w) s g id = Some (Pending n') /\
    n + 1 <= n'.
Proof.
  intros Hid. rewrite on_slots_elem by done. apply list_elem_of_In, List.filter_In in Hid as [Hid Hi].
  apply list_elem_of_In in Hid. split; [done|]. apply idles_status in Hi as (sl & n & Hsl & Hst).
  exists (Zpos n), (Zpos (n + 1)). unfold server_status, deliver, slot_status. rewrite Hsl. simpl. rewrite Hst. simpl.
  split_and!; [done..|lia].
Qed.

Lemma server_claim_redelivers ctx stream group consumer idle ids w reply w' id :
  xclaim ctx stream group consumer idle ids w = (reply, w') ->
  server_status w' stream group id = server_status w stream group id \/
  (id ∈ ids /\ exists n n', server_status w stream group id = Some (Pending n) /\
     server_status w' stream group id = Some (Pending n') /\ n <= n').
Proof.
  simpl. destruct (sv_group w); intros [= <- <-]; [|by left].
  destruct (on_slots_cases (deliver (sv_clock w)) (List.filter (idles w idle) ids) w stream group id)
    as [->|(Hid & _)]; [by left|right].
  destruct (claimed_status w idle ids stream group id Hid) as (? & n & n' & ? & ? & ?).
  split; [done|]. exists n, n'. split_and!; [done..|lia].
Qed.

Lemma server_claim_returns ctx stream group consumer idle ids w l w' m :
  xclaim ctx stream group consumer idle ids w = (Ok l, w') -> m ∈ l ->
  m.1 ∈ ids /\ exists n n', server_status w stream group m.1 = Some (Pending n) /\
    server_status w' stream group m.1 = Some (Pending n') /\ n + 1 <= n'.
Proof.
  simpl. destruct (sv_group w); [|done]. intros [= <- <-] (id & -> & Hid)%list_elem_of_fmap.
  by apply claimed_status.
Qed.

Lemma server_ack_removes ctx stream group ids w err w' id :
  xack ctx stream group ids w = (err, w') ->
  server_status w' stream group id = server_status w stream group id \/
  (id ∈ ids /\ exists n, server_status w stream group id = Some (Pending n) /\
     server_status w' stream group id = Some (Acked n)).
Proof.
  simpl. destruct (sv_group w); intros [= <- <-]; [|by left].
  destruct (on_slots_cases acknowledge ids w stream group id) as [->|(Hid & sl & Hsl & ->)]; [by left|].
  unfold server_status, acknowledge, slot_status. rewrite Hsl. simpl.
  destruct (sl_state sl) as [|n|n] eqn:Hst; simpl; rewrite ?Hst; [by left|right|by left]. eauto.
Qed.

#[export] Instance server_groups : ConsumerGroups server := {
  status_of := server_status;
  create_keeps := server_create_keeps;
  read_delivers := server_read_delivers;
  read_returns := server_read_returns;
  pending_keeps := server_pending_keeps;
  pending_returns := server_pending_returns;
  claim_redelivers := server_claim_redelivers;
  claim_returns := server_claim_returns;
  ack_removes := server_ack_removes;
}.

(** ** The world around the fleet *)

(** Time passes. *)
Definition wait (d : Duration) (w : server) : server :=
  mkServer (sv_clock w + d) (sv_group w) (sv_order w) (sv_slots w).

(** The group is destroyed; the stream stays. *)
Definition destroy_group (w : server) : server :=
  mkServer (sv_clock w) false (sv_order w) ((fun sl => mkSlot (sl_fields sl) SWaiting 0) <$> sv_slots w).

Lemma wait_moves stream group d w : world_moves stream group w (wait d w).
Proof. intros id. by left. Qed.

Lemma destroy_loses stream group w : group_lost stream group w (destroy_group w).
Proof.
  intros id. simpl. unfold server_status. simpl. rewrite lookup_fmap. by destruct (sv_slots w !! id).
Qed.

(** Its clock and its spans, as in [Sample]. *)
#[export] Instance server_env : Env server := {
  env_now w := (sv_clock w, w);
  env_uuid w := (Ok ("id-" +:+ FormatInt (sv_clock w)), w);
  env_rand n w := (n - 1, w);
  env_ctx_done _ w := false;
  env_timer_first _ _ w := (true, w);
  env_xadd _ _ _ _ _ w := (None, w);
  env_start_span _ w := (0%nat, w);
  env_span_ids n := ("trace", "span");
  env_extract md := md !! "traceparent";
  env_inject _ md := <["traceparent" := "00"]> md;
}.

(** ** Two instances *)

Definition sample_server : server :=
  mkServer 0 false ["1-0"] {[ "1-0" := mkSlot {[ "payload" := "order" ]} SWaiting 0 ]}.

Definition sample_stream : string := "foi:orders".

Definition fleet_after (ls : list (fleet_label server)) (f : fleet server) : fleet server :=
  default f (fleet_run sample_stream "svc" ls f).

(** The first instance reads the entry, hands it over and crashes. *)
Definition crash_labels : list (fleet_label server) :=
  [FJoin "a" sample_subscriber background; FLocal 0 LRAcquire; FCommand 0 GRead; FLocal 0 (LREmit EmSend)].

Definition crashed : fleet server := fleet_after crash_labels (mkFleet sample_server []).

Definition later (d : Duration) (f : fleet server) : fleet server :=
  mkFleet (wait d (fl_env f)) (fl_instances f).

(** A second one finds it pending, reclaims it, and its handler succeeds. *)
Definition recover_labels : list (fleet_label server) :=
  [FJoin "b" sample_subscriber background; FLocal 1 LCTick; FCommand 1 GClaim; FLocal 1 LCAcquire;
   FCommand 1 GClaim; FLocal 1 (LCEmit EmSend); FLocal 1 (LHandle 0 true); FCommand 1 (GFlight 0)].

Definition recovered : fleet server := fleet_after recover_labels (later (60 * Second) crashed).

Example a_crash_and_its_recovery :
  (server_status (fl_env crashed) sample_stream "svc" "1-0", server_status (fl_env recovered) sample_stream "svc" "1-0",
   map (fun m => st_trace (in_state m)) (fl_instances recovered)) =
  (Some (Pending 1), Some (Acked 2),
   [[SRead sample_entry; SSent "1-0" (sample_message "1")];
    [SListed [mkPendingEntry "1-0" 1 (60 * Second)]; SClaimed (mkPendingEntry "1-0" 1 (60 * Second)) sample_entry;
     SSent "1-0" (sample_message "2"); SSettled "1-0" (sample_message "2") true; SAck "1-0" None]]).
Proof. vm_compute. reflexivity. Qed.

(** The first instance nacks the entry, lists it in a sweep, and then waits for
    a slot while the second one reclaims and nacks it too. *)
Definition contended : fleet server :=
  fleet_after
    [FLocal 0 LCTick; FCommand 0 GClaim; FJoin "b" sample_subscriber background; FLocal 1 LCTick;
     FCommand 1 GClaim; FLocal 1 LCAcquire; FCommand 1 GClaim; FLocal 1 (LCEmit EmSend);
     FLocal 1 (LHandle 0 false); FLocal 1 (LFlightDone 0)]
    (later (60 * Second) (fleet_after [FLocal 0 (LHandle 0 false); FLocal 0 (LFlightDone 0)] crashed)).

Definition lagging : fleet server :=
  fleet_after [FLocal 0 LCAcquire; FCommand 0 GClaim; FLocal 0 (LCEmit EmSend)] (later (60 * Second) contended).

(** The attempt number comes from the sweep, not from the claim, so it may lag
    behind: Redis has delivered the entry three times, the message says two. *)
Example attempts_may_lag :
  server_status (fl_env lagging) sample_stream "svc" "1-0" = Some (Pending 3) /\
  (last ∘ st_trace ∘ in_state) <$> fl_instances lagging !! 0%nat = Some (Some (SSent "1-0" (sample_message "2"))).
Proof. split; vm_compute; reflexivity. Qed.

(** The group is lost after the recovery: the entry is delivered once more. *)
Definition lose (f : fleet server) : fleet server :=
  mkFleet (destroy_group (fl_env f)) (fl_instances f).

Definition regrouped : fleet server :=
  fleet_after
    [FLocal 1 LRAcquire; FCommand 1 GRead; FCommand 1 GRead; FLocal 1 LRPause; FLocal 1 LRAcquire; FCommand 1 GRead]
    (lose recovered).

Example a_lost_group_is_recreated :
  server_status (fl_env regrouped) sample_stream "svc" "1-0" = Some (Pending 1) /\
  (drop 5 ∘ st_trace ∘ in_state) <$> fl_instances regrouped !! 1%nat =
    Some [warn_missing; SEnsure None; SRead sample_entry].
Proof. split; vm_compute; reflexivity. Qed.

(** A service over this server: one handler, which succeeds. *)
Definition content (ctx : context server) (env : Envelope string) (w : server) : handled * server :=
  (Returned None, w).

Definition fleet_consumer : Consumer server :=
  mkConsumer minimal_validated (addTyped newRegistry "orders" "order.created" 1 content).1 true
    (Some redisDeadLetterSink) (Some 9%nat) (instruments_of (Some 1%nat)).
