(* ===== verification/SampleAnswers.v ===== *)
(** * The sample server answers

    The server of [SampleFleet] does what [AnsweringGroups] asks of one that is
    reachable, when its stream lists every entry once. *)

From S2P Require Import Prelude GoStrings GoErrors Config Runtime.
From S2P Require Import StreamReader Subscriber Fleet SampleFleet.
From stdpp Require Import options.

(** ** Filters of the stream *)

Lemma filter_and {A} (p q : A -> bool) l :
  List.filter (fun x => p x && q x) l = List.filter p (List.filter q l).
Proof.
  induction l as [|x l IH]; [done|]. simpl. destruct (q x); simpl; [|by rewrite andb_false_r].
  rewrite andb_true_r, IH. done.
Qed.

Lemma List_filter_all {A} (p : A -> bool) l : (forall x, x ∈ l -> p x = true) -> List.filter p l = l.
Proof.
  induction l as [|x l IH]; intros Hp; [done|]. simpl. rewrite (Hp x) by left. f_equal. apply IH. intros. apply Hp.
  by right.
Qed.

(** ** The answers *)

Definition server_up (w : server) (stream group : string) : Prop := sv_group w = true.

Definition server_idle (w : server) (stream group id : string) : Duration :=
  match idle_of w id with Some (_, d) => d | None => 0 end.

(** The stream lists every entry with a slot, once. *)
Definition ordered (w : server) : Prop :=
  NoDup (sv_order w) /\ forall id, is_Some (sv_slots w !! id) -> id ∈ sv_order w.

Definition answering (w : server) (stream group : string) : Prop := server_up w stream group /\ ordered w.

Definition server_waiting (w : server) (stream group : string) : list string := List.filter (waits w) (sv_order w).

Lemma on_slots_other f ids w id : id ∉ ids -> sv_slots (on_slots f ids w) !! id = sv_slots w !! id.
Proof.
  intros Hid. simpl. rewrite map_lookup_imap. destruct (sv_slots w !! id); [|done]. simpl.
  by rewrite bool_decide_false.
Qed.

Lemma on_slots_answering f ids w stream group : answering w stream group -> answering (on_slots f ids w) stream group.
Proof.
  intros [Hup [Hnd Ho]]. split; [done|]. split; [done|]. intros id [sl Hsl]. simpl in *. apply Ho.
  rewrite map_lookup_imap in Hsl. by destruct (sv_slots w !! id).
Qed.

Definition server_stored (w : server) (stream id : string) : option fields := sl_fields <$> sv_slots w !! id.

(** Deliveries and acknowledgements keep the fields. *)
Lemma on_slots_stored f ids w stream id :
  (forall sl, sl_fields (f sl) = sl_fields sl) -> server_stored (on_slots f ids w) stream id = server_stored w stream id.
Proof.
  intros Hf. unfold server_stored. simpl. rewrite map_lookup_imap. destruct (sv_slots w !! id) as [sl|]; [|done]. simpl.
  case_bool_decide; simpl; [by rewrite Hf|done].
Qed.

Lemma deliver_fields now sl : sl_fields (deliver now sl) = sl_fields sl.
Proof. unfold deliver. by destruct (sl_state sl). Qed.

Lemma acknowledge_fields sl : sl_fields (acknowledge sl) = sl_fields sl.
Proof. unfold acknowledge. by destruct (sl_state sl). Qed.

(** Slots that do not wait keep the queue as it is. *)
Lemma on_slots_waiting f ids w stream group :
  (forall id sl, id ∈ ids -> sv_slots w !! id = Some sl ->
     match sl_state (f sl) with SWaiting => true | _ => false end = match sl_state sl with SWaiting => true | _ => false end) ->
  server_waiting (on_slots f ids w) stream group = server_waiting w stream group.
Proof.
  intros Hf. unfold server_waiting. simpl. apply List.filter_ext. intros id. unfold waits. simpl.
  rewrite map_lookup_imap. destruct (sv_slots w !! id) as [sl|] eqn:Hsl; [|done]. simpl.
  case_bool_decide as Hid; [|done]. specialize (Hf id sl Hid Hsl). destruct (sl_state (f sl)), (sl_state sl); done.
Qed.

Lemma server_waiting_status stream group id w :
  answering w stream group -> id ∈ server_waiting w stream group <-> server_status w stream group id = Some Waiting.
Proof.
  intros [_ [_ Ho]]. unfold server_waiting, server_status. rewrite list_elem_of_In, List.filter_In, <-list_elem_of_In.
  unfold waits, slot_status. destruct (sv_slots w !! id) as [sl|] eqn:Hsl; [|naive_solver].
  specialize (Ho id ltac:(eauto)). simpl. destruct (sl_state sl); naive_solver.
Qed.

Lemma server_read_answers (ctx : context server) stream group consumer block id ids (w : server) :
  answering w stream group -> server_waiting w stream group = id :: ids ->
  exists fs w', xreadgroup ctx group consumer stream 1 block w = (Ok [(stream, [(id, fs)])], w') /\
    answering w' stream group /\ server_waiting w' stream group = ids /\
    server_stored w stream id = Some fs /\ (forall id', server_stored w' stream id' = server_stored w stream id').
Proof.
  intros Ha Hw. pose proof Ha as [Hup [Hnd _]]. unfold server_up in Hup. simpl. rewrite Hup.
  change (List.filter (waits w) (sv_order w)) with (server_waiting w stream group). rewrite Hw. simpl.
  assert (waits w id = true) as Hwait.
  { assert (id ∈ server_waiting w stream group) as Hin by (rewrite Hw; left).
    apply list_elem_of_In, List.filter_In in Hin. tauto. }
  eexists _, _. split; [reflexivity|]. split; [by apply on_slots_answering|].
  split; [|split; [|intros id'; apply on_slots_stored, deliver_fields]]; last first.
  { unfold server_stored. apply waits_status in Hwait as (sl & -> & _). done. }
  assert (NoDup (id :: ids)) as [Hid _]%NoDup_cons.
  { rewrite <-Hw. unfold server_waiting. apply NoDup_ListNoDup, List.NoDup_filter, NoDup_ListNoDup, Hnd. }
  transitivity (List.filter (fun j => negb (String.eqb j id)) (server_waiting w stream group)).
  - unfold server_waiting. simpl. rewrite <-filter_and. apply List.filter_ext. intros j. unfold waits. simpl.
    rewrite map_lookup_imap. destruct (sv_slots w !! j) as [sl|] eqn:Hsl; [|by rewrite andb_false_r]. simpl.
    destruct (String.eqb_spec j id) as [->|Hne]; simpl.
    + rewrite bool_decide_true by left. unfold deliver. by destruct (sl_state sl) eqn:Hs; rewrite ?Hs.
    + rewrite bool_decide_false by (by intros ?%list_elem_of_singleton). done.
  - rewrite Hw. simpl. rewrite String.eqb_refl. simpl. apply List_filter_all. intros j Hj.
    destruct (String.eqb_spec j id) as [->|]; [done|done].
Qed.

Lemma server_scan_answers (ctx : context server) stream group idle count (w : server) :
  answering w stream group ->
  exists l w', xpending_ext ctx stream group idle count w = (Ok l, w') /\ answering w' stream group /\
    server_waiting w' stream group = server_waiting w stream group /\
    (forall id', server_stored w' stream id' = server_stored w stream id') /\
    (forall id, server_idle w' stream group id = server_idle w stream group id) /\
    (Z.of_nat (length l) < count -> forall id n, server_status w stream group id = Some (Pending n) ->
       idle <= server_idle w stream group id -> exists p, p ∈ l /\ p.1.1 = id).
Proof.
  intros [Hup [Hnd Ho]]. unfold server_up in Hup. eexists _, w. simpl. rewrite Hup. split; [done|]. split; [done|].
  split; [done|]. split; [done|]. split; [done|].
  intros Hlen id n Hst Hidle. rewrite length_take in Hlen. rewrite take_ge by lia.
  unfold server_status in Hst. destruct (sv_slots w !! id) as [sl|] eqn:Hsl; [|done].
  unfold server_idle, idle_of in Hidle. rewrite Hsl in Hidle. simpl in *. unfold slot_status in Hst.
  destruct (sl_state sl) as [|k|k] eqn:Hs; try done.
  exists (id, Zpos k, sv_clock w - sl_since sl). split; [|done].
  apply list_elem_of_omap. exists id. split; [apply Ho; eauto|]. unfold idle_of. rewrite Hsl. simpl. rewrite Hs. simpl.
  by apply Z.leb_le in Hidle as ->.
Qed.

Lemma server_claim_answers (ctx : context server) stream group consumer idle id (w : server) :
  answering w stream group ->
  exists l w', xclaim ctx stream group consumer idle [id] w = (Ok l, w') /\ answering w' stream group /\
    server_waiting w' stream group = server_waiting w stream group /\
    (forall id', server_stored w' stream id' = server_stored w stream id') /\
    (forall id', id' <> id -> server_idle w' stream group id' = server_idle w stream group id') /\
    (forall n, server_status w stream group id = Some (Pending n) -> idle <= server_idle w stream group id ->
       exists fs, l = [(id, fs)] /\ server_stored w stream id = Some fs).
Proof.
  intros Ha. pose proof Ha as [Hup _]. unfold server_up in Hup. eexists _, _. simpl. rewrite Hup.
  split; [reflexivity|]. split; [by apply on_slots_answering|]. split; [|split; [|split]].
  - apply on_slots_waiting. intros id' sl Hin Hsl. apply list_elem_of_In, (List.filter_In (idles w idle) id' [id]) in Hin as [_ Hi].
    apply idles_status in Hi as (sl' & n & Hsl' & Hst). simplify_eq. unfold deliver. by rewrite Hst.
  - intros id'. apply on_slots_stored. first [apply deliver_fields|apply acknowledge_fields].
  - intros id' Hne. unfold server_idle, idle_of. rewrite on_slots_other; [done|].
    intros Hin%list_elem_of_In. destruct (idles w idle id); simpl in Hin; [destruct Hin as [Hin|[]]; by apply Hne|done].
  - intros n Hst Hidle. unfold server_status in Hst. unfold server_idle in Hidle. unfold idles, entry_of.
    destruct (idle_of w id) as [[k d]|] eqn:Hi.
    + apply Z.leb_le in Hidle as ->. eexists. split; [reflexivity|].
      apply idle_of_status in Hi as (sl & Hsl & _). unfold server_stored. by rewrite Hsl.
    + exfalso. unfold idle_of, slot_status in *. destruct (sv_slots w !! id) as [sl|]; [|done]. simpl in *.
      by destruct (sl_state sl).
Qed.

Lemma server_ack_answers (ctx : context server) stream group id (w : server) :
  answering w stream group ->
  exists w', xack ctx stream group [id] w = (None, w') /\ answering w' stream group /\
    server_waiting w' stream group = server_waiting w stream group /\
    (forall id', server_stored w' stream id' = server_stored w stream id') /\
    (forall id', id' <> id -> server_idle w' stream group id' = server_idle w stream group id') /\
    (forall n, server_status w stream group id = Some (Pending n) -> server_status w' stream group id = Some (Acked n)).
Proof.
  intros Ha. pose proof Ha as [Hup _]. unfold server_up in Hup. eexists. simpl. rewrite Hup.
  split; [reflexivity|]. split; [by apply on_slots_answering|]. split; [|split; [|split]].
  - apply on_slots_waiting. intros id' sl _ _. unfold acknowledge. by destruct (sl_state sl) eqn:Hs; rewrite ?Hs.
  - intros id'. apply on_slots_stored. first [apply deliver_fields|apply acknowledge_fields].
  - intros id' Hne. unfold server_idle, idle_of. rewrite on_slots_other; [done|].
    by intros ->%list_elem_of_singleton.
  - intros n Hst. rewrite on_slots_elem by left. unfold server_status in Hst.
    destruct (sv_slots w !! id) as [sl|]; [|done]. simpl in *. injection Hst as Hst. f_equal.
    unfold slot_status, acknowledge in *. destruct (sl_state sl); try done. simpl. congruence.
Qed.

#[export] Instance server_answers : AnsweringGroups server := {
  up := answering;
  idle_for := server_idle;
  waiting := server_waiting;
  stored := server_stored;
  waiting_status := server_waiting_status;
  read_answers := server_read_answers;
  scan_answers := server_scan_answers;
  claim_answers := server_claim_answers;
  ack_answers := server_ack_answers;
}.

(** A server whose stream has one entry. *)
Lemma one_entry_answers w stream group id sl :
  sv_group w = true -> sv_order w = [id] -> sv_slots w = {[ id := sl ]} -> answering w stream group.
Proof.
  intros Hg Ho Hs. split; [done|]. split; [rewrite Ho; apply NoDup_singleton|]. rewrite Hs, Ho. intros id' [sl' Hsl].
  apply lookup_singleton_Some in Hsl as [-> _]. by left.
Qed.
