(* ===== verification/FleetProperties.v ===== *)
(** * Properties of a fleet

    What holds of every interleaving of several instances, their crashes
    included: each instance is a subscription of its own, an entry is out of the
    group only when some instance acknowledged it, and what the instances received,
    and the attempt numbers they hand on, never exceed what Redis delivered. *)

From S2P Require Import Prelude GoStrings GoErrors Config Runtime Sample.
From S2P Require Import Telemetry Delivery.
From S2P Require Import StreamReader Subscriber SubscriberProperties SubscriberTraces Fleet SampleFleet.
From stdpp Require Import options.

(** ** How statuses change *)

(** One step of an entry in a group that is not lost. *)
Inductive advance : option status -> option status -> Prop :=
| advance_same st : advance st st
| advance_published : advance None (Some Waiting)
| advance_read : advance (Some Waiting) (Some (Pending 1))
| advance_claimed n n' : n <= n' -> advance (Some (Pending n)) (Some (Pending n'))
| advance_acked n : advance (Some (Pending n)) (Some (Acked n)).

Lemma advance_deliveries st st' : advance st st' -> deliveries st <= deliveries st'.
Proof. destruct 1; simpl; lia. Qed.

Lemma advance_some st st' : advance st st' -> is_Some st -> is_Some st'.
Proof. destruct 1; eauto. Qed.

Section fleet_properties.
Context {E : Type} `{HFmt : !GoFmt, HRedis : !RedisClient E, HGroups : !ConsumerGroups E, HUnm : !WmUnmarshaller}.
Variables (stream group : string).
Local Notation "'st' w id" := (status_of w stream group id) (at level 10, w at level 9, id at level 9).

(** ** What a command does to the group *)

(** The entries a command's reply reports were delivered, listed or claimed. *)
Definition reply_true (w w' : E) (ev : sub_event) : Prop :=
  match ev with
  | SRead e => st w (ent_ID e) = Some Waiting /\ st w' (ent_ID e) = Some (Pending 1)
  | SListed ps => forall p, p ∈ ps -> st w (pe_ID p) = Some (Pending (RetryCount p)) /\ 1 <= RetryCount p
  | SClaimed p e =>
      ent_ID e = pe_ID p /\
      exists n n', st w (pe_ID p) = Some (Pending n) /\ st w' (pe_ID p) = Some (Pending n') /\ n + 1 <= n'
  | _ => True
  end.

(** A command changes entries one step at a time, removes none but those the
    action acknowledges, and its reply is true. *)
Record commanded (s : sub_state) (l : label) (w w' : E) : Prop := {
  cd_advance id : advance (st w id) (st w' id);
  cd_acked id : is_acked (st w' id) -> is_acked (st w id) \/ acks s l = Some id;
  cd_replies ev : ev ∈ replies s l -> reply_true w w' ev;
}.

Lemma unchanged_commanded s l w w' :
  (forall id, st w' id = st w id) -> replies s l = [] -> commanded s l w w'.
Proof.
  intros H Hr. split.
  - intros id. rewrite H. constructor.
  - intros id. rewrite H. auto.
  - intros ev. rewrite Hr. by intros ?%elem_of_nil.
Qed.

Lemma EnsureGroup_keeps r ctx w err w' id :
  sr_group r = group -> EnsureGroup r ctx stream w = (err, w') -> st w' id = st w id.
Proof.
  intros Hg H. unfold EnsureGroup in H. rewrite Hg in H.
  destruct (xgroup_create_mkstream _ _ _ _ w) as [e w1] eqn:Hx. eapply create_keeps in Hx as <-.
  destruct e; [case_match|]; congruence.
Qed.

Lemma read_commanded s r ctx block w res w' :
  sr_group r = group -> ReadNew r ctx stream 1 block w = (res, w') -> commanded s (LRRead res) w w'.
Proof.
  intros Hg H. unfold ReadNew in H. rewrite Hg in H.
  destruct (xreadgroup _ _ _ _ _ _ w) as [reply w1] eqn:Hx.
  assert (w1 = w') as -> by (destruct reply; [|case_match]; congruence).
  pose proof (fun id => read_delivers _ _ _ _ _ _ _ _ _ id Hx) as Hd. split.
  - intros id. destruct (Hd id) as [->|[-> ->]]; constructor.
  - intros id [n Hn]. left. destruct (Hd id) as [<-|[_ Hp]]; [by exists n|congruence].
  - intros ev Hev. destruct reply as [streams|err]; [|case_match; simplify_eq/=; by apply elem_of_nil in Hev].
    injection H as <-. simpl in Hev.
    destruct (mjoin _) as [|e es] eqn:Hj; [by apply elem_of_nil in Hev|]. apply list_elem_of_singleton in Hev as ->.
    assert (exists m, e = to_entry m /\ m ∈ reply_messages streams) as (m & -> & Hm).
    { assert (e ∈ e :: es) as He by left. rewrite <-Hj in He.
      apply list_elem_of_join in He as (l & He & Hl). apply list_elem_of_fmap in Hl as (sm & -> & Hsm).
      apply list_elem_of_fmap in He as (m & -> & Hm). exists m. split; [done|].
      apply list_elem_of_join. exists sm.2. split; [done|]. apply list_elem_of_fmap. eauto. }
    by eapply read_returns.
Qed.

Lemma scan_commanded s r ctx idle count w res w' :
  sr_group r = group -> PendingOverIdle r ctx stream idle count w = (res, w') -> commanded s (LCScan res) w w'.
Proof.
  intros Hg H. unfold PendingOverIdle in H. rewrite Hg in H.
  destruct (xpending_ext _ _ _ _ _ w) as [reply w1] eqn:Hx.
  assert (w1 = w') as -> by (destruct reply; [|case_match]; congruence).
  assert (forall id, st w' id = st w id) as Hk by (intros; by eapply pending_keeps). split.
  - intros id. rewrite Hk. constructor.
  - intros id. rewrite Hk. auto.
  - intros ev Hev. destruct res as [ps|err]; [|by apply elem_of_nil in Hev].
    apply list_elem_of_singleton in Hev as ->. intros p Hp.
    destruct reply as [l|err]; [|case_match; simplify_eq; by apply elem_of_nil in Hp].
    injection H as <-. apply list_elem_of_fmap in Hp as (q & -> & Hq). by eapply pending_returns.
Qed.

Lemma claim_commanded s p rest r ctx idle w res w' :
  st_claim s = CClaim p rest -> sr_group r = group ->
  Claim r ctx stream idle [pe_ID p] w = (res, w') -> commanded s (LCClaim res) w w'.
Proof.
  intros Hpc Hg H. simpl in H. rewrite Hg in H.
  destruct (xclaim _ _ _ _ _ _ w) as [reply w1] eqn:Hx.
  assert (w1 = w') as -> by (destruct reply; [|case_match]; congruence).
  pose proof (fun id => claim_redelivers _ _ _ _ _ _ _ _ _ id Hx) as Hd. split.
  - intros id. destruct (Hd id) as [->|(_ & n & n' & -> & -> & ?)]; by constructor.
  - intros id [n Hn]. left. destruct (Hd id) as [<-|(_ & ? & ? & _ & Hp & _)]; [by exists n|congruence].
  - intros ev Hev. destruct res as [[|e es]|err]; simpl in Hev; try (by apply elem_of_nil in Hev).
    rewrite Hpc in Hev. apply list_elem_of_singleton in Hev as ->.
    destruct reply as [l|err]; [|by case_match]. injection H as H.
    assert (e ∈ map to_entry l) as (m & -> & Hm)%list_elem_of_fmap by (rewrite H; left).
    destruct (claim_returns _ _ _ _ _ _ _ _ _ m Hx Hm) as (Hid & n & n' & ? & ? & ?).
    apply list_elem_of_singleton in Hid. simpl. rewrite <-Hid. split; [done|]. exists n, n'. done.
Qed.

Lemma ack_commanded s l r ctx id0 w err w' :
  acks s l = Some id0 -> replies s l = [] -> sr_group r = group ->
  Ack r ctx stream [id0] w = (err, w') -> commanded s l w w'.
Proof.
  intros Ha Hr Hg H. simpl in H. rewrite Hg in H. destruct (xack _ _ _ _ w) as [e w1] eqn:Hx.
  assert (w1 = w') as -> by (destruct e; congruence).
  pose proof (fun id => ack_removes _ _ _ _ _ _ _ id Hx) as Hd. split.
  - intros id. destruct (Hd id) as [->|(_ & n & -> & ->)]; constructor.
  - intros id [n Hn]. destruct (Hd id) as [<-|(Hid & _)]; [left; by exists n|right].
    apply list_elem_of_singleton in Hid as ->. done.
  - intros ev. rewrite Hr. by intros ?%elem_of_nil.
Qed.

(** Every command a goroutine issues. *)
Lemma command_commanded m w g l w' :
  sr_group (in_reader m) = group -> command stream m w g = Some (l, w') -> commanded (in_state m) l w w'.
Proof.
  intros Hg H. destruct g as [| |i]; cbn [command] in H.
  - destruct (st_read (in_state m)) as [| | | |[]|] eqn:Hpc; try done; cbn [read_command emit_command mbind option_bind] in H.
    + destruct (ReadNew _ _ _ _ _ _) eqn:Hc. simplify_eq. by eapply read_commanded.
    + destruct (EnsureGroup _ _ _ _) eqn:Hc. simplify_eq. apply unchanged_commanded; [|done].
      intros id. by eapply EnsureGroup_keeps.
    + destruct (ack_command _ _ _ _) eqn:Hc. simplify_eq/=. eapply ack_commanded; [| |done|exact Hc]; simpl; by rewrite Hpc.
  - destruct (st_claim (in_state m)) as [| | | | |p rest| |[] rest|] eqn:Hpc; try done; cbn [claim_command emit_command mbind option_bind] in H.
    + destruct (PendingOverIdle _ _ _ _ _ _) eqn:Hc. simplify_eq. by eapply scan_commanded.
    + destruct (EnsureGroup _ _ _ _) eqn:Hc. simplify_eq. apply unchanged_commanded; [|done].
      intros id. by eapply EnsureGroup_keeps.
    + destruct (Claim _ _ _ _ _ _) eqn:Hc. simplify_eq. by eapply claim_commanded.
    + destruct (EnsureGroup _ _ _ _) eqn:Hc. simplify_eq. apply unchanged_commanded; [|done].
      intros id. by eapply EnsureGroup_keeps.
    + destruct (ack_command _ _ _ _) eqn:Hc. simplify_eq/=. eapply ack_commanded; [| |done|exact Hc]; simpl; by rewrite Hpc.
  - destruct (st_flights (in_state m) !! i) as [f|] eqn:Hf; [|done]. cbn [mbind option_bind] in H.
    destruct (ack_command _ _ _ _) eqn:Hc. simplify_eq/=. eapply ack_commanded; [|done..|exact Hc].
    simpl. by rewrite Hf.
Qed.
(** ** Steps of the fleet *)

(** An action that issues no command receives nothing and acknowledges nothing. *)
Lemma local_commanded s l w : issues_command l = false -> commanded s l w w.
Proof.
  intros H. split; [constructor| |].
  - auto.
  - intros ev Hev. destruct l as [| | | | | | |[]| | | | | | | |[]| | | |]; simpl in *; try done;
      unfold emit_replies in Hev; repeat case_match; try (by apply elem_of_nil in Hev);
      by apply list_elem_of_singleton in Hev as ->.
Qed.

(** Every step is one of three kinds: an instance acts, an instance joins, or
    the world moves. *)
Inductive moved (lossy : bool) (f f' : fleet E) : Prop :=
| moved_instance i m l s' :
    fl_instances f !! i = Some m -> step l (in_state m) = Some s' ->
    fl_instances f' = <[i := set_state s' m]> (fl_instances f) ->
    (sr_group (in_reader m) = group -> commanded (in_state m) l (fl_env f) (fl_env f')) -> moved lossy f f'
| moved_join new :
    fl_instances f' = fl_instances f ++ new ->
    (forall m, m ∈ new -> sr_group (in_reader m) = group /\ Subscribe (in_sub m) stream None = Ok (in_state m)) ->
    (forall id, st (fl_env f') id = st (fl_env f) id) -> moved lossy f f'
| moved_world :
    fl_instances f' = fl_instances f ->
    world_moves stream group (fl_env f) (fl_env f') \/ (lossy = true /\ group_lost stream group (fl_env f) (fl_env f')) ->
    moved lossy f f'.

Lemma act_moved lossy i l w f f' :
  (forall m, fl_instances f !! i = Some m -> sr_group (in_reader m) = group ->
     commanded (in_state m) l (fl_env f) w) ->
  act i l w f = Some f' -> moved lossy f f'.
Proof.
  intros Hc H. unfold act in H. destruct (fl_instances f !! i) as [m|] eqn:Hm; [|done]. cbn in H.
  destruct (step l (in_state m)) as [s'|] eqn:Hs; [|done]. injection H as <-. eapply moved_instance; eauto.
Qed.

Lemma fleet_step_moved lossy l f f' :
  allowed stream group lossy l f -> fleet_step stream group l f = Some f' -> moved lossy f f'.
Proof.
  intros Ha H. destruct l as [consumer sub ctx|i l|i g|w|w]; cbn [fleet_step] in H.
  - injection H as <-. unfold join. destruct (EnsureGroup _ _ _ _) as [err w'] eqn:He.
    eapply moved_join; simpl; [done| |].
    + intros m Hm. destruct (Subscribe sub stream err) as [s|] eqn:Hs; [|by apply elem_of_nil in Hm].
      apply list_elem_of_singleton in Hm as ->. split; [done|]. simpl. by destruct err.
    + intros id. by eapply EnsureGroup_keeps; [|exact He].
  - destruct (issues_command l) eqn:Hl; [done|]. eapply act_moved; [|done]. intros. by apply local_commanded.
  - destruct (fl_instances f !! i) as [m|] eqn:Hm; [|done]. cbn [mbind option_bind] in H.
    destruct (command stream m (fl_env f) g) as [[l w']|] eqn:Hc; [|done]. cbn [mbind option_bind] in H.
    eapply act_moved; [|done]. intros m' ? ?. simplify_eq. by eapply command_commanded.
  - injection H as <-. apply moved_world; [done|]. by left.
  - injection H as <-. apply moved_world; [done|]. by right.
Qed.

(** An invariant of the fleet holds once every kind of step keeps it. *)
Lemma reachable_invariant lossy w0 (I : fleet E -> Prop) f :
  I (mkFleet w0 []) -> (forall f f', I f -> moved lossy f f' -> I f') ->
  reachable stream group lossy w0 f -> I f.
Proof. intros H0 Hs. induction 1; eauto using fleet_step_moved. Qed.

(** ** Instances are subscriptions *)

Definition subscribed (m : instance E) : Prop :=
  sr_group (in_reader m) = group /\
  exists s0 ls, Subscribe (in_sub m) stream None = Ok s0 /\ run ls s0 = Some (in_state m).

Lemma reachable_subscribed lossy w0 f :
  reachable stream group lossy w0 f -> Forall subscribed (fl_instances f).
Proof.
  apply (reachable_invariant _ _ (fun f => Forall subscribed (fl_instances f))); [by constructor|].
  clear f. intros f f' Hf [i m l s' Hm Hs -> _|new -> Hnew _| -> _].
  - apply Forall_insert; [done|]. destruct (Forall_lookup_1 _ _ _ _ Hf Hm) as (? & s0 & ls & Hsub & Hr).
    split; [done|]. exists s0, (ls ++ [l]). split; [done|]. eapply run_steps_app; [exact Hr|].
    simpl. by rewrite Hs.
  - apply Forall_app. split; [done|]. apply Forall_forall. intros m Hm. destruct (Hnew m Hm) as [? ?].
    split; [done|]. by exists (in_state m), [].
  - done.
Qed.
(** What a step does to the statuses of the entries. *)
Lemma moved_advance f f' id :
  Forall subscribed (fl_instances f) -> moved false f f' -> advance (st (fl_env f) id) (st (fl_env f') id).
Proof.
  intros Hs [i m l s' Hm _ _ Hc|new _ _ Hk|_ Hw].
  - by apply cd_advance with (in_state m) l, Hc, (Forall_lookup_1 _ _ _ _ Hs Hm).
  - rewrite Hk. constructor.
  - destruct Hw as [Hw|[? _]]; [|done]. destruct (Hw id) as [->|[-> ->]]; constructor.
Qed.

Lemma moved_some lossy f f' id :
  Forall subscribed (fl_instances f) -> moved lossy f f' ->
  is_Some (st (fl_env f) id) -> is_Some (st (fl_env f') id).
Proof.
  intros Hs Hmv Hsome. destruct (decide (lossy = true)) as [->|Hl]; [|destruct lossy; [done|]].
  - destruct Hmv as [i m l s' Hm ? ? Hc|new ? ? Hk|Hi [Hw|[_ Hw]]].
    + eapply advance_some; [|exact Hsome]. eapply cd_advance, Hc, (Forall_lookup_1 _ _ _ _ Hs Hm).
    + by rewrite Hk.
    + destruct (Hw id) as [->|[_ ->]]; eauto.
    + rewrite Hw. by apply fmap_is_Some.
  - eapply advance_some; [|exact Hsome]. by apply moved_advance.
Qed.

(** Traces are never forgotten, not even those of instances that crashed. *)
Lemma moved_traces lossy f f' m ev :
  moved lossy f f' -> m ∈ fl_instances f -> ev ∈ st_trace (in_state m) ->
  exists m', m' ∈ fl_instances f' /\ ev ∈ st_trace (in_state m').
Proof.
  intros [i m0 l s' Hm0 Hs -> _|new -> _ _| -> _] Hm Hev.
  - apply list_elem_of_lookup in Hm as [j Hj]. destruct (decide (i = j)) as [->|Hij].
    + exists (set_state s' m0). split.
      * apply list_elem_of_lookup. exists j. apply list_lookup_insert_eq. by eapply lookup_lt_Some.
      * simplify_eq. apply step_trace in Hs as [es Hes]. simpl. rewrite Hes. by apply in_app_l.
    + exists m. split; [|done]. apply list_elem_of_lookup. exists j. by rewrite list_lookup_insert_ne.
  - exists m. split; [|done]. apply elem_of_app. by left.
  - by exists m.
Qed.

(** An entry leaves the group only by an XACK some instance issued. *)
Definition acks_traced (f : fleet E) : Prop :=
  forall id, is_acked (st (fl_env f) id) ->
    exists m err, m ∈ fl_instances f /\ SAck id err ∈ st_trace (in_state m).

Lemma reachable_acks_traced lossy w0 f :
  (forall id, ~ is_acked (st w0 id)) -> reachable stream group lossy w0 f -> acks_traced f.
Proof.
  intros H0 Hr. enough (Forall subscribed (fl_instances f) /\ acks_traced f) by tauto.
  split; [by eapply reachable_subscribed|]. induction Hr as [|l f f' Hr IH Ha Hstep].
  { intros id Hid. by destruct (H0 id). }
  apply (fleet_step_moved _ _ _ _ Ha) in Hstep. apply reachable_subscribed in Hr. intros id Hid.
  assert (is_acked (st (fl_env f) id) ->
    exists m err, m ∈ fl_instances f' /\ SAck id err ∈ st_trace (in_state m)) as Hold.
  { intros (m & err & Hm & Hev)%IH. destruct (moved_traces _ _ _ _ _ Hstep Hm Hev) as (m' & ? & ?). eauto. }
  destruct Hstep as [i m l' s' Hm Hs Hi Hc|new _ _ Hk|_ Hw].
  - destruct (Hc (proj1 (Forall_lookup_1 _ _ _ _ Hr Hm))) as [_ Hack _].
    destruct (Hack id Hid) as [Ho|Ho]; [by apply Hold|].
    destruct (step_acks _ _ _ _ Hs Ho) as [err Herr]. exists (set_state s' m), err. split; [|done].
    rewrite Hi. apply list_elem_of_lookup. exists i. apply list_lookup_insert_eq. by eapply lookup_lt_Some.
  - apply Hold. by rewrite <-Hk.
  - apply Hold. destruct Hw as [Hw|[_ Hw]]; [destruct (Hw id) as [<-|[_ Hx]]; [done|]|rewrite Hw in Hid];
      destruct Hid as [n Hn]; [congruence|]. by destruct (st (fl_env f) id).
Qed.

Lemma reachable_some lossy w0 f id :
  reachable stream group lossy w0 f -> is_Some (st w0 id) -> is_Some (st (fl_env f) id).
Proof.
  intros Hr Hsome. induction Hr as [|l f f' Hr IH Ha Hstep]; [done|].
  eapply moved_some; [by eapply reachable_subscribed|by eapply fleet_step_moved|done].
Qed.
(** ** What the instances received *)

Definition on_trace (f : fleet E) (ev : sub_event) : Prop :=
  exists m, m ∈ fl_instances f /\ ev ∈ st_trace (in_state m).

Definition fleet_count (P : sub_event -> bool) (f : fleet E) : nat :=
  sum_list_with (fun m => count P (st_trace (in_state m))) (fl_instances f).

(** While the group is not lost, what is on the traces never exceeds what Redis
    counted. *)
Record counted (f : fleet E) : Prop := {
  ct_listed ps p : on_trace f (SListed ps) -> p ∈ ps ->
    1 <= RetryCount p <= deliveries (st (fl_env f) (pe_ID p));
  ct_claimed p e : on_trace f (SClaimed p e) ->
    ent_ID e = pe_ID p /\ RetryCount p + 1 <= deliveries (st (fl_env f) (ent_ID e));
  ct_read e : on_trace f (SRead e) -> 1 <= deliveries (st (fl_env f) (ent_ID e));
  ct_takes id : Z.of_nat (fleet_count (takes id) f) <= deliveries (st (fl_env f) id);
  ct_first id : (fleet_count (first_takes id) f <= 1)%nat;
}.

(** Nothing new is on the traces. *)
Lemma counted_same f f' :
  counted f -> (forall id, deliveries (st (fl_env f) id) <= deliveries (st (fl_env f') id)) ->
  (forall ev, on_trace f' ev -> on_trace f ev) -> (forall P, fleet_count P f' = fleet_count P f) -> counted f'.
Proof.
  intros [Hl Hc Hr Ht H1] Hd Ho Hn. split.
  - intros ps p Hon Hp. specialize (Hl _ _ (Ho _ Hon) Hp). specialize (Hd (pe_ID p)). lia.
  - intros p e Hon. specialize (Hd (ent_ID e)). destruct (Hc _ _ (Ho _ Hon)). split; [done|lia].
  - intros e Hon. specialize (Hd (ent_ID e)). specialize (Hr _ (Ho _ Hon)). lia.
  - intros id. rewrite Hn. specialize (Hd id). specialize (Ht id). lia.
  - intros id. by rewrite Hn.
Qed.

(** A delivery on a trace is one Redis counted in the same step. *)
Lemma reply_counted w w' ev id :
  reply_true w w' ev -> deliveries (st w id) <= deliveries (st w' id) ->
  deliveries (st w id) + Z.of_nat (count (takes id) [ev]) <= deliveries (st w' id).
Proof.
  intros Hev Hd. simpl. destruct ev as [e| |p e| | | | | | |]; simpl in *; try lia; case_bool_decide; try lia;
    subst; [destruct Hev as [-> ->]; simpl; lia|].
  destruct Hev as (-> & n & n' & -> & -> & ?). simpl. lia.
Qed.

Lemma fleet_count_act P i m l s' f f' :
  (forall ev, P ev = true -> is_reply ev = true) ->
  fl_instances f !! i = Some m -> step l (in_state m) = Some s' ->
  fl_instances f' = <[i := set_state s' m]> (fl_instances f) ->
  fleet_count P f' = (fleet_count P f + count P (replies (in_state m) l))%nat.
Proof.
  intros HP Hm Hs Hi. unfold fleet_count. rewrite Hi.
  pose proof (sum_list_with_insert (fun m => count P (st_trace (in_state m))) _ _ _ (set_state s' m) Hm) as Hsum.
  simpl in Hsum. rewrite (count_replies _ _ _ _ HP Hs) in Hsum. lia.
Qed.
Lemma on_trace_act i m l s' f f' ev :
  fl_instances f !! i = Some m -> step l (in_state m) = Some s' ->
  fl_instances f' = <[i := set_state s' m]> (fl_instances f) ->
  is_reply ev = true -> on_trace f' ev -> on_trace f ev \/ ev ∈ replies (in_state m) l.
Proof.
  intros Hm Hs Hi Hev (m' & Hm' & Hin). rewrite Hi in Hm'.
  apply list_elem_of_lookup in Hm' as [j Hj]. destruct (decide (i = j)) as [<-|Hij].
  - rewrite list_lookup_insert_eq in Hj by (by eapply lookup_lt_Some). injection Hj as <-.
    destruct (step_reply _ _ _ _ Hs Hev Hin) as [Hin'|]; [left|by right].
    exists m. split; [by eapply list_elem_of_lookup_2|done].
  - rewrite list_lookup_insert_ne in Hj by done. left. exists m'. split; [by eapply list_elem_of_lookup_2|done].
Qed.

(** A claimed entry was listed by the same instance. *)
Lemma claimed_listed m l p e :
  subscribed m -> SClaimed p e ∈ replies (in_state m) l ->
  exists ps, SListed ps ∈ st_trace (in_state m) /\ p ∈ ps.
Proof.
  intros (_ & s0 & ls & Hsub & Hr) Hev. pose proof (kn_claim _ (sd_known _ _ (run_sound _ _ _ _ _ _ Hsub Hr))) as Hk.
  apply replied_claim in Hev as [rest Hpc]. rewrite Hpc in Hk. destruct Hk as (ps & Hps & Hsubs).
  exists ps. split; [done|]. apply Hsubs. by left.
Qed.

Lemma first_takes_le id t : (count (first_takes id) t <= count (takes id) t)%nat.
Proof. induction t as [|[] t IH]; simpl; lia. Qed.

Lemma fleet_first_le id f : (fleet_count (first_takes id) f <= fleet_count (takes id) f)%nat.
Proof.
  unfold fleet_count. induction (fl_instances f) as [|m ms IH]; simpl; [done|].
  pose proof (first_takes_le id (st_trace (in_state m))). lia.
Qed.

Lemma counted_act i m l s' f f' :
  counted f -> Forall subscribed (fl_instances f) ->
  (forall id, deliveries (st (fl_env f) id) <= deliveries (st (fl_env f') id)) ->
  fl_instances f !! i = Some m -> step l (in_state m) = Some s' ->
  fl_instances f' = <[i := set_state s' m]> (fl_instances f) ->
  commanded (in_state m) l (fl_env f) (fl_env f') -> counted f'.
Proof.
  intros [Hl Hc Hr Ht H1] Hsubs Hd Hm Hs Hi [_ _ Hrep].
  pose proof (fun ev => on_trace_act _ _ _ _ _ _ ev Hm Hs Hi) as Hon.
  pose proof (fun P HP => fleet_count_act P _ _ _ _ _ _ HP Hm Hs Hi) as Hn.
  split.
  - intros ps p [Ho|Ho]%Hon Hp; [|by apply Hrep in Ho; destruct (Ho p Hp) as [Hst ?]; specialize (Hd (pe_ID p));
                                   rewrite Hst in Hd; simpl in Hd; lia|done].
    specialize (Hl _ _ Ho Hp). specialize (Hd (pe_ID p)). lia.
  - intros p e [Ho|Ho]%Hon; [|clear Hc|done].
    + destruct (Hc _ _ Ho) as [-> ?]. specialize (Hd (pe_ID p)). split; [done|lia].
    + destruct (claimed_listed _ _ _ _ (Forall_lookup_1 _ _ _ _ Hsubs Hm) Ho) as (ps & Hps & Hp).
      destruct (Hrep _ Ho) as (-> & n & n' & Hn1 & Hn2 & ?). split; [done|].
      assert (on_trace f (SListed ps)) as Hlist by (exists m; split; [by eapply list_elem_of_lookup_2|done]).
      specialize (Hl _ _ Hlist Hp). rewrite Hn1 in Hl. rewrite Hn2. simpl in *. lia.
  - intros e [Ho|Ho]%Hon; [|by apply Hrep in Ho as [_ ->]|done].
    specialize (Hr _ Ho). specialize (Hd (ent_ID e)). lia.
  - intros id. rewrite (Hn _ (takes_reply id)). specialize (Ht id).
    destruct (replies_one (in_state m) l) as [Hev|[ev Hev]]; rewrite Hev in *.
    + simpl. specialize (Hd id). lia.
    + assert (reply_true (fl_env f) (fl_env f') ev) as Htrue by (apply Hrep; left).
      pose proof (reply_counted _ _ _ id Htrue (Hd id)). lia.
  - intros id. rewrite (Hn _ (first_takes_reply id)). specialize (H1 id). specialize (Ht id).
    pose proof (fleet_first_le id f).
    destruct (replies_one (in_state m) l) as [Hev|[ev Hev]]; rewrite Hev in *; simpl; [lia|].
    assert (reply_true (fl_env f) (fl_env f') ev) as Htrue by (apply Hrep; left).
    destruct ev as [e| | | | | | | | |]; simpl; try lia. case_bool_decide; [|lia]. subst.
    destruct Htrue as [Hw _]. rewrite Hw in Ht. simpl in Ht. lia.
Qed.

Lemma reachable_counted w0 f :
  (forall id, 0 <= deliveries (st w0 id)) -> reachable stream group false w0 f -> counted f.
Proof.
  intros H0. induction 1 as [|l f f' Hr IH Ha Hstep].
  { split.
    - intros ps p (m & Hm & _). by apply elem_of_nil in Hm.
    - intros p e (m & Hm & _). by apply elem_of_nil in Hm.
    - intros e (m & Hm & _). by apply elem_of_nil in Hm.
    - intros id. apply H0.
    - intros id. by apply Nat.le_0_l. }
  apply reachable_subscribed in Hr. apply (fleet_step_moved _ _ _ _ Ha) in Hstep.
  pose proof (fun id => advance_deliveries _ _ (moved_advance _ _ id Hr Hstep)) as Hd.
  destruct Hstep as [i m l' s' Hm Hs Hi Hc|new Hi Hnew _|Hi _].
  - eapply counted_act; eauto. apply Hc, (Forall_lookup_1 _ _ _ _ Hr Hm).
  - assert (forall m, m ∈ new -> st_trace (in_state m) = []) as Hnil.
    { intros m [_ Hsub]%Hnew. unfold Subscribe in Hsub. by injection Hsub as <-. }
    apply (counted_same f); [done|done| |].
    + intros ev (m & Hm & Hev). rewrite Hi in Hm. apply elem_of_app in Hm as [Hm|Hm]; [by exists m|].
      rewrite (Hnil m Hm) in Hev. by apply elem_of_nil in Hev.
    + intros P. unfold fleet_count. rewrite Hi, sum_list_with_app. clear Hi Hnew.
      induction new as [|m new IHn]; simpl; [lia|]. rewrite (Hnil m) by left. simpl.
      rewrite <-(IHn ltac:(intros; apply Hnil; by right)) at 2. lia.
  - apply (counted_same f); [done|done| |].
    + intros ev (m & Hm & Hev). exists m. by rewrite <-Hi.
    + intros P. unfold fleet_count. by rewrite Hi.
Qed.
(** Hand-overs never exceed deliveries, instance by instance and in all. *)
Lemma subscribed_handed m id : subscribed m -> handed id (in_state m).
Proof.
  intros (_ & s0 & ls & Hsub & Hr). revert Hr. apply run_steps_invariant; [intros; by eapply step_handed|].
  injection Hsub as <-. unfold handed. simpl. by case_match.
Qed.

Lemma fleet_sends_le f id :
  Forall subscribed (fl_instances f) -> (fleet_count (sends id) f <= fleet_count (takes id) f)%nat.
Proof.
  unfold fleet_count. induction 1 as [|m ms Hm _ IH]; simpl; [done|].
  apply (subscribed_handed _ id) in Hm. unfold handed in Hm. lia.
Qed.

(** ** Claims *)

(** C14: instances of the group compete for entries, they do not share them.
    While the group is not lost, and whatever the interleaving of reads, claims,
    crashes and joins, at most one read over the whole fleet returns a given
    entry as new, and all instances together hand an entry to their routers at
    most as often as Redis counts deliveries of it. *)
Theorem fleet_shares_entries w0 f id :
  (forall id, 0 <= deliveries (st w0 id)) -> reachable stream group false w0 f ->
  (fleet_count (first_takes id) f <= 1)%nat /\
  Z.of_nat (fleet_count (sends id) f) <= deliveries (st (fl_env f) id).
Proof.
  intros H0 Hr. destruct (reachable_counted _ _ H0 Hr) as [_ _ _ Ht H1]. split; [done|].
  pose proof (fleet_sends_le f id (reachable_subscribed _ _ _ Hr)). specialize (Ht id). lia.
Qed.

(** C13: the delivery cap never fires early.  While the group is not lost and
    Redis's count of the entry fits an int64, and however instances race for the
    entry, the attempt number a handed-over message carries, which is what the
    cap on delivery attempts is compared with, is at least one and never exceeds
    the number of times Redis really delivered the entry. *)
Theorem fleet_attempts_bounded w0 f m id msg :
  (forall id, 0 <= deliveries (st w0 id)) -> reachable stream group false w0 f ->
  m ∈ fl_instances f -> SSent id msg ∈ st_trace (in_state m) ->
  deliveries (st (fl_env f) id) <= int64_max ->
  md_get (msg_Metadata msg) MetadataStreamID = id /\
  1 <= deliveryAttempt (msg_Metadata msg) <= deliveries (st (fl_env f) id).
Proof.
  intros H0 Hr Hm Hsent Hmax. destruct (reachable_counted _ _ H0 Hr) as [Hl Hc Hread _ _].
  pose proof (reachable_subscribed _ _ _ Hr) as Hsubs. rewrite Forall_forall in Hsubs.
  destruct (Hsubs m Hm) as (_ & s0 & ls & Hsub & Hrun).
  pose proof (sd_known _ _ (run_sound _ _ _ _ _ _ Hsub Hrun)) as Hk.
  apply list_elem_of_split in Hsent as (pre & post & Ht).
  destruct (kn_trace _ Hk _ _ _ Ht) as (e & <- & Hst).
  assert (forall ev, ev ∈ pre -> on_trace f ev) as Hon by (intros ev Hev; exists m; rewrite Ht; by auto using in_app_l).
  destruct Hst as [Hev Hd|p ps Hev Hlist Hp Hd]; apply decodeEntry_metadata in Hd as [Hid Ha]; (split; [done|]).
  - rewrite (deliveryAttempt_stamp _ 1 Ha) by (unfold_int64; lia). specialize (Hread _ (Hon _ Hev)). lia.
  - destruct (Hc _ _ (Hon _ Hev)) as [He ?]. specialize (Hl _ _ (Hon _ Hlist) Hp).
    assert (in_int64 (RetryCount p + 1)) as Hin by (unfold_int64; lia).
    rewrite wrap64_id in Ha by done. rewrite (deliveryAttempt_stamp _ _ Ha) by (done || lia). lia.
Qed.
End fleet_properties.

(** ** Witnesses *)

(** Steps that do not move the world are always allowed. *)
Definition inner (l : fleet_label server) : bool :=
  match l with FWorld _ | FLoseGroup _ => false | _ => true end.

Lemma reachable_inner lossy w0 ls f :
  reachable sample_stream "svc" lossy w0 f -> forallb inner ls = true ->
  reachable sample_stream "svc" lossy w0 (fleet_after ls f).
Proof.
  intros Hr Hls. unfold fleet_after. destruct (fleet_run _ _ ls f) as [f'|] eqn:Hrun; [|exact Hr].
  simpl. revert f Hr Hrun. unfold fleet_run. induction ls as [|l ls IH]; simpl; intros f Hr Hrun.
  - by injection Hrun as <-.
  - simpl in Hls. apply andb_prop in Hls as [Hl Hls].
    destruct (fleet_step _ _ l f) as [f1|] eqn:Hs; [|done]. apply (IH Hls f1); [|done].
    eapply reachable_step; [exact Hr| |exact Hs]. by destruct l.
Qed.

Lemma reachable_later lossy w0 d f :
  reachable sample_stream "svc" lossy w0 f -> reachable sample_stream "svc" lossy w0 (later d f).
Proof. intros Hr. by eapply (reachable_step _ _ _ _ (FWorld (wait d (fl_env f)))); [exact Hr|apply wait_moves|]. Qed.

Lemma reachable_lose w0 f :
  reachable sample_stream "svc" true w0 f -> reachable sample_stream "svc" true w0 (lose f).
Proof.
  intros Hr. eapply (reachable_step _ _ _ _ (FLoseGroup (destroy_group (fl_env f)))); [exact Hr| |done].
  split; [done|apply destroy_loses].
Qed.

Lemma recovered_reachable lossy : reachable sample_stream "svc" lossy sample_server recovered.
Proof.
  apply reachable_inner; [|reflexivity]. apply reachable_later. apply reachable_inner; [|reflexivity]. constructor.
Qed.

Lemma sample_server_new group id : status_of sample_server sample_stream group id = None \/
  status_of sample_server sample_stream group id = Some Waiting.
Proof.
  simpl. unfold server_status, sample_server. simpl.
  destruct (decide (id = "1-0")) as [->|Hne]; [right; reflexivity|left]. by rewrite lookup_singleton_ne.
Qed.

Lemma sample_server_counts id : 0 <= deliveries (status_of sample_server sample_stream "svc" id).
Proof. by destruct (sample_server_new "svc" id) as [->| ->]. Qed.

(** The recovered entry: read once, handed over twice, delivered twice. *)
Lemma fleet_shares_entries_witness :
  fleet_count (sends "1-0") recovered = 2%nat /\ fleet_count (first_takes "1-0") recovered = 1%nat /\
  (fleet_count (first_takes "1-0") recovered <= 1)%nat /\
  Z.of_nat (fleet_count (sends "1-0") recovered) <=
    deliveries (status_of (fl_env recovered) sample_stream "svc" "1-0").
Proof.
  split; [vm_compute; reflexivity|]. split; [vm_compute; reflexivity|].
  exact (fleet_shares_entries sample_stream "svc" sample_server recovered "1-0" sample_server_counts
    (recovered_reachable false)).
Defined.

Definition second_instance : instance server :=
  default (mkInstance (NewStreamReader "" "") sample_subscriber background sample_start)
    (fl_instances recovered !! 1%nat).

Lemma second_in : second_instance ∈ fl_instances recovered.
Proof. apply list_elem_of_lookup. exists 1%nat. vm_compute. reflexivity. Qed.

(** Its second delivery carries attempt two. *)
Lemma fleet_attempts_bounded_witness :
  md_get (msg_Metadata (sample_message "2")) MetadataStreamID = "1-0" /\
  1 <= deliveryAttempt (msg_Metadata (sample_message "2")) <=
    deliveries (status_of (fl_env recovered) sample_stream "svc" "1-0").
Proof.
  refine (fleet_attempts_bounded sample_stream "svc" sample_server recovered second_instance "1-0" (sample_message "2")
    sample_server_counts (recovered_reachable false) second_in _ _).
  - assert (st_trace (in_state second_instance) !! 2%nat = Some (SSent "1-0" (sample_message "2"))) as H
      by (vm_compute; reflexivity).
    by eapply list_elem_of_lookup_2.
  - vm_compute. discriminate.
Defined.
