(* ===== verification/FleetRecovery.v ===== *)
(** * Recovering the entries of a crashed instance

    An entry handed to an instance that crashed stays in the group's pending
    list.  Any other instance, by its own actions and with a server that answers,
    can sweep the list and get it: the claim loop reaches every entry a sweep
    listed. *)

From S2P Require Import Prelude GoStrings GoErrors Config Runtime Sample.
From S2P Require Import StreamReader Subscriber SubscriberProperties SubscriberTraces Fleet SubscriberTurns SampleFleet SampleAnswers.
From stdpp Require Import options.

(** ** One turn of the claim loop *)

(** The entry was claimed, and handed to the router if it can be decoded. *)
Definition recovered_on `{!WmUnmarshaller} (t : list sub_event) (id : string) : Prop :=
  exists p e, SClaimed p e ∈ t /\ ent_ID e = id /\
    (is_ok (wm_unmarshal (Fields e)) = true -> exists msg, SSent id msg ∈ t).

Lemma recovered_mono `{!WmUnmarshaller} t es id : recovered_on t id -> recovered_on (t ++ es) id.
Proof.
  intros (p & e & Hp & He & Hs). exists p, e. split; [by apply in_app_l|]. split; [done|].
  intros [msg ?]%Hs. exists msg. by apply in_app_l.
Qed.

Section turn.
Context `{HUnm : !WmUnmarshaller}.
Implicit Types (s : sub_state).

(** From a claim's reply to the next entry of the sweep, by local actions. *)
Definition turn_done (rest : list PendingEntry) (s s' : sub_state) : Prop :=
  exists ls, Forall (fun l => issues_command l = false) ls /\ run ls s = Some s' /\
    st_claim s' = claim_next rest /\ live s'.

Lemma turn_done_step l rest s s1 s2 :
  step l s = Some s1 -> issues_command l = false -> turn_done rest s1 s2 -> turn_done rest s s2.
Proof.
  intros Hs Hl (ls & Hls & Hr & ?). exists (l :: ls). split; [by constructor|]. split; [|done].
  unfold run. simpl. by rewrite Hs.
Qed.

Lemma idling_done rest s : idling (AtClaim (claim_next rest)) s -> turn_done rest s s.
Proof. intros [? ?]. by exists []. Qed.

(** A message handed over, nacked, and its goroutine done. *)
Lemma nacked_turn e msg rest s :
  holding (emitting (EmitClaim rest) (ESend e msg)) s ->
  exists s', turn_done rest s s' /\ exists es, st_trace s' = st_trace s ++ es /\ SSent (ent_ID e) msg ∈ st_trace s'.
Proof.
  intros H. destruct (sent_turn (EmitClaim rest) _ _ _ H) as (s1 & k & Hs1 & H1 & Hk1 & Hsent).
  destruct (settled_turn _ _ _ _ false _ H1 Hk1) as (s2 & Hs2 & H2 & _ & Hk2).
  destruct (finished_turn _ _ _ _ _ _ H2 Hk2) as (s3 & Hs3 & H3).
  exists s3. split.
  { apply (turn_done_step _ _ _ _ _ Hs1 eq_refl), (turn_done_step _ _ _ _ _ Hs2 eq_refl),
      (turn_done_step _ _ _ _ _ Hs3 eq_refl). by apply idling_done. }
  apply step_trace in Hs1 as [es1 Ht1]. apply step_trace in Hs2 as [es2 Ht2]. apply step_trace in Hs3 as [es3 Ht3].
  exists (es1 ++ es2 ++ es3). rewrite Ht3, Ht2. split; [by rewrite Ht1, !(assoc_L (++))|]. by do 2 apply in_app_l.
Qed.

(** An entry that cannot be decoded, which the hook fails to record. *)
Lemma undecodable_turn e rest s :
  holding (emitting (EmitClaim rest) (EHook e)) s -> exists s' es, turn_done rest s s' /\ st_trace s' = st_trace s ++ es.
Proof.
  intros H. destruct (st_hook s) eqn:Hh.
  - destruct (hooked_turn (EmitClaim rest) _ (Some ErrNoGroup) _ H Hh) as (s1 & Hs1 & _ & H1). exists s1.
    destruct (step_trace _ _ _ Hs1) as [es Ht]. exists es. split; [|done].
    apply (turn_done_step _ _ _ _ _ Hs1 eq_refl). by apply idling_done.
  - destruct (unhooked_turn (EmitClaim rest) _ _ H Hh) as (s1 & Hs1 & H1). exists s1.
    destruct (step_trace _ _ _ Hs1) as [es Ht]. exists es. split; [|done].
    apply (turn_done_step _ _ _ _ _ Hs1 eq_refl). by apply idling_done.
Qed.

(** Whatever a claim returns, the loop goes on to the next entry, and what it
    returned is recovered. *)
Lemma claim_turn p rest s es :
  st_claim s = CAcquire p rest -> live s ->
  exists s1 s2 s3, step LCAcquire s = Some s1 /\ st_claim s1 = CClaim p rest /\
    step (LCClaim (Ok es)) s1 = Some s2 /\ turn_done rest s2 s3 /\
    (forall e es', es = e :: es' -> recovered_on (st_trace s3) (ent_ID e)).
Proof.
  intros Hpc Hlive. destruct (acquire_claim_turn p rest s (conj Hpc Hlive)) as (s1 & Hs1 & H1). exists s1.
  destruct es as [|e es].
  - destruct (claimed_none_turn _ _ _ H1) as (s2 & Hs2 & H2). exists s2, s2. split; [done|]. split; [exact (hd_at _ _ H1)|].
    split; [done|]. split; [by apply idling_done|done].
  - destruct (claimed_turn _ _ e es _ H1) as (s2 & Hs2 & Hev & H2). exists s2.
    unfold emit_start in H2. destruct (decodeEntry e _) as [msg|err] eqn:Hd.
    + destruct (nacked_turn _ _ _ _ H2) as (s3 & Hturn & ts & Ht & Hsent). exists s3.
      split; [done|]. split; [exact (hd_at _ _ H1)|]. split; [done|]. split; [done|].
      intros ? ? [= <- <-]. exists p, e. split; [rewrite Ht; by apply in_app_l|]. split; [done|]. by exists msg.
    + destruct (undecodable_turn _ _ _ H2) as (s3 & ts & Hturn & Ht). exists s3.
      split; [done|]. split; [exact (hd_at _ _ H1)|]. split; [done|]. split; [done|].
      intros ? ? [= <- <-]. exists p, e. split; [rewrite Ht; by apply in_app_l|]. split; [done|].
      unfold decodeEntry in Hd. by destruct (wm_unmarshal (Fields e)).
Qed.
End turn.

(** ** A sweep over the fleet's server *)

Section recovery.
Context {E : Type} `{HFmt : !GoFmt, HRedis : !RedisClient E, HGroups : !ConsumerGroups E, HUp : !AnsweringGroups E,
  HUnm : !WmUnmarshaller}.
Variables (stream group : string) (i : nat).

(** What instance [i] and its router do, alone. *)
Definition own (l : fleet_label E) : Prop :=
  match l with FLocal j _ | FCommand j _ => j = i | _ => False end.

(** Instance [i] of [f] is [m]. *)
Definition is_at (m : instance E) (f : fleet E) : Prop := fl_instances f !! i = Some m.

(** Instance [i] alone takes [f] to [f']. *)
Definition alone (f f' : fleet E) : Prop := exists ls, Forall own ls /\ fleet_run stream group ls f = Some f'.

Lemma alone_refl f : alone f f.
Proof. by exists []. Qed.

Lemma alone_trans f1 f2 f3 : alone f1 f2 -> alone f2 f3 -> alone f1 f3.
Proof.
  intros (ls1 & H1 & Hr1) (ls2 & H2 & Hr2). exists (ls1 ++ ls2).
  split; [by apply Forall_app|by eapply run_steps_app].
Qed.

Lemma act_at m f l w s' :
  is_at m f -> step l (in_state m) = Some s' ->
  exists f', act i l w f = Some f' /\ fl_env f' = w /\ is_at (set_state s' m) f'.
Proof.
  intros Hm Hs. unfold act. rewrite Hm. cbn [mbind option_bind]. rewrite Hs. eexists. split; [done|]. split; [done|].
  apply list_lookup_insert_eq. by eapply lookup_lt_Some.
Qed.

Lemma local_at m f l s' :
  is_at m f -> issues_command l = false -> step l (in_state m) = Some s' ->
  exists f', alone f f' /\ fl_env f' = fl_env f /\ is_at (set_state s' m) f'.
Proof.
  intros Hm Hl Hs. destruct (act_at m f l (fl_env f) s' Hm Hs) as (f' & Ha & ? & ?). exists f'.
  split; [|done]. exists [FLocal i l]. split; [by repeat constructor|]. unfold fleet_run. simpl. by rewrite Hl, Ha.
Qed.

Lemma locals_at ls m f s' :
  is_at m f -> Forall (fun l => issues_command l = false) ls -> run ls (in_state m) = Some s' ->
  exists f', alone f f' /\ fl_env f' = fl_env f /\ is_at (set_state s' m) f'.
Proof.
  revert m f. induction ls as [|l ls IH]; intros m f Hm Hls Hr.
  - injection Hr as <-. exists f. split; [apply alone_refl|]. split; [done|]. by destruct m.
  - apply Forall_cons in Hls as [Hl Hls]. unfold run in Hr. simpl in Hr.
    destruct (step l (in_state m)) as [s1|] eqn:Hs; [|done]. simpl in Hr.
    destruct (local_at m f l s1 Hm Hl Hs) as (f1 & Ha1 & He1 & Hm1).
    destruct (IH (set_state s1 m) f1 Hm1 Hls Hr) as (f' & Ha & He & Hm'). exists f'.
    split; [by eapply alone_trans|]. split; [congruence|done].
Qed.

Lemma command_at m f g l w s' :
  is_at m f -> command stream m (fl_env f) g = Some (l, w) -> step l (in_state m) = Some s' ->
  exists f', alone f f' /\ fl_env f' = w /\ is_at (set_state s' m) f'.
Proof.
  intros Hm Hc Hs. destruct (act_at m f l w s' Hm Hs) as (f' & Ha & ? & ?). exists f'.
  split; [|done]. exists [FCommand i g]. split; [by repeat constructor|].
  unfold fleet_run. cbn [run_steps fleet_step]. rewrite Hm. cbn [mbind option_bind]. rewrite Hc.
  cbn [mbind option_bind]. by rewrite Ha.
Qed.

(** The entries a sweep has left to visit are all recovered. *)
Lemma sweep_recovers ps : forall m f,
  is_at m f -> sr_group (in_reader m) = group -> st_claim (in_state m) = claim_next ps -> live (in_state m) ->
  up (fl_env f) stream group ->
  exists f' m', alone f f' /\ is_at m' f' /\ (exists es, st_trace (in_state m') = st_trace (in_state m) ++ es) /\
    forall p n, p ∈ ps -> status_of (fl_env f) stream group (pe_ID p) = Some (Pending n) ->
      sb_claimMinIdle (in_sub m) <= idle_for (fl_env f) stream group (pe_ID p) ->
      recovered_on (st_trace (in_state m')) (pe_ID p).
Proof.
  induction ps as [|p ps IH]; intros m f Hm Hg Hpc Hlive Hup.
  { exists f, m. split; [apply alone_refl|]. split; [done|]. split; [exists []; by rewrite app_nil_r|].
    intros p n Hp. by apply elem_of_nil in Hp. }
  destruct (claim_answers (in_ctx m) stream group (sr_consumer (in_reader m)) (sb_claimMinIdle (in_sub m)) (pe_ID p)
    (fl_env f) Hup) as (l & w & Hx & Hup' & _ & _ & Hidle & Hl).
  destruct (claim_turn p ps (in_state m) (map to_entry l) Hpc Hlive)
    as (s1 & s2 & s3 & Hs1 & Hpc1 & Hs2 & (ls & Hls & Hr & Hpc3 & Hlive3) & Hrec).
  destruct (local_at m f LCAcquire s1 Hm eq_refl Hs1) as (f1 & Ha1 & He1 & Hm1).
  destruct (command_at (set_state s1 m) f1 GClaim (LCClaim (Ok (map to_entry l))) w s2 Hm1) as (f2 & Ha2 & He2 & Hm2);
    [|exact Hs2|].
  { cbn. rewrite Hpc1. cbn. by rewrite He1, Hg, Hx. }
  destruct (locals_at ls (set_state s2 (set_state s1 m)) f2 s3 Hm2 Hls Hr) as (f3 & Ha3 & He3 & Hm3).
  destruct (IH _ f3 Hm3 Hg Hpc3 Hlive3) as (f' & m' & Ha & Hm' & [es Hes] & Hall); [by rewrite He3, He2|].
  apply step_trace in Hs1 as [es1 Ht1]. apply step_trace in Hs2 as [es2 Ht2]. apply run_trace in Hr as [es3 Ht3].
  exists f', m'. split; [eauto using alone_trans|]. split; [done|]. split.
  { exists (es1 ++ es2 ++ es3 ++ es). rewrite Hes. simpl. rewrite Ht3, Ht2, Ht1. by rewrite !(assoc_L (++)). }
  intros q n Hq Hst Hmin. destruct (decide (pe_ID q = pe_ID p)) as [Heq|Hne].
  - rewrite Heq in *. destruct (Hl n Hst Hmin) as (fs & -> & _). rewrite Hes. apply recovered_mono.
    by apply (Hrec (mkEntry (pe_ID p) fs) []).
  - apply elem_of_cons in Hq as [->|Hq]; [done|]. apply (Hall q n Hq).
    + rewrite He3, He2. destruct (claim_redelivers _ _ _ _ _ _ _ _ _ (pe_ID q) Hx) as [->|[Hin _]]; [done|].
      by apply list_elem_of_singleton in Hin.
    + rewrite He3, He2, Hidle by done. exact Hmin.
Qed.

(** A crashed instance's entries are recovered.  Take any entry that is
    pending and has been idle for ClaimMinIdle, whoever holds it.  Any instance
    that is not shutting down and has a free slot can, by its own actions alone,
    sweep the pending list, claim the entry and, if it can be decoded, hand it to
    its router, provided Redis answers and the sweep is not cut off at
    claimBatchSize. *)
Lemma fleet_recovers m f id n :
  is_at m f -> sr_group (in_reader m) = group -> st_claim (in_state m) = CTick -> live (in_state m) ->
  up (fl_env f) stream group ->
  status_of (fl_env f) stream group id = Some (Pending n) ->
  sb_claimMinIdle (in_sub m) <= idle_for (fl_env f) stream group id ->
  (forall l w', xpending_ext (in_ctx m) stream group (sb_claimMinIdle (in_sub m)) claimBatchSize (fl_env f) = (Ok l, w') ->
     Z.of_nat (length l) < claimBatchSize) ->
  exists f' m', alone f f' /\ is_at m' f' /\ recovered_on (st_trace (in_state m')) id.
Proof.
  intros Hm Hg Hpc Hlive Hup Hst Hmin Hfull.
  destruct (scan_answers (in_ctx m) stream group (sb_claimMinIdle (in_sub m)) claimBatchSize (fl_env f) Hup)
    as (l & w & Hx & Hup' & _ & _ & Hidle & Hall).
  destruct (Hall (Hfull _ _ Hx) id n Hst Hmin) as (q & Hq & <-).
  set (s1 := with_claim CScan (in_state m)). set (ps := map (fun p => mkPendingEntry p.1.1 p.1.2 p.2) l).
  assert (step LCTick (in_state m) = Some s1) as Hs1 by (simpl; unfold claim_step; by rewrite Hpc).
  destruct (local_at m f LCTick s1 Hm eq_refl Hs1) as (f1 & Ha1 & He1 & Hm1).
  destruct (command_at (set_state s1 m) f1 GClaim (LCScan (Ok ps)) w
    (with_claim (claim_next ps) (tell [SListed ps] s1)) Hm1) as (f2 & Ha2 & He2 & Hm2); [|done|].
  { cbn. unfold PendingOverIdle. by rewrite He1, Hg, Hx. }
  destruct (sweep_recovers ps _ f2 Hm2 Hg eq_refl Hlive) as (f' & m' & Ha & Hm' & _ & Hrec); [by rewrite He2|].
  exists f', m'. split; [eauto using alone_trans|]. split; [done|].
  apply (Hrec (mkPendingEntry q.1.1 q.1.2 q.2) n).
  - apply list_elem_of_fmap. by exists q.
  - rewrite He2. simpl. by rewrite (pending_keeps _ _ _ _ _ _ _ _ _ Hx).
  - rewrite He2. simpl. by rewrite Hidle.
Qed.
End recovery.

(** ** A witness *)

(** A minute after the crash, a second instance has joined. *)
Definition survivor_joined : fleet server :=
  fleet_after [FJoin "b" sample_subscriber background] (later (60 * Second) crashed).

Definition survivor : instance server :=
  default (mkInstance (NewStreamReader "" "") sample_subscriber background sample_start)
    (fl_instances survivor_joined !! 1%nat).

(** It can get the entry the first one died with. *)
Lemma fleet_recovers_witness :
  status_of (fl_env survivor_joined) sample_stream "svc" "1-0" = Some (Pending 1) /\
  exists f' m', alone sample_stream "svc" 1 survivor_joined f' /\ is_at 1 m' f' /\
    recovered_on (st_trace (in_state m')) "1-0".
Proof.
  assert (status_of (fl_env survivor_joined) sample_stream "svc" "1-0" = Some (Pending 1)) as Hst
    by (vm_compute; reflexivity).
  split; [exact Hst|].
  refine (fleet_recovers sample_stream "svc" 1 survivor survivor_joined "1-0" 1 _ _ _ _ _ Hst _ _).
  - vm_compute. reflexivity.
  - vm_compute. reflexivity.
  - vm_compute. reflexivity.
  - split; [vm_compute; reflexivity|]. vm_compute. apply le_n.
  - eapply one_entry_answers; vm_compute; reflexivity.
  - vm_compute. discriminate.
  - intros l w' Hx. vm_compute in Hx. injection Hx as <- _. vm_compute. reflexivity.
Defined.
