(* ===== verification/Service.v ===== *)
(** * Instances that run what [Run] serves

    The fleet, closed over the program.  Each instance is a consumer that
    [NewConsumer] built and whose [Run] serves: it joins under its configured
    group and consumer name, its router answers a message in flight by running
    the route's handler, and the hook its loops call is [handleUndecodable].  A
    delivery runs on the environment all instances share, in one step, or on what
    it sees of it while others act.  Of Watermill's router only its contract is
    used: it receives what it is sent, and a message is acked when the handler it
    was given returned nil, and nacked when it returned an error or panicked,
    even if its goroutine has left by then. *)

From S2P Require Import Prelude GoStrings GoErrors Validation Registry Config Runtime.
From S2P Require Import Telemetry Delivery StreamReader Subscriber Router Lifecycle Fleet.
From stdpp Require Import options.

(** ** One subscription of a serving [Run] *)

Record service (E : Type) := mkService {
  svc_consumer : Consumer E;          (* the consumer, which no step changes while [Run] serves *)
  svc_sub : Subscriber;
  svc_route : route E;                (* the handler [AddHandler] installed for the stream *)
  svc_topics : gmap string string;    (* [topicByStream], which the hook closes over *)
}.
Arguments mkService {E}.
Arguments svc_consumer {E}.
Arguments svc_sub {E}.
Arguments svc_route {E}.
Arguments svc_topics {E}.

(** A route of the router of a [Run] that serves, after any interleaving of
    registrations, calls of [Run] and calls of [Close]. *)
Inductive served {E : Type} `{!Env E, !GoFmt, !GoTime, !JsonCodec, !MeterApi} : service E -> Prop :=
| served_by_run proc hook cfg c logs ls s i r sub router tps rt :
    NewConsumer proc cfg = (Ok c, logs) ->
    run_steps (life_step proc hook) ls (started c) = Some s ->
    lf_runs s !! i = Some (RunServing r sub router tps) ->
    rt ∈ rtr_routes router ->
    served (mkService (lf_c s) sub rt tps).

(** ** The fleet of services *)

Inductive service_label (E : Type) :=
| SJoin (ctx : context E)                            (* the next instance subscribes *)
| SHandle (i k : nat) (seen : option E)              (* instance i's router handles its message k in flight *)
| SLate (i k : nat) (seen : option E)                (* or its k-th message whose goroutine left on closing *)
| SHook (i : nat) (g : goroutine) (seen : option E)  (* a loop of instance i calls the hook *)
| SFleet (l : fleet_label E).                        (* anything else *)
Arguments SJoin {E}.
Arguments SHandle {E}.
Arguments SLate {E}.
Arguments SHook {E}.
Arguments SFleet {E}.

(** The steps an instance's own service takes. *)
Definition answers (l : label) : bool :=
  match l with
  | LHandle _ _ | LLate _ _ | LREmit (EmHook _) | LCEmit (EmHook _) => true
  | _ => false
  end.

Definition ours {E} (l : fleet_label E) : bool :=
  match l with
  | FJoin _ _ _ => true
  | FLocal _ l => answers l
  | _ => false
  end.

(** The entry a loop is about to give to the hook, and the action that records
    what the hook returned. *)
Definition hooking (g : goroutine) (s : sub_state) : option (Entry * (option error -> label)) :=
  match g with
  | GRead => match st_read s with REmit (EHook e) => Some (e, fun r => LREmit (EmHook r)) | _ => None end
  | GClaim => match st_claim s with CEmit (EHook e) _ => Some (e, fun r => LCEmit (EmHook r)) | _ => None end
  | GFlight _ => None
  end.

(** Watermill acks a message when its handler returned nil. *)
Definition acked_by_router (o : outcome (option error)) : bool :=
  match o with Ret None => true | _ => false end.

Section services.
Context {E : Type} `{HEnv : !Env E, HFmt : !GoFmt, HTime : !GoTime, HJson : !JsonCodec}.
Context `{HRedis : !RedisClient E, HUnm : !WmUnmarshaller}.
Variables (stream group : string).

(** The service each instance runs, in the order they join. *)
Variable services : nat -> service E.

(** A delivery starts with a recorder of its own, which [dispatch] installs. *)
Definition delivery_state (w : E) : St E :=
  mkSt w (newDeliveryRecorder (instruments_of None) 0 "" "" None false 0) None.

(** [Run] reads and subscribes under the configured names. *)
Definition serve_join (ctx : context E) (f : fleet E) : fleet E :=
  let sv := services (length (fl_instances f)) in
  let cc := Consumer_ (c_cfg (svc_consumer sv)) in
  join (rt_stream (svc_route sv)) (Group cc) (ConsumerName cc) (svc_sub sv) ctx f.

(** The environment a run starts on, and the one the fleet has after it ended in
    [w'].  A run that is not interrupted starts on the fleet's and changes it;
    one that other steps come in between sees [w], and what it adds to the stream
    are moves of the world. *)
Definition seen_from (seen : option E) (f : fleet E) : E := default (fl_env f) seen.
Definition left_by (seen : option E) (w' : E) (f : fleet E) : E :=
  match seen with None => w' | Some _ => fl_env f end.

(** The router gives a message to the route's handler, under the message's
    context, which is detached from the subscription's, and settles it. *)
Definition handle_message (i : nat) (m : instance E) (fl : flight) (settle : bool -> label) (seen : option E)
    (f : fleet E) : option (fleet E) :=
  let '(o, s, _) :=
    rt_handle (svc_route (services i)) (ctx_without_cancel (in_ctx m)) (fl_msg fl)
      (delivery_state (seen_from seen f)) in
  act i (settle (acked_by_router o)) (left_by seen (st_env s) f) f.

(** Message [k] of those whose goroutine waits, and of those it has left. *)
Definition serve_handle (i k : nat) (seen : option E) (f : fleet E) : option (fleet E) :=
  m ← fl_instances f !! i;
  fl ← st_flights (in_state m) !! k;
  handle_message i m fl (LHandle k) seen f.

Definition serve_late (i k : nat) (seen : option E) (f : fleet E) : option (fleet E) :=
  m ← fl_instances f !! i;
  fl ← st_left (in_state m) !! k;
  handle_message i m fl (LLate k) seen f.

(** The hook, on an entry that cannot be decoded.  A panic in it would end the
    process. *)
Definition serve_hook (i : nat) (g : goroutine) (seen : option E) (f : fleet E) : option (fleet E) :=
  m ← fl_instances f !! i;
  '(e, l) ← hooking g (in_state m);
  let sv := services i in
  match handleUndecodable (svc_consumer sv) (in_ctx m) (svc_topics sv) (rt_stream (svc_route sv))
          (ent_ID e) (Fields e) (delivery_state (seen_from seen f)) with
  | (Ret r, s, _) => act i (l r) (left_by seen (st_env s) f) f
  | _ => None
  end.

Definition service_step (l : service_label E) (f : fleet E) : option (fleet E) :=
  match l with
  | SJoin ctx => Some (serve_join ctx f)
  | SHandle i k seen => serve_handle i k seen f
  | SLate i k seen => serve_late i k seen f
  | SHook i g seen => serve_hook i g seen f
  | SFleet l => if ours l then None else fleet_step stream group l f
  end.

Definition service_run (ls : list (service_label E)) (f : fleet E) : option (fleet E) :=
  run_steps service_step ls f.

Context `{HGroups : !ConsumerGroups E}.

(** Outside messagingtest, no context carries a probe. *)
Definition service_allowed (lossy : bool) (l : service_label E) (f : fleet E) : Prop :=
  match l with
  | SJoin ctx => ctx_probe ctx = None
  | SHandle _ _ _ | SLate _ _ _ | SHook _ _ _ => True
  | SFleet l => allowed stream group lossy l f
  end.

Inductive service_reachable (lossy : bool) (w0 : E) : fleet E -> Prop :=
| service_reachable_empty : service_reachable lossy w0 (mkFleet w0 [])
| service_reachable_step l f f' :
    service_reachable lossy w0 f -> service_allowed lossy l f -> service_step l f = Some f' ->
    service_reachable lossy w0 f'.
End services.
