(* ===== verification/SampleService.v ===== *)
(** * A service over the sample server

    A consumer [NewConsumer] built, with one raw handler, whose [Run] serves;
    and two instances of it, the first of which crashes. *)

From S2P Require Import Prelude GoStrings GoErrors Validation Registry Config Runtime Sample.
From S2P Require Import Telemetry Delivery SampleDelivery StreamReader Subscriber Router.
From S2P Require Import Lifecycle LifecycleProperties Fleet SampleFleet Service.
From stdpp Require Import options.

Definition service_labels : list (life_label server) :=
  [LvRegisterRaw "orders" content; LvRun; LvConnect 0 None; LvStore 0; LvBuild 0 None].

Definition service_start : Consumer server :=
  mkConsumer minimal_validated newRegistry false None None
    (instruments_of (MeterProvider (Telemetry minimal_validated))).

Definition service_sub : Subscriber := mkSubscriber 0%nat 1 (30 * Second) (60 * Second) Second 4%nat (Some 7%nat).

Lemma service_built : NewConsumer sample_process minimal_config = (Ok service_start, []).
Proof. vm_compute. reflexivity. Qed.

(** What a serving [Run] holds, but for its router, which is a function of the
    consumer. *)
Definition run_data (pc : option (run_pc server)) : option (ref * Subscriber * gmap string string) :=
  match pc with Some (RunServing r sub _ tps) => Some (r, sub, tps) | _ => None end.

Section lives.
Context `{HEnv : !Env server, HFmt : !GoFmt, HTime : !GoTime, HJson : !JsonCodec}.
Variable ls : list (life_label server).
Notation after := (run_steps (life_step sample_process 7%nat) ls (started service_start)).

Definition life_after : life server := default (started service_start) after.

(** The route of the topic "orders". *)
Definition service_after_life : service server :=
  mkService (lf_c life_after) service_sub (topic_route (lf_c life_after) "orders") {[ sample_stream := "orders" ]}.

Lemma served_after_life :
  bool_decide (is_Some after) = true ->
  run_data (lf_runs life_after !! 0%nat) = Some (0%nat, service_sub, {[ sample_stream := "orders" ]}) ->
  bool_decide ("orders" ∈ topics (c_registry (lf_c life_after))) = true ->
  served service_after_life.
Proof.
  intros [s Hs]%bool_decide_eq_true H Htopic%bool_decide_eq_true.
  assert (after = Some life_after) as Hreached by (unfold life_after; by rewrite Hs).
  destruct (lf_runs life_after !! 0%nat) as [[]|] eqn:Hi; try discriminate H. injection H as -> -> ->.
  destruct (run_life_ok sample_process 7%nat _ _ _ _ _ service_built Hreached) as (Hok & _).
  destruct (serving _ _ _ _ _ _ _ _ Hok Hi) as (_ & _ & _ & _ & -> & _).
  eapply served_by_run; [exact service_built|exact Hreached|exact Hi|].
  apply serving_routes_elem. by exists "orders".
Qed.
End lives.

Definition service_life : life server := life_after service_labels.
Definition sample_service : service server := service_after_life service_labels.

Lemma sample_served : served sample_service.
Proof. apply served_after_life; vm_compute; reflexivity. Qed.

(** ** Two instances *)

(** The group of [minimal_config]. *)
Definition sample_group : string := "billing-service".

Definition services_after (ls : list (service_label server)) (f : fleet server) : fleet server :=
  default f (service_run sample_stream sample_group (fun _ => sample_service) ls f).

(** The first instance reads the entry, hands it over and crashes. *)
Definition service_crash : list (service_label server) :=
  [SJoin background; SFleet (FLocal 0 LRAcquire); SFleet (FCommand 0 GRead); SFleet (FLocal 0 (LREmit EmSend))].

(** The second one finds it pending, reclaims it, and handles it. *)
Definition service_recovery : list (service_label server) :=
  [SJoin background; SFleet (FLocal 1 LCTick); SFleet (FCommand 1 GClaim); SFleet (FLocal 1 LCAcquire);
   SFleet (FCommand 1 GClaim); SFleet (FLocal 1 (LCEmit EmSend)); SHandle 1 0 None; SFleet (FCommand 1 (GFlight 0))].

Definition service_crashed : fleet server := services_after service_crash (mkFleet sample_server []).
Definition service_recovered : fleet server := services_after service_recovery (later (60 * Second) service_crashed).

Example a_service_recovers :
  (server_status (fl_env service_crashed) sample_stream sample_group "1-0",
   server_status (fl_env service_recovered) sample_stream sample_group "1-0",
   map (fun m => st_trace (in_state m)) (fl_instances service_recovered)) =
  (Some (Pending 1), Some (Acked 2),
   [[SRead sample_entry; SSent "1-0" (sample_message "1")];
    [SListed [mkPendingEntry "1-0" 1 (60 * Second)]; SClaimed (mkPendingEntry "1-0" 1 (60 * Second)) sample_entry;
     SSent "1-0" (sample_message "2"); SSettled "1-0" (sample_message "2") true; SAck "1-0" None]]).
Proof. vm_compute. reflexivity. Qed.

(** An entry whose five deliveries all failed, the last of them two minutes ago:
    the only instance left has just joined. *)
Definition worn_server : server :=
  mkServer (120 * Second) true ["1-0"] {[ "1-0" := mkSlot {[ "payload" := "order" ]} (SPending 5) 0 ]}.

Definition worn_out_joined : fleet server := services_after [SJoin background] (mkFleet worn_server []).

(** By its own steps it dead-letters and acknowledges the entry. *)
Definition given_up_labels : list (service_label server) :=
  [SFleet (FLocal 0 LCTick); SFleet (FCommand 0 GClaim); SFleet (FLocal 0 LCAcquire); SFleet (FCommand 0 GClaim);
   SFleet (FLocal 0 (LCEmit EmSend)); SHandle 0 0 None; SFleet (FCommand 0 (GFlight 0))].

Example a_worn_out_entry_leaves :
  server_status (fl_env (services_after given_up_labels worn_out_joined)) sample_stream sample_group "1-0" =
    Some (Acked 6).
Proof. vm_compute. reflexivity. Qed.

(** One instance has joined, and the order waits. *)
Definition order_waits : fleet server := services_after [SJoin background] (mkFleet sample_server []).

(** The first instance has crashed with the order, a minute ago, and a second one
    has joined. *)
Definition order_left : fleet server := services_after [SJoin background] (later (60 * Second) service_crashed).

Definition instance_at (i : nat) (f : fleet server) : instance server :=
  default (mkInstance (NewStreamReader "" "") service_sub background sample_start) (fl_instances f !! i).
