(* ===== verification/ServiceProperties.v ===== *)
(** * Properties of the fleet of services

    The composition of the parts: a delivery on one instance moves the
    environment all instances share only as the world around a fleet may, so the
    services refine the fleet, and the router's and the hook's answers on an
    instance's trace are those of [dispatch] and [handleUndecodable].  Nothing is
    lost on the way from Redis to a handler and back, crashes included. *)

From S2P Require Import Prelude GoStrings GoErrors Validation Registry Config Runtime Sample.
From S2P Require Import Telemetry Delivery SampleDelivery DeliverySpec DeliveryProperties DeliveryFrame.
From S2P Require Import StreamReader Subscriber SubscriberProperties SubscriberTraces Router.
From S2P Require Import Lifecycle LifecycleProperties EndToEnd Fleet SampleFleet FleetProperties Service SampleService.
From stdpp Require Import options.

(** ** What [Run] promises of a service *)

Section served.
Context {E : Type} `{HEnv : !Env E, HFmt : !GoFmt, HTime : !GoTime, HJson : !JsonCodec, HMeter : !MeterApi}.

Record serving_topic (sv : service E) (mp : option ref) (topic : string) : Prop := {
  sg_route : svc_route sv = topic_route (svc_consumer sv) topic;
  sg_instruments : c_inst (svc_consumer sv) = instruments_of mp;
  sg_sink : c_dlq (svc_consumer sv) = Some redisDeadLetterSink;
  sg_topics : svc_topics sv !! rt_stream (svc_route sv) = Some topic;
  sg_hook : is_Some (sb_onUndecodable (svc_sub sv));
}.

Lemma served_serving sv : served sv -> exists mp topic, serving_topic sv mp topic.
Proof.
  intros [proc hook cfg c logs ls s i r sub router tps rt Hc Hls Hi Hrt].
  destruct (run_life_ok _ _ _ _ _ _ _ Hc Hls) as (Hok & _ & Hfix).
  destruct (serving _ _ _ _ _ _ _ _ Hok Hi) as (_ & Hcl & _ & _ & -> & -> & Hsub).
  apply serving_routes_elem in Hrt as (topic & Htopic & ->).
  destruct (built_instruments _ _ _ _ Hc) as [mp Hmp]. injection Hfix as _ Hinst.
  exists mp, topic. split; simpl.
  - done.
  - by rewrite Hinst.
  - by apply (hc_reader _ _ _ Hcl).
  - apply topicByStream_lookup. split; [|done]. by apply elem_of_elements.
  - unfold NewSubscriber in Hsub. simpl in Hsub. injection Hsub as <-. by eexists.
Qed.
End served.

(** ** What a delivery does to the shared environment *)

Section moves.
Context {E : Type} `{HEnv : !Env E, HFmt : !GoFmt, HTime : !GoTime, HJson : !JsonCodec, HMeter : !MeterApi}.
Variable Q : E -> E -> Prop.
Context `{HQ : !PreOrder Q, HQuiet : !QuietEnv Q}.
#[local] Set Default Proof Using "Type*".

Lemma served_sink sv : served sv -> forall f, c_dlq (svc_consumer sv) <> Some (probeSink f).
Proof using Type. intros (mp & topic & Hsg)%served_serving f. by rewrite (sg_sink _ _ _ Hsg). Qed.

Lemma handle_moves sv ctx msg w o s t :
  served sv -> quiet_handlers Q (svc_consumer sv) -> ctx_probe ctx = None ->
  rt_handle (svc_route sv) ctx msg (delivery_state w) = (o, s, t) -> Q w (st_env s).
Proof.
  intros Hsv Hq Hctx H. destruct (served_serving _ Hsv) as (mp & topic & Hsg). rewrite (sg_route _ _ _ Hsg) in H.
  pose proof (moves_dispatch _ (svc_consumer sv) (served_sink _ Hsv) Hq ctx topic (msg_Payload msg) (msg_Metadata msg)
    Hctx (delivery_state w)) as Hm. simpl in H. rewrite H in Hm. exact Hm.
Qed.

Lemma hook_moves sv ctx stream id fs w o s t :
  served sv -> quiet_handlers Q (svc_consumer sv) -> ctx_probe ctx = None ->
  handleUndecodable (svc_consumer sv) ctx (svc_topics sv) stream id fs (delivery_state w) = (o, s, t) ->
  Q w (st_env s).
Proof.
  intros Hsv Hq Hctx H. pose proof (moves_handleUndecodable _ (svc_consumer sv) (served_sink _ Hsv) Hq ctx
    (svc_topics sv) stream id fs Hctx (delivery_state w)) as Hm. rewrite H in Hm. exact Hm.
Qed.
End moves.

(** ** The services refine the fleet *)

Section services.
Context {E : Type} `{HEnv : !Env E, HFmt : !GoFmt, HTime : !GoTime, HJson : !JsonCodec, HMeter : !MeterApi}.
Context `{HRedis : !RedisClient E, HGroups : !ConsumerGroups E, HUnm : !WmUnmarshaller}.
Variables (stream group : string) (services : nat -> service E).

#[export] Instance world_moves_preorder : PreOrder (world_moves stream group (E := E)).
Proof.
  split; [by left|]. intros w1 w2 w3 H12 H23 id.
  destruct (H12 id) as [H1|[H1 H1']], (H23 id) as [H2|[H2 H2']]; [left|right|right|]; intuition congruence.
Qed.

(** Every instance runs what a [Run] serves on the stream, under the group, with
    handlers that move the environment by [Q]. *)
Record deployed (Q : E -> E -> Prop) : Prop := {
  dp_served i : served (services i);
  dp_stream i : rt_stream (svc_route (services i)) = stream;
  dp_group i : Group (Consumer_ (c_cfg (svc_consumer (services i)))) = group;
  dp_quiet i : quiet_handlers Q (svc_consumer (services i));
}.

Lemma deployed_mono Q Q' : (forall w w', Q w w' -> Q' w w') -> deployed Q -> deployed Q'.
Proof. intros HQ []. split; eauto using quiet_handlers_mono. Qed.

(** An answer on the trace of an instance of [sv] is one its service gave. *)
Definition answer_true (sv : service E) (ctx : context E) (ev : sub_event) : Prop :=
  match ev with
  | SSettled _ msg true => exists w w' es,
      rt_handle (svc_route sv) (ctx_without_cancel ctx) msg (delivery_state w) = (Ret None, w', es)
  | SHooked id f None => exists w w' es,
      handleUndecodable (svc_consumer sv) ctx (svc_topics sv) stream id f (delivery_state w) = (Ret None, w', es)
  | _ => True
  end.

Record answered (sv : service E) (m : instance E) : Prop := {
  an_sub : in_sub m = svc_sub sv;
  an_ctx : ctx_probe (in_ctx m) = None;
  an_true ev : ev ∈ st_trace (in_state m) -> answer_true sv (in_ctx m) ev;
}.

Definition all_answered (f : fleet E) : Prop :=
  forall i m, fl_instances f !! i = Some m -> answered (services i) m.

(** A step of the fleet that a service may take. *)
Definition honest (l : fleet_label E) (f : fleet E) : Prop :=
  match l with
  | FJoin _ sub ctx => sub = svc_sub (services (length (fl_instances f))) /\ ctx_probe ctx = None
  | FLocal i l => forall m ev, fl_instances f !! i = Some m -> ev ∈ replies (in_state m) l ->
      answer_true (services i) (in_ctx m) ev
  | _ => True
  end.

(** Replies of Redis are no answers. *)
Lemma unanswered_true sv ctx s l ev : answers l = false -> ev ∈ replies s l -> answer_true sv ctx ev.
Proof.
  intros Hl Hev. unfold replies, emit_replies in Hev.
  destruct l; simpl in Hl; repeat case_match; simplify_eq; try (by apply elem_of_nil in Hev);
    by apply list_elem_of_singleton in Hev as ->.
Qed.

Lemma command_unanswered m w g l w' : command stream m w g = Some (l, w') -> answers l = false.
Proof.
  intros H. destruct g as [| |i]; cbn [command] in H.
  - unfold read_command, emit_command in H. repeat (case_match; try done); simplify_option_eq; try case_match; simplify_eq/=; done.
  - unfold claim_command, emit_command in H. repeat (case_match; try done); simplify_option_eq; try case_match; simplify_eq/=; done.
  - simplify_option_eq. case_match. by simplify_eq.
Qed.

Lemma command_at_step l f i g m w' (k : fleet E) :
  fl_instances f !! i = Some m -> command stream m (fl_env f) g = Some (l, w') ->
  fleet_step stream group (FCommand i g) f = Some k -> act i l w' f = Some k.
Proof. intros Hm Hc H. cbn [fleet_step] in H. rewrite Hm in H. cbn [mbind option_bind] in H. by rewrite Hc in H. Qed.

Lemma act_answered i l w f f' :
  (forall m ev, fl_instances f !! i = Some m -> ev ∈ replies (in_state m) l -> answer_true (services i) (in_ctx m) ev) ->
  all_answered f -> act i l w f = Some f' -> all_answered f'.
Proof.
  intros Hh Hall H. unfold act in H. destruct (fl_instances f !! i) as [m|] eqn:Hm; [|done]. cbn in H.
  destruct (step l (in_state m)) as [s'|] eqn:Hs; [|done]. injection H as <-. intros j m' Hj. simpl in Hj.
  destruct (decide (i = j)) as [<-|Hij]; [|rewrite list_lookup_insert_ne in Hj by done; by apply Hall].
  rewrite list_lookup_insert_eq in Hj by (by eapply lookup_lt_Some). injection Hj as <-.
  destruct (Hall _ _ Hm) as [Hsub Hctx Htr]. split; [done|done|]. simpl. intros ev Hev.
  destruct (is_reply ev) eqn:Hr; [|by destruct ev].
  destruct (step_reply _ _ _ _ Hs Hr Hev) as [Ho|Hn]; [by apply Htr|by eapply Hh].
Qed.

Lemma fleet_step_answered l f f' :
  honest l f -> all_answered f -> fleet_step stream group l f = Some f' -> all_answered f'.
Proof.
  intros Hh Hall H. destruct l as [consumer sub ctx|i l|i g|w|w].
  - injection H as <-. destruct Hh as [-> Hctx]. unfold join. destruct (EnsureGroup _ _ _ _) as [err w'].
    intros i m Hi. simpl in Hi. apply lookup_app_Some in Hi as [Hi|[Hlen Hi]]; [by apply Hall|].
    unfold Subscribe in Hi. destruct err as [e|]; [done|]. apply list_lookup_singleton_Some in Hi as [Hk <-].
    assert (i = length (fl_instances f)) as -> by lia. split; [done|done|]. simpl.
    intros ev Hev. by apply elem_of_nil in Hev.
  - cbn [fleet_step] in H. destruct (issues_command l); [done|]. by eapply act_answered.
  - destruct (fl_instances f !! i) as [m|] eqn:Hm; [|cbn [fleet_step] in H; by rewrite Hm in H].
    destruct (command stream m (fl_env f) g) as [[l w']|] eqn:Hc;
      [|cbn [fleet_step] in H; rewrite Hm in H; cbn [mbind option_bind] in H; by rewrite Hc in H].
    eapply act_answered; [|exact Hall|by eapply command_at_step]. intros ? ev _ Hev.
    eapply unanswered_true; [by eapply command_unanswered|done].
  - by injection H as <-.
  - by injection H as <-.
Qed.

Context `{HQuiet : !QuietEnv (world_moves stream group (E := E))}.
#[local] Set Default Proof Using "Type*".

(** What a loop's call of the hook records. *)
Lemma hooking_replies g s e l r : hooking g s = Some (e, l) -> replies s (l r) = [SHooked (ent_ID e) (Fields e) r].
Proof.
  destruct g; simpl; [destruct (st_read s) as [| | | |[]|] eqn:Hpc|destruct (st_claim s) as [| | | | | | |[] ?|] eqn:Hpc|];
    intros [= -> <-]; simpl; by rewrite Hpc.
Qed.

Lemma hooking_local g s e l r : hooking g s = Some (e, l) -> issues_command (l r) = false.
Proof.
  destruct g; simpl; [destruct (st_read s) as [| | | |[]|]|destruct (st_claim s) as [| | | | | | |[] ?|]|];
    by intros [= -> <-].
Qed.

Lemma left_by_moves seen w' f :
  (seen = None -> world_moves stream group (fl_env f) w') -> world_moves stream group (fl_env f) (left_by seen w' f).
Proof using Type. destruct seen; simpl; [intros _; reflexivity|auto]. Qed.

(** What handling a message [fl] of instance [i] is to the fleet. *)
Lemma message_fleet lossy i m fl settle seen f f' :
  deployed (world_moves stream group) -> all_answered f -> fl_instances f !! i = Some m ->
  (forall ok, issues_command (settle ok) = false) ->
  (forall ok, replies (in_state m) (settle ok) = [SSettled (fl_ID fl) (fl_msg fl) ok]) ->
  handle_message services i m fl settle seen f = Some f' ->
  exists w l', world_moves stream group (fl_env f) w /\
    allowed stream group lossy l' (mkFleet w (fl_instances f)) /\
    honest l' (mkFleet w (fl_instances f)) /\
    fleet_step stream group l' (mkFleet w (fl_instances f)) = Some f'.
Proof.
  intros Hd Hall Hm Hlocal Hrep H. unfold handle_message in H. destruct (rt_handle _ _ _ _) as [[o s] t] eqn:Hr.
  exists (left_by seen (st_env s) f), (FLocal i (settle (acked_by_router o))).
  destruct (Hall _ _ Hm) as [_ Hctx _]. split; [apply left_by_moves; intros ->|split; [done|split]].
  - exact (handle_moves _ _ (ctx_without_cancel (in_ctx m)) _ _ _ _ _ (dp_served _ Hd i) (dp_quiet _ Hd i) Hctx Hr).
  - intros m' ev Hm' Hev. simpl in *. rewrite Hm in Hm'. injection Hm' as <-. rewrite Hrep in Hev.
    apply list_elem_of_singleton in Hev as ->. destruct o as [[e|]| |]; try done. simpl. eauto.
  - cbn [fleet_step]. by rewrite Hlocal.
Qed.

(** A step of the services is a move of the world and then an honest step of the
    fleet. *)
Lemma service_step_fleet lossy l f f' :
  deployed (world_moves stream group) -> all_answered f -> service_allowed stream group lossy l f ->
  service_step stream group services l f = Some f' ->
  exists w l', world_moves stream group (fl_env f) w /\
    allowed stream group lossy l' (mkFleet w (fl_instances f)) /\
    honest l' (mkFleet w (fl_instances f)) /\
    fleet_step stream group l' (mkFleet w (fl_instances f)) = Some f'.
Proof.
  intros Hd Hall Ha H. destruct l as [ctx|i k seen|i k seen|i g seen|l]; cbn [service_step] in H.
  - injection H as <-. exists (fl_env f). eexists (FJoin _ _ ctx). split; [reflexivity|]. split; [done|]. split; [done|].
    unfold serve_join. rewrite (dp_stream _ Hd), (dp_group _ Hd). by destruct f.
  - unfold serve_handle in H. destruct (fl_instances f !! i) as [m|] eqn:Hm; [|done]. cbn [mbind option_bind] in H.
    destruct (st_flights (in_state m) !! k) as [fl|] eqn:Hfl; [|done]. cbn [mbind option_bind] in H.
    eapply (message_fleet _ _ _ _ (LHandle k)); [done|done|exact Hm|done| |exact H]. intros ok. simpl. by rewrite Hfl.
  - unfold serve_late in H. destruct (fl_instances f !! i) as [m|] eqn:Hm; [|done]. cbn [mbind option_bind] in H.
    destruct (st_left (in_state m) !! k) as [fl|] eqn:Hfl; [|done]. cbn [mbind option_bind] in H.
    eapply (message_fleet _ _ _ _ (LLate k)); [done|done|exact Hm|done| |exact H]. intros ok. simpl. by rewrite Hfl.
  - unfold serve_hook in H. destruct (fl_instances f !! i) as [m|] eqn:Hm; [|done]. cbn [mbind option_bind] in H.
    destruct (hooking g (in_state m)) as [[e l]|] eqn:Hk; [|done]. cbn [mbind option_bind] in H.
    rewrite (dp_stream _ Hd) in H. destruct (handleUndecodable _ _ _ _ _ _ _) as [[[r| |] s] t] eqn:Hr; try done.
    destruct (Hall _ _ Hm) as [_ Hctx _]. exists (left_by seen (st_env s) f), (FLocal i (l r)).
    split; [apply left_by_moves; intros ->|split; [done|split]].
    { exact (hook_moves _ _ _ _ _ _ _ _ _ _ (dp_served _ Hd i) (dp_quiet _ Hd i) Hctx Hr). }
    + intros m' ev Hm' Hev. simpl in *. rewrite Hm in Hm'. injection Hm' as <-.
      rewrite (hooking_replies _ _ _ _ _ Hk) in Hev. apply list_elem_of_singleton in Hev as ->.
      destruct r; simpl; eauto.
    + cbn [fleet_step]. by rewrite (hooking_local _ _ _ _ _ Hk).
  - destruct (ours l) eqn:Ho; [done|]. exists (fl_env f), l. split; [reflexivity|]. destruct f as [w ms]. simpl in *.
    split; [done|]. split; [|done]. destruct l as [|j l| | |]; try done. intros m ev _ Hev. by eapply unanswered_true.
Qed.

Lemma services_refine_fleet lossy w0 f :
  deployed (world_moves stream group) -> service_reachable stream group services lossy w0 f ->
  reachable stream group lossy w0 f /\ all_answered f.
Proof.
  intros Hd. induction 1 as [|l f f' _ [Hr Hall] Ha Hs].
  - split; [constructor|]. intros i m Hm. done.
  - destruct (service_step_fleet _ _ _ _ Hd Hall Ha Hs) as (w & l' & Hw & Ha' & Hh & Hs').
    split; [|by eapply fleet_step_answered].
    eapply reachable_step; [|exact Ha'|exact Hs'].
    by apply (reachable_step _ _ _ _ (FWorld w) f); [..|reflexivity].
Qed.

(** ** Nothing is lost *)

(** The entry [id] was settled on the trace [t] of an instance of [sv]: its
    handler settled a message of it, or the hook preserved its fields with one
    successful dead-letter write. *)
Definition entry_settled (sv : service E) (t : list sub_event) (id : string) : Prop :=
  let c := svc_consumer sv in
  exists mp topic, serving_topic sv mp topic /\
  ((exists msg ctx s s' es, SSent id msg ∈ t /\ rt_handle (svc_route sv) ctx msg s = (Ret None, s', es) /\
      settled c mp topic (msg_Payload msg) (msg_Metadata msg) es) \/
   (exists fs ctx s s' es raw tm cause body, SHooked id fs None ∈ t /\
      handleUndecodable c ctx (svc_topics sv) stream id fs s = (Ret None, s', es) /\
      marshal_fields fs = Ok raw /\
      marshal_deadletter (letter c tm topic ReasonDeserializationFailed cause 1 (None, Some raw)) = Ok body /\
      writes es = [(dlqStream c topic, body, None)])).

Lemma acked_settled i m id err :
  deployed (world_moves stream group) -> subscribed stream group m -> answered (services i) m -> SAck id err ∈ st_trace (in_state m) ->
  entry_settled (services i) (st_trace (in_state m)) id.
Proof.
  intros Hd (_ & s0 & ls & Hsub & Hrun) [_ _ Htr] Hev.
  destruct (served_serving _ (dp_served _ Hd i)) as (mp & topic & Hsg). exists mp, topic. split; [done|].
  pose proof Hsg as [Hrt Hi _ Htop _]. rewrite (dp_stream _ Hd) in Htop.
  apply list_elem_of_split in Hev as (pre & post & Ht).
  destruct (acked_entries_are_settled (svc_consumer (services i)) mp topic (svc_topics (services i)) (in_sub m) stream
    None s0 ls _ pre id err post Hi Htop Hsub Hrun) as [Hl|Hh]; [| |exact Ht|left|right].
  - intros id' msg Hin. destruct (Htr _ Hin) as (w & w' & es & Hr). rewrite Hrt in Hr. do 4 eexists. exact Hr.
  - intros id' fs Hin. destruct (Htr _ Hin) as (w & w' & es & Hr). do 4 eexists. exact Hr.
  - destruct Hl as (msg & ctx & w & w' & t & ? & ? & ?). exists msg, ctx, w, w', t. rewrite Hrt, Ht.
    split_and!; [by apply in_app_l|done..].
  - destruct Hh as (fs & ctx & w & w' & t & raw & tm & cause & body & ? & ? & ? & ? & ?).
    exists fs, ctx, w, w', t, raw, tm, cause, body. rewrite Ht. split_and!; [by apply in_app_l|done..].
Qed.

(** C4: at least once, for the whole service.  Any number of instances run what
    [Run] serves; they may crash at any point, race for entries, lose their
    replies, and the group may be lost and recreated.  Still every entry Redis no
    longer redelivers, because it was acknowledged, was settled by an instance:
    handled or discarded by the handler registered for it, without a handler, or
    preserved by one successful dead-letter write; and no step forgets an entry:
    what is on the stream stays waiting, pending or acknowledged. *)
Theorem service_loses_nothing lossy w0 f :
  deployed (world_moves stream group) -> (forall id, ~ is_acked (status_of w0 stream group id)) ->
  service_reachable stream group services lossy w0 f ->
  (forall id, is_acked (status_of (fl_env f) stream group id) ->
     exists i m, fl_instances f !! i = Some m /\ entry_settled (services i) (st_trace (in_state m)) id) /\
  (forall l f' id, service_allowed stream group lossy l f -> service_step stream group services l f = Some f' ->
     is_Some (status_of (fl_env f) stream group id) -> is_Some (status_of (fl_env f') stream group id)).
Proof.
  intros Hd H0 Hr. destruct (services_refine_fleet _ _ _ Hd Hr) as [Hreach Hall].
  pose proof (reachable_subscribed _ _ _ _ _ Hreach) as Hsubs. split.
  - intros id Hid. destruct (reachable_acks_traced _ _ _ _ _ H0 Hreach id Hid) as (m & err & Hm & Hev).
    apply list_elem_of_lookup in Hm as [i Hm]. exists i, m. split; [done|].
    eapply acked_settled; [done|by eapply Forall_lookup_1|by apply Hall|done].
  - intros l f' id Ha Hs Hsome. destruct (service_step_fleet _ _ _ _ Hd Hall Ha Hs) as (w & l' & Hw & Ha' & _ & Hs').
    eapply (moved_some _ _ lossy (mkFleet w (fl_instances f))); [done|by eapply fleet_step_moved|]. simpl.
    by destruct (Hw id) as [->|[_ ->]].
Qed.
End services.

(** ** Witnesses *)

(** Nothing the sample service calls moves the sample server. *)
#[export] Instance server_quiet (Q : server -> server -> Prop) `{!Reflexive Q} : QuietEnv Q.
Proof. split; intros; simpl; done. Qed.

Lemma service_routes topic ty major h m :
  lookup_route (c_registry (lf_c service_life)) topic ty major = (Some h, m) -> h = content.
Proof.
  assert (raw (c_registry (lf_c service_life)) = {[ "orders" := content ]} /\
    typed (c_registry (lf_c service_life)) = ∅) as [Hraw Htyped] by (split; vm_compute; reflexivity).
  unfold lookup_route. rewrite Hraw, Htyped, lookup_empty. destruct ({[ "orders" := content ]} !! topic) as [h'|] eqn:Hl.
  - apply lookup_singleton_Some in Hl as [_ <-]. by intros [= <- _].
  - by intros [= ? _].
Qed.

Lemma sample_deployed (Q : server -> server -> Prop) :
  Reflexive Q -> deployed sample_stream sample_group (fun _ => sample_service) Q.
Proof.
  intros HQ. split; intros _; [exact sample_served|vm_compute; reflexivity|vm_compute; reflexivity|].
  intros topic ty major h m ->%service_routes ctx env w. apply HQ.
Qed.

Lemma service_after lossy w0 ls f :
  service_reachable sample_stream sample_group (fun _ => sample_service) lossy w0 f ->
  Forall (fun l => match l with SJoin ctx => ctx_probe ctx = None | SFleet l => inner l = true | _ => True end) ls ->
  service_reachable sample_stream sample_group (fun _ => sample_service) lossy w0 (services_after ls f).
Proof.
  intros Hr Hls. unfold services_after. destruct (service_run _ _ _ ls f) as [f'|] eqn:Hrun; [|exact Hr].
  simpl. revert f Hr Hrun. unfold service_run. induction Hls as [|l ls Hl _ IH]; simpl; intros f Hr Hrun.
  - by injection Hrun as <-.
  - destruct (service_step _ _ _ l f) as [f1|] eqn:Hs; [|done]. apply (IH f1); [|done].
    eapply service_reachable_step; [exact Hr| |exact Hs]. by destruct l as [| | | |[]].
Qed.

Lemma service_crashed_reachable lossy :
  service_reachable sample_stream sample_group (fun _ => sample_service) lossy sample_server service_crashed.
Proof. apply service_after; [constructor|]. by repeat constructor. Qed.

Lemma service_later lossy w0 d f :
  service_reachable sample_stream sample_group (fun _ => sample_service) lossy w0 f ->
  service_reachable sample_stream sample_group (fun _ => sample_service) lossy w0 (later d f).
Proof.
  intros Hr. by eapply (service_reachable_step _ _ _ _ _ (SFleet (FWorld (wait d (fl_env f)))));
    [exact Hr|apply wait_moves|].
Qed.

Lemma service_recovered_reachable lossy :
  service_reachable sample_stream sample_group (fun _ => sample_service) lossy sample_server service_recovered.
Proof.
  apply service_after; [apply service_later, service_crashed_reachable|]. by repeat constructor.
Qed.

(** The entry the second instance handled, and acknowledged. *)
Lemma service_loses_nothing_witness :
  is_acked (status_of (fl_env service_recovered) sample_stream sample_group "1-0") /\
  exists i m, fl_instances service_recovered !! i = Some m /\
    entry_settled sample_stream sample_service (st_trace (in_state m)) "1-0".
Proof.
  assert (is_acked (status_of (fl_env service_recovered) sample_stream sample_group "1-0")) as Ha
    by (exists 2; vm_compute; reflexivity).
  split; [exact Ha|].
  refine (proj1 (service_loses_nothing sample_stream sample_group (fun _ => sample_service) true sample_server
    service_recovered (sample_deployed _ _) _ (service_recovered_reachable true)) "1-0" Ha).
  intros id [n Hn]. destruct (sample_server_new sample_group id) as [H|H]; rewrite H in Hn; discriminate Hn.
Defined.
