(* ===== verification/ServiceTurns.v ===== *)
(** * Turns of a service

    What one instance and its service do, step by step and alone, to an entry its
    read loop read or its claim loop claimed: [dispatch] or the hook runs on it,
    and it is acknowledged if that returned nil. *)

From S2P Require Import Prelude GoStrings GoErrors Validation Registry Config Runtime.
From S2P Require Import Telemetry Delivery DeliveryProperties DeliveryFrame.
From S2P Require Import StreamReader Subscriber SubscriberProperties SubscriberTraces Router.
From S2P Require Import Lifecycle LifecycleProperties Fleet SubscriberTurns FleetProperties FleetRecovery.
From S2P Require Import Service ServiceProperties.
From stdpp Require Import options.

(** ** The environment, step by step *)

Section turns.
Context {E : Type} `{HEnv : !Env E, HFmt : !GoFmt, HTime : !GoTime, HJson : !JsonCodec, HMeter : !MeterApi}.
Context `{HRedis : !RedisClient E, HGroups : !ConsumerGroups E, HUp : !AnsweringGroups E, HUnm : !WmUnmarshaller}.
Variables (stream group : string) (services : nat -> service E) (i : nat).
Local Notation "'st' w id" := (status_of w stream group id) (at level 10, w at level 9, id at level 9).
Local Notation "'since' w id" := (idle_for w stream group id) (at level 10, w at level 9, id at level 9).

(** Entries never change. *)
Definition keeps_stored (w w' : E) : Prop :=
  forall id fs, stored w stream id = Some fs -> stored w' stream id = Some fs.

#[export] Instance keeps_stored_preorder : PreOrder keeps_stored.
Proof. split; [by intros w id fs|]. intros w1 w2 w3 H12 H23 id fs. auto. Qed.

Lemma same_stored w w' : (forall id, stored w' stream id = stored w stream id) -> keeps_stored w w'.
Proof. intros Hs id fs. by rewrite Hs. Qed.

(** Time passes, entries are added at the end, and Redis keeps answering. *)
Definition calm (w w' : E) : Prop :=
  world_moves stream group w w' /\ (up w stream group -> up w' stream group) /\
  waiting w stream group `prefix_of` waiting w' stream group /\ keeps_stored w w' /\
  forall id, since w id <= since w' id.

#[export] Instance calm_preorder : PreOrder calm.
Proof.
  split; [by repeat split|]. intros w1 w2 w3 (? & ? & ? & ? & H12) (? & ? & ? & ? & H23).
  split; [by etrans|]. split; [auto|]. split; [by etrans|]. split; [by etrans|]. intros id. specialize (H12 id). specialize (H23 id). lia.
Qed.

(** What a turn on the entry [id] leaves as it was. *)
Record gentle (id : string) (w w' : E) : Prop := {
  gt_up : up w stream group -> up w' stream group;
  gt_waiting : waiting w stream group `prefix_of` waiting w' stream group;
  gt_stored : keeps_stored w w';
  gt_acked id' : is_acked (st w id') -> is_acked (st w' id');
  gt_pending id' n : id' <> id -> st w id' = Some (Pending n) -> st w' id' = Some (Pending n);
  gt_idle id' : id' <> id -> since w id' <= since w' id';
}.

#[export] Instance gentle_preorder id : PreOrder (gentle id).
Proof.
  split; [by split|]. intros w1 w2 w3 [Hu1 Hw1 Hs1 Ha1 Hp1 Hi1] [Hu2 Hw2 Hs2 Ha2 Hp2 Hi2].
  split; [by auto|by etrans|by etrans|by auto..|]. intros id' Hne. specialize (Hi1 id' Hne). specialize (Hi2 id' Hne). lia.
Qed.

Lemma calm_pending w w' id n : calm w w' -> st w id = Some (Pending n) -> st w' id = Some (Pending n).
Proof. intros (Hw & _) Hst. destruct (Hw id) as [->|[? _]]; congruence. Qed.

Lemma calm_gentle id w w' : calm w w' -> gentle id w w'.
Proof.
  intros Hc. pose proof Hc as (Hw & Hup & Hwait & Hstore & Hidle). split; [done|done|done| |by eauto using calm_pending|by auto].
  intros id' [n Hn]. destruct (Hw id') as [->|[? _]]; [by exists n|congruence].
Qed.

Lemma claim_gentle ctx consumer idle id w l w' :
  up w stream group -> xclaim ctx stream group consumer idle [id] w = (l, w') -> gentle id w w'.
Proof.
  intros Hup Hx. destruct (claim_answers ctx stream group consumer idle id w Hup) as (l' & w1 & Hx' & Hup' & Hwait & Hstore & Hidle & _).
  rewrite Hx in Hx'. injection Hx' as -> ->. pose proof (fun id' => claim_redelivers _ _ _ _ _ _ _ _ _ id' Hx) as Hr.
  split; [done|by rewrite Hwait|by apply same_stored| | |by intros id' Hne; rewrite Hidle].
  - intros id' [n Hn]. destruct (Hr id') as [->|(_ & ? & ? & ? & _)]; [by exists n|congruence].
  - intros id' n Hne Hn. destruct (Hr id') as [->|(Hin & _)]; [done|]. by apply list_elem_of_singleton in Hin.
Qed.

Lemma ack_gentle ctx id w err w' :
  up w stream group -> xack ctx stream group [id] w = (err, w') ->
  err = None /\ gentle id w w' /\ (forall n, st w id = Some (Pending n) -> is_acked (st w' id)).
Proof.
  intros Hup Hx. destruct (ack_answers ctx stream group id w Hup) as (w1 & Hx' & Hup' & Hwait & Hstore & Hidle & Hst).
  rewrite Hx in Hx'. injection Hx' as -> ->. pose proof (fun id' => ack_removes _ _ _ _ _ _ _ id' Hx) as Hr.
  split; [done|]. split; [split; [done|by rewrite Hwait|by apply same_stored| | |by intros id' Hne; rewrite Hidle]|by intros n Hn; exists n; apply Hst].
  - intros id' [n Hn]. destruct (Hr id') as [->|(_ & k & ? & ->)]; [by exists n|by exists k].
  - intros id' n Hne Hn. destruct (Hr id') as [->|(Hin & _)]; [done|]. by apply list_elem_of_singleton in Hin.
Qed.

(** ** Steps of instance [i] and its service *)

Definition service_own (l : service_label E) : Prop :=
  match l with
  | SHandle j _ _ | SLate j _ _ | SHook j _ _ => j = i
  | SFleet l => own i l
  | SJoin _ => False
  end.

(** By its own steps, and no other's. *)
Definition serves_alone (f f' : fleet E) : Prop :=
  exists ls, Forall service_own ls /\ service_run stream group services ls f = Some f'.

Lemma serves_alone_trans f1 f2 f3 : serves_alone f1 f2 -> serves_alone f2 f3 -> serves_alone f1 f3.
Proof.
  intros (ls1 & H1 & Hr1) (ls2 & H2 & Hr2). exists (ls1 ++ ls2).
  split; [by apply Forall_app|by eapply run_steps_app].
Qed.

Lemma serves_one l f f' : service_own l -> service_step stream group services l f = Some f' -> serves_alone f f'.
Proof. intros Hl Hs. exists [l]. split; [by repeat constructor|]. unfold service_run. simpl. by rewrite Hs. Qed.

(** However the environment moves. *)
Definition anyhow (w w' : E) : Prop := True.

#[export] Instance anyhow_preorder : PreOrder anyhow.
Proof. done. Qed.

(** Instance [i], which was [m], gets to the state [s'], the environment moving by
    [R]. *)
Record turned (R : E -> E -> Prop) (m : instance E) (f : fleet E) (s' : sub_state) (f' : fleet E) : Prop := {
  tn_alone : serves_alone f f';
  tn_at : is_at i (set_state s' m) f';
  tn_env : R (fl_env f) (fl_env f');
  tn_run : exists ls, run ls (in_state m) = Some s';
}.

Lemma turned_refl R `{!Reflexive R} m f : is_at i m f -> turned R m f (in_state m) f.
Proof. intros Hm. split; [by exists []|by destruct m|done|by exists []]. Qed.

Lemma turned_trans R `{!Transitive R} m f s1 f1 s2 f2 :
  turned R m f s1 f1 -> turned R (set_state s1 m) f1 s2 f2 -> turned R m f s2 f2.
Proof.
  intros [Ha1 _ Hg1 [ls1 Hr1]] [Ha2 Hm2 Hg2 [ls2 Hr2]].
  split; [by eapply serves_alone_trans|done|by etrans|]. exists (ls1 ++ ls2). by eapply run_steps_app.
Qed.

Lemma turned_mono (R R' : E -> E -> Prop) m f s' f' :
  (forall w w', R w w' -> R' w w') -> turned R m f s' f' -> turned R' m f s' f'.
Proof. intros HR []. split; auto. Qed.

(** What is on the trace stays there. *)
Lemma turned_trace R m f s' f' ev : turned R m f s' f' -> ev ∈ st_trace (in_state m) -> ev ∈ st_trace s'.
Proof. intros [_ _ _ [ls Hr]] Hev. destruct (run_trace _ _ _ Hr) as [es ->]. by apply in_app_l. Qed.

Lemma turned_step (R : E -> E -> Prop) l m f w s' sl :
  is_at i m f -> step l (in_state m) = Some s' -> R (fl_env f) w -> service_own sl ->
  service_step stream group services sl f = act i l w f ->
  exists f', turned R m f s' f' /\ fl_env f' = w.
Proof.
  intros Hm Hs Hg Hsl Hstep. destruct (act_at i m f l w s' Hm Hs) as (f' & Ha & <- & Hm').
  exists f'. split; [|done]. split; [eapply serves_one; [done|by rewrite Hstep]|done|done|].
  exists [l]. unfold run. simpl. by rewrite Hs.
Qed.

Lemma turned_local R `{!Reflexive R} l m f s' :
  is_at i m f -> step l (in_state m) = Some s' -> issues_command l = false -> answers l = false ->
  exists f', turned R m f s' f' /\ fl_env f' = fl_env f.
Proof.
  intros Hm Hs Hl Ha. apply (turned_step R l m f _ s' (SFleet (FLocal i l))); [done..|].
  simpl. by rewrite Ha, Hl.
Qed.

Lemma turned_command (R : E -> E -> Prop) g l w m f s' :
  is_at i m f -> command stream m (fl_env f) g = Some (l, w) -> step l (in_state m) = Some s' ->
  R (fl_env f) w -> exists f', turned R m f s' f' /\ fl_env f' = w.
Proof.
  intros Hm Hc Hs Hg. apply (turned_step R l m f _ s' (SFleet (FCommand i g))); [done..|].
  cbn [service_step ours fleet_step]. rewrite Hm. cbn [mbind option_bind]. by rewrite Hc.
Qed.

(** ** A turn on one entry *)

Context `{HQuiet : !QuietEnv calm}.
#[local] Set Default Proof Using "Type*".

(** What makes instance [m] one of the service. *)
Record able (m : instance E) : Prop := {
  ab_served : served (services i);
  ab_stream : rt_stream (svc_route (services i)) = stream;
  ab_quiet : quiet_handlers calm (svc_consumer (services i));
  ab_group : sr_group (in_reader m) = group;
  ab_ctx : ctx_probe (in_ctx m) = None;
  ab_hook : st_hook (in_state m) = true;
}.

Lemma able_turned R m f s' f' : able m -> turned R m f s' f' -> able (set_state s' m).
Proof using Type.
  intros [] [_ _ _ [ls Hr]]. split; try done. simpl. by rewrite (run_hook _ _ _ Hr).
Qed.

(** The ack of an entry, detached from the subscription. *)
Lemma ack_command_up m id w :
  able m -> up w stream group ->
  exists w', ack_command stream m w id = (None, w') /\ gentle id w w' /\
    (forall n, st w id = Some (Pending n) -> is_acked (st w' id)).
Proof using Type.
  intros Hab Hup. unfold ack_command. simpl. rewrite (ab_group _ Hab).
  destruct (xack _ _ _ _ w) as [err w'] eqn:Hx. destruct (ack_gentle _ _ _ _ _ Hup Hx) as (-> & ? & ?). by exists w'.
Qed.

Lemma flight_command m w k fl err w' :
  st_flights (in_state m) !! k = Some fl -> ack_command stream m w (fl_ID fl) = (err, w') ->
  command stream m w (GFlight k) = Some (LFlightAck k err, w').
Proof using Type. intros Hk Ha. cbn [command]. rewrite Hk. cbn [mbind option_bind]. by rewrite Ha. Qed.

Lemma hook_ack_command em m w e err w' :
  at_place (emitting em (EHookAck e)) (in_state m) -> ack_command stream m w (ent_ID e) = (err, w') ->
  command stream m w (loop_of em) = Some (emit_of em (EmHookAck err), w').
Proof using Type.
  intros Hpc Ha. destruct em; simpl in Hpc; cbn [command loop_of]; rewrite Hpc;
    cbn [read_command claim_command emit_command mbind option_bind]; by rewrite Ha.
Qed.

(** A message in flight is given to [dispatch], and acknowledged if that returned
    nil. *)
Lemma message_turn pl k id msg m f :
  is_at i m f -> able m -> up (fl_env f) stream group -> holding pl (in_state m) ->
  st_flights (in_state m) !! k = Some (mkFlight id msg None) ->
  exists s' f' o s es, turned (gentle id) m f s' f' /\ idling pl s' /\
    SSettled id msg (acked_by_router o) ∈ st_trace s' /\
    rt_handle (svc_route (services i)) (ctx_without_cancel (in_ctx m)) msg (delivery_state (fl_env f)) = (o, s, es) /\
    (acked_by_router o = true -> forall n, st (fl_env f) id = Some (Pending n) -> is_acked (st (fl_env f') id)).
Proof.
  intros Hm Hab Hup Hh Hk.
  destruct (rt_handle (svc_route (services i)) (ctx_without_cancel (in_ctx m)) msg (delivery_state (fl_env f)))
    as [[o s] es] eqn:Hr.
  pose proof (handle_moves _ _ (ctx_without_cancel (in_ctx m)) _ _ _ _ _ (ab_served _ Hab) (ab_quiet _ Hab)
    (ab_ctx _ Hab) Hr) as Hc.
  destruct (settled_turn _ _ _ _ (acked_by_router o) _ Hh Hk) as (s1 & Hs1 & Hh1 & Hev & Hk1).
  destruct (turned_step (gentle id) _ m f (st_env s) s1 (SHandle i k None) Hm Hs1) as (f1 & Ht1 & He1);
    [by apply calm_gentle|done| |].
  { cbn [service_step]. unfold serve_handle. rewrite Hm. cbn [mbind option_bind]. rewrite Hk. cbn [mbind option_bind]. unfold handle_message. cbn. by rewrite Hr. }
  destruct (finished_turn _ _ _ _ _ _ Hh1 Hk1) as (s2 & Hs2 & Hi2).
  assert (up (fl_env f1) stream group) as Hup1 by (rewrite He1; by apply Hc).
  pose proof (able_turned _ _ _ _ _ Hab Ht1) as Hab1.
  destruct (step_trace _ _ _ Hs2) as [ts Hts]. destruct (acked_by_router o) eqn:Ho.
  - destruct (ack_command_up (set_state s1 m) id (fl_env f1) Hab1 Hup1) as (w' & Hack & Hg & Hst).
    destruct (turned_command (gentle id) (GFlight k) (LFlightAck k None) w' (set_state s1 m) f1 s2) as (f2 & Ht2 & He2);
      [apply Ht1|by eapply flight_command|done|done|].
    exists s2, f2, o, s, es. split; [by eapply turned_trans; [apply _|..]|]. split; [done|].
    split; [rewrite Ho, Hts; by apply in_app_l|]. split; [done|]. intros _ n Hn.
    rewrite He2. apply (Hst n). rewrite He1. by eapply calm_pending.
  - destruct (turned_local (gentle id) (LFlightDone k) (set_state s1 m) f1 s2) as (f2 & Ht2 & He2); [apply Ht1|done..|].
    exists s2, f2, o, s, es. split; [by eapply turned_trans; [apply _|..]|]. split; [done|].
    split; [rewrite Ho, Hts; by apply in_app_l|]. split; [done|]. congruence.
Qed.

Lemma hooking_at em e s :
  at_place (emitting em (EHook e)) s -> hooking (loop_of em) s = Some (e, fun r => emit_of em (EmHook r)).
Proof using Type. destruct em; simpl; by intros ->. Qed.

(** An entry that cannot be decoded is given to the hook, and acknowledged if
    that returned nil. *)
Lemma hook_turn em e m f :
  is_at i m f -> able m -> up (fl_env f) stream group -> holding (emitting em (EHook e)) (in_state m) ->
  exists s' f' r s es, turned (gentle (ent_ID e)) m f s' f' /\ idling (after_emit em) s' /\
    SHooked (ent_ID e) (Fields e) r ∈ st_trace s' /\
    handleUndecodable (svc_consumer (services i)) (in_ctx m) (svc_topics (services i)) stream (ent_ID e) (Fields e)
      (delivery_state (fl_env f)) = (Ret r, s, es) /\
    (r = None -> forall n, st (fl_env f) (ent_ID e) = Some (Pending n) -> is_acked (st (fl_env f') (ent_ID e))).
Proof.
  intros Hm Hab Hup Hh. destruct (served_serving _ (ab_served _ Hab)) as (mp & topic & [_ Hinst _ _ _]).
  destruct (handleUndecodable_run (svc_consumer (services i)) mp (in_ctx m) (svc_topics (services i)) stream (ent_ID e)
    (Fields e) (delivery_state (fl_env f)) Hinst) as (r & s & es & Hr & _).
  pose proof (hook_moves _ _ _ _ _ _ _ _ _ _ (ab_served _ Hab) (ab_quiet _ Hab) (ab_ctx _ Hab) Hr) as Hc.
  destruct (hooked_turn _ _ r _ Hh (ab_hook _ Hab)) as (s1 & Hs1 & Hev & Hh1).
  destruct (turned_step (gentle (ent_ID e)) _ m f (st_env s) s1 (SHook i (loop_of em) None) Hm Hs1) as (f1 & Ht1 & He1);
    [by apply calm_gentle|done| |].
  { cbn [service_step]. unfold serve_hook. rewrite Hm. cbn [mbind option_bind].
    rewrite (hooking_at em e) by exact (hd_at _ _ Hh). cbn [mbind option_bind].
    change (seen_from None f) with (fl_env f). by rewrite (ab_stream _ Hab), Hr. }
  destruct r as [err|]; [exists s1, f1, (Some err), s, es; by split_and!|].
  destruct (hook_acked_turn _ _ _ Hh1) as (s2 & Hs2 & Hi2).
  assert (up (fl_env f1) stream group) as Hup1 by (rewrite He1; by apply Hc).
  destruct (ack_command_up (set_state s1 m) (ent_ID e) (fl_env f1) (able_turned _ _ _ _ _ Hab Ht1) Hup1)
    as (w' & Hack & Hg & Hst).
  destruct (turned_command (gentle (ent_ID e)) (loop_of em) (emit_of em (EmHookAck None)) w' (set_state s1 m) f1 s2)
    as (f2 & Ht2 & He2); [apply Ht1|eapply hook_ack_command; [exact (hd_at _ _ Hh1)|done]|done|done|].
  exists s2, f2, None, s, es. split; [by eapply turned_trans; [apply _|..]|]. split; [done|].
  split; [destruct (step_trace _ _ _ Hs2) as [ts ->]; by apply in_app_l|]. split; [done|].
  intros _ n Hn. rewrite He2. apply (Hst n). rewrite He1. by eapply calm_pending.
Qed.

(** ** An entry is processed *)

(** What became of the entry [e], received as delivery [attempt] under [ctx]: a
    message of it was handed over and [dispatch] ran on it, or the hook ran on its
    fields; if that returned nil, the entry is acknowledged. *)
Definition processed (ctx : context E) (t : list sub_event) (w' : E) (e : Entry) (attempt : Z) : Prop :=
  match decodeEntry e attempt with
  | Ok msg => SSent (ent_ID e) msg ∈ t /\ exists w o s es,
      rt_handle (svc_route (services i)) (ctx_without_cancel ctx) msg (delivery_state w) = (o, s, es) /\
      SSettled (ent_ID e) msg (acked_by_router o) ∈ t /\ (o = Ret None -> is_acked (st w' (ent_ID e)))
  | Err _ => exists w r s es,
      handleUndecodable (svc_consumer (services i)) ctx (svc_topics (services i)) stream (ent_ID e) (Fields e)
        (delivery_state w) = (Ret r, s, es) /\
      SHooked (ent_ID e) (Fields e) r ∈ t /\ (r = None -> is_acked (st w' (ent_ID e)))
  end.

Lemma processed_mono ctx t t' w w' e a :
  processed ctx t w e a -> (forall ev, ev ∈ t -> ev ∈ t') ->
  (is_acked (st w (ent_ID e)) -> is_acked (st w' (ent_ID e))) -> processed ctx t' w' e a.
Proof using Type.
  unfold processed. intros H Ht Hw. destruct (decodeEntry e a).
  - destruct H as (Hs & w0 & o & s & es & ? & ? & ?). split; [auto|]. exists w0, o, s, es. auto.
  - destruct H as (w0 & r & s & es & ? & ? & ?). exists w0, r, s, es. auto.
Qed.

(** Either loop, once it has received an entry, gets it processed. *)
Lemma entry_processed em e a m f n :
  is_at i m f -> able m -> up (fl_env f) stream group -> holding (emitting em (emit_start e a)) (in_state m) ->
  st (fl_env f) (ent_ID e) = Some (Pending n) ->
  exists s' f', turned (gentle (ent_ID e)) m f s' f' /\ idling (after_emit em) s' /\
    processed (in_ctx m) (st_trace s') (fl_env f') e a.
Proof.
  intros Hm Hab Hup Hh Hn. unfold emit_start in Hh. unfold processed. destruct (decodeEntry e a) as [msg|err] eqn:Hd.
  - destruct (sent_turn _ _ _ _ Hh) as (s1 & k & Hs1 & Hh1 & Hk1 & Hsent).
    destruct (turned_local (gentle (ent_ID e)) _ m f s1 Hm Hs1) as (f1 & Ht1 & He1); [by destruct em..|].
    pose proof (able_turned _ _ _ _ _ Hab Ht1) as Hab1.
    destruct (message_turn (after_emit em) k (ent_ID e) msg (set_state s1 m) f1)
      as (s2 & f2 & o & s & es & Ht2 & Hi2 & Hev & Hr & Hst); [apply Ht1|done|by rewrite He1|done|done|].
    exists s2, f2. split; [by eapply turned_trans; [apply _|..]|]. split; [done|].
    split; [by eapply turned_trace|]. exists (fl_env f1), o, s, es. split; [done|]. split; [done|].
    intros ->. apply (Hst eq_refl n). by rewrite He1.
  - destruct (hook_turn em e m f Hm Hab Hup Hh) as (s1 & f1 & r & s & es & Ht1 & Hi1 & Hev & Hr & Hst).
    exists s1, f1. split; [done|]. split; [done|]. exists (fl_env f), r, s, es. eauto.
Qed.

Lemma reached_able lossy w0 f m :
  deployed stream group services calm -> service_reachable stream group services lossy w0 f -> is_at i m f ->
  able m /\ in_sub m = svc_sub (services i).
Proof using HQuiet.
  intros Hd Hr Hm. assert (forall w w', calm w w' -> world_moves stream group w w') as Hc by (by intros ? ? []).
  pose proof (quiet_env_mono _ _ Hc HQuiet) as Hq. pose proof (deployed_mono _ _ _ _ _ Hc Hd) as Hd'.
  destruct (services_refine_fleet _ _ _ _ _ _ Hd' Hr) as [Hreach Hall].
  destruct (Hall i m Hm) as [Hsub Hctx _]. destruct (served_serving _ (dp_served _ _ _ _ Hd i)) as (mp & topic & [_ _ _ _ Hhook]).
  destruct (Forall_lookup_1 _ _ _ _ (reachable_subscribed _ _ _ _ _ Hreach) Hm) as (Hg & s0 & ls & Hs0 & Hrun).
  split; [|done]. split; [apply Hd|apply Hd|apply Hd|done|done|].
  rewrite (run_hook _ _ _ Hrun). unfold Subscribe in Hs0. injection Hs0 as <-. simpl. by rewrite Hsub, bool_decide_true.
Qed.
End turns.
