(* ===== verification/ServiceProgress.v ===== *)
(** * Progress of a service

    What a live instance of the service achieves by its own steps: the entries
    that wait are read and processed, those that stay pending are reclaimed and
    processed, whoever held them, and one delivered as often as the cap allows is
    dead-lettered and acknowledged, without a handler seeing it again. *)

From S2P Require Import Prelude GoStrings GoErrors Validation Registry Config GoDuration Runtime Sample.
From S2P Require Import Telemetry Delivery SampleDelivery DeliverySpec DeliveryProperties DeliveryFrame.
From S2P Require Import StreamReader Subscriber SubscriberProperties SubscriberTraces Router.
From S2P Require Import Lifecycle LifecycleProperties Fleet SubscriberTurns SampleFleet SampleAnswers FleetProperties.
From S2P Require Import FleetRecovery Service SampleService ServiceProperties ServiceTurns.
From stdpp Require Import options.

Section progress.
Context {E : Type} `{HEnv : !Env E, HFmt : !GoFmt, HTime : !GoTime, HJson : !JsonCodec, HMeter : !MeterApi}.
Context `{HRedis : !RedisClient E, HGroups : !ConsumerGroups E, HUp : !AnsweringGroups E, HUnm : !WmUnmarshaller}.
Variables (stream group : string) (services : nat -> service E) (i : nat).
Local Notation "'st' w id" := (status_of w stream group id) (at level 10, w at level 9, id at level 9).
Local Notation "'since' w id" := (idle_for w stream group id) (at level 10, w at level 9, id at level 9).
Context `{HQuiet : !QuietEnv (calm stream group (E := E))}.
#[local] Set Default Proof Using "Type*".

(** ** Turns of the read loop *)

(** The oldest waiting entry is read and processed. *)
Lemma read_one id ids m f :
  is_at i m f -> able stream group services i m -> up (fl_env f) stream group ->
  idling (AtRead RAcquire) (in_state m) -> waiting (fl_env f) stream group = id :: ids ->
  exists s' f' e, turned stream group services i (keeps_stored stream) m f s' f' /\ idling (AtRead RAcquire) s' /\
    up (fl_env f') stream group /\ ids `prefix_of` waiting (fl_env f') stream group /\
    SRead e ∈ st_trace s' /\ ent_ID e = id /\ stored (fl_env f') stream id = Some (Fields e) /\
    processed stream group services i (in_ctx m) (st_trace s') (fl_env f') e 1.
Proof.
  intros Hm Hab Hup Hi Hw. destruct (acquire_read_turn _ Hi) as (s1 & Hs1 & Hh1).
  destruct (turned_local stream group services i (keeps_stored stream) _ m f s1 Hm Hs1 eq_refl eq_refl) as (f1 & Ht1 & He1).
  pose proof (able_turned _ _ _ _ _ _ _ _ _ Hab Ht1) as Hab1.
  destruct (read_answers (in_ctx m) stream group (sr_consumer (in_reader m)) (sb_blockTime (in_sub m)) id ids (fl_env f)
    Hup Hw) as (fs & w & Hx & Hup2 & Hw2 & Hfs & Hstored). set (e := to_entry (id, fs)).
  destruct (read_turn e [] _ Hh1) as (s2 & Hs2 & Hev & Hh2).
  destruct (turned_command stream group services i (keeps_stored stream) GRead (LRRead (Ok [e])) w (set_state s1 m) f1 s2)
    as (f2 & Ht2 & He2); [apply Ht1| |done|rewrite He1; by apply same_stored|].
  { cbn [command]. rewrite (hd_at _ _ Hh1 : st_read (in_state (set_state s1 m)) = RRead). cbn [read_command].
    unfold ReadNew. simpl. by rewrite He1, (ab_group _ _ _ _ _ Hab), Hx. }
  destruct (read_returns _ _ _ _ _ _ _ _ _ (id, fs) Hx) as [_ Hst]; [by left|]. rewrite <-He2 in Hst, Hup2, Hw2, Hstored.
  destruct (entry_processed stream group services i EmitRead e 1 (set_state s2 m) f2 1)
    as (s3 & f3 & Ht3 & Hi3 & Hp); [exact (tn_at _ _ _ _ _ _ _ _ _ Ht2)|exact (able_turned _ _ _ _ _ _ _ _ _ Hab1 Ht2)|exact Hup2|exact Hh2|exact Hst|].
  pose proof (tn_env _ _ _ _ _ _ _ _ _ Ht3) as Hg. exists s3, f3, e. split; [|split; [done|]].
  { eapply turned_trans; [apply _|exact Ht1|]. eapply turned_trans; [apply _|exact Ht2|].
    eapply turned_mono; [|exact Ht3]. by intros ? ? []. }
  split; [by apply Hg|]. split; [rewrite <-Hw2; by apply Hg|]. split; [by eapply turned_trace|].
  split; [done|]. split; [|done]. apply (gt_stored _ _ _ _ _ Hg). by rewrite Hstored.
Qed.

Lemma read_turns pre : forall m f id post,
  is_at i m f -> able stream group services i m -> up (fl_env f) stream group ->
  idling (AtRead RAcquire) (in_state m) -> waiting (fl_env f) stream group = pre ++ id :: post ->
  exists s' f' e, turned stream group services i (keeps_stored stream) m f s' f' /\
    SRead e ∈ st_trace s' /\ ent_ID e = id /\ stored (fl_env f') stream id = Some (Fields e) /\
    processed stream group services i (in_ctx m) (st_trace s') (fl_env f') e 1.
Proof.
  induction pre as [|id0 pre IH]; intros m f id post Hm Hab Hup Hi Hw.
  - destruct (read_one _ _ _ _ Hm Hab Hup Hi Hw) as (s' & f' & e & ? & _ & _ & _ & ?). by exists s', f', e.
  - destruct (read_one _ _ _ _ Hm Hab Hup Hi Hw) as (s1 & f1 & e1 & Ht1 & Hi1 & Hup1 & [new Hw1] & _).
    destruct (IH (set_state s1 m) f1 id (post ++ new)) as (s' & f' & e & Ht & H);
      [apply Ht1|by eapply able_turned|done|done|by rewrite Hw1, <-app_assoc|].
    exists s', f', e. split; [by eapply turned_trans; [apply _|..]|done].
Qed.

(** ** A sweep of the claim loop *)

Lemma claim_command_up m p rest w :
  able stream group services i m -> st_claim (in_state m) = CClaim p rest -> up w stream group ->
  exists l w', command stream m w GClaim = Some (LCClaim (Ok (map to_entry l)), w') /\
    gentle stream group (pe_ID p) w w' /\
    (forall q, q ∈ l -> q.1 = pe_ID p /\ exists n, st w' (pe_ID p) = Some (Pending n)) /\
    (forall n, st w (pe_ID p) = Some (Pending n) -> sb_claimMinIdle (in_sub m) <= since w (pe_ID p) ->
       exists fs, l = [(pe_ID p, fs)] /\ stored w' stream (pe_ID p) = Some fs).
Proof using Type.
  intros Hab Hpc Hup.
  destruct (claim_answers (in_ctx m) stream group (sr_consumer (in_reader m)) (sb_claimMinIdle (in_sub m)) (pe_ID p) w Hup)
    as (l & w' & Hx & _ & _ & Hs & _ & Hl). exists l, w'.
  split; [|split; [by eapply claim_gentle|split; [|intros n; rewrite Hs; apply Hl]]].
  - cbn. rewrite Hpc. cbn. by rewrite (ab_group _ _ _ _ _ Hab), Hx.
  - intros q Hq. destruct (claim_returns _ _ _ _ _ _ _ _ _ q Hx Hq) as (Hin & _ & n & _ & Hn & _).
    apply list_elem_of_singleton in Hin as Hq1. rewrite Hq1 in Hn. eauto.
Qed.

(** The entry the loop was at, claimed and processed. *)
Definition reclaimed (m : instance E) (p : PendingEntry) (t : list sub_event) (w' : E) : Prop :=
  exists e, SClaimed p e ∈ t /\ ent_ID e = pe_ID p /\ stored w' stream (pe_ID p) = Some (Fields e) /\
    processed stream group services i (in_ctx m) t w' e (wrap64 (RetryCount p + 1)).

Lemma reclaimed_mono m p t t' w w' :
  reclaimed m p t w -> (forall ev, ev ∈ t -> ev ∈ t') -> keeps_stored stream w w' ->
  (is_acked (st w (pe_ID p)) -> is_acked (st w' (pe_ID p))) -> reclaimed m p t' w'.
Proof using Type.
  intros (e & ? & He & ? & Hp) Ht Hs Hw. exists e. split; [auto|]. split; [done|]. split; [by apply Hs|].
  eapply processed_mono; [done..|by rewrite He].
Qed.

Lemma entry_turn p rest m f :
  is_at i m f -> able stream group services i m -> up (fl_env f) stream group ->
  idling (AtClaim (CAcquire p rest)) (in_state m) ->
  exists s' f', turned stream group services i (gentle stream group (pe_ID p)) m f s' f' /\
    idling (AtClaim (claim_next rest)) s' /\
    (forall n, st (fl_env f) (pe_ID p) = Some (Pending n) ->
       sb_claimMinIdle (in_sub m) <= since (fl_env f) (pe_ID p) -> reclaimed m p (st_trace s') (fl_env f')).
Proof.
  intros Hm Hab Hup Hi. destruct (acquire_claim_turn _ _ _ Hi) as (s1 & Hs1 & Hh1).
  destruct (turned_local stream group services i (gentle stream group (pe_ID p)) _ m f s1 Hm Hs1 eq_refl eq_refl)
    as (f1 & Ht1 & He1). pose proof (able_turned _ _ _ _ _ _ _ _ _ Hab Ht1) as Hab1.
  destruct (claim_command_up (set_state s1 m) p rest (fl_env f) Hab1 (hd_at _ _ Hh1) Hup)
    as (l & w & Hc & Hg & Hid & Hl).
  destruct l as [|q l].
  - destruct (claimed_none_turn _ _ _ Hh1) as (s2 & Hs2 & Hi2).
    destruct (turned_command stream group services i (gentle stream group (pe_ID p)) GClaim (LCClaim (Ok [])) w
      (set_state s1 m) f1 s2) as (f2 & Ht2 & He2); [apply Ht1|by rewrite He1|done|by rewrite He1|].
    exists s2, f2. split; [by eapply turned_trans; [apply _|..]|]. split; [done|]. intros n Hn Hmin.
    by destruct (Hl n Hn Hmin) as (fs & ? & _).
  - destruct (claimed_turn _ _ (to_entry q) (map to_entry l) _ Hh1) as (s2 & Hs2 & Hev & Hh2).
    destruct (turned_command stream group services i (gentle stream group (pe_ID p)) GClaim (LCClaim (Ok (map to_entry (q :: l)))) w
      (set_state s1 m) f1 s2) as (f2 & Ht2 & He2); [apply Ht1|by rewrite He1|done|by rewrite He1|].
    assert (turned stream group services i (gentle stream group (pe_ID p)) m f s2 f2) as Ht
      by (by eapply turned_trans; [apply _|..]).
    destruct (Hid q ltac:(left)) as [Hq [n' Hn']].
    destruct (entry_processed stream group services i (EmitClaim rest) (to_entry q) (wrap64 (RetryCount p + 1))
      (set_state s2 m) f2 n') as (s3 & f3 & Ht3 & Hi3 & Hp);
      [apply Ht|by eapply able_turned|rewrite He2; by apply Hg|done|rewrite He2; simpl; by rewrite Hq|].
    simpl in Ht3, Hp. rewrite Hq in Ht3. exists s3, f3. split; [by eapply turned_trans; [apply _|..]|]. split; [done|].
    intros n Hn Hmin. exists (to_entry q). split; [by eapply turned_trace|]. split; [done|]. split; [|done].
    destruct (Hl n Hn Hmin) as (fs & [= -> _] & Hfs). apply (gt_stored _ _ _ _ _ (tn_env _ _ _ _ _ _ _ _ _ Ht3)).
    by rewrite He2.
Qed.

Definition keeps_acked (w w' : E) : Prop :=
  keeps_stored stream w w' /\ forall id, is_acked (st w id) -> is_acked (st w' id).

#[local] Instance keeps_acked_preorder : PreOrder keeps_acked.
Proof using Type. split; [by split|]. intros w1 w2 w3 [? H12] [? H23]. split; [by etrans|]. auto. Qed.

Lemma sweep_turns ps : forall m f,
  is_at i m f -> able stream group services i m -> up (fl_env f) stream group ->
  idling (AtClaim (claim_next ps)) (in_state m) ->
  exists s' f', turned stream group services i keeps_acked m f s' f' /\
    forall id n, st (fl_env f) id = Some (Pending n) -> sb_claimMinIdle (in_sub m) <= since (fl_env f) id ->
      (exists p, p ∈ ps /\ pe_ID p = id) -> exists p, p ∈ ps /\ pe_ID p = id /\ reclaimed m p (st_trace s') (fl_env f').
Proof.
  induction ps as [|p ps IH]; intros m f Hm Hab Hup Hi.
  { exists (in_state m), f. split; [by apply (turned_refl stream group services i keeps_acked)|]. intros id n _ _ (p & Hp & _). by apply elem_of_nil in Hp. }
  destruct (entry_turn p ps m f Hm Hab Hup Hi) as (s1 & f1 & Ht1 & Hi1 & Hgone).
  pose proof (tn_env _ _ _ _ _ _ _ _ _ Ht1) as Hg1.
  destruct (IH (set_state s1 m) f1 (tn_at _ _ _ _ _ _ _ _ _ Ht1) (able_turned _ _ _ _ _ _ _ _ _ Hab Ht1)
    (gt_up _ _ _ _ _ Hg1 Hup) Hi1) as (s2 & f2 & Ht2 & Hall).
  exists s2, f2. split.
  { eapply turned_trans; [apply _| |exact Ht2]. eapply turned_mono; [|exact Ht1]. by intros ? ? []. }
  intros id n Hn Hmin (q & Hq & Hqid). destruct (decide (id = pe_ID p)) as [->|Hne].
  - exists p. split; [by left|]. split; [done|]. eapply reclaimed_mono; [by eapply Hgone| |apply Ht2|apply Ht2].
    intros ev. by apply (turned_trace _ _ _ _ _ _ _ _ _ ev Ht2).
  - destruct (Hall id n) as (q' & Hq' & ? & Hr).
    + by apply (gt_pending _ _ _ _ _ Hg1).
    + etrans; [exact Hmin|by apply (gt_idle _ _ _ _ _ Hg1)].
    + apply elem_of_cons in Hq as [->|Hq]; [by destruct Hne|]. by exists q.
    + exists q'. split; [by right|]. by split.
Qed.

(** From the tick of the claim loop: a pending, idle entry is in the sweep. *)
Lemma pending_turn m f id n :
  is_at i m f -> able stream group services i m -> st_claim (in_state m) = CTick -> live (in_state m) ->
  up (fl_env f) stream group -> st (fl_env f) id = Some (Pending n) ->
  sb_claimMinIdle (in_sub m) <= since (fl_env f) id ->
  (forall l w', xpending_ext (in_ctx m) stream group (sb_claimMinIdle (in_sub m)) claimBatchSize (fl_env f) = (Ok l, w') ->
     Z.of_nat (length l) < claimBatchSize) ->
  1 <= n /\ exists f' s' p, turned stream group services i (keeps_stored stream) m f s' f' /\
    pe_ID p = id /\ RetryCount p = n /\ reclaimed m p (st_trace s') (fl_env f').
Proof.
  intros Hm Hab Hpc Hlive Hup Hst Hmin Hfull.
  destruct (scan_answers (in_ctx m) stream group (sb_claimMinIdle (in_sub m)) claimBatchSize (fl_env f) Hup)
    as (l & w & Hx & Hup' & _ & Hstored & Hidle & Hall).
  set (s1 := with_claim CScan (in_state m)). set (ps := map (fun p => mkPendingEntry p.1.1 p.1.2 p.2) l).
  set (s2 := with_claim (claim_next ps) (tell [SListed ps] s1)).
  assert (forall p, p ∈ ps -> pe_ID p = id -> RetryCount p = n /\ 1 <= n) as Hcount.
  { intros p (q & -> & Hq)%list_elem_of_fmap Hp. simpl in *.
    destruct (pending_returns _ _ _ _ _ _ _ _ _ Hx Hq) as [Hst' ?]. rewrite Hp, Hst in Hst'. simplify_eq. auto. }
  assert (exists p, p ∈ ps /\ pe_ID p = id) as Hin.
  { destruct (Hall (Hfull _ _ Hx) id n Hst Hmin) as (q & Hq & Hqid). exists (mkPendingEntry q.1.1 q.1.2 q.2).
    split; [|done]. apply list_elem_of_fmap. by exists q. }
  assert (step LCTick (in_state m) = Some s1) as Hs1 by (simpl; unfold claim_step; by rewrite Hpc).
  destruct (turned_local stream group services i (keeps_stored stream) LCTick m f s1 Hm Hs1 eq_refl eq_refl)
    as (f1 & Ht1 & He1).
  destruct (turned_command stream group services i (keeps_stored stream) GClaim (LCScan (Ok ps)) w (set_state s1 m) f1 s2)
    as (f2 & Ht2 & He2); [apply Ht1| |done|rewrite He1; by apply same_stored|].
  { cbn. unfold PendingOverIdle. by rewrite He1, (ab_group _ _ _ _ _ Hab), Hx. }
  assert (turned stream group services i (keeps_stored stream) m f s2 f2) as Ht by (by eapply turned_trans; [apply _|..]).
  destruct (sweep_turns ps (set_state s2 m) f2) as (s3 & f3 & Ht3 & Hgone);
    [apply Ht|by eapply able_turned|by rewrite He2|done|].
  destruct (Hgone id n) as (p & Hp & Hpid & Hr); [by rewrite He2, (pending_keeps _ _ _ _ _ _ _ _ _ Hx)|by rewrite He2, Hidle|done|].
  destruct (Hcount p Hp Hpid) as [Hn H1]. split; [done|]. exists f3, s3, p. split; [|done].
  eapply turned_trans; [apply _|exact Ht|]. eapply turned_mono; [|exact Ht3]. by intros ? ? [].
Qed.

(** ** Giving up *)

(** How a failing entry leaves: over the cap, a message of it is dead-lettered,
    undecoded and without a call of its handler; an entry that is no message has
    its fields dead-lettered. *)
Definition given_up (t : list sub_event) (id : string) : Prop :=
  let c := svc_consumer (services i) in
  exists mp topic, serving_topic (services i) mp topic /\
  ((exists msg ctx s s' es ms, SSent id msg ∈ t /\ rt_handle (svc_route (services i)) ctx msg s = (Ret None, s', es) /\
      decodes es = [] /\ calls es = [] /\
      dead_lettered c mp (deadLetter_sink c ctx) topic ReasonMaxAttemptsExceeded (cap_error c (deliveryAttempt (msg_Metadata msg)))
        (deliveryAttempt (msg_Metadata msg)) (deadLetterBody (msg_Payload msg)) None (writes es) ms) \/
   (exists fs ctx s s' es raw tm cause body, SHooked id fs None ∈ t /\
      handleUndecodable c ctx (svc_topics (services i)) stream id fs s = (Ret None, s', es) /\
      marshal_fields fs = Ok raw /\
      marshal_deadletter (letter c tm topic ReasonDeserializationFailed cause 1 (None, Some raw)) = Ok body /\
      writes es = [(dlqStream c topic, body, None)])).

(** The entry has been delivered as often as the cap allows, and its count still
    fits the metadata. *)
Definition worn_out (n : Z) : Prop :=
  MaxDeliveryAttempts (Consumer_ (c_cfg (svc_consumer (services i)))) <= n < int64_max.

Hypothesis accepted : letters_accepted E.
(** Over the cap, [dispatch] returns nil once Redis took the dead letter. *)
Lemma capped_run ctx msg w o s es :
  served (services i) -> ctx_probe ctx = None ->
  MaxDeliveryAttempts (Consumer_ (c_cfg (svc_consumer (services i)))) < deliveryAttempt (msg_Metadata msg) ->
  rt_handle (svc_route (services i)) ctx msg (delivery_state w) = (o, s, es) ->
  o = Ret None /\ forall t id, SSent id msg ∈ t -> given_up t id.
Proof using accepted.
  intros Hsv Hctx Hcap Hr. destruct (served_serving _ Hsv) as (mp & topic & Hsg).
  pose proof Hsg as [Hrt Hinst Hsink _ _]. pose proof Hr as Hd. rewrite Hrt in Hd. simpl in Hd.
  destruct (capped_yields (svc_consumer (services i)) accepted Hsink ctx topic (msg_Payload msg) (msg_Metadata msg)
    Hctx Hcap (delivery_state w)) as (r & s2 & es2 & Hy & ->).
  rewrite Hd in Hy. injection Hy as -> _ _. split; [done|]. intros t id Hin. exists mp, topic. split; [done|]. left.
  destruct (dispatch_delivery _ _ _ _ _ _ _ _ _ _ Hinst Hd) as (span & start & final & body & Hdel).
  exists msg, ctx, (delivery_state w), s, es. destruct Hdel as [(w1 & w2 & _ & Hdel & _) _ Hw Hc _ Hdec _ _ _ _ _ _].
  rewrite Hdec, Hc, Hw. rewrite <-(delivery_ctx_sink _ ctx (msg_Metadata msg) span). inversion Hdel; subst; try lia. eauto 10.
Qed.

Lemma worn_out_attempt p e msg :
  1 <= RetryCount p -> worn_out (RetryCount p) -> decodeEntry e (wrap64 (RetryCount p + 1)) = Ok msg ->
  MaxDeliveryAttempts (Consumer_ (c_cfg (svc_consumer (services i)))) < deliveryAttempt (msg_Metadata msg).
Proof using Type.
  intros H1 [Hmin Hmax] Hd. assert (in_int64 (RetryCount p + 1)) as Hin by (unfold_int64; lia).
  rewrite wrap64_id in Hd by done. apply decodeEntry_metadata in Hd as [_ Ha].
  rewrite (deliveryAttempt_stamp _ _ Ha) by (done || lia). lia.
Qed.

(** A worn out entry, once processed, is given up. *)
Lemma reclaimed_given_up m p t w' :
  able stream group services i m -> 1 <= RetryCount p -> worn_out (RetryCount p) -> reclaimed m p t w' ->
  is_acked (st w' (pe_ID p)) /\ given_up t (pe_ID p).
Proof using accepted.
  intros Hab H1 Hw (e & _ & <- & _ & Hp). unfold processed in Hp. destruct (decodeEntry e _) as [msg|err] eqn:Hd.
  - destruct Hp as (Hsent & w & o & s & es & Hr & _ & Hack).
    destruct (capped_run (ctx_without_cancel (in_ctx m)) _ _ _ _ _ (ab_served _ _ _ _ _ Hab) (ab_ctx _ _ _ _ _ Hab)
      (worn_out_attempt _ _ _ H1 Hw Hd) Hr) as [-> Hg]. auto.
  - destruct Hp as (w & r & s & es & Hr & Hev & Hack).
    destruct (served_serving _ (ab_served _ _ _ _ _ Hab)) as (mp & topic & Hsg). pose proof Hsg as [_ Hinst Hsink Htop _].
    rewrite (ab_stream _ _ _ _ _ Hab) in Htop.
    destruct (undecodable_yields (svc_consumer (services i)) accepted Hsink (in_ctx m) (svc_topics (services i)) stream topic
      (ent_ID e) (Fields e) (ab_ctx _ _ _ _ _ Hab) Htop (delivery_state w)) as (r' & s' & es' & Hr' & ->).
    rewrite Hr in Hr'. injection Hr' as -> _ _. split; [auto|]. exists mp, topic. split; [done|]. right.
    destruct (handleUndecodable_run (svc_consumer (services i)) mp (in_ctx m) (svc_topics (services i)) stream (ent_ID e)
      (Fields e) (delivery_state w) Hinst) as (o & w2 & t2 & Hrun & _ & _ & Hspec).
    rewrite Hr in Hrun. injection Hrun as <- <- <-. rewrite Htop in Hspec. destruct Hspec as (_ & _ & Hwr).
    destruct (Hwr eq_refl) as (raw & tm & cause & body & ? & ? & ?).
    exists (Fields e), (in_ctx m), (delivery_state w), s, es, raw, tm, cause, body. done.
Qed.
End progress.

(** ** Claims *)

Section claims.
Context {E : Type} `{HEnv : !Env E, HFmt : !GoFmt, HTime : !GoTime, HJson : !JsonCodec, HMeter : !MeterApi}.
Context `{HRedis : !RedisClient E, HGroups : !ConsumerGroups E, HUp : !AnsweringGroups E, HUnm : !WmUnmarshaller}.
Variables (stream group : string) (services : nat -> service E) (i : nat).
Context `{HQuiet : !QuietEnv (calm stream group (E := E))}.
#[local] Set Default Proof Using "Type*".

(** C8: what is published gets processed.  Take any entry that waits on the
    stream.  Any instance of the service that is not shutting down, has a free
    slot and whose read loop is about to read can, by its own steps alone and
    whatever the handlers of older entries do, read the entry, with the fields it
    was stored with, and get it processed as its first delivery: if it is a
    message, it is handed to the router and [dispatch] runs on it, else the hook
    runs on its fields, and it is acknowledged if that returned nil.  Redis must
    answer. *)
Theorem waiting_entries_are_processed lossy w0 f m id :
  deployed stream group services (calm stream group) -> service_reachable stream group services lossy w0 f ->
  is_at i m f -> st_read (in_state m) = RAcquire -> live (in_state m) ->
  up (fl_env f) stream group -> status_of (fl_env f) stream group id = Some Waiting ->
  exists f' s' e, serves_alone stream group services i f f' /\ is_at i (set_state s' m) f' /\
    SRead e ∈ st_trace s' /\ ent_ID e = id /\ stored (fl_env f') stream id = Some (Fields e) /\
    processed stream group services i (in_ctx m) (st_trace s') (fl_env f') e 1.
Proof.
  intros Hd Hreach Hm Hpc Hlive Hup Hst. destruct (reached_able _ _ _ _ _ _ _ _ Hd Hreach Hm) as [Hab _].
  apply waiting_status, list_elem_of_split in Hst as (pre & post & Hw); [|done].
  destruct (read_turns _ _ _ _ pre m f id post Hm Hab Hup (conj Hpc Hlive) Hw) as (s' & f' & e & [] & ?). by exists f', s', e.
Qed.

(** C9: what stays pending gets processed again.  Take any entry that is pending
    and has been idle for ClaimMinIdle, whoever holds it.  Any instance of the
    service that is not shutting down, has a free slot and whose claim loop waits
    for its next tick can, by its own steps alone and whatever the handlers of the
    other entries do, sweep the pending list, claim the entry, with the fields it
    was stored with, and get it processed as the delivery after those Redis
    counted.  Redis must answer, and list the entry in one sweep. *)
Theorem pending_entries_are_processed lossy w0 f m id n :
  deployed stream group services (calm stream group) -> service_reachable stream group services lossy w0 f ->
  is_at i m f -> st_claim (in_state m) = CTick -> live (in_state m) ->
  up (fl_env f) stream group -> status_of (fl_env f) stream group id = Some (Pending n) ->
  sb_claimMinIdle (in_sub m) <= idle_for (fl_env f) stream group id ->
  (forall l w', xpending_ext (in_ctx m) stream group (sb_claimMinIdle (in_sub m)) claimBatchSize (fl_env f) = (Ok l, w') ->
     Z.of_nat (length l) < claimBatchSize) ->
  exists f' s' e, serves_alone stream group services i f f' /\ is_at i (set_state s' m) f' /\
    (exists p, SClaimed p e ∈ st_trace s' /\ RetryCount p = n) /\ ent_ID e = id /\
    stored (fl_env f') stream id = Some (Fields e) /\
    processed stream group services i (in_ctx m) (st_trace s') (fl_env f') e (wrap64 (n + 1)).
Proof.
  intros Hd Hreach Hm Hpc Hlive Hup Hst Hmin Hfull. destruct (reached_able _ _ _ _ _ _ _ _ Hd Hreach Hm) as [Hab _].
  destruct (pending_turn _ _ _ _ m f id n Hm Hab Hpc Hlive Hup Hst Hmin Hfull)
    as (_ & f' & s' & p & [Ha Hm' _ _] & <- & <- & e & Hev & He & Hs & Hp). exists f', s', e. eauto 10.
Qed.

(** C10: an entry that keeps failing does not stay.  Take any entry that is
    pending, has been delivered as often as MaxDeliveryAttempts allows and has
    been idle for ClaimMinIdle.  Any instance of the service that is not shutting
    down, has a free slot and whose claim loop waits for its next tick can, by its
    own steps alone, sweep the pending list and get it acknowledged: it is
    dead-lettered by one successful write, without being decoded or given to a
    handler, or, if it is no message, with its raw fields.  Redis must answer,
    take the dead letter, and list the entry in one sweep. *)
Theorem worn_out_entries_leave lossy w0 f m id n :
  letters_accepted E ->
  deployed stream group services (calm stream group) -> service_reachable stream group services lossy w0 f ->
  is_at i m f -> st_claim (in_state m) = CTick -> live (in_state m) ->
  up (fl_env f) stream group -> status_of (fl_env f) stream group id = Some (Pending n) -> worn_out services i n ->
  sb_claimMinIdle (in_sub m) <= idle_for (fl_env f) stream group id ->
  (forall l w', xpending_ext (in_ctx m) stream group (sb_claimMinIdle (in_sub m)) claimBatchSize (fl_env f) = (Ok l, w') ->
     Z.of_nat (length l) < claimBatchSize) ->
  exists f' s', serves_alone stream group services i f f' /\ is_at i (set_state s' m) f' /\
    is_acked (status_of (fl_env f') stream group id) /\ given_up stream services i (st_trace s') id.
Proof.
  intros Hacc Hd Hreach Hm Hpc Hlive Hup Hst Hw Hmin Hfull.
  destruct (reached_able _ _ _ _ _ _ _ _ Hd Hreach Hm) as [Hab _].
  destruct (pending_turn _ _ _ _ m f id n Hm Hab Hpc Hlive Hup Hst Hmin Hfull)
    as (H1 & f' & s' & p & [Ha Hm' _ _] & <- & <- & Hr). exists f', s'. split; [done|]. split; [done|].
  by eapply reclaimed_given_up.
Qed.
End claims.

(** ** Witnesses *)

(** The order that waits. *)
Lemma waiting_entries_are_processed_witness :
  status_of (fl_env order_waits) sample_stream sample_group "1-0" = Some Waiting /\
  exists f' s' e, serves_alone sample_stream sample_group (fun _ => sample_service) 0 order_waits f' /\
    is_at 0 (set_state s' (instance_at 0 order_waits)) f' /\
    SRead e ∈ st_trace s' /\ ent_ID e = "1-0" /\ stored (fl_env f') sample_stream "1-0" = Some (Fields e) /\
    processed sample_stream sample_group (fun _ => sample_service) 0 (in_ctx (instance_at 0 order_waits)) (st_trace s')
      (fl_env f') e 1.
Proof.
  assert (status_of (fl_env order_waits) sample_stream sample_group "1-0" = Some Waiting) as Hst
    by (vm_compute; reflexivity).
  split; [exact Hst|].
  refine (waiting_entries_are_processed sample_stream sample_group (fun _ => sample_service) 0 false sample_server
    order_waits (instance_at 0 order_waits) "1-0" (sample_deployed _ _) _ _ _ _ _ Hst).
  - apply service_after; [constructor|]. by repeat constructor.
  - vm_compute. reflexivity.
  - vm_compute. reflexivity.
  - split; [vm_compute; reflexivity|]. vm_compute. lia.
  - eapply one_entry_answers; vm_compute; reflexivity.
Defined.

(** The order a crashed instance left behind. *)
Lemma pending_entries_are_processed_witness :
  status_of (fl_env order_left) sample_stream sample_group "1-0" = Some (Pending 1) /\
  exists f' s' e, serves_alone sample_stream sample_group (fun _ => sample_service) 1 order_left f' /\
    is_at 1 (set_state s' (instance_at 1 order_left)) f' /\
    (exists p, SClaimed p e ∈ st_trace s' /\ RetryCount p = 1) /\ ent_ID e = "1-0" /\
    stored (fl_env f') sample_stream "1-0" = Some (Fields e) /\
    processed sample_stream sample_group (fun _ => sample_service) 1 (in_ctx (instance_at 1 order_left)) (st_trace s')
      (fl_env f') e (wrap64 (1 + 1)).
Proof.
  assert (status_of (fl_env order_left) sample_stream sample_group "1-0" = Some (Pending 1)) as Hst
    by (vm_compute; reflexivity).
  split; [exact Hst|].
  refine (pending_entries_are_processed sample_stream sample_group (fun _ => sample_service) 1 false sample_server
    order_left (instance_at 1 order_left) "1-0" 1 (sample_deployed _ _) _ _ _ _ _ Hst _ _).
  - apply service_after; [apply service_later, service_crashed_reachable|]. by repeat constructor.
  - vm_compute. reflexivity.
  - vm_compute. reflexivity.
  - split; [vm_compute; reflexivity|]. vm_compute. lia.
  - eapply one_entry_answers; vm_compute; reflexivity.
  - vm_compute. discriminate.
  - intros l w' Hx. vm_compute in Hx. injection Hx as <- _. vm_compute. reflexivity.
Defined.

Lemma server_accepts : letters_accepted server.
Proof. by split. Qed.

Lemma worn_out_joined_reachable :
  service_reachable sample_stream sample_group (fun _ => sample_service) false worn_server worn_out_joined.
Proof. apply service_after; [constructor|]. by repeat constructor. Qed.

Lemma worn_server_up : up (fl_env worn_out_joined) sample_stream sample_group.
Proof.
  eapply one_entry_answers; vm_compute; reflexivity.
Qed.

(** The order that failed five times. *)
Lemma worn_out_entries_leave_witness :
  status_of (fl_env worn_out_joined) sample_stream sample_group "1-0" = Some (Pending 5) /\
  exists f' s', serves_alone sample_stream sample_group (fun _ => sample_service) 0 worn_out_joined f' /\
    is_at 0 (set_state s' (instance_at 0 worn_out_joined)) f' /\
    is_acked (status_of (fl_env f') sample_stream sample_group "1-0") /\
    given_up sample_stream (fun _ => sample_service) 0 (st_trace s') "1-0".
Proof.
  assert (status_of (fl_env worn_out_joined) sample_stream sample_group "1-0" = Some (Pending 5)) as Hst
    by (vm_compute; reflexivity).
  split; [exact Hst|].
  refine (worn_out_entries_leave sample_stream sample_group (fun _ => sample_service) 0 false worn_server
    worn_out_joined (instance_at 0 worn_out_joined) "1-0" 5 server_accepts (sample_deployed _ _) worn_out_joined_reachable _ _ _
    worn_server_up Hst _ _ _).
  - vm_compute. reflexivity.
  - vm_compute. reflexivity.
  - split; [vm_compute; reflexivity|]. vm_compute. lia.
  - split; vm_compute; [discriminate|reflexivity].
  - vm_compute. discriminate.
  - intros l w' Hx. vm_compute in Hx. injection Hx as <- _. vm_compute. reflexivity.
Defined.
