(* ===== verification/SampleJourney.v ===== *)
(** * A sample server that takes entries

    The server of [SampleFleet] with an XADD that adds an entry, the fields a
    message makes, and a service over it whose consumer has a typed handler. *)

From S2P Require Import Prelude GoStrings GoErrors Validation Registry Config Runtime Sample.
From S2P Require Import Telemetry Delivery DeliveryProperties DeliveryFrame Publisher StreamReader Subscriber Router.
From S2P Require Import Lifecycle LifecycleProperties Json Wire OnTheWire Fleet SampleFleet SampleAnswers.
From S2P Require Import Service SampleService ServiceProperties ServiceTurns.
From S2P Require SampleDelivery.
From stdpp Require Import options countable.

(** ** Messages as fields *)

Fixpoint bits (p : positive) : string :=
  match p with xH => "" | xO p => String "0" (bits p) | xI p => String "1" (bits p) end.

Fixpoint of_bits (s : string) : positive :=
  match s with "" => xH | String c s => if Ascii.eqb c "1" then xI (of_bits s) else xO (of_bits s) end.

Lemma of_to_bits p : of_bits (bits p) = p.
Proof. induction p; simpl; congruence. Qed.

(** The payload in one field, the metadata in another. *)
Definition marshalled (body : string) (md : metadata) : fields :=
  <["payload" := body]> {[ "metadata" := bits (encode md) ]}.

#[export] Instance fields_unmarshaller : WmUnmarshaller := {
  wm_unmarshal f :=
    match f !! "payload", f !! "metadata" ≫= fun s => decode (of_bits s) with
    | Some body, Some md => Ok (mkMessage body md)
    | _, _ => Err (errorf "missing fields")
    end;
}.

Lemma unmarshal_marshalled body md : wm_unmarshal (marshalled body md) = Ok (mkMessage body md).
Proof.
  assert (marshalled body md !! "payload" = Some body) as Hp by apply lookup_insert_eq.
  assert (marshalled body md !! "metadata" = Some (bits (encode md))) as Hm.
  { etrans; [by apply lookup_insert_ne|]. apply lookup_singleton_eq. }
  simpl. rewrite Hp, Hm. simpl. by rewrite of_to_bits, decode_encode.
Qed.

(** ** Entries are added *)

Definition ids_of (w : server) : list string := sv_order w ++ map fst (map_to_list (sv_slots w)).

Lemma length_append s1 s2 : String.length (s1 +:+ s2) = (String.length s1 + String.length s2)%nat.
Proof. induction s1; simpl; [done|]. by f_equal. Qed.

(** Longer than any ID there is. *)
Definition next_id (w : server) : string := foldr String.append "0" (ids_of w).

Lemma long_append ids id : id ∈ ids -> (String.length id < String.length (foldr String.append "0" ids))%nat.
Proof.
  induction ids as [|x ids IH]; simpl; [by intros ?%elem_of_nil|]. rewrite length_append.
  intros [->|Hin]%elem_of_cons; [|specialize (IH Hin); lia].
  assert (1 <= String.length (foldr String.append "0" ids))%nat; [|lia].
  clear. induction ids; simpl; [done|]. rewrite length_append. lia.
Qed.

Lemma next_id_fresh w : next_id w ∉ ids_of w.
Proof. intros Hin%long_append. unfold next_id in Hin. lia. Qed.

Lemma next_id_slot w : sv_slots w !! next_id w = None.
Proof.
  destruct (sv_slots w !! next_id w) as [sl|] eqn:Hsl; [|done]. destruct (next_id_fresh w). apply elem_of_app. right.
  apply list_elem_of_fmap. exists (next_id w, sl). split; [done|]. by apply elem_of_map_to_list.
Qed.

Definition add_entry (body : string) (md : metadata) (w : server) : server :=
  mkServer (sv_clock w) (sv_group w) (sv_order w ++ [next_id w])
    (<[next_id w := mkSlot (marshalled body md) SWaiting 0]> (sv_slots w)).

#[export] Instance broker_env : Env server := {
  env_now := env_now;
  env_uuid := env_uuid;
  env_rand := env_rand;
  env_ctx_done := env_ctx_done;
  env_timer_first := env_timer_first;
  env_xadd _ _ _ body md w := (None, add_entry body md w);
  env_start_span := env_start_span;
  env_span_ids := env_span_ids (E := server);
  env_extract := env_extract (E := server);
  env_inject := env_inject;
}.

(** Adding an entry leaves the others as they are. *)
Lemma add_entry_lookup body md w id :
  is_Some (sv_slots w !! id) -> sv_slots (add_entry body md w) !! id = sv_slots w !! id.
Proof.
  intros Hsl. simpl. rewrite lookup_insert_ne; [done|]. intros <-. rewrite next_id_slot in Hsl. by destruct Hsl.
Qed.

Lemma add_entry_status stream group body md w id :
  server_status (add_entry body md w) stream group id = server_status w stream group id \/
  server_status w stream group id = None /\ server_status (add_entry body md w) stream group id = Some Waiting.
Proof.
  unfold server_status. destruct (decide (id = next_id w)) as [->|Hne].
  - right. rewrite next_id_slot. simpl. by rewrite lookup_insert_eq.
  - left. simpl. by rewrite lookup_insert_ne.
Qed.

Lemma add_entry_answering stream group body md w :
  answering w stream group -> answering (add_entry body md w) stream group.
Proof.
  intros [Hup [Hnd Ho]]. split; [done|]. split; simpl.
  - apply list.NoDup_app. split; [done|]. split; [|apply NoDup_singleton]. intros id Hid ->%list_elem_of_singleton.
    apply (next_id_fresh w), elem_of_app. by left.
  - intros id. rewrite elem_of_app, list_elem_of_singleton. destruct (decide (id = next_id w)) as [->|Hne]; [by right|].
    rewrite lookup_insert_ne by done. left. by apply Ho.
Qed.

Lemma add_entry_waiting stream group body md w :
  server_waiting w stream group `prefix_of` server_waiting (add_entry body md w) stream group.
Proof.
  unfold server_waiting. simpl. rewrite List.filter_app. eexists. f_equal. apply List.filter_ext_in. intros id Hid.
  unfold waits. simpl. rewrite lookup_insert_ne; [done|]. intros <-. apply (next_id_fresh w), elem_of_app. left.
  by apply list_elem_of_In.
Qed.

Lemma add_entry_idle stream group body md w id :
  (server_idle w stream group id <= server_idle (add_entry body md w) stream group id)%Z.
Proof.
  unfold server_idle, idle_of. destruct (decide (id = next_id w)) as [->|Hne].
  - rewrite next_id_slot. simpl. by rewrite lookup_insert_eq.
  - simpl. by rewrite lookup_insert_ne.
Qed.

#[export] Instance broker_quiet stream group : QuietEnv (calm stream group (E := server)).
Proof.
  split; try (intros; simpl; reflexivity). intros ctx s id body md w. simpl.
  split; [intros id'; apply add_entry_status|]. split; [apply add_entry_answering|]. split; [apply add_entry_waiting|].
  split; [|intros id'; apply add_entry_idle]. intros id' fs. simpl. unfold server_stored. intros Hs.
  rewrite add_entry_lookup; [done|]. by destruct (sv_slots w !! id').
Qed.

#[export] Instance broker_writes : StreamWrites server.
Proof.
  split. intros ctx stream group id body md w w' _. simpl. intros [= <-].
  exists (next_id w), (marshalled body md). simpl. unfold server_status, server_stored. simpl.
  rewrite lookup_insert_eq. split; [done|]. split; [done|]. apply unmarshal_marshalled.
Qed.

(** ** The service *)

#[local] Existing Instance SampleDelivery.plain_meter.
#[local] Existing Instance OnTheWire.plain_errors.
#[local] Existing Instance OnTheWire.string_payloads.
#[local] Existing Instance OnTheWire.raw_payload.

Definition journey_labels : list (life_label server) :=
  [LvRegister _ sample_def content; LvRun; LvConnect 0 None; LvStore 0; LvBuild 0 None].

Definition journey_service : service server := service_after_life journey_labels.

Lemma journey_served : served journey_service.
Proof. apply served_after_life; vm_compute; reflexivity. Qed.

Lemma journey_routes topic ty major h m :
  lookup_route (c_registry (svc_consumer journey_service)) topic ty major = (Some h, m) -> h = typedDispatch content.
Proof.
  assert (raw (c_registry (svc_consumer journey_service)) = ∅) as Hraw by (vm_compute; reflexivity).
  assert (typed (c_registry (svc_consumer journey_service)) =
    {[ mkRouteKey "orders" "order.created" 1 := typedDispatch content ]}) as Htyped by reflexivity.
  unfold lookup_route. rewrite Hraw, Htyped, lookup_empty. destruct (_ !! mkRouteKey topic ty major) as [h'|] eqn:Hl.
  - apply lookup_singleton_Some in Hl as [_ <-]. by intros [= <- _].
  - done.
Qed.

(** A typed handler does to the environment what the handler it wraps does. *)
Lemma typedDispatch_quiet ctx env (w : server) : (typedDispatch content ctx env w).2 = w.
Proof. unfold typedDispatch. by repeat case_match. Qed.

Lemma journey_deployed (Q : server -> server -> Prop) :
  Reflexive Q -> deployed sample_stream sample_group (fun _ => journey_service) Q.
Proof.
  intros HQ. split; intros _; [exact journey_served|vm_compute; reflexivity|vm_compute; reflexivity|].
  intros topic ty major h m ->%journey_routes ctx env w. rewrite typedDispatch_quiet. apply HQ.
Qed.

(** An empty stream, which one instance reads, and a publisher. *)
Definition journey_fleet : fleet server :=
  default (mkFleet sample_server []) (service_run sample_stream sample_group (fun _ => journey_service) [SJoin background]
    (mkFleet (mkServer 10 false [] ∅) [])).

Definition journey_publisher : Publisher server :=
  mkPublisher minimal_validated (mkWmPublisher (NewClient (redisClientOptions (Redis minimal_validated))))
    (instruments_of (Some 1%nat)) wm_Publish.

Definition journey_publish :=
  Publish journey_publisher background sample_def "{}" [WithCorrelationID "c-7"] (fl_env journey_fleet).

Definition journey_registered : Consumer server * option error := RegisterHandler service_start sample_def content.

Lemma journey_reachable :
  service_reachable sample_stream sample_group (fun _ => journey_service) false (mkServer 10 false [] ∅) journey_fleet.
Proof.
  eapply (service_reachable_step _ _ _ _ _ (SJoin background)); [constructor|done|]. reflexivity.
Qed.

Lemma journey_up : up (fl_env journey_fleet) sample_stream sample_group.
Proof. split; [vm_compute; reflexivity|]. split; [apply NoDup_nil_2|]. intros id [sl Hsl]. by vm_compute in Hsl. Qed.
