(* ===== verification/Journey.v ===== *)
(** * From a publisher to a handler, through Redis

    The whole path of an event: what [Publish] writes is an entry of the stream
    that waits for the group, any live instance of the service can read it, and
    the handler registered for the event definition is called with the payload
    that was published. *)

From S2P Require Import Prelude GoStrings GoErrors Validation Registry Config Runtime Sample.
From S2P Require Import Telemetry Delivery DeliverySpec DeliveryProperties DeliveryFrame Publisher.
From S2P Require Import StreamReader Subscriber SubscriberProperties SubscriberTraces Router.
From S2P Require Import Lifecycle LifecycleProperties TestHarness.
From S2P Require Import Json JsonString Rfc3339 Wire WireProperties OnTheWire.
From S2P Require Import Fleet SubscriberTurns SampleFleet SampleAnswers FleetProperties.
From S2P Require Import FleetRecovery Service SampleService ServiceProperties ServiceTurns ServiceProgress SampleJourney.
From S2P Require SampleDelivery.
From stdpp Require Import options.

#[local] Set Default Proof Using "Type*".

(** ** What a publish does to the world around it *)

Section wrote.
Context {E : Type} `{HEnv : !Env E}.
Variable Q : E -> E -> Prop.
Context `{HQ : !PreOrder Q, HQuiet : !QuietEnv Q}.

(** A run moves the environment by [Q], and every successful write on its trace
    was an XADD on the way. *)
Definition wrote (w w' : E) (t : list event) : Prop :=
  Q w w' /\ forall stream body, (stream, body, None) ∈ writes t ->
    exists ctx id md w1 w2, Q w w1 /\ env_xadd ctx stream id body md w1 = (None, w2) /\ Q w2 w'.

#[export] Instance wrote_trail : Trail wrote.
Proof.
  split.
  - intros w. split; [done|]. intros stream body Hin. by apply elem_of_nil in Hin.
  - intros w1 w2 w3 t1 t2 [H12 Hw1] [H23 Hw2]. split; [by etrans|]. intros stream body. rewrite writes_app.
    intros [(ctx & id & md & wa & wb & ? & ? & ?)%Hw1|(ctx & id & md & wa & wb & ? & ? & ?)%Hw2]%elem_of_app;
      exists ctx, id, md, wa, wb; (split; [|split]); try done; by etrans.
Qed.

Lemma wrote_nothing {A} (m : M E A) :
  (forall w, Q w (m w).1.2) -> (forall w, writes (m w).2 = []) -> respects wrote m.
Proof.
  intros Hm Hw w. split; [apply Hm|]. intros stream body. rewrite Hw. by intros ?%elem_of_nil.
Qed.

Lemma wrote_emit e : writes [e] = [] -> respects wrote (emit e).
Proof. intros He. by apply wrote_nothing. Qed.

Lemma wrote_add i a : respects wrote (add i a).
Proof. unfold add. destruct (i_provider i); [by apply wrote_emit|apply respects_ret, _]. Qed.

Lemma wrote_now : respects wrote now.
Proof.
  apply wrote_nothing; intros w; unfold now; [pose proof (quiet_now w)|]; by destruct (env_now w).
Qed.

Lemma wrote_uuid : respects wrote new_uuid.
Proof.
  apply wrote_nothing; intros w; unfold new_uuid; [pose proof (quiet_uuid w)|]; by destruct (env_uuid w).
Qed.

Lemma wrote_span ctx name a : respects wrote (start_span ctx name a).
Proof.
  apply wrote_nothing; intros w; unfold start_span; [pose proof (quiet_span ctx w)|]; by destruct (env_start_span ctx w).
Qed.

Lemma wrote_publish ctx stream id body md : respects wrote (wm_Publish ctx stream id body md).
Proof.
  apply (respects_bind wrote); [|intros []; apply (respects_ret wrote)].
  intros w. unfold xadd. pose proof (quiet_xadd ctx stream id body md w) as Hx.
  destruct (env_xadd ctx stream id body md w) as [err w'] eqn:Hadd. split; [exact Hx|].
  intros stream' body' Hin. simpl in Hin. apply list_elem_of_singleton in Hin. simplify_eq.
  exists ctx, id, md, w, w'. by split_and!.
Qed.

Section publisher.
Context {P : Type} `{HTime : !GoTime, HMar : !Marshaler P}.
Variable p : Publisher E.
Hypothesis to_redis : p_publishFn p = wm_Publish.

Create HintDb wrote.
Hint Resolve wrote_add wrote_now wrote_uuid wrote_span wrote_publish : wrote.
Hint Extern 1 (respects wrote (emit _)) => by apply wrote_emit : wrote.
Hint Extern 1 (respects wrote (ret _)) => apply (respects_ret wrote) : wrote.
Ltac wrote_tac :=
  repeat first [progress intros|solve [auto with wrote]|apply (respects_bind wrote)
               |apply (respects_with_defer wrote)|case_match].

Lemma wrote_publish_body ctx span stream def (payload : P) options :
  respects wrote (publish_body p ctx span stream def payload options).
Proof. unfold publish_body, resolveCorrelationID, newEnvelope, fail. rewrite to_redis. wrote_tac. Qed.

Lemma wrote_Publish ctx def (payload : P) opts : respects wrote (Publish p ctx def payload opts).
Proof. unfold Publish. pose proof wrote_publish_body. wrote_tac. Qed.
End publisher.
End wrote.

(** ** The journey of an event *)

Section journey.
Context {E T : Type} `{HEnv : !Env E, HFmt : !GoFmt, HErr : !JsonErrors, HMeter : !MeterApi}.
Context `{HPay : !PayloadMarshaler T, HDec : !Payloads T}.
Context `{HRedis : !RedisClient E, HGroups : !ConsumerGroups E, HUp : !AnsweringGroups E, HUnm : !WmUnmarshaller}.
Context `{HWrites : !StreamWrites E}.
Variables (stream group : string) (services : nat -> service E) (i : nat).
Context `{HQuiet : !QuietEnv (calm stream group (E := E))}.
Local Notation "'the_consumer'" := (svc_consumer (services i)).

(** What was written waits, and stays what it is. *)
Lemma written_waits w w' t body :
  up w stream group -> wrote (calm stream group) w w' t -> (stream, body, None) ∈ writes t ->
  up w' stream group /\ exists entry fs md, entry ∈ waiting w' stream group /\
    stored w' stream entry = Some fs /\ wm_unmarshal fs = Ok (mkMessage body md).
Proof.
  intros Hup [Hq Hw] (ctx & id & md & w1 & w2 & (_ & Hu1 & _) & Hx & Hc)%Hw. split; [by apply Hq|].
  destruct (write_waits ctx stream group id body md w1 w2 (Hu1 Hup) Hx) as (entry & fs & Hst & Hfs & Hmsg).
  exists entry, fs, md. pose proof (quiet_xadd (Q := calm stream group) ctx stream id body md w1) as (_ & Hu2 & _).
  rewrite Hx in Hu2. destruct Hc as (_ & _ & Hwait & Hs & _).
  split; [|split; [by apply Hs|done]]. eapply elem_of_prefix; [|exact Hwait]. apply waiting_status; [|done]. by apply Hu2, Hu1.
Qed.

(** The first delivery of an entry whose message holds the body. *)
Lemma decoded_message e fs md body :
  Fields e = fs -> wm_unmarshal fs = Ok (mkMessage body md) ->
  exists msg, decodeEntry e 1 = Ok msg /\ msg_Payload msg = body /\ deliveryAttempt (msg_Metadata msg) = 1.
Proof.
  intros <- Hm. destruct (decodeEntry e 1) as [msg|err] eqn:Hd; [|unfold decodeEntry in Hd; by rewrite Hm in Hd].
  exists msg. split; [done|]. split.
  - unfold decodeEntry in Hd. rewrite Hm in Hd. by injection Hd as <-.
  - eapply deliveryAttempt_stamp; [by eapply decodeEntry_metadata|lia|done].
Qed.

(** C11: an event goes from the publisher to its handler.  [Publish] succeeds on the
    stream that an instance of the service reads; [h] is registered there for
    the event definition; the payload's own encoding [raw] is JSON, nested less
    deep than the decoder's limit, and decodes back to the payload.  Then the instance,
    if it is not shutting down, has a free slot and its read loop is about to
    read, can by its own steps alone read an entry and hand it to the router,
    and [dispatch] then called, at least once and with nothing else, the
    handler of that registration: the calls on its trace are runs of [h], with
    the results on the trace, on the published payload, in an envelope with the
    definition's type and version and the returned time and, up to replaced
    invalid UTF-8, ID, under the publish's correlation ID.  If the delivery returned nil, the entry is acknowledged.
    Redis must answer, and MaxDeliveryAttempts must allow a delivery. *)
Theorem published_events_reach_handlers (p : Publisher E) mp (c0 c1 : Consumer E) ctx def (h : Handler E T) payload opts
    lossy w0 f m w' t res raw d :
  p_inst p = instruments_of mp -> p_publishFn p = wm_Publish ->
  deployed stream group services (calm stream group) -> service_reachable stream group services lossy w0 f ->
  is_at i m f -> st_read (in_state m) = RAcquire -> live (in_state m) -> up (fl_env f) stream group ->
  streamName the_consumer (Topic def) = stream -> StreamPrefix (c_cfg the_consumer) = StreamPrefix (p_cfg p) ->
  RegisterHandler c0 def h = (c1, None) -> c_registry the_consumer = c_registry c1 ->
  1 <= MaxDeliveryAttempts (Consumer_ (c_cfg the_consumer)) ->
  payload_marshal payload = Ok raw -> payload_unmarshal raw = Ok payload ->
  value d (of_string raw) -> (S d <= max_depth)%nat ->
  Publish p ctx def payload opts (fl_env f) = (Ret (Ok res), w', t) ->
  exists f' s' entry msg w o s es corr n,
    serves_alone stream group services i (mkFleet w' (fl_instances f)) f' /\ is_at i (set_state s' m) f' /\
    writes t = [(stream, msg_Payload msg, None)] /\ SSent entry msg ∈ st_trace s' /\
    rt_handle (svc_route (services i)) (ctx_without_cancel (in_ctx m)) msg (delivery_state w) = (o, s, es) /\
    SSettled entry msg (acked_by_router o) ∈ st_trace s' /\
    (o = Ret None -> is_acked (status_of (fl_env f') stream group entry)) /\
    correlation_choice ctx (options_of opts) corr /\
    let env {U} (pl : U) := mkEnvelope (clean (pr_EventID res)) (Type_ def) (pr_Timestamp res) (Version def)
                              (clean corr) (clean (cfg_Source (p_cfg p))) pl in
    calls es = replicate (S n) (Some (clean corr), env raw) /\
    runs_handler the_consumer (ctx_without_cancel (in_ctx m)) (msg_Metadata msg)
      (fun ctx => h (contextWithCorrelationID ctx (clean corr)) (env payload)) (delivery_state w) es s.
Proof.
  intros Hi Hf Hd Hreach Hm Hpc Hlive Hup Hstream Hpre Hreg Hcr Hcap Hraw Hdec Hv Hdep Hrun.
  destruct (reached_able _ _ _ _ _ _ _ _ Hd Hreach Hm) as [Hab _].
  destruct (served_serving _ (ab_served _ _ _ _ _ Hab)) as (mc & topic & [Hrt Hinst _ _ _]).
  pose proof (ab_stream _ _ _ _ _ Hab) as Hs. rewrite Hrt, <-Hstream in Hs. simpl in Hs. apply streamName_inj in Hs as ->.
  destruct (publish_wire p mp the_consumer ctx def payload opts _ w' t res raw d Hi Hf Hpre Hraw Hv Hdep Hrun)
    as (body & _ & Hw & _). rewrite Hstream in Hw.
  pose proof (wrote_Publish (calm stream group) p Hf ctx def payload opts (fl_env f)) as Hwrote. rewrite Hrun in Hwrote.
  destruct (written_waits (fl_env f) w' t body Hup Hwrote) as (Hup' & entry & fs & md & Hin & Hfs & Hmsg);
    [rewrite Hw; by left|].
  apply list_elem_of_split in Hin as (pre & post & Hwait). set (f1 := mkFleet w' (fl_instances f)) in *.
  destruct (read_turns _ _ _ _ pre m f1 entry post Hm Hab Hup' (conj Hpc Hlive) Hwait)
    as (s' & f' & e & Ht & _ & He & Hst & Hp).
  pose proof (tn_env _ _ _ _ _ _ _ _ _ Ht entry fs Hfs) as Hfs'. rewrite Hst in Hfs'. injection Hfs' as Hfe.
  destruct (decoded_message e fs md body Hfe Hmsg) as (msg & Hdm & Hbody & Hatt).
  unfold processed in Hp. rewrite Hdm, He in Hp. destruct Hp as (Hsent & w & o & s & es & Hh & Hset & Hack).
  pose proof Hh as Hdisp. rewrite Hrt in Hdisp. simpl in Hdisp.
  destruct (published_event_is_handled p mp c0 c1 the_consumer mc ctx (ctx_without_cancel (in_ctx m)) def h payload opts
    (fl_env f) w' t res raw d (msg_Metadata msg) (delivery_state w) s o es) as (body' & Hw' & Hc); [done..|by rewrite Hatt|].
  rewrite Hstream, Hw in Hw'. injection Hw' as <-. rewrite Hbody in Hdisp.
  destruct (Hc Hdisp) as (corr & n & Hcorr & Hcalls & Hroute).
  exists f', s', entry, msg, w, o, s, es, corr, n. destruct Ht as [Ha Hm' _ _]. rewrite Hbody. by split_and!.
Qed.
End journey.

(** ** Witnesses *)

#[local] Existing Instance SampleDelivery.plain_meter.
#[local] Existing Instance OnTheWire.plain_errors.
#[local] Existing Instance OnTheWire.string_payloads.
#[local] Existing Instance OnTheWire.raw_payload.

(** An event published to the empty stream. *)
Lemma published_events_reach_handlers_witness :
  journey_registered.2 = None /\ journey_publish.1.1 = Ret (Ok (mkPublishResult "id-10" 10)) /\
    exists f' s' entry msg w o s es corr n,
    serves_alone sample_stream sample_group (fun _ => journey_service) 0
      (mkFleet journey_publish.1.2 (fl_instances journey_fleet)) f' /\
    is_at 0 (set_state s' (instance_at 0 journey_fleet)) f' /\
    writes journey_publish.2 = [(sample_stream, msg_Payload msg, None)] /\ SSent entry msg ∈ st_trace s' /\
    rt_handle (svc_route journey_service) (ctx_without_cancel (in_ctx (instance_at 0 journey_fleet))) msg
      (delivery_state w) = (o, s, es) /\
    SSettled entry msg (acked_by_router o) ∈ st_trace s' /\
    (o = Ret None -> is_acked (status_of (fl_env f') sample_stream sample_group entry)) /\
    let env {U} (pl : U) := mkEnvelope (clean "id-10") "order.created" 10 "1.0.0" (clean corr)
                              (clean (cfg_Source minimal_validated)) pl in
    calls es = replicate (S n) (Some (clean corr), env "{}") /\
    runs_handler (svc_consumer journey_service) (ctx_without_cancel (in_ctx (instance_at 0 journey_fleet)))
      (msg_Metadata msg) (fun ctx => content (contextWithCorrelationID ctx (clean corr)) (env "{}"))
      (delivery_state w) es s.
Proof.
  assert (journey_registered.2 = None) as Hreg by (vm_compute; reflexivity).
  assert (journey_publish.1.1 = Ret (Ok (mkPublishResult "id-10" 10))) as Hr by (vm_compute; reflexivity).
  assert (value 1 (of_string "{}")) as Hv by (apply (val_empty Obj 0 []); constructor).
  split; [exact Hreg|]. split; [exact Hr|].
  assert (journey_registered = (journey_registered.1, None)) as Hpair.
  { transitivity (journey_registered.1, journey_registered.2); [apply surjective_pairing|by rewrite Hreg]. }
  assert (journey_publish = (Ret (Ok (mkPublishResult "id-10" 10)), journey_publish.1.2, journey_publish.2)) as Hrun.
  { rewrite <-Hr. apply run_eq. }
  destruct (published_events_reach_handlers (T := string) sample_stream sample_group (fun _ => journey_service) 0
    journey_publisher (Some 1%nat) service_start journey_registered.1 background sample_def content "{}"
    [WithCorrelationID "c-7"] false (mkServer 10 false [] ∅) journey_fleet (instance_at 0 journey_fleet)
    journey_publish.1.2 journey_publish.2 (mkPublishResult "id-10" 10) "{}" 1)
    as (f' & s' & entry & msg & w & o & s & es & corr & n & H);
    [reflexivity|reflexivity|apply journey_deployed, _| | | | | | | |exact Hpair| | |reflexivity|reflexivity|exact Hv
    |unfold max_depth; lia|exact Hrun|].
  - apply journey_reachable.
  - vm_compute. reflexivity.
  - vm_compute. reflexivity.
  - split; [vm_compute; reflexivity|]. vm_compute. lia.
  - apply journey_up.
  - vm_compute. reflexivity.
  - vm_compute. reflexivity.
  - reflexivity.
  - vm_compute. discriminate.
  - destruct H as (? & ? & ? & ? & ? & ? & ? & _ & Hcalls & Hby). exists f', s', entry, msg, w, o, s, es, corr, n.
    do 7 (split; [assumption|]). split; [exact Hcalls|exact Hby].
Defined.
